(* ===== verification/_CoqProject ===== *)
-Q . S2P
Prelude.v
GoInt.v
GoString.v
GoTime.v
GoDate.v
TarStrconv.v
GoIO.v
TarFormat.v
GoPath.v
TarCommon.v
TarSparse.v
TarReader.v
TarPax.v
TarStream.v
TarKeeps.v
TarSafety.v
TarSaver.v
TarWriter.v
TarFill.v
TarArchive.v
TarRoundtrip.v
TarRefused.v
GoBufio.v
ZipStruct.v
ZipNames.v
ZipTimes.v
ZipBuf.v
ZipReader.v
ZipOpen.v
ZipFile.v
ZipSafety.v
ZipRegister.v
ZipWriter.v
ZipArchive.v
ZipDirectory.v
ZipContents.v
ZipSink.v
ZipRoundtrip.v
PflateWriter.v
PflateSpec.v
PflateOrder.v
PflateMethods.v
PflateClose.v
PflateSystem.v
PflateRuns.v
PflateEnds.v
PflateLate.v
PflateFaults.v
ZipFlate.v
