(* ===== verification/Prelude.v ===== *)
(** * arkive: tar and zip archives and a parallel flate writer, verified

    The library models the Go packages [tar], [zip] and [pflate] under src/
    and proves what makes them correct. Definitions keep the names of the
    source. They are shallow: a function of the source is a function that
    evaluates, or, for the concurrent writer, a thread that takes atomic
    steps. This header describes the parts; every other file opens with a
    shorter comment of its own.

    ** Conventions

    A byte is an integer from 0 to 255, a string or a byte slice the list of
    its bytes. A fixed-width integer is a [Z] with the wrap-around written
    out ([uint16], [int64] and so on, GoInt.v). The [outcome] of a call is a
    normal return, an error, a panic, or [OutOfFuel] where a loop has been
    cut; the methods of an object take and return its state. An [io.Reader],
    [io.ReaderAt], [io.Writer], decompressor or compressor of the caller is an
    instance of a type class with any state ([IoReader], [IoReaderAt],
    [IoWriter], ...); what some theorems need of it is a second class with
    the laws ([IoStream]: it delivers a fixed byte sequence, in portions of
    any size; [ReaderAtData]; [IoSink]: it accepts everything; [IoContract]:
    the documented contract of io.Reader, and no more). This file has the
    byte sequences, outcomes and their laws and tactics that all parts share.

    ** Go's own library

    What the packages use of it is modelled from its documentation and
    source, in the files named Go*: GoInt (integers, byte order), GoString
    (strings, strconv, utf8), GoTime and GoDate (instants, the calendar,
    Unix times, time zones with the offset of time.Local as a parameter),
    GoIO (Reader, ReadFull, CopyN, ReadAll, Seek, Writer), GoPath (path.Clean
    and Base, os.FileMode as of Go 1.12, where os.ModeType includes
    ModeCharDevice) and GoBufio (SectionReader, bufio, crc32).

    ** Package tar

    - TarStrconv: tar/strconv.go, all of it. Round trips of octal, base-256,
      PAX times and PAX records, the bounds of the fields, and the record on
      which the parser panics.
    - TarFormat: tar/format.go. Blocks and the fields of their views, the
      checksum and its bounds, [GetFormat] inverse to [SetFormat].
    - TarCommon: tar/common.go and the Unix stat hook. [Header],
      [headerFileInfo], [FileInfoHeader], the round trip of file modes.
    - TarSparse: [regFileReader] and [sparseFileReader] of tar/reader.go.
      Which sparse maps are accepted; what reading a sparse file gives.
    - TarReader: the rest of tar/reader.go; a [Reader] over any io.Reader.
      TarPax proves what merging and parsing extended headers does, whatever
      the order of Go's map iteration. TarStream specifies the methods on a
      stream. TarKeeps: what every call of the methods keeps when each use of
      the underlying reader keeps it. TarSafety has the state invariant, and
      from it that no call panics, unless the bytes it has been delivered end
      in a record like the one above, that [Next] terminates and that errors
      stay.
    - TarSaver: checkpoints, [Save] and [Resume] of tar/reader.go. A resumed
      reader cannot be told from the one that was saved. TarRefused: the
      checkpoints behind sparse entries, of which the refused ones panic.
    - TarWriter: tar/writer.go over any io.Writer. TarFill and TarArchive
      describe the header blocks it fills and relate them to the reader's
      parsers; TarRoundtrip proves that a whole archive is read back.

    ** Package zip

    - ZipStruct: zip/struct.go, with [File] of zip/reader.go; ZipTimes proves
      the round trips of MS-DOS times and of file modes.
    - ZipNames: the encoding of names (zip/writer.go [detectUTF8],
      zip/normalize_name_encoding.go). The charset detector and the CP437 and
      Shift-JIS decoders are third-party code, hence parameters.
    - ZipBuf: [readBuf] and [writeBuf], which panic out of range.
    - ZipReader: zip/reader.go, the search for the directory, zip64, leading
      data, directory headers, local headers. ZipSafety: [NewReader] on any
      bytes returns a reader or an error.
    - ZipOpen: [File.Open] and [checksumReader]; contents that are read to
      the end have the recorded size and checksum.
    - ZipFile: [OpenReader] over a type class of file operations; a file stays
      open exactly when a reader on it is returned.
    - ZipRegister: zip/register.go. The pool of flate readers as a step
      relation refines one private reader for every handle.
    - ZipWriter: zip/writer.go; headers and file writers are objects of a
      store, since the writer, the caller and the directory share them.
    - ZipArchive, ZipDirectory, ZipContents, ZipSink, ZipRoundtrip: the bytes
      of an archive as the concatenation of its records, the reader on these
      bytes, the writer's methods as appending them, and the round trip of a
      whole archive behind any leading data ([NewReader] then [Open]).

    ** Package pflate

    - PflateWriter: pflate/pflate.go, all of it. The caller, one goroutine
      per block and the listener are threads over one shared state with its
      channels, error and wait group; [step] is any interleaving.
    - PflateSpec: the sequential specification (the blocks, their
      dictionaries, what an inflater makes of them) and the rules of a
      rely-guarantee logic for the caller. PflateOrder: the invariant of the
      goroutines. PflateMethods, PflateClose: each method against the
      specification. PflateSystem: [newFlateWriter] of zip/register.go, which
      makes the writer the zip package compresses with, and the measure of
      termination.
    - PflateRuns: in every interleaving a successful [Close] means that the
      blocks of the specification have reached the underlying writer in
      order; there is no deadlock when nothing fails; what [newFlateWriter]
      makes of any settings. PflateEnds: no run is infinite, and every call
      ends by the conditions of its loops, waits or panics. PflateLate: every
      run of calls behind a [Close]. PflateFaults: the schedules on which the
      code breaks its documentation.
    - ZipFlate: the two packages together. The sequential form of
      [newFlateWriter] keeps what the zip writer asks of a compressor, so
      deflated archives are read back, and every run of the parallel writer
      emits the same bytes.

    ** Fuel

    Loops that are not structural take fuel, and theorems show how much is
    enough: one iteration per byte that is left for [Next] of the tar reader
    ([Next_terminates]), one per byte for the PAX record loop, the sparse
    maps and the extra fields of zip; the loops of pflate start with the
    length of their buffer and a turn more, and [pflate_terminates] shows that
    they never use it up, whatever the calls. The
    loops of package io have no bound of their own, since a reader may return
    no bytes and no error for ever; there the fuel bounds the calls, and the
    theorems ask for progress where they conclude termination.

    ** Not modelled

    The names of the two variants of stat_atim (the same fields under other
    names). The hook testHookCloseSizeOffset and the tests. The flate compressor and
    decompressor, which are third-party: the zip theorems take any codec
    whose decompressor undoes its compressor, the pflate theorems any
    compressor ([Inflates] states what an inflater promises of its blocks).
    The zip writer's own steps are not interleaved with the goroutines of a
    compressor; ZipFlate shows that their order does not matter for what is
    written by the time a file is closed.
    Recycling of memory by sync.Pool is left out of pflate, where no object
    is used after it has entered a pool. In pflate, [make] panics beyond the
    limits of 64-bit platforms; that memory runs out below them is not
    modelled, nor are the limits of [make] in tar and zip, whose buffers are
    bounded by the input or by constants. *)
From Stdlib Require Export ZArith Lia.
From stdpp Require Export base list gmap strings.

#[global] Open Scope Z_scope.

(** ** Byte sequences

    A Go [byte] is an integer between 0 and 255; a [[]byte] or a [string]
    is the list of its bytes. *)
Abbreviation bytes := (list Z).

Definition is_byte (c : Z) : Prop := 0 <= c < 256.

Definition bytes_ok (b : bytes) : Prop := Forall is_byte b.

(** The bytes of an ASCII literal of the source. *)
Definition str (s : string) : bytes :=
  (fun a => Z.of_N (Ascii.N_of_ascii a)) <$> String.list_ascii_of_string s.
Arguments str : simpl never.

(** Go's [len]. *)
Definition len {A} (l : list A) : Z := Z.of_nat (length l).

(** [l[i:j]] for indices the code keeps in range. *)
Definition slice {A} (l : list A) (i j : Z) : list A :=
  take (Z.to_nat (j - i)) (drop (Z.to_nat i) l).

(** [copy(b[off:], s)] when [s] fits: the bytes of [b] from [off] on are
    replaced by those of [s]. *)
Definition splice {A} (off : nat) (s b : list A) : list A :=
  take off b ++ s ++ drop (off + length s) b.

(** ** Outcomes of a call

    [Ok] is a normal return, [Err] the return of a non-nil error, [Panic] a
    run-time panic and [OutOfFuel] a loop that was cut by the bound the model
    gives it. *)
Inductive error :=
  | EOF
  | ErrUnexpectedEOF
  | ErrHeader
  | ErrWriteTooLong
  | ErrFieldTooLong
  | ErrWriteAfterClose
  | errInvalidHeader
  | ErrMissed (n : Z)
  | ErrIO (code : Z)
  | ErrMsg (msg : string).

#[export] Instance error_eq_dec : EqDecision error.
Proof. solve_decision. Defined.

Inductive outcome (A : Type) :=
  | Ok (a : A)
  | Err (e : error)
  | Panic
  | OutOfFuel.
Arguments Ok {A} a.
Arguments Err {A} e.
Arguments Panic {A}.
Arguments OutOfFuel {A}.

#[export] Instance outcome_eq_dec {A} `{EqDecision A} : EqDecision (outcome A).
Proof. solve_decision. Defined.

Definition obind {A B} (o : outcome A) (f : A -> outcome B) : outcome B :=
  match o with
  | Ok a => f a
  | Err e => Err e
  | Panic => Panic
  | OutOfFuel => OutOfFuel
  end.

Definition of_option {A} (e : error) (o : option A) : outcome A :=
  match o with Some a => Ok a | None => Err e end.

(** ** The state monad of the methods

    A method that mutates its receiver is a function from the receiver's
    state; the state is returned on every path, the error paths included. *)
Definition M (S A : Type) : Type := S -> outcome A * S.

Definition ret {S A} (a : A) : M S A := fun s => (Ok a, s).
Definition throw {S A} (e : error) : M S A := fun s => (Err e, s).
Definition bind {S A B} (m : M S A) (f : A -> M S B) : M S B :=
  fun s => match m s with
           | (Ok a, s') => f a s'
           | (Err e, s') => (Err e, s')
           | (Panic, s') => (Panic, s')
           | (OutOfFuel, s') => (OutOfFuel, s')
           end.
Definition get {S} : M S S := fun s => (Ok s, s).
Definition put {S} (s : S) : M S unit := fun _ => (Ok tt, s).
Definition lift {S A} (o : outcome A) : M S A := fun s => (o, s).

(** Calling a method and looking at its error instead of returning it. *)
Definition attempt {S A} (m : M S A) : M S (A + error) :=
  fun s => match m s with
           | (Ok a, s') => (Ok (inl a), s')
           | (Err e, s') => (Ok (inr e), s')
           | (Panic, s') => (Panic, s')
           | (OutOfFuel, s') => (OutOfFuel, s')
           end.

Declare Scope go_scope.
Delimit Scope go_scope with go.
Notation "'let!' x ':=' m 'in' k" := (bind m (fun x => k))
  (at level 10, x pattern, m at level 100, k at level 200,
   format "'[v' 'let!'  x  ':='  m  'in' '/' k ']'") : go_scope.
Notation "'do!' m ';' k" := (bind m (fun _ => k))
  (at level 10, m at level 100, k at level 200,
   format "'[v' 'do!'  m ';' '/' k ']'") : go_scope.
Notation "'let?' x ':=' o 'in' k" := (obind o (fun x => k))
  (at level 10, x pattern, o at level 100, k at level 200,
   format "'[v' 'let?'  x  ':='  o  'in' '/' k ']'") : go_scope.

(** ** Tactics and hints *)
Create HintDb arkive.
Create Rewrite HintDb arkive.

(** Split every [if] and [match] scrutinee of the goal, and close the easy
    cases. *)
Ltac split_ifs :=
  repeat (case_match; simplify_eq/=; try done).

Ltac znat := unfold len in *; rewrite ?length_app, ?length_take, ?length_drop,
  ?length_replicate, ?length_reverse, ?length_fmap in *; lia.

(** ** Weakest preconditions of the methods

    [wp m Q s]: calling [m] in the state [s] gives an outcome and a state
    that satisfy [Q], whichever way the call ends. *)
Definition wp {S A} (m : M S A) (Q : outcome A -> S -> Prop) (s : S) : Prop :=
  Q (m s).1 (m s).2.

(** What a caller sees when the callee has ended without a result. *)
Definition onOk {S A B} (k : A -> S -> Prop) (Q : outcome B -> S -> Prop) : outcome A -> S -> Prop :=
  fun o s => match o with
             | Ok a => k a s
             | Err e => Q (Err e) s
             | Panic => Q Panic s
             | OutOfFuel => Q OutOfFuel s
             end.

Lemma wp_mono {S A} (m : M S A) (P Q : outcome A -> S -> Prop) s :
  wp m P s -> (forall o s', P o s' -> Q o s') -> wp m Q s.
Proof. unfold wp; auto. Qed.

Lemma wp_bind {S A B} (m : M S A) (f : A -> M S B) Q s :
  wp m (onOk (fun a => wp (f a) Q) Q) s -> wp (bind m f) Q s.
Proof. unfold wp, bind, onOk; destruct (m s) as [[] s']; done. Qed.

(** Sequencing with a specification of the first call. *)
Lemma wp_seq {S A B} (m : M S A) (f : A -> M S B) (P : outcome A -> S -> Prop) Q s :
  wp m P s -> (forall o s', P o s' -> onOk (fun a => wp (f a) Q) Q o s') -> wp (bind m f) Q s.
Proof. intros Hm Hk; apply wp_bind, (wp_mono _ P); done. Qed.

Lemma wp_ret {S A} (a : A) Q (s : S) : Q (Ok a) s -> wp (ret a) Q s.
Proof. done. Qed.
Lemma wp_throw {S A} e Q (s : S) : Q (Err e) s -> wp (throw (A := A) e) Q s.
Proof. done. Qed.
Lemma wp_get {S} Q (s : S) : Q (Ok s) s -> wp get Q s.
Proof. done. Qed.
Lemma wp_lift {S A} (o : outcome A) Q (s : S) : Q o s -> wp (lift o) Q s.
Proof. done. Qed.
#[export] Hint Resolve wp_ret wp_throw wp_get wp_lift : arkive.

(** A predicate of the state that a method keeps, however it ends. *)
Definition keeps {S A} (J : S -> Prop) (m : M S A) : Prop := forall s, J s -> J (m s).2.

Lemma keeps_bind {S A B} J (m : M S A) (f : A -> M S B) :
  keeps J m -> (forall a, keeps J (f a)) -> keeps J (bind m f).
Proof.
  intros Hm Hf s Hs; specialize (Hm s Hs); unfold bind; destruct (m s) as [[a| | |] s']; cbn in *; try done.
  by apply Hf.
Qed.

Lemma keeps_ret {S A} J (a : A) : keeps (S := S) J (ret a).
Proof. by intros s. Qed.
Lemma keeps_throw {S A} J e : keeps (S := S) J (throw (A := A) e).
Proof. by intros s. Qed.
Lemma keeps_lift {S A} J (o : outcome A) : keeps (S := S) J (lift o).
Proof. by intros s. Qed.
Lemma keeps_get {S} J : keeps (S := S) J get.
Proof. by intros s. Qed.
Lemma keeps_attempt {S A} J (m : M S A) : keeps J m -> keeps J (attempt m).
Proof. intros Hm s Hs; specialize (Hm s Hs); unfold attempt; by destruct (m s) as [[]]. Qed.
#[export] Hint Resolve keeps_ret keeps_throw keeps_lift keeps_get keeps_attempt : arkive.

(** ** Lists *)
Lemma len_nonneg {A} (l : list A) : 0 <= len l.
Proof. unfold len; lia. Qed.
#[export] Hint Resolve len_nonneg : arkive.

Lemma len_app {A} (l1 l2 : list A) : len (l1 ++ l2) = len l1 + len l2.
Proof. unfold len; rewrite length_app; lia. Qed.

Lemma len_fmap {A B} (f : A -> B) (l : list A) : len (f <$> l) = len l.
Proof. unfold len; by rewrite length_fmap. Qed.

Lemma len_cons {A} (x : A) l : len (x :: l) = Z.succ (len l).
Proof. unfold len; cbn [length]; lia. Qed.

Lemma len_nil {A} : len (@nil A) = 0.
Proof. done. Qed.

(** Lengths of concatenations, in the goal. *)
Ltac lens := rewrite ?len_app, ?len_cons, ?len_nil, ?len_fmap.

Lemma len_nil_inv {A} (l : list A) : len l = 0 -> l = [].
Proof. destruct l; [done | unfold len; simpl; lia]. Qed.

Lemma bytes_ok_app b1 b2 : bytes_ok (b1 ++ b2) <-> bytes_ok b1 /\ bytes_ok b2.
Proof. apply Forall_app. Qed.

Lemma bytes_ok_replicate n c : is_byte c -> bytes_ok (replicate n c).
Proof. intros; by apply Forall_replicate. Qed.

Lemma length_splice {A} off (s b : list A) :
  (off + length s <= length b)%nat -> length (splice off s b) = length b.
Proof.
  intros; unfold splice.
  rewrite !length_app, length_take, length_drop; lia.
Qed.

Lemma bytes_ok_splice off s b : bytes_ok s -> bytes_ok b -> bytes_ok (splice off s b).
Proof.
  intros; unfold splice; rewrite !bytes_ok_app; unfold bytes_ok in *.
  auto using Forall_take, Forall_drop.
Qed.

(** Reading back a field that was just written, and one that was not. *)
Lemma field_splice_eq {A} off (s b : list A) :
  (off <= length b)%nat -> take (length s) (drop off (splice off s b)) = s.
Proof.
  intros; unfold splice.
  rewrite drop_app_length' by (rewrite length_take; lia).
  by rewrite take_app_length.
Qed.

Lemma field_splice_before {A} o n off (s b : list A) :
  (o + n <= off)%nat -> (off <= length b)%nat ->
  take n (drop o (splice off s b)) = take n (drop o b).
Proof.
  intros; unfold splice.
  rewrite drop_app_le by (rewrite length_take; lia).
  rewrite take_app_le by (rewrite length_drop, length_take; lia).
  rewrite take_drop_commute, take_take, take_drop_commute.
  do 2 f_equal; lia.
Qed.

Lemma field_splice_after {A} o n off (s b : list A) :
  (off + length s <= o)%nat -> (off + length s <= length b)%nat ->
  take n (drop o (splice off s b)) = take n (drop o b).
Proof.
  intros; unfold splice.
  rewrite app_assoc, drop_app_ge by (rewrite length_app, length_take; lia).
  rewrite length_app, length_take, drop_drop.
  do 2 f_equal; lia.
Qed.

Lemma bytes_ok_filter (P : Z -> Prop) `{forall c, Decision (P c)} b :
  bytes_ok b -> bytes_ok (filter P b).
Proof.
  unfold bytes_ok; rewrite !Forall_forall; intros Hb c [_ Hc]%list_elem_of_filter; auto.
Qed.
