(* ===== verification/GoInt.v ===== *)
(** * Go's fixed-width integers

    A [uintN] or [intN] is a [Z] in its range; the conversions [uintN x] and
    [intN x] wrap around as Go's do. Also the value of a byte sequence read
    in big-endian and in little-endian order, with the round trips the tar
    and zip codecs share. *)
From S2P Require Import Prelude.

Definition wrapu (w x : Z) : Z := x mod 2 ^ w.
Definition wraps (w x : Z) : Z := (x + 2 ^ (w - 1)) mod 2 ^ w - 2 ^ (w - 1).

Definition uint8 : Z -> Z := wrapu 8.
Definition uint16 : Z -> Z := wrapu 16.
Definition uint32 : Z -> Z := wrapu 32.
Definition uint64 : Z -> Z := wrapu 64.
Definition int8 : Z -> Z := wraps 8.
Definition int64 : Z -> Z := wraps 64.
(** [int] on the 64-bit platforms the development fixes. *)
Definition goint : Z -> Z := int64.

Definition in_int64 (x : Z) : Prop := - 2 ^ 63 <= x < 2 ^ 63.
Definition in_uint (w x : Z) : Prop := 0 <= x < 2 ^ w.
Definition maxInt64 : Z := 2 ^ 63 - 1.

(** Big-endian value of a byte sequence, and the [n] low bytes of [x]. *)
Definition be_val (b : bytes) : Z := foldl (fun a c => a * 256 + c) 0 b.

Fixpoint le_bytes (n : nat) (x : Z) : bytes :=
  match n with
  | O => []
  | S n' => uint8 x :: le_bytes n' (Z.shiftr x 8)
  end.

Definition be_bytes (n : nat) (x : Z) : bytes := reverse (le_bytes n x).

Fixpoint le_val (b : bytes) : Z :=
  match b with
  | [] => 0
  | c :: b' => c + 256 * le_val b'
  end.

(** ** Wrap-around *)
Lemma wrapu_range w x : 0 <= w -> in_uint w (wrapu w x).
Proof. intros; apply Z.mod_pos_bound; lia. Qed.

Lemma wrapu_id w x : in_uint w x -> wrapu w x = x.
Proof. intros; by apply Z.mod_small. Qed.

Lemma wraps_id w x : 0 < w -> - 2 ^ (w - 1) <= x < 2 ^ (w - 1) -> wraps w x = x.
Proof.
  intros Hw Hx; unfold wraps.
  assert (2 ^ w = 2 * 2 ^ (w - 1)) by (rewrite <- Z.pow_succ_r by lia; f_equal; lia).
  rewrite Z.mod_small; lia.
Qed.

Lemma wraps_range w x : 0 < w -> - 2 ^ (w - 1) <= wraps w x < 2 ^ (w - 1).
Proof.
  intros Hw; unfold wraps.
  assert (2 ^ w = 2 * 2 ^ (w - 1)) by (rewrite <- Z.pow_succ_r by lia; f_equal; lia).
  pose proof (Z.mod_pos_bound (x + 2 ^ (w - 1)) (2 ^ w)); lia.
Qed.

Lemma int64_id x : in_int64 x -> int64 x = x.
Proof. intros; by apply wraps_id. Qed.

Lemma int64_range x : in_int64 (int64 x).
Proof. by apply (wraps_range 64). Qed.

Lemma uint8_byte x : is_byte (uint8 x).
Proof. by apply wrapu_range. Qed.

Lemma uint8_id c : is_byte c -> uint8 c = c.
Proof. intros; by apply wrapu_id. Qed.

Lemma uint8_eq x : uint8 x = x mod 256.
Proof. done. Qed.

(** A signed 64-bit integer survives the trip through [uint64]. *)
Lemma int64_uint64 x : in_int64 x -> int64 (uint64 x) = x.
Proof.
  unfold in_int64, int64, uint64, wraps, wrapu; intros Hx; simpl (64 - 1).
  rewrite Zplus_mod_idemp_l, Z.mod_small; lia.
Qed.

#[export] Hint Resolve uint8_byte int64_range : arkive.
#[export] Hint Rewrite uint8_eq : arkive.

(** ** Byte codecs *)
Lemma length_le_bytes n x : length (le_bytes n x) = n.
Proof. revert x; induction n; intros; simpl; auto. Qed.

Lemma le_bytes_ok n x : bytes_ok (le_bytes n x).
Proof. revert x; induction n; intros; constructor; [apply uint8_byte | apply IHn]. Qed.

Lemma length_be_bytes n x : length (be_bytes n x) = n.
Proof. unfold be_bytes; by rewrite length_reverse, length_le_bytes. Qed.

Lemma be_bytes_ok n x : bytes_ok (be_bytes n x).
Proof. apply Forall_reverse, le_bytes_ok. Qed.

Lemma shiftr8 x : Z.shiftr x 8 = x / 256.
Proof. by rewrite Z.shiftr_div_pow2. Qed.

Lemma pow256_S n : 256 ^ Z.of_nat (S n) = 256 * 256 ^ Z.of_nat n.
Proof. by rewrite Nat2Z.inj_succ, Z.pow_succ_r by lia. Qed.

Lemma pow256_pos n : 0 < 256 ^ Z.of_nat n.
Proof. apply Z.pow_pos_nonneg; lia. Qed.

Lemma le_val_le_bytes n x : le_val (le_bytes n x) = x mod 256 ^ Z.of_nat n.
Proof.
  revert x; induction n as [|n IH]; intros x; cbn [le_bytes le_val].
  - by rewrite Z.mod_1_r.
  - rewrite IH, pow256_S, shiftr8, uint8_eq.
    pose proof (pow256_pos n).
    rewrite Z.rem_mul_r by lia; lia.
Qed.

Lemma le_val_range b : bytes_ok b -> 0 <= le_val b < 256 ^ len b.
Proof.
  unfold len; induction 1 as [|c b Hc Hb IH]; [done|].
  cbn [le_val length]; rewrite pow256_S; unfold is_byte in Hc; lia.
Qed.

Lemma le_bytes_le_val b : bytes_ok b -> le_bytes (length b) (le_val b) = b.
Proof.
  induction 1 as [|c b Hc Hb IH]; [done|].
  cbn [le_val length le_bytes]; rewrite shiftr8.
  replace (c + 256 * le_val b) with (c + le_val b * 256) by lia.
  rewrite uint8_eq, Z.mod_add, Z.div_add by lia.
  unfold is_byte in Hc; rewrite Z.mod_small, Z.div_small by lia.
  by rewrite Z.add_0_l, IH.
Qed.

Lemma be_val_snoc b c : be_val (b ++ [c]) = be_val b * 256 + c.
Proof. unfold be_val; by rewrite foldl_app. Qed.

Lemma be_val_reverse b : be_val (reverse b) = le_val b.
Proof.
  induction b as [|c b IH]; [done|].
  rewrite reverse_cons, be_val_snoc, IH; cbn [le_val]; lia.
Qed.

Lemma be_val_be_bytes n x : be_val (be_bytes n x) = x mod 256 ^ Z.of_nat n.
Proof. unfold be_bytes; by rewrite be_val_reverse, le_val_le_bytes. Qed.

Lemma be_val_range b : bytes_ok b -> 0 <= be_val b < 256 ^ len b.
Proof.
  intros Hb; rewrite <- (reverse_involutive b), be_val_reverse.
  replace (len (reverse (reverse b))) with (len (reverse b)) by (unfold len; by rewrite !length_reverse).
  by apply le_val_range, Forall_reverse.
Qed.

Lemma foldl_be_val a b :
  foldl (fun a c => a * 256 + c) a b = a * 256 ^ len b + be_val b.
Proof.
  unfold be_val; induction b as [|c b IH] using rev_ind.
  - unfold len; simpl; lia.
  - rewrite !foldl_app, IH, len_app; cbn.
    replace (len [c]) with 1 by done.
    rewrite Z.pow_add_r by (unfold len; lia); lia.
Qed.

(** The most significant byte of a number that fits in [n] bytes. *)
Lemma be_bytes_S n x :
  be_bytes (S n) x = uint8 (Z.shiftr x (8 * Z.of_nat n)) :: be_bytes n x.
Proof.
  unfold be_bytes; revert x; induction n as [|n IH]; intros x.
  - by rewrite Z.shiftr_0_r.
  - change (le_bytes (S (S n)) x) with (uint8 x :: le_bytes (S n) (Z.shiftr x 8)).
    rewrite reverse_cons, IH; cbn [app]; f_equal.
    + f_equal; rewrite Z.shiftr_shiftr by lia; f_equal; lia.
    + by rewrite <- reverse_cons.
Qed.

(** ** Bitwise bounds *)
Lemma land_le_r a b : 0 <= a -> 0 <= b -> 0 <= Z.land a b <= b.
Proof.
  intros; pose proof (Z.add_lor_land (Z.ldiff b a) (Z.land b a)) as E.
  rewrite Z.lor_ldiff_and in E.
  replace (Z.land (Z.ldiff b a) (Z.land b a)) with 0 in E.
  - rewrite (Z.land_comm a b).
    assert (0 <= Z.ldiff b a) by (apply Z.ldiff_nonneg; auto).
    assert (0 <= Z.land b a) by (apply Z.land_nonneg; auto); lia.
  - symmetry; apply Z.bits_inj'; intros i Hi.
    rewrite !Z.land_spec, Z.ldiff_spec, Z.bits_0.
    by destruct (Z.testbit b i), (Z.testbit a i).
Qed.

Lemma lor_ge_l a b : 0 <= a -> 0 <= b -> a <= Z.lor a b.
Proof. intros; pose proof (Z.add_lor_land a b); pose proof (land_le_r a b); lia. Qed.

Lemma land_nonneg_r a b : 0 <= b -> 0 <= Z.land a b.
Proof. intros; apply Z.land_nonneg; auto. Qed.

Lemma shiftl_nonneg a n : 0 <= a -> 0 <= Z.shiftl a n.
Proof. by rewrite Z.shiftl_nonneg. Qed.

#[export] Hint Resolve land_nonneg_r shiftl_nonneg : arkive.

(** A decidable property of all the integers of a range, by computation. *)
Lemma range_forallb (P : Z -> bool) lo n x :
  forallb P (seqZ lo n) = true -> lo <= x < lo + n -> P x = true.
Proof.
  intros H Hx; rewrite forallb_forall in H; apply H.
  apply list_elem_of_In, elem_of_seqZ; lia.
Qed.

Lemma lor_disjoint_add a b n :
  0 <= n -> 0 <= b < 2 ^ n -> Z.lor (Z.shiftl a n) b = Z.shiftl a n + b.
Proof.
  intros Hn Hb; rewrite <- Z.add_lor_land.
  assert (Z.land (Z.shiftl a n) b = 0) as ->; [|lia].
  apply Z.bits_inj'; intros i Hi; rewrite Z.land_spec, Z.bits_0.
  destruct (Z.lt_ge_cases i n).
  - by rewrite Z.shiftl_spec_low by lia.
  - rewrite <- (Z.mod_small b (2 ^ n)) by lia.
    by rewrite Z.mod_pow2_bits_high, andb_false_r by lia.
Qed.

Lemma lor_0x80_byte c : is_byte c -> is_byte (Z.lor c 0x80).
Proof.
  unfold is_byte; intros Hc.
  pose proof (range_forallb (fun c => (0 <=? Z.lor c 0x80) && (Z.lor c 0x80 <? 256)) 0 256 c eq_refl ltac:(lia)) as H.
  cbv beta in H; apply andb_true_iff in H as [H1%Z.leb_le H2%Z.ltb_lt]; lia.
Qed.
