(* ===== verification/GoString.v ===== *)
(** * The parts of Go's strings, strconv and utf8 packages the source uses

    Strings are byte lists. [numError] is the error of the strconv parsers;
    the loops are those of the library, on wrapped [uint64] arithmetic. *)
From S2P Require Import Prelude GoInt.

(** ** strings and bytes *)
Fixpoint IndexByte (s : bytes) (c : Z) : Z :=
  match s with
  | [] => -1
  | x :: s' => if x =? c then 0
               else let r := IndexByte s' c in if r <? 0 then -1 else r + 1
  end.

(** [strings.LastIndex] for a one-byte separator. *)
Fixpoint LastIndexByte (s : bytes) (c : Z) : Z :=
  match s with
  | [] => -1
  | x :: s' => let r := LastIndexByte s' c in
               if 0 <=? r then r + 1 else if x =? c then 0 else -1
  end.

Fixpoint TrimLeft (s cutset : bytes) : bytes :=
  match s with
  | [] => []
  | x :: s' => if bool_decide (x ∈ cutset) then TrimLeft s' cutset else s
  end.

(** [bytes.Trim]/[strings.Trim] for an ASCII cutset. *)
Definition Trim (s cutset : bytes) : bytes :=
  reverse (TrimLeft (reverse (TrimLeft s cutset)) cutset).

Definition Contains1 (s : bytes) (c : Z) : bool := bool_decide (c ∈ s).

Definition HasPrefix (s prefix : bytes) : bool :=
  bool_decide (take (length prefix) s = prefix).

(** [strings.Split] for a one-byte separator. *)
Fixpoint Split (s : bytes) (sep : Z) : list bytes :=
  match s with
  | [] => [[]]
  | x :: s' =>
      if x =? sep then [] :: Split s' sep
      else match Split s' sep with
           | [] => [[x]]
           | w :: ws => (x :: w) :: ws
           end
  end.

Fixpoint Join (l : list bytes) (sep : bytes) : bytes :=
  match l with
  | [] => []
  | [w] => w
  | w :: ws => w ++ sep ++ Join ws sep
  end.

Definition Repeat (s : bytes) (n : Z) : bytes := mjoin (replicate (Z.to_nat n) s).

(** ** strconv *)
Inductive numError := ErrSyntax | ErrRange.

#[export] Instance numError_eq_dec : EqDecision numError.
Proof. solve_decision. Defined.

Definition digitVal (c : Z) : option Z :=
  if (48 <=? c) && (c <=? 57) then Some (c - 48)
  else if (97 <=? c) && (c <=? 122) then Some (c - 97 + 10)
  else if (65 <=? c) && (c <=? 90) then Some (c - 65 + 10)
  else None.

Fixpoint parseUintLoop (base maxVal n : Z) (s : bytes) : Z * option numError :=
  match s with
  | [] => (n, None)
  | c :: s' =>
      match digitVal c with
      | None => (0, Some ErrSyntax)
      | Some d =>
          if base <=? d then (0, Some ErrSyntax)
          else if (2 ^ 64 - 1) / base + 1 <=? n then (maxVal, Some ErrRange)
          else let m := uint64 (n * base) in
               let n1 := uint64 (m + d) in
               if (n1 <? m) || (maxVal <? n1) then (maxVal, Some ErrRange)
               else parseUintLoop base maxVal n1 s'
      end
  end.

(** [strconv.ParseUint(s, base, 64)]. *)
Definition ParseUint (s : bytes) (base : Z) : Z * option numError :=
  match s with
  | [] => (0, Some ErrSyntax)
  | _ => parseUintLoop base (2 ^ 64 - 1) 0 s
  end.

(** [strconv.ParseInt(s, base, 64)], also [bitSize] 0 on a 64-bit platform. *)
Definition ParseInt (s : bytes) (base : Z) : Z * option numError :=
  match s with
  | [] => (0, Some ErrSyntax)
  | c :: s' =>
      let neg := c =? 45 in
      let body := if (c =? 43) || (c =? 45) then s' else s in
      let '(un, err) := ParseUint body base in
      match err with
      | Some ErrSyntax => (0, err)
      | _ =>
          if negb neg && (2 ^ 63 <=? un) then (2 ^ 63 - 1, Some ErrRange)
          else if neg && (2 ^ 63 <? un) then (- 2 ^ 63, Some ErrRange)
          else (int64 (if neg then - int64 un else int64 un), None)
      end
  end.

Fixpoint formatDigits (fuel : nat) (base x : Z) (acc : bytes) : bytes :=
  match fuel with
  | O => acc
  | S f => let acc' := (48 + x mod base) :: acc in
           if x <? base then acc' else formatDigits f base (x / base) acc'
  end.

(** Base at most ten. The digit count of [x] is at most its bit count. *)
Definition FormatUint (x base : Z) : bytes :=
  formatDigits (S (Z.to_nat (Z.log2 x))) base x [].

Definition FormatInt (x base : Z) : bytes :=
  if x <? 0 then 45 :: FormatUint (- x) base else FormatUint x base.

Definition Itoa (x : Z) : bytes := FormatInt x 10.

(** ** utf8 *)
Definition RuneError : Z := 0xFFFD.

Definition in_range (lo hi c : Z) : bool := (lo <=? c) && (c <=? hi).

(** Range of the second byte by leading byte, and the length of the
    sequence: the tables [first] and [acceptRanges] of the utf8 package. *)
Definition utf8_first (b0 : Z) : option (nat * Z * Z) :=
  if in_range 0xC2 0xDF b0 then Some (2%nat, 0x80, 0xBF)
  else if b0 =? 0xE0 then Some (3%nat, 0xA0, 0xBF)
  else if in_range 0xE1 0xEC b0 || in_range 0xEE 0xEF b0 then Some (3%nat, 0x80, 0xBF)
  else if b0 =? 0xED then Some (3%nat, 0x80, 0x9F)
  else if b0 =? 0xF0 then Some (4%nat, 0x90, 0xBF)
  else if in_range 0xF1 0xF3 b0 then Some (4%nat, 0x80, 0xBF)
  else if b0 =? 0xF4 then Some (4%nat, 0x80, 0x8F)
  else None.

Definition rune2 (b0 b1 : Z) : Z := Z.lor (Z.shiftl (Z.land b0 0x1F) 6) (Z.land b1 0x3F).
Definition rune3 (b0 b1 b2 : Z) : Z :=
  Z.lor (Z.lor (Z.shiftl (Z.land b0 0x0F) 12) (Z.shiftl (Z.land b1 0x3F) 6)) (Z.land b2 0x3F).
Definition rune4 (b0 b1 b2 b3 : Z) : Z :=
  Z.lor (Z.lor (Z.shiftl (Z.land b0 0x07) 18) (Z.shiftl (Z.land b1 0x3F) 12))
        (Z.lor (Z.shiftl (Z.land b2 0x3F) 6) (Z.land b3 0x3F)).

(** [utf8.DecodeRuneInString]. *)
Definition DecodeRune (s : bytes) : Z * nat :=
  match s with
  | [] => (RuneError, 0%nat)
  | b0 :: s1 =>
      if b0 <? 0x80 then (b0, 1%nat)
      else match utf8_first b0, s1 with
           | Some (2%nat, lo, hi), b1 :: _ =>
               if in_range lo hi b1 then (rune2 b0 b1, 2%nat) else (RuneError, 1%nat)
           | Some (3%nat, lo, hi), b1 :: b2 :: _ =>
               if in_range lo hi b1 && in_range 0x80 0xBF b2
               then (rune3 b0 b1 b2, 3%nat) else (RuneError, 1%nat)
           | Some (4%nat, lo, hi), b1 :: b2 :: b3 :: _ =>
               if in_range lo hi b1 && in_range 0x80 0xBF b2 && in_range 0x80 0xBF b3
               then (rune4 b0 b1 b2 b3, 4%nat) else (RuneError, 1%nat)
           | _, _ => (RuneError, 1%nat)
           end
  end.

(** The runes and widths a [for range] over the string visits; every step
    consumes at least one byte, so the length of the string is enough fuel. *)
Fixpoint runes_fuel (fuel : nat) (s : bytes) : list (Z * nat) :=
  match fuel, s with
  | O, _ => []
  | _, [] => []
  | S f, _ => let '(r, w) := DecodeRune s in (r, w) :: runes_fuel f (drop w s)
  end.

Definition runes (s : bytes) : list (Z * nat) := runes_fuel (length s) s.

Definition ValidRune (r : Z) : bool :=
  ((0 <=? r) && (r <? 0xD800)) || ((0xDFFF <? r) && (r <=? 0x10FFFF)).

(** [utf8.ValidString]: no byte decodes to an error of width one. *)
Definition ValidString (s : bytes) : bool :=
  forallb (fun '(r, w) => negb ((r =? RuneError) && (w =? 1)%nat)) (runes s).

(** ** Properties of the string functions *)
Lemma IndexByte_spec s c :
  (IndexByte s c = -1 /\ (c ∉ s)) \/
  exists s1 s2, s = s1 ++ c :: s2 /\ (c ∉ s1) /\ IndexByte s c = len s1.
Proof.
  induction s as [|x s IH]; cbn [IndexByte].
  - left; split; [done | apply not_elem_of_nil].
  - destruct (Z.eqb_spec x c) as [->|Hx].
    + right; exists [], s; split; [done|]; split; [apply not_elem_of_nil | done].
    + destruct IH as [[-> Hn] | (s1 & s2 & -> & Hn & ->)].
      * left; split; [done | rewrite not_elem_of_cons; auto].
      * right; exists (x :: s1), s2; split; [done|]; split; [rewrite not_elem_of_cons; auto|].
        unfold len; simpl length.
        destruct (Z.ltb_spec (Z.of_nat (length s1)) 0); lia.
Qed.

Lemma IndexByte_first s1 s2 c : c ∉ s1 -> IndexByte (s1 ++ c :: s2) c = len s1.
Proof.
  induction s1 as [|x s1 IH]; intros Hn; cbn [IndexByte app].
  - by rewrite Z.eqb_refl.
  - apply not_elem_of_cons in Hn as [Hx Hn].
    destruct (Z.eqb_spec x c); [congruence|].
    rewrite (IH Hn); unfold len; simpl length.
    destruct (Z.ltb_spec (Z.of_nat (length s1)) 0); lia.
Qed.

Lemma LastIndexByte_spec s c :
  (LastIndexByte s c = -1 /\ (c ∉ s)) \/
  exists s1 s2, s = s1 ++ c :: s2 /\ (c ∉ s2) /\ LastIndexByte s c = len s1.
Proof.
  induction s as [|x s IH]; cbn [LastIndexByte].
  - left; split; [done | apply not_elem_of_nil].
  - destruct IH as [[-> Hn] | (s1 & s2 & -> & Hn & ->)]; simpl.
    + destruct (Z.eqb_spec x c) as [->|Hx].
      * right; exists [], s; done.
      * left; split; [done | rewrite not_elem_of_cons; auto].
    + right; exists (x :: s1), s2; split; [done|]; split; [done|].
      unfold len; simpl length.
      destruct (Z.leb_spec 0 (Z.of_nat (length s1))); lia.
Qed.

Lemma TrimLeft_cons_keep x s cut : x ∉ cut -> TrimLeft (x :: s) cut = x :: s.
Proof. intros; cbn; by rewrite bool_decide_eq_false_2. Qed.

Lemma TrimLeft_app_drop p s cut :
  Forall (.∈ cut) p -> TrimLeft (p ++ s) cut = TrimLeft s cut.
Proof.
  induction 1; [done|]; cbn; by rewrite bool_decide_eq_true_2.
Qed.

(** Trimming leaves a string whose bytes are all outside the cutset alone,
    and drops padding on both sides of it. *)
Lemma Trim_padded p s q cut :
  Forall (.∈ cut) p -> Forall (.∈ cut) q -> Forall (.∉ cut) s ->
  Trim (p ++ s ++ q) cut = s.
Proof.
  intros Hp Hq Hs; unfold Trim.
  rewrite TrimLeft_app_drop by done.
  destruct s as [|x s].
  - simpl; rewrite <- (app_nil_r q), TrimLeft_app_drop; done.
  - cbn [app]; apply Forall_cons_1 in Hs as Hs'; destruct Hs' as [Hx _].
    rewrite TrimLeft_cons_keep by done.
    rewrite app_comm_cons, reverse_app, TrimLeft_app_drop by by apply Forall_reverse.
    assert (Forall (.∉ cut) (reverse (x :: s))) as Hr by by apply Forall_reverse.
    destruct (reverse (x :: s)) as [|y r] eqn:E.
    { apply (f_equal length) in E; rewrite length_reverse in E; done. }
    rewrite TrimLeft_cons_keep by by apply Forall_cons_1 in Hr as [? _].
    by rewrite <- E, reverse_involutive.
Qed.

(** ** Decimal and octal numbers *)

(** A digit character of a base up to ten, and the value of a digit string. *)
Definition is_digit (base c : Z) : Prop := 48 <= c < 48 + base.

Definition dval (base : Z) (s : bytes) : Z := foldl (fun a c => a * base + (c - 48)) 0 s.

Lemma digitVal_digit base c : base <= 10 -> is_digit base c -> digitVal c = Some (c - 48).
Proof. unfold is_digit, digitVal; intros; by rewrite !(proj2 (Z.leb_le _ _)) by lia. Qed.

Lemma digitVal_inv base c d :
  base <= 10 -> digitVal c = Some d -> d < base -> is_digit base c /\ d = c - 48.
Proof. unfold is_digit, digitVal; intros; repeat case_match; simplify_eq; lia. Qed.

Lemma foldl_dval base a s :
  foldl (fun a c => a * base + (c - 48)) a s = a * base ^ len s + dval base s.
Proof.
  unfold dval; induction s as [|c s IH] using rev_ind.
  - unfold len; simpl; lia.
  - rewrite !foldl_app, IH, len_app; cbn.
    change (len [c]) with 1; rewrite Z.pow_add_r by (unfold len; lia); lia.
Qed.

Lemma dval_cons base c s : dval base (c :: s) = (c - 48) * base ^ len s + dval base s.
Proof. unfold dval at 1; cbn; rewrite foldl_dval; lia. Qed.

Lemma dval_snoc base s c : dval base (s ++ [c]) = dval base s * base + (c - 48).
Proof. unfold dval; by rewrite foldl_app. Qed.

Lemma dval_range base s :
  2 <= base -> Forall (is_digit base) s -> 0 <= dval base s < base ^ len s.
Proof.
  intros Hb; induction 1 as [|c s Hc Hs IH]; [done|].
  rewrite dval_cons; unfold len in *; cbn [length].
  rewrite Nat2Z.inj_succ, Z.pow_succ_r by lia; unfold is_digit in Hc.
  assert (0 <= (c - 48) * base ^ Z.of_nat (length s)) by nia; nia.
Qed.

Lemma dval_replicate0 base n s : dval base (replicate n 48 ++ s) = dval base s.
Proof.
  unfold dval; rewrite foldl_app; f_equal.
  induction n as [|n IH]; [done|]; cbn; by rewrite Z.mul_0_l.
Qed.

Lemma parseUintLoop_digits base n s :
  2 <= base <= 10 -> in_uint 64 n -> Forall (is_digit base) s ->
  parseUintLoop base (2 ^ 64 - 1) n s =
    let v := n * base ^ len s + dval base s in
    if v <? 2 ^ 64 then (v, None) else (2 ^ 64 - 1, Some ErrRange).
Proof.
  intros Hb Hn Hs; revert n Hn; induction Hs as [|c s Hc Hs IH]; intros n Hn; cbn zeta.
  - unfold in_uint, len, dval in *; cbn [parseUintLoop length foldl].
    rewrite Z.pow_0_r, Z.mul_1_r, Z.add_0_r; by rewrite (proj2 (Z.ltb_lt _ _)) by lia.
  - cbn [parseUintLoop]; rewrite (digitVal_digit base) by (done || lia).
    rewrite dval_cons.
    replace (len (c :: s)) with (Z.succ (len s)) by (unfold len; cbn [length]; lia).
    rewrite Z.pow_succ_r by (unfold len; lia).
    assert (1 <= base ^ len s) by (pose proof (Z.pow_pos_nonneg base (len s)); unfold len in *; lia).
    pose proof (dval_range base s ltac:(lia) Hs); unfold is_digit in Hc.
    replace (n * (base * base ^ len s) + ((c - 48) * base ^ len s + dval base s))
      with ((n * base + (c - 48)) * base ^ len s + dval base s) by lia.
    assert (n * base <= (n * base + (c - 48)) * base ^ len s) by (unfold in_uint in Hn; nia).
    pose proof (Z.div_mod (2 ^ 64 - 1) base ltac:(lia)).
    pose proof (Z.mod_pos_bound (2 ^ 64 - 1) base ltac:(lia)).
    rewrite (proj2 (Z.leb_gt base (c - 48))) by lia.
    destruct (Z.leb_spec ((2 ^ 64 - 1) / base + 1) n).
    { assert (2 ^ 64 <= n * base) by nia.
      rewrite (proj2 (Z.ltb_ge _ (2 ^ 64))); [done | lia]. }
    assert (uint64 (n * base) = n * base) as ->
      by (apply wrapu_id; unfold in_uint in *; nia).
    unfold uint64, wrapu.
    destruct (Z.lt_ge_cases (n * base + (c - 48)) (2 ^ 64)) as [Hlt|Hge].
    + rewrite Z.mod_small by (unfold in_uint in *; nia).
      rewrite (proj2 (Z.ltb_ge _ (n * base))), (proj2 (Z.ltb_ge (2 ^ 64 - 1) _)) by lia.
      cbn [orb]; rewrite IH by (unfold in_uint in *; nia); done.
    + replace (n * base + (c - 48)) with (n * base + (c - 48) - 2 ^ 64 + 1 * 2 ^ 64) by lia.
      rewrite Z.mod_add, Z.mod_small by (unfold in_uint in *; nia).
      rewrite (proj2 (Z.ltb_lt _ (n * base))) by lia; cbn [orb].
      rewrite (proj2 (Z.ltb_ge _ (2 ^ 64))); [done | nia].
Qed.

Lemma parseUintLoop_ok_digits base M n s v :
  base <= 10 -> parseUintLoop base M n s = (v, None) -> Forall (is_digit base) s.
Proof.
  intros Hb; revert n; induction s as [|c s IH]; intros n H; [constructor|].
  cbn [parseUintLoop] in H; repeat case_match; simplify_eq.
  constructor; [|eauto].
  eapply digitVal_inv; [done | eassumption | by apply Z.leb_gt].
Qed.

(** What [ParseUint] accepts, and what it returns. *)
Lemma ParseUint_digits base s :
  2 <= base <= 10 -> s <> [] -> Forall (is_digit base) s ->
  ParseUint s base =
    if dval base s <? 2 ^ 64 then (dval base s, None) else (2 ^ 64 - 1, Some ErrRange).
Proof.
  intros; unfold ParseUint; destruct s; [done|].
  rewrite parseUintLoop_digits by done; by rewrite Z.mul_0_l.
Qed.

Lemma ParseUint_ok_inv base s v :
  2 <= base <= 10 -> ParseUint s base = (v, None) ->
  s <> [] /\ Forall (is_digit base) s /\ v = dval base s /\ 0 <= v < 2 ^ 64.
Proof.
  intros Hb H.
  assert (s <> []) by (destruct s; [discriminate | done]).
  assert (Forall (is_digit base) s).
  { unfold ParseUint in H; destruct s; [done|].
    eapply parseUintLoop_ok_digits; [|done]; lia. }
  pose proof (dval_range base s ltac:(lia) ltac:(done)).
  rewrite ParseUint_digits in H by done.
  destruct (Z.ltb_spec (dval base s) (2 ^ 64)); simplify_eq; split_and!; done || lia.
Qed.

Lemma digits_no_sign base s : 2 <= base <= 10 -> Forall (is_digit base) s ->
  match s with c :: _ => c <> 45 /\ c <> 43 | [] => True end.
Proof. intros ?; destruct 1 as [|c s Hc]; [done|]; unfold is_digit in Hc; lia. Qed.

Lemma ParseInt_digits base s :
  2 <= base <= 10 -> s <> [] -> Forall (is_digit base) s -> dval base s < 2 ^ 63 ->
  ParseInt s base = (dval base s, None).
Proof.
  intros Hb Hs Hd Hv; pose proof (digits_no_sign base s Hb Hd) as Hc.
  pose proof (dval_range base s ltac:(lia) Hd) as Hr.
  unfold ParseInt; destruct s as [|c s]; [done|].
  rewrite (proj2 (Z.eqb_neq c 45)), (proj2 (Z.eqb_neq c 43)) by lia; cbn [orb negb andb].
  rewrite ParseUint_digits by done.
  rewrite (proj2 (Z.ltb_lt _ (2 ^ 64))) by lia.
  rewrite (proj2 (Z.leb_gt (2 ^ 63) _)) by lia.
  by rewrite !int64_id by (unfold in_int64; rewrite ?int64_id; unfold in_int64; lia).
Qed.

Lemma ParseInt_range s base v e : ParseInt s base = (v, e) -> in_int64 v.
Proof.
  unfold ParseInt, in_int64; intros H.
  destruct s as [|c s]; [by simplify_eq|].
  destruct (ParseUint _ _) as [un [[]|]];
    repeat case_match; simplify_eq; try lia; try (apply int64_range).
Qed.

(** ** Formatting *)
Lemma formatDigits_app fuel base x acc :
  formatDigits fuel base x acc = formatDigits fuel base x [] ++ acc.
Proof.
  revert x acc; induction fuel as [|f IH]; intros x acc; [done|].
  cbn [formatDigits]; destruct (x <? base); [done|].
  rewrite IH, (IH _ [_]), <- app_assoc; done.
Qed.

Lemma formatDigits_spec fuel base x :
  2 <= base <= 10 -> 0 <= x < 2 ^ Z.of_nat fuel -> (0 < fuel)%nat ->
  let s := formatDigits fuel base x [] in
  Forall (is_digit base) s /\ dval base s = x /\ s <> [] /\
  (0 < x -> base ^ (len s - 1) <= x) /\ (x = 0 -> s = [48]).
Proof.
  intros Hb; revert x; induction fuel as [|f IH]; intros x Hx Hf; [lia|].
  cbn [formatDigits]; cbn zeta.
  pose proof (Z.mod_pos_bound x base ltac:(lia)); pose proof (Z.div_mod x base ltac:(lia)).
  destruct (Z.ltb_spec x base) as [Hlt|Hge].
  - rewrite Z.mod_small by lia; unfold len; cbn [length].
    split; [|split; [|split; [|split]]].
    + constructor; [unfold is_digit; lia | constructor].
    + unfold dval; cbn; lia.
    + done.
    + intros; change (Z.of_nat 1 - 1) with 0; rewrite Z.pow_0_r; lia.
    + by intros ->.
  - rewrite Nat2Z.inj_succ, Z.pow_succ_r in Hx by lia.
    assert (0 < x / base < 2 ^ Z.of_nat f).
    { split; [apply Z.div_str_pos; lia | apply Z.div_lt_upper_bound; nia]. }
    assert (0 < f)%nat by (destruct f; [simpl in *; lia | lia]).
    rewrite formatDigits_app.
    destruct (IH (x / base) ltac:(lia) ltac:(done)) as (Hd & Hv & Hn & Hl & _).
    split; [|split; [|split; [|split]]].
    + apply Forall_app; split; [done|]; constructor; [unfold is_digit; lia | constructor].
    + rewrite dval_snoc, Hv; lia.
    + by destruct (formatDigits f base (x / base) []).
    + intros _; rewrite len_app; change (len [48 + x mod base]) with 1.
      specialize (Hl ltac:(lia)).
      set (l := len (formatDigits f base (x / base) [])) in *.
      assert (1 <= l) by (unfold l, len; destruct (formatDigits f base (x / base) []); [done | simpl; lia]).
      replace (l + 1 - 1) with (Z.succ (l - 1)) by lia; rewrite Z.pow_succ_r by lia; nia.
    + lia.
Qed.

Lemma FormatUint_spec base x :
  2 <= base <= 10 -> 0 <= x ->
  let s := FormatUint x base in
  Forall (is_digit base) s /\ dval base s = x /\ s <> [] /\
  (0 < x -> base ^ (len s - 1) <= x) /\ (x = 0 -> s = [48]).
Proof.
  intros Hb Hx; apply formatDigits_spec; [done | | lia].
  rewrite Nat2Z.inj_succ, Z2Nat.id by apply Z.log2_nonneg.
  destruct (Z.eq_dec x 0) as [->|]; [done|].
  pose proof (Z.log2_spec x); lia.
Qed.

(** The number of digits: [base^(n-1) <= x < base^n] for [n = len s]. *)
Lemma FormatUint_len base x n :
  2 <= base <= 10 -> 1 <= n -> 0 <= x < base ^ n -> 1 <= len (FormatUint x base) <= n.
Proof.
  intros Hb Hn Hx; destruct (FormatUint_spec base x Hb) as (_ & _ & Hne & Hl & H0); [lia|].
  split; [unfold len; destruct (FormatUint x base); [done | simpl; lia]|].
  destruct (Z.eq_dec x 0) as [->|]; [rewrite H0 by done; done|].
  assert (base ^ (len (FormatUint x base) - 1) < base ^ n) as Hp by lia.
  apply Z.pow_lt_mono_r_iff in Hp; lia.
Qed.

Lemma FormatUint_len_lower base x n :
  2 <= base <= 10 -> 0 <= n -> base ^ n <= x -> n < len (FormatUint x base).
Proof.
  intros Hb Hn Hx; assert (0 < base ^ n) by (apply Z.pow_pos_nonneg; lia).
  destruct (FormatUint_spec base x Hb) as (Hd & Hv & _); [lia|].
  pose proof (dval_range base _ ltac:(lia) Hd) as Hr; rewrite Hv in Hr.
  assert (base ^ n < base ^ len (FormatUint x base)) as Hp by lia.
  apply Z.pow_lt_mono_r_iff in Hp; [done | lia | unfold len; lia].
Qed.

Lemma FormatInt_nonneg x base : 0 <= x -> FormatInt x base = FormatUint x base.
Proof. intros; unfold FormatInt; by rewrite (proj2 (Z.ltb_ge x 0)) by lia. Qed.

Lemma is_digit_byte base c : base <= 10 -> is_digit base c -> is_byte c.
Proof. unfold is_digit, is_byte; lia. Qed.

(** The decimal text of a 64-bit integer parses back to it. *)
Lemma ParseInt_Itoa x : 0 <= x < 2 ^ 63 -> ParseInt (Itoa x) 10 = (x, None).
Proof.
  intros Hx; unfold Itoa; rewrite FormatInt_nonneg by lia.
  destruct (FormatUint_spec 10 x) as (Hd & Hv & Hn & _); [lia..|].
  rewrite ParseInt_digits by (done || lia); by rewrite Hv.
Qed.

(** ** UTF-8 *)
Lemma in_range_spec lo hi c : in_range lo hi c = true <-> lo <= c <= hi.
Proof. unfold in_range; rewrite andb_true_iff, !Z.leb_le; done. Qed.

Lemma utf8_first_inv b0 n lo hi :
  utf8_first b0 = Some (n, lo, hi) ->
  0x80 <= lo /\ hi <= 0xBF /\
  (n = 2%nat /\ 0xC2 <= b0 <= 0xDF \/ n = 3%nat /\ 0xE0 <= b0 <= 0xEF \/
   n = 4%nat /\ 0xF0 <= b0 <= 0xF4).
Proof.
  intros Hf; destruct (Z.le_gt_cases 0 b0), (Z.lt_ge_cases b0 256);
    [|exfalso; revert Hf..].
  - assert (E : forallb (fun b0 =>
      match utf8_first b0 with
      | Some (n, lo, hi) => (0x80 <=? lo) && (hi <=? 0xBF) &&
          ((n =? 2)%nat && in_range 0xC2 0xDF b0 || (n =? 3)%nat && in_range 0xE0 0xEF b0 ||
           (n =? 4)%nat && in_range 0xF0 0xF4 b0)
      | None => true end) (seqZ 0 256) = true) by (vm_compute; reflexivity).
    apply (range_forallb _ _ _ b0) in E; [|lia]; cbv beta in E; rewrite Hf in E; cbv beta iota in E.
    rewrite !andb_true_iff, !orb_true_iff, !andb_true_iff, !in_range_spec, !Nat.eqb_eq, !Z.leb_le in E; tauto.
  - unfold utf8_first, in_range; rewrite !(proj2 (Z.leb_gt b0 _)) by lia; rewrite !andb_false_r; cbn [orb].
    repeat (rewrite (proj2 (Z.eqb_neq b0 _)) by lia); done.
  - unfold utf8_first, in_range; rewrite !(proj2 (Z.leb_gt _ b0)) by lia; cbn [andb orb].
    repeat (rewrite (proj2 (Z.eqb_neq b0 _)) by lia); done.
  - lia.
Qed.

Lemma rune2_high b0 b1 : in_range 0xC2 0xDF b0 = true -> 0 <= b1 -> 0x80 <= rune2 b0 b1.
Proof.
  intros Hb0%in_range_spec Hb1; unfold rune2.
  etransitivity; [|apply lor_ge_l; auto with arkive zarith].
  apply Z.leb_le.
  exact (range_forallb (fun b => 0x80 <=? Z.shiftl (Z.land b 0x1F) 6) 0xC2 30 b0 eq_refl ltac:(lia)).
Qed.

Lemma rune3_high b0 b1 b2 lo hi :
  utf8_first b0 = Some (3%nat, lo, hi) -> in_range lo hi b1 = true -> 0 <= b2 ->
  0x80 <= rune3 b0 b1 b2.
Proof.
  intros Hf Hb1 Hb2; unfold rune3.
  etransitivity; [|apply lor_ge_l; auto with arkive zarith].
  - assert (E : forallb (fun b0 => forallb (fun b1 =>
      match utf8_first b0 with
      | Some (3%nat, lo, hi) => negb (in_range lo hi b1) ||
          (0x80 <=? Z.lor (Z.shiftl (Z.land b0 0x0F) 12) (Z.shiftl (Z.land b1 0x3F) 6))
      | _ => true end) (seqZ 0x80 64)) (seqZ 0xE0 16) = true) by (vm_compute; reflexivity).
    pose proof (utf8_first_inv _ _ _ _ Hf); apply in_range_spec in Hb1 as Hb1'.
    apply (range_forallb _ _ _ b0) in E; [|lia]; cbv beta in E; apply (range_forallb _ _ _ b1) in E; [|lia].
    cbv beta in E; rewrite Hf, Hb1 in E; by apply Z.leb_le.
  - apply Z.lor_nonneg; split; auto with arkive zarith.
Qed.

Lemma rune4_high b0 b1 b2 b3 lo hi :
  utf8_first b0 = Some (4%nat, lo, hi) -> in_range lo hi b1 = true -> 0 <= b2 -> 0 <= b3 ->
  0x80 <= rune4 b0 b1 b2 b3.
Proof.
  intros Hf Hb1 Hb2 Hb3; unfold rune4.
  etransitivity; [|apply lor_ge_l; [apply Z.lor_nonneg; split|apply Z.lor_nonneg; split]; auto with arkive zarith].
  assert (E : forallb (fun b0 => forallb (fun b1 =>
    match utf8_first b0 with
    | Some (4%nat, lo, hi) => negb (in_range lo hi b1) ||
        (0x80 <=? Z.lor (Z.shiftl (Z.land b0 0x07) 18) (Z.shiftl (Z.land b1 0x3F) 12))
    | _ => true end) (seqZ 0x80 64)) (seqZ 0xF0 5) = true) by (vm_compute; reflexivity).
  pose proof (utf8_first_inv _ _ _ _ Hf); apply in_range_spec in Hb1 as Hb1'.
  apply (range_forallb _ _ _ b0) in E; [|lia]; cbv beta in E; apply (range_forallb _ _ _ b1) in E; [|lia].
  cbv beta in E; rewrite Hf, Hb1 in E; by apply Z.leb_le.
Qed.

(** An ASCII byte is a rune of its own; any other byte starts a sequence of
    non-ASCII bytes that decodes to a non-ASCII rune (or to [RuneError]). *)
Lemma DecodeRune_ascii b0 s1 : b0 < 0x80 -> DecodeRune (b0 :: s1) = (b0, 1%nat).
Proof. intros; cbn; by rewrite (proj2 (Z.ltb_lt _ _)) by lia. Qed.

Lemma DecodeRune_high b0 s1 r w :
  0x80 <= b0 -> bytes_ok s1 -> DecodeRune (b0 :: s1) = (r, w) ->
  0x80 <= r /\ (1 <= w)%nat /\ Forall (fun c => 0x80 <= c) (take w (b0 :: s1)).
Proof.
  intros Hb0 Hs1 H; cbn [DecodeRune] in H.
  rewrite (proj2 (Z.ltb_ge _ _)) in H by lia.
  assert (Herr : forall r w, (RuneError, 1%nat) = (r, w) -> 0x80 <= r /\ (1 <= w)%nat /\
    Forall (fun c => 0x80 <= c) (take w (b0 :: s1))).
  { intros ? ? [= <- <-]; unfold RuneError; split; [lia|]; split; [lia|].
    cbn [take]; repeat constructor; lia. }
  destruct (utf8_first b0) as [[[n lo] hi]|] eqn:Hf; [|exact (Herr _ _ H)].
  destruct (utf8_first_inv _ _ _ _ Hf) as (Hlo & Hhi & Hcase).
  unfold bytes_ok, is_byte in Hs1.
  destruct n as [|[|[|[|[|n]]]]]; try exact (Herr _ _ H).
  - destruct s1 as [|b1 s1]; [exact (Herr _ _ H)|].
    destruct (in_range lo hi b1) eqn:E1; [|exact (Herr _ _ H)].
    injection H as <- <-; rewrite Forall_cons in Hs1; destruct Hs1 as [? _].
    apply in_range_spec in E1; split; [|split; [lia | repeat constructor; lia]].
    apply rune2_high; [apply in_range_spec; lia | lia].
  - destruct s1 as [|b1 [|b2 s1]]; try exact (Herr _ _ H).
    destruct (in_range lo hi b1) eqn:E1; [|exact (Herr _ _ H)].
    destruct (in_range 0x80 0xBF b2) eqn:E2; [|exact (Herr _ _ H)].
    injection H as <- <-; split; [apply in_range_spec in E2; eapply rune3_high; eauto; lia|].
    apply in_range_spec in E1, E2; split; [lia | repeat constructor; lia].
  - destruct s1 as [|b1 [|b2 [|b3 s1]]]; try exact (Herr _ _ H).
    destruct (in_range lo hi b1) eqn:E1; [|exact (Herr _ _ H)].
    destruct (in_range 0x80 0xBF b2) eqn:E2; [|exact (Herr _ _ H)].
    destruct (in_range 0x80 0xBF b3) eqn:E3; [|exact (Herr _ _ H)].
    injection H as <- <-; split; [apply in_range_spec in E2, E3; eapply rune4_high; eauto; lia|].
    apply in_range_spec in E1, E2, E3; split; [lia | repeat constructor; lia].
Qed.

Lemma filter_ascii_none (s : bytes) : Forall (fun c => 0x80 <= c) s -> filter (fun c => c < 0x80) s = [].
Proof.
  induction 1; [done|]; rewrite filter_cons_False; [done | lia].
Qed.

(** The ASCII runes of a string are its ASCII bytes, in order. *)
Lemma runes_fuel_ascii fuel s :
  bytes_ok s -> (length s <= fuel)%nat ->
  filter (fun c => c < 0x80) (fst <$> runes_fuel fuel s) = filter (fun c => c < 0x80) s.
Proof.
  revert s; induction fuel as [|f IH]; intros s Hs Hf.
  - destruct s; [done | simpl in Hf; lia].
  - destruct s as [|b0 s1]; [done|]; cbn [runes_fuel].
    pose proof Hs as [Hb0 Hs1]%Forall_cons.
    destruct (Z.lt_ge_cases b0 0x80) as [Hlt|Hge].
    + rewrite DecodeRune_ascii by done; cbn [fmap list_fmap fst drop].
      rewrite !(filter_cons_True _ b0) by done; rewrite drop_0, IH; [done..|].
      simpl in Hf; lia.
    + destruct (DecodeRune (b0 :: s1)) as [r w] eqn:E.
      apply DecodeRune_high in E as (Hr & Hw & Ht); [|done..].
      cbn [fmap list_fmap fst]; rewrite filter_cons_False by lia.
      rewrite IH by (try apply Forall_drop; rewrite ?length_drop; simpl in *; auto; lia).
      rewrite <- (take_drop w (b0 :: s1)) at 2.
      rewrite filter_app, (filter_ascii_none _ Ht).
      reflexivity.
Qed.

Lemma runes_ascii s :
  bytes_ok s -> filter (fun c => c < 0x80) (fst <$> runes s) = filter (fun c => c < 0x80) s.
Proof. intros; by apply runes_fuel_ascii. Qed.

Lemma runes_fuel_high fuel s :
  bytes_ok s -> (length s <= fuel)%nat ->
  Forall (fun p => p.1 < 0x80) (runes_fuel fuel s) <-> Forall (fun c => c < 0x80) s.
Proof.
  revert s; induction fuel as [|f IH]; intros s Hs Hf.
  - destruct s; [split; constructor | simpl in Hf; lia].
  - destruct s as [|b0 s1]; [split; constructor|]; cbn [runes_fuel].
    pose proof Hs as [Hb0 Hs1]%Forall_cons.
    destruct (Z.lt_ge_cases b0 0x80) as [Hlt|Hge].
    + rewrite DecodeRune_ascii, !Forall_cons by done; cbn [drop fst].
      rewrite drop_0, IH by (done || (simpl in Hf; lia)); tauto.
    + destruct (DecodeRune (b0 :: s1)) as [r w] eqn:E.
      apply DecodeRune_high in E as (Hr & Hw & Ht); [|done..].
      rewrite !Forall_cons; cbn [fst]; lia.
Qed.

(** A string trims to nothing when all its bytes are in the cutset. *)
Lemma Trim_nil s cut : Trim s cut = [] <-> Forall (.∈ cut) s.
Proof.
  split.
  - intros H; assert (Hl : TrimLeft s cut = [] \/ exists x r, TrimLeft s cut = x :: r /\ x ∉ cut).
    { clear H; induction s as [|x s IH]; [by left|]; cbn.
      case_bool_decide; [done | right; by exists x, s]. }
    destruct Hl as [Hl | (x & r & Hl & Hx)].
    + clear H; induction s as [|x s IH]; [constructor|]; cbn in Hl.
      case_bool_decide; [by constructor; auto | done].
    + exfalso; unfold Trim in H; rewrite Hl, reverse_cons in H.
      assert (forall l, exists y l', TrimLeft (l ++ [x]) cut = y :: l') as Hne.
      { induction l as [|y l (z & l' & IH)]; cbn; case_bool_decide; eauto; done. }
      destruct (Hne (reverse r)) as (y & l' & E); rewrite E in H.
      apply (f_equal length) in H; rewrite length_reverse in H; done.
  - intros H; pose proof (TrimLeft_app_drop s [] cut H) as E; rewrite app_nil_r in E.
    unfold Trim; by rewrite E.
Qed.
