(* ===== verification/GoTime.v ===== *)
(** * Go's time.Time, as far as the archive packages use it

    A [Time] is a wall clock without a monotonic reading: seconds since
    January 1 of year 1 (UTC) in an [int64], nanoseconds, and a location. *)
From S2P Require Import Prelude GoInt.

Inductive Location := UTC | Local | FixedZone (offset : Z).

#[export] Instance Location_eq_dec : EqDecision Location.
Proof. solve_decision. Defined.

Record Time := mkTime { t_sec : Z; t_nsec : Z; t_loc : Location }.

#[export] Instance Time_eq_dec : EqDecision Time.
Proof. solve_decision. Defined.

(** Seconds from January 1 of year 1 to January 1, 1970. *)
Definition unixToInternal : Z := 62135596800.

Definition zeroTime : Time := mkTime 0 0 UTC.

(** [time.Unix(sec, nsec)]: Go's truncated division, then one borrow. *)
Definition Unix (sec nsec : Z) : Time :=
  if (nsec <? 0) || (1000000000 <=? nsec) then
    let n := Z.quot nsec 1000000000 in
    let sec := int64 (sec + n) in
    let nsec := nsec - n * 1000000000 in
    if nsec <? 0 then mkTime (int64 (sec - 1 + unixToInternal)) (nsec + 1000000000) Local
    else mkTime (int64 (sec + unixToInternal)) nsec Local
  else mkTime (int64 (sec + unixToInternal)) nsec Local.

(** [t.Unix()]. *)
Definition toUnix (t : Time) : Z := int64 (t_sec t - unixToInternal).

Definition Before (t u : Time) : bool :=
  (t_sec t <? t_sec u) || ((t_sec t =? t_sec u) && (t_nsec t <? t_nsec u)).
Definition After (t u : Time) : bool := Before u t.
Definition IsZero (t : Time) : bool := (t_sec t =? 0) && (t_nsec t =? 0).

(** [Unix] then [toUnix] is the identity on [int64], overflow included. *)
Lemma wraps_add_sub w x c : 0 < w -> wraps w (wraps w (x + c) - c) = wraps w x.
Proof.
  intros Hw; unfold wraps.
  set (m := 2 ^ w); set (h := 2 ^ (w - 1)).
  replace ((x + c + h) mod m - h - c + h) with ((x + c + h) mod m - c) by lia.
  rewrite Zminus_mod_idemp_l; do 2 f_equal; lia.
Qed.

Lemma toUnix_Unix s : in_int64 s -> toUnix (Unix s 0) = s.
Proof.
  intros Hs; unfold toUnix, Unix, int64; cbn [Z.ltb Z.leb Z.compare orb t_sec].
  by rewrite wraps_add_sub, wraps_id.
Qed.

(** Nanoseconds since 1970 of a time. *)
Definition time_nanos (t : Time) : Z := (t_sec t - unixToInternal) * 1000000000 + t_nsec t.

(** [Unix] normalises the nanoseconds without changing the instant. *)
Lemma Unix_nanos s n :
  - 2 ^ 62 <= s < 2 ^ 62 -> - 1000000000 < n < 1000000000 ->
  time_nanos (Unix s n) = s * 1000000000 + n /\ 0 <= t_nsec (Unix s n) < 1000000000.
Proof.
  intros Hs Hn; unfold Unix, time_nanos, unixToInternal.
  destruct (Z.ltb_spec n 0), (Z.leb_spec 1000000000 n); try lia; cbn [orb].
  - 
    assert (Z.quot n 1000000000 = 0) as -> by (apply Z.quot_small_iff; lia).
    rewrite Z.mul_0_l, Z.sub_0_r, Z.add_0_r, (proj2 (Z.ltb_lt n 0)) by lia; cbn [t_sec t_nsec].
    rewrite !int64_id by (unfold in_int64; rewrite ?int64_id; unfold in_int64; lia); lia.
  - cbn [t_sec t_nsec]; rewrite int64_id by (unfold in_int64; lia); lia.
Qed.
