(* ===== verification/GoDate.v ===== *)
(** * Calendar dates, durations and time zones of Go's time package

    The proleptic Gregorian calendar over the [Time] of GoTime.v. The offset
    of [time.Local] is a parameter, the function [localOffset] from an instant
    to seconds east of UTC. *)
From S2P Require Import Prelude GoInt GoTime.

(** ** Days and dates *)
Definition isLeap (y : Z) : bool := (y mod 4 =? 0) && (negb (y mod 100 =? 0) || (y mod 400 =? 0)).

(** [daysBefore[m]]: the days of a common year before month [m] (from 0). *)
Definition daysBefore : list Z := [0; 31; 59; 90; 120; 151; 181; 212; 243; 273; 304; 334; 365].
Definition before (m : Z) : Z := nth (Z.to_nat m) daysBefore 0.

Definition daysIn (m y : Z) : Z := before m - before (m - 1) + (if (m =? 2) && isLeap y then 1 else 0).

(** Days from January 1 of year 1 to January 1 of year [y]. *)
Definition yearDays (y : Z) : Z := 365 * (y - 1) + (y - 1) / 4 - (y - 1) / 100 + (y - 1) / 400.

(** [time.Date] in UTC: months, days, hours, minutes and seconds out of range
    are carried. *)
Definition daysOf (year month day : Z) : Z :=
  let y := year + (month - 1) / 12 in
  let m := (month - 1) mod 12 in
  yearDays y + before m + (if (2 <=? m) && isLeap y then 1 else 0) + (day - 1).

Definition DateUTC (year month day hour min sec : Z) : Time :=
  mkTime (daysOf year month day * 86400 + hour * 3600 + min * 60 + sec) 0 UTC.

(** The year and the day of the year of a day number. *)
Definition yearOf (d : Z) : Z * Z :=
  let n400 := d / 146097 in
  let d := d - 146097 * n400 in
  let n100 := d / 36524 in
  let n100 := n100 - Z.shiftr n100 2 in
  let d := d - 36524 * n100 in
  let n4 := d / 1461 in
  let d := d - 1461 * n4 in
  let n1 := d / 365 in
  let n1 := n1 - Z.shiftr n1 2 in
  (400 * n400 + 100 * n100 + 4 * n4 + n1 + 1, d - 365 * n1).

(** Month and day of a day of a year. *)
Definition monthOf (leap : bool) (day : Z) : Z * Z :=
  if leap && (day =? 59) then (2, 29)
  else
    let day := if leap && (59 <? day) then day - 1 else day in
    let month := day / 31 in
    let last := before (month + 1) in
    if last <=? day then (month + 2, day - last + 1) else (month + 1, day - before month + 1).

(** Year, month and day of a day number. *)
Definition dateOf (d : Z) : Z * Z * Z :=
  let '(year, day) := yearOf d in
  let '(month, day) := monthOf (isLeap year) day in
  (year, month, day).

Section Zones.
Variable localOffset : Z -> Z.

(** Seconds east of UTC at the instant [t]. *)
Definition zoneOffset (t : Time) : Z :=
  match t_loc t with UTC => 0 | FixedZone o => o | Local => localOffset (toUnix t) end.

(** Seconds of the wall clock since January 1 of year 1. *)
Definition wall (t : Time) : Z := t_sec t + zoneOffset t.

Definition Year (t : Time) : Z := (dateOf (wall t / 86400)).1.1.
Definition Month (t : Time) : Z := (dateOf (wall t / 86400)).1.2.
Definition Day (t : Time) : Z := (dateOf (wall t / 86400)).2.
Definition Hour (t : Time) : Z := wall t mod 86400 / 3600.
Definition Minute (t : Time) : Z := wall t mod 3600 / 60.
Definition Second (t : Time) : Z := wall t mod 60.
End Zones.

Definition InLoc (loc : Location) (t : Time) : Time := mkTime (t_sec t) (t_nsec t) loc.
Definition toUTC : Time -> Time := InLoc UTC.

(** ** Durations: nanoseconds in an [int64] *)
Definition second : Z := 1000000000.
Definition minute : Z := 60 * second.
Definition hour : Z := 60 * minute.
Definition minDuration : Z := - 2 ^ 63.
Definition maxDuration : Z := 2 ^ 63 - 1.

(** [t.Sub(u)] saturates. *)
Definition Sub (t u : Time) : Z :=
  Z.max minDuration (Z.min maxDuration ((t_sec t - t_sec u) * second + (t_nsec t - t_nsec u))).

(** [d.Round(m)]: to the nearest multiple, halfway values away from zero. *)
Definition Round (d m : Z) : Z :=
  if m <=? 0 then d
  else
    let r := Z.rem d m in
    if d <? 0 then
      let r := - r in
      if r + r <? m then d + r
      else if int64 (d - m + r) <? d then int64 (d - m + r) else minDuration
    else
      if r + r <? m then d - r
      else if d <? int64 (d + m - r) then int64 (d + m - r) else maxDuration.

(** ** Inverses *)
Definition b2z (b : bool) : Z := if b then 1 else 0.

(** A year number in the digits of the calendar's cycles. *)
Lemma year_digits y :
  exists a b c e, y - 1 = 400 * a + 100 * b + 4 * c + e /\ 0 <= b <= 3 /\ 0 <= c <= 24 /\ 0 <= e <= 3 /\
    yearDays y = 146097 * a + 36524 * b + 1461 * c + 365 * e /\
    (isLeap y = true <-> e = 3 /\ (c <> 24 \/ b = 3)).
Proof.
  set (q := y - 1).
  exists (q / 400), (q mod 400 / 100), (q mod 100 / 4), (q mod 4).
  assert (H : exists a b c e, q = 400 * a + 100 * b + 4 * c + e /\ 0 <= b <= 3 /\ 0 <= c <= 24 /\ 0 <= e <= 3).
  { exists (q / 400), (q mod 400 / 100), (q mod 400 mod 100 / 4), (q mod 400 mod 100 mod 4).
    pose proof (Z.div_mod q 400 ltac:(lia)); pose proof (Z.mod_pos_bound q 400 ltac:(lia)).
    pose proof (Z.div_mod (q mod 400) 100 ltac:(lia)); pose proof (Z.mod_pos_bound (q mod 400) 100 ltac:(lia)).
    pose proof (Z.div_mod (q mod 400 mod 100) 4 ltac:(lia)); pose proof (Z.mod_pos_bound (q mod 400 mod 100) 4 ltac:(lia)).
    lia. }
  destruct H as (a & b & c & e & Hq & Hb & Hc & He).
  assert (E400 : q / 400 = a) by (symmetry; apply (Z.div_unique q 400 a (100 * b + 4 * c + e)); lia).
  assert (M400 : q mod 400 = 100 * b + 4 * c + e) by (rewrite Z.mod_eq, E400; lia).
  assert (E100 : q / 100 = 4 * a + b) by (symmetry; apply (Z.div_unique q 100 _ (4 * c + e)); lia).
  assert (M100 : q mod 100 = 4 * c + e) by (rewrite Z.mod_eq, E100; lia).
  assert (E4 : q / 4 = 100 * a + 25 * b + c) by (symmetry; apply (Z.div_unique q 4 _ e); lia).
  assert (M4 : q mod 4 = e) by (rewrite Z.mod_eq, E4; lia).
  rewrite M400, M100, M4, E400.
  replace ((100 * b + 4 * c + e) / 100) with b by (apply (Z.div_unique _ 100 b (4 * c + e)); lia).
  replace ((4 * c + e) / 4) with c by (apply (Z.div_unique _ 4 c e); lia).
  do 4 (split; [lia|]); split; [unfold yearDays; fold q; rewrite E400, E100, E4; lia|].
  unfold isLeap; replace y with (q + 1) by lia.
  assert (L4 : (q + 1) mod 4 = if e =? 3 then 0 else e + 1).
  { destruct (Z.eqb_spec e 3); symmetry; [apply (Z.mod_unique _ 4 (100 * a + 25 * b + c + 1)) | apply (Z.mod_unique _ 4 (100 * a + 25 * b + c))]; lia. }
  assert (L100 : (q + 1) mod 100 = if 4 * c + e =? 99 then 0 else 4 * c + e + 1).
  { destruct (Z.eqb_spec (4 * c + e) 99); symmetry; [apply (Z.mod_unique _ 100 (4 * a + b + 1)) | apply (Z.mod_unique _ 100 (4 * a + b))]; lia. }
  assert (L400 : (q + 1) mod 400 = if 100 * b + 4 * c + e =? 399 then 0 else 100 * b + 4 * c + e + 1).
  { destruct (Z.eqb_spec (100 * b + 4 * c + e) 399); symmetry; [apply (Z.mod_unique _ 400 (a + 1)) | apply (Z.mod_unique _ 400 a)]; lia. }
  rewrite L4, L100, L400, andb_true_iff, orb_true_iff, negb_true_iff, !Z.eqb_eq, Z.eqb_neq.
  clear - Hb Hc He; destruct (Z.eqb_spec e 3), (Z.eqb_spec (4 * c + e) 99), (Z.eqb_spec (100 * b + 4 * c + e) 399); lia.
Qed.

Lemma cap4 n : 0 <= n <= 4 -> n - Z.shiftr n 2 = Z.min n 3.
Proof. intros H; assert (n = 0 \/ n = 1 \/ n = 2 \/ n = 3 \/ n = 4) as [-> | [-> | [-> | [-> | ->]]]] by lia; reflexivity. Qed.

Lemma yearOf_spec y k : 0 <= k < 365 + b2z (isLeap y) -> yearOf (yearDays y + k) = (y, k).
Proof.
  intros Hk; destruct (year_digits y) as (a & b & c & e & Hy & Hb & Hc & He & -> & Hl).
  assert (Hk0 : 0 <= k) by lia; assert (Hk' : k <= 364 \/ k = 365 /\ e = 3 /\ (c <> 24 \/ b = 3)).
  { destruct (isLeap y); cbn [b2z] in Hk; [|lia]; pose proof (proj1 Hl eq_refl); lia. }
  clear Hk Hl; unfold yearOf; cbv zeta.
  replace ((146097 * a + 36524 * b + 1461 * c + 365 * e + k) / 146097) with a
    by (apply (Z.div_unique _ 146097 a (36524 * b + 1461 * c + 365 * e + k)); lia).
  replace (146097 * a + 36524 * b + 1461 * c + 365 * e + k - 146097 * a) with (36524 * b + 1461 * c + 365 * e + k) by lia.
  assert (B : (36524 * b + 1461 * c + 365 * e + k) / 36524 = if 36524 <=? 1461 * c + 365 * e + k then b + 1 else b).
  { symmetry; destruct (Z.leb_spec 36524 (1461 * c + 365 * e + k));
      [apply (Z.div_unique _ 36524 _ (1461 * c + 365 * e + k - 36524)) | apply (Z.div_unique _ 36524 _ (1461 * c + 365 * e + k))]; lia. }
  rewrite B, cap4 by (destruct (Z.leb_spec 36524 (1461 * c + 365 * e + k)); lia).
  replace (Z.min (if 36524 <=? 1461 * c + 365 * e + k then b + 1 else b) 3) with b
    by (destruct (Z.leb_spec 36524 (1461 * c + 365 * e + k)); lia).
  replace (36524 * b + 1461 * c + 365 * e + k - 36524 * b) with (1461 * c + 365 * e + k) by lia.
  replace ((1461 * c + 365 * e + k) / 1461) with c by (apply (Z.div_unique _ 1461 c (365 * e + k)); lia).
  replace (1461 * c + 365 * e + k - 1461 * c) with (365 * e + k) by lia.
  assert (E : (365 * e + k) / 365 = if 365 <=? k then e + 1 else e).
  { symmetry; destruct (Z.leb_spec 365 k);
      [apply (Z.div_unique _ 365 _ (k - 365)) | apply (Z.div_unique _ 365 _ k)]; lia. }
  rewrite E, cap4 by (destruct (Z.leb_spec 365 k); lia).
  replace (Z.min (if 365 <=? k then e + 1 else e) 3) with e by (destruct (Z.leb_spec 365 k); lia).
  f_equal; lia.
Qed.

(** Every day belongs to a year. *)
Lemma day_year d : exists y k, d = yearDays y + k /\ 0 <= k < 365 + b2z (isLeap y).
Proof.
  assert (Up : forall y, yearDays (y + 1) = yearDays y + 365 + b2z (isLeap y)).
  { intros y; destruct (year_digits y) as (a & b & c & e & Hy & Hb & Hc & He & E1 & L1).
    destruct (year_digits (y + 1)) as (a' & b' & c' & e' & Hy' & Hb' & Hc' & He' & E2 & _).
    assert (Hl : b2z (isLeap y) = if decide (e = 3 /\ (c <> 24 \/ b = 3)) then 1 else 0).
    { destruct (decide _) as [H|H]; [by rewrite (proj2 L1 H)|]; destruct (isLeap y); [by destruct H; apply L1 | done]. }
    rewrite E1, E2, Hl; destruct (decide _); lia. }
  assert (Lo : forall y, 365 * (y - 1) <= yearDays y + 4 * Z.abs (y - 1) /\ yearDays y <= 365 * (y - 1) + 4 * Z.abs (y - 1)).
  { intros y; destruct (year_digits y) as (a & b & c & e & Hy & Hb & Hc & He & E1 & _); lia. }
  set (y0 := d / 366 - 366 * (1 + Z.abs d)).
  assert (H0 : yearDays y0 <= d).
  { pose proof (Lo y0); assert (y0 <= - Z.abs d - 1); [|lia].
    unfold y0; pose proof (Z.div_mod d 366 ltac:(lia)); pose proof (Z.mod_pos_bound d 366 ltac:(lia)); lia. }
  assert (Step : forall n : nat, yearDays y0 <= d < yearDays (y0 + Z.of_nat n) ->
    exists y k, d = yearDays y + k /\ 0 <= k < 365 + b2z (isLeap y)).
  { induction n as [|n IH]; [rewrite Z.add_0_r; lia|]; intros Hd.
    destruct (Z.lt_ge_cases d (yearDays (y0 + Z.of_nat n))); [apply IH; lia|].
    exists (y0 + Z.of_nat n), (d - yearDays (y0 + Z.of_nat n)); pose proof (Up (y0 + Z.of_nat n)).
    replace (y0 + Z.of_nat n + 1) with (y0 + Z.of_nat (S n)) in * by lia; lia. }
  apply (Step (Z.to_nat (Z.abs d + 2 - y0))); split; [done|].
  destruct (Z.le_gt_cases y0 (Z.abs d + 2)) as [Hy|Hy].
  - replace (y0 + Z.of_nat (Z.to_nat (Z.abs d + 2 - y0))) with (Z.abs d + 2) by lia; pose proof (Lo (Z.abs d + 2)); lia.
  - assert (y0 <= - Z.abs d - 1); [|lia].
    unfold y0; pose proof (Z.div_mod d 366 ltac:(lia)); pose proof (Z.mod_pos_bound d 366 ltac:(lia)); lia.
Qed.

(** The days of a year, month by month. *)
Definition monthDay (leap : bool) (m day : Z) : Z := before (m - 1) + b2z ((2 <=? m - 1) && leap) + (day - 1).
Definition monthLen (leap : bool) (m : Z) : Z := before m - before (m - 1) + b2z ((m =? 2) && leap).

Fixpoint allFrom (n : nat) (d : Z) (P : Z -> bool) : bool :=
  match n with O => true | S n => P d && allFrom n (d + 1) P end.

Lemma allFrom_spec n d P : allFrom n d P = true -> forall x, d <= x < d + Z.of_nat n -> P x = true.
Proof.
  revert d; induction n as [|n IH]; intros d H x Hx; [lia|]; cbn [allFrom] in H.
  apply andb_true_iff in H as [H1 H2]; destruct (decide (x = d)) as [->|]; [done|].
  apply (IH _ H2); lia.
Qed.

Definition monthOfOk (leap : bool) (k : Z) : bool :=
  let '(m, day) := monthOf leap k in
  (monthDay leap m day =? k) && (1 <=? m) && (m <=? 12) && (1 <=? day) && (day <=? monthLen leap m).
Definition monthDayOk (leap : bool) (m : Z) : bool :=
  allFrom (Z.to_nat (monthLen leap m)) 1 (fun day => bool_decide (monthOf leap (monthDay leap m day) = (m, day)) &&
    (0 <=? monthDay leap m day) && (monthDay leap m day <? 365 + b2z leap)).

Lemma monthOf_spec leap k :
  0 <= k < 365 + b2z leap ->
  let '(m, day) := monthOf leap k in monthDay leap m day = k /\ 1 <= m <= 12 /\ 1 <= day <= monthLen leap m.
Proof.
  intros Hk; assert (A : allFrom (Z.to_nat (365 + b2z leap)) 0 (monthOfOk leap) = true) by (destruct leap; vm_compute; reflexivity).
  assert (Hb : 365 + b2z leap >= 0) by (destruct leap; cbn; lia).
  pose proof (allFrom_spec _ _ _ A k ltac:(lia)) as H; unfold monthOfOk in H; destruct (monthOf leap k) as [m day].
  rewrite !andb_true_iff in H; destruct H as [[[[?%Z.eqb_eq ?%Z.leb_le] ?%Z.leb_le] ?%Z.leb_le] ?%Z.leb_le]; lia.
Qed.

Lemma monthOf_monthDay leap m day :
  1 <= m <= 12 -> 1 <= day <= monthLen leap m ->
  monthOf leap (monthDay leap m day) = (m, day) /\ 0 <= monthDay leap m day < 365 + b2z leap.
Proof.
  intros Hm Hd; assert (A : allFrom 12 1 (monthDayOk leap) = true) by (destruct leap; vm_compute; reflexivity).
  pose proof (allFrom_spec _ _ _ A m ltac:(lia)) as H; unfold monthDayOk in H.
  pose proof (allFrom_spec _ _ _ H day ltac:(lia)) as H'; cbv beta in H'; rewrite !andb_true_iff in H'.
  destruct H' as [[?%bool_decide_eq_true_1 ?%Z.leb_le] ?%Z.ltb_lt]; done.
Qed.

Lemma daysIn_monthLen m y : daysIn m y = monthLen (isLeap y) m.
Proof. reflexivity. Qed.

Lemma daysOf_monthDay y m day : 1 <= m <= 12 -> daysOf y m day = yearDays y + monthDay (isLeap y) m day.
Proof.
  intros Hm; unfold daysOf, monthDay, b2z; rewrite Z.div_small, Z.mod_small by lia; rewrite Z.add_0_r; lia.
Qed.

(** Dates and day numbers are inverse to each other. *)
Lemma dateOf_daysOf y m day : 1 <= m <= 12 -> 1 <= day <= daysIn m y -> dateOf (daysOf y m day) = (y, m, day).
Proof.
  intros Hm Hd; destruct (monthOf_monthDay (isLeap y) m day Hm Hd) as [E Hk].
  rewrite daysOf_monthDay by done; unfold dateOf; by rewrite yearOf_spec, E.
Qed.

Lemma daysOf_dateOf d :
  let '(y, m, day) := dateOf d in daysOf y m day = d /\ 1 <= m <= 12 /\ 1 <= day <= daysIn m y.
Proof.
  destruct (day_year d) as (y & k & -> & Hk); unfold dateOf; rewrite yearOf_spec by done.
  pose proof (monthOf_spec (isLeap y) k Hk) as H; destruct (monthOf (isLeap y) k) as [m day].
  rewrite daysOf_monthDay by lia; rewrite daysIn_monthLen; lia.
Qed.

(** [time.Date] of the date and clock of a time. *)
Lemma DateUTC_wall sec :
  let '(y, m, day) := dateOf (sec / 86400) in
  t_sec (DateUTC y m day (sec mod 86400 / 3600) (sec mod 3600 / 60) (sec mod 60)) = sec.
Proof.
  pose proof (daysOf_dateOf (sec / 86400)) as H; destruct (dateOf (sec / 86400)) as [[y m] day].
  destruct H as [H _]; unfold DateUTC; cbn [t_sec]; rewrite H.
  pose proof (Z.div_mod sec 86400 ltac:(lia)); pose proof (Z.div_mod (sec mod 86400) 3600 ltac:(lia)).
  pose proof (Z.div_mod (sec mod 3600) 60 ltac:(lia)).
  assert (sec mod 86400 mod 3600 = sec mod 3600) by (apply Z.mod_mod_divide; by exists 24).
  assert (sec mod 3600 mod 60 = sec mod 60) by (apply Z.mod_mod_divide; by exists 60).
  lia.
Qed.
