(* ===== verification/TarStrconv.v ===== *)
(** * tar/strconv.go: the field parsers and formatters of the tar package

    [parser] and [formatter] hold only the last error seen; a method takes
    the error and returns the new one beside its result. Byte slices the code
    fills in place are returned. *)
From S2P Require Import Prelude GoInt GoString GoTime.
Open Scope go_scope.

Definition parser : Type := option error.
Definition formatter : Type := option error.

Definition isASCII (s : bytes) : bool := forallb (fun '(c, _) => negb (0x80 <=? c)) (runes s).

Definition toASCII (s : bytes) : bytes :=
  if isASCII s then s
  else uint8 <$> filter (fun c => c < 0x80) (fst <$> runes s).

Fixpoint parseString (b : bytes) : bytes :=
  match b with
  | [] => []
  | c :: b' => if c =? 0 then [] else c :: parseString b'
  end.

Definition formatString (f : formatter) (b s : bytes) : formatter * bytes :=
  if len b <? len s then (Some ErrFieldTooLong, b)
  else let ascii := toASCII s in
       let b := splice 0 ascii b in
       (f, if len ascii <? len b then <[length ascii := 0]> b else b).

(** [x << k] on [int64], with Go's zero for a shift of the width or more. *)
Definition shl64 (x k : Z) : Z := if 64 <=? k then 0 else int64 (Z.shiftl x k).

Definition fitsInBase256 (n x : Z) : bool :=
  let binBits := uint64 (uint64 (n - 1) * 8) in
  (9 <=? n) || ((shl64 (-1) binBits <=? x) && (x <? shl64 1 binBits)).

Fixpoint parseNumericLoop (inv : Z) (first : bool) (x : Z) (b : bytes) : option Z :=
  match b with
  | [] => Some x
  | c :: b' =>
      let c := Z.lxor c inv in
      let c := if first then Z.land c 0x7f else c in
      if 0 <? Z.shiftr x 56 then None
      else parseNumericLoop inv false (Z.lor (uint64 (Z.shiftl x 8)) c) b'
  end.

Definition parseOctal (p : parser) (b : bytes) : parser * Z :=
  let b := Trim b [32; 0] in
  if len b =? 0 then (p, 0)
  else let '(x, perr) := ParseUint (parseString b) 8 in
       (match perr with Some _ => Some ErrHeader | None => p end, int64 x).

Definition parseNumeric (p : parser) (b : bytes) : parser * Z :=
  match b with
  | b0 :: _ =>
      if negb (Z.land b0 0x80 =? 0) then
        let inv := if negb (Z.land b0 0x40 =? 0) then 0xff else 0 in
        match parseNumericLoop inv true 0 b with
        | None => (Some ErrHeader, 0)
        | Some x =>
            if 0 <? Z.shiftr x 63 then (Some ErrHeader, 0)
            else if inv =? 0xff then (p, Z.lnot (int64 x))
            else (p, int64 x)
        end
      else parseOctal p b
  | [] => parseOctal p b
  end.

Definition formatOctal (f : formatter) (b : bytes) (x : Z) : formatter * bytes :=
  let s := FormatInt x 8 in
  let n := len b - len s - 1 in
  let s := if 0 <? n then Repeat [48] n ++ s else s in
  formatString f b s.

(** The loop [for i := len(b)-1; i >= 0; i--]. *)
Fixpoint formatNumericLoop (i : nat) (x : Z) (b : bytes) : bytes :=
  match i with
  | O => b
  | S i' => formatNumericLoop i' (Z.shiftr x 8) (<[i' := uint8 x]> b)
  end.

Definition formatNumeric (f : formatter) (b : bytes) (x : Z) : formatter * bytes :=
  if fitsInBase256 (len b) x then
    (f, alter (fun c => Z.lor c 0x80) 0%nat (formatNumericLoop (length b) x b))
  else let '(_, b) := formatOctal f b 0 in (Some ErrFieldTooLong, b).

Definition maxNanoSecondDigits : Z := 9.

Definition digits10 : bytes := str "0123456789".

Definition parsePAXTime (s : bytes) : outcome Time :=
  let pos := IndexByte s 46 in
  let '(ss, sn) := if 0 <=? pos then (slice s 0 pos, slice s (pos + 1) (len s)) else (s, []) in
  let '(secs, err) := ParseInt ss 10 in
  match err with
  | Some _ => Err ErrHeader
  | None =>
      if len sn =? 0 then Ok (Unix secs 0)
      else if negb (bool_decide (Trim sn digits10 = [])) then Err ErrHeader
      else
        let sn := if len sn <? maxNanoSecondDigits
                  then sn ++ Repeat [48] (maxNanoSecondDigits - len sn)
                  else slice sn 0 maxNanoSecondDigits in
        let '(nsecs, _) := ParseInt sn 10 in
        match ss with
        | 45 :: _ => Ok (Unix secs (-1 * nsecs))
        | _ => Ok (Unix secs nsecs)
        end
  end.

(** A slice expression that panics when the indices are out of order or out
    of range. *)
Definition gslice (s : bytes) (i j : Z) : outcome bytes :=
  if (0 <=? i) && (i <=? j) && (j <=? len s) then Ok (slice s i j) else Panic.

Definition parsePAXRecord (s : bytes) : outcome (bytes * bytes * bytes) :=
  let sp := IndexByte s 32 in
  if sp =? -1 then Err ErrHeader
  else
    let '(n, perr) := ParseInt (slice s 0 sp) 10 in
    if bool_decide (perr <> None) || (n <? 5) || (len s <? n) then Err ErrHeader
    else
      let? rec := gslice s (sp + 1) (n - 1) in
      let? nl := gslice s (n - 1) n in
      let? rem := gslice s n (len s) in
      if negb (bool_decide (nl = [10])) then Err ErrHeader
      else
        let eq := IndexByte rec 61 in
        if eq =? -1 then Err ErrHeader
        else Ok (slice rec 0 eq, slice rec (eq + 1) (len rec), rem).

Definition paxRecordBytes (size : Z) (k v : bytes) : bytes :=
  Itoa size ++ [32] ++ k ++ [61] ++ v ++ [10].

Definition formatPAXRecord (k v : bytes) : bytes :=
  let padding := 3 in
  let size := len k + len v + padding in
  let size := size + len (Itoa size) in
  let record := paxRecordBytes size k v in
  if negb (len record =? size) then paxRecordBytes (len record) k v
  else record.

(** ** ASCII strings *)
Lemma isASCII_spec s : bytes_ok s -> isASCII s = true <-> Forall (fun c => c < 0x80) s.
Proof.
  intros Hs; unfold isASCII.
  rewrite <- (runes_fuel_high (length s) s Hs) by lia; fold (runes s).
  rewrite forallb_forall, Forall_forall.
  split; intros H p Hp.
  - apply list_elem_of_In, H in Hp; destruct p as [c w]; simpl in *; lia.
  - apply list_elem_of_In, H in Hp; destruct p as [c w]; simpl in *; lia.
Qed.

Lemma filter_fmap_uint8 s :
  bytes_ok s -> uint8 <$> filter (fun c => c < 0x80) s = filter (fun c => c < 0x80) s.
Proof.
  induction 1 as [|c s Hc Hs IH]; [done|].
  destruct (decide (c < 0x80)).
  - rewrite !filter_cons_True by done; cbn; by rewrite IH, uint8_id.
  - by rewrite !filter_cons_False.
Qed.

Lemma toASCII_filter s : bytes_ok s -> toASCII s = filter (fun c => c < 0x80) s.
Proof.
  intros Hs; unfold toASCII; destruct (isASCII s) eqn:E.
  - apply isASCII_spec in E; [|done].
    symmetry; clear Hs; induction E; [done|]; rewrite filter_cons_True by done; congruence.
  - by rewrite runes_ascii, filter_fmap_uint8.
Qed.

Lemma toASCII_ascii s : isASCII s = true -> toASCII s = s.
Proof. intros H; unfold toASCII; by rewrite H. Qed.

Lemma ascii_bytes_ok s : Forall (fun c => 0 <= c < 0x80) s -> bytes_ok s /\ isASCII s = true.
Proof.
  intros Hs; assert (bytes_ok s).
  { eapply Forall_impl; [exact Hs|]; unfold is_byte; cbn; lia. }
  split; [done|]; apply isASCII_spec; [done|].
  eapply Forall_impl; [exact Hs|]; cbn; lia.
Qed.

Lemma toASCII_ok s : bytes_ok s -> bytes_ok (toASCII s).
Proof. intros; rewrite toASCII_filter by done; by apply bytes_ok_filter. Qed.

Lemma toASCII_len s : bytes_ok s -> len (toASCII s) <= len s.
Proof. intros; rewrite toASCII_filter by done; unfold len; pose proof (length_filter (fun c => c < 0x80) s); lia. Qed.

(** ** C strings *)
Lemma parseString_nul s r : 0 ∉ s -> parseString (s ++ 0 :: r) = s.
Proof.
  induction s as [|c s IH]; intros H; [done|].
  apply not_elem_of_cons in H as [Hc H]; cbn.
  rewrite (proj2 (Z.eqb_neq c 0)) by done; by rewrite IH.
Qed.

Lemma parseString_all s : 0 ∉ s -> parseString s = s.
Proof.
  induction s as [|c s IH]; intros H; [done|].
  apply not_elem_of_cons in H as [Hc H]; cbn.
  rewrite (proj2 (Z.eqb_neq c 0)) by done; by rewrite IH.
Qed.

Lemma parseString_no_nul b : 0 ∉ parseString b.
Proof.
  induction b as [|c b IH]; cbn; [apply not_elem_of_nil|].
  destruct (Z.eqb_spec c 0); [apply not_elem_of_nil|].
  apply not_elem_of_cons; auto.
Qed.

(** The bytes [formatString] leaves in the field. *)
Lemma formatString_fits f b s :
  isASCII s = true -> (length s <= length b)%nat ->
  formatString f b s =
    (f, s ++ if (length s <? length b)%nat then 0 :: drop (S (length s)) b else []).
Proof.
  intros Ha Hl; unfold formatString, len.
  rewrite (proj2 (Z.ltb_ge _ _)) by lia; rewrite (toASCII_ascii s Ha).
  unfold splice; rewrite take_0, app_nil_l, Nat.add_0_l, length_app, length_drop.
  destruct (Nat.ltb_spec (length s) (length b)).
  - rewrite (proj2 (Z.ltb_lt _ _)) by lia; f_equal.
    destruct (drop (length s) b) as [|c r] eqn:E.
    { apply (f_equal length) in E; rewrite length_drop in E; simpl in E; lia. }
    rewrite insert_app_r_alt by lia; rewrite Nat.sub_diag; cbn.
    do 2 f_equal; replace (S (length s)) with (length s + 1)%nat by lia.
    by rewrite <- drop_drop, E.
  - rewrite (proj2 (Z.ltb_ge _ _)) by lia; f_equal.
    by rewrite drop_ge by lia.
Qed.

Lemma formatString_length f b s :
  bytes_ok s -> length (formatString f b s).2 = length b.
Proof.
  intros Hs; unfold formatString.
  destruct (Z.ltb_spec (len b) (len s)); [done|]; cbn [snd].
  pose proof (toASCII_len s Hs); unfold len in *.
  destruct (_ <? _); rewrite ?length_insert, length_splice; lia.
Qed.

Lemma formatString_ok f b s :
  bytes_ok s -> bytes_ok b -> bytes_ok (formatString f b s).2.
Proof.
  intros Hs Hb; unfold formatString.
  destruct (_ <? _); [done|]; cbn [snd].
  assert (bytes_ok (splice 0 (toASCII s) b)) by (apply bytes_ok_splice; auto using toASCII_ok).
  destruct (_ <? _); [|done].
  apply Forall_insert; [done | unfold is_byte; lia].
Qed.

Lemma parseString_formatString f b s :
  isASCII s = true -> 0 ∉ s -> (length s <= length b)%nat ->
  parseString (formatString f b s).2 = s.
Proof.
  intros Ha Hn Hl; rewrite formatString_fits by done; cbn [snd].
  destruct (_ <? _)%nat; [by apply parseString_nul | rewrite app_nil_r; by apply parseString_all].
Qed.

(** ** Base-256 numbers *)
Lemma formatNumericLoop_eq i x b :
  (i <= length b)%nat -> formatNumericLoop i x b = be_bytes i x ++ drop i b.
Proof.
  revert x b; induction i as [|i IH]; intros x b Hi; [done|].
  cbn [formatNumericLoop]; rewrite IH by (rewrite length_insert; lia).
  unfold be_bytes at 2; cbn [le_bytes]; rewrite reverse_cons; fold (be_bytes i (Z.shiftr x 8)).
  rewrite <- app_assoc; f_equal; cbn [app].
  rewrite drop_insert_ge by lia; rewrite Nat.sub_diag.
  destruct (drop i b) as [|c r] eqn:E.
  { apply (f_equal length) in E; rewrite length_drop in E; simpl in E; lia. }
  cbn; f_equal; replace (S i) with (i + 1)%nat by lia; by rewrite <- drop_drop, E.
Qed.

Lemma fitsInBase256_spec n x :
  1 <= n -> in_int64 x -> fitsInBase256 n x = true ->
  - 2 ^ (8 * (n - 1)) <= x < 2 ^ (8 * (n - 1)).
Proof.
  intros Hn Hx H; unfold fitsInBase256 in H; apply orb_true_iff in H.
  unfold in_int64 in Hx.
  destruct (Z.le_gt_cases 9 n) as [H9|H9].
  { assert (2 ^ 64 <= 2 ^ (8 * (n - 1))) by (apply Z.pow_le_mono_r; lia); lia. }
  destruct H as [H|H]; [lia|].
  unfold uint64, wrapu in H.
  rewrite (Z.mod_small (n - 1)), Z.mod_small in H by lia.
  rewrite (Z.mul_comm (n - 1)) in H.
  assert (1 <= 2 ^ (8 * (n - 1)) <= 2 ^ 56).
  { split; [pose proof (Z.pow_pos_nonneg 2 (8 * (n - 1))); lia | apply Z.pow_le_mono_r; lia]. }
  unfold shl64 in H; rewrite (proj2 (Z.leb_gt 64 _)), !Z.shiftl_mul_pow2 in H by lia.
  rewrite !int64_id in H by (unfold in_int64; lia); lia.
Qed.

Lemma fitsInBase256_pos n x : in_int64 x -> 0 <= n -> fitsInBase256 n x = true -> 1 <= n.
Proof.
  intros Hx Hn H; destruct (Z.eq_dec n 0) as [->|]; [|lia].
  exfalso; unfold fitsInBase256 in H; cbn zeta in H.
  replace (uint64 (uint64 (0 - 1) * 8)) with (2 ^ 64 - 8) in H by (vm_compute; reflexivity).
  change (shl64 (-1) (2 ^ 64 - 8)) with 0 in H; change (shl64 1 (2 ^ 64 - 8)) with 0 in H; lia.
Qed.

Lemma lxor_ff c : is_byte c -> Z.lxor c 0xff = 255 - c.
Proof.
  intros Hc; apply Z.eqb_eq.
  exact (range_forallb (fun c => Z.lxor c 0xff =? 255 - c) 0 256 c eq_refl Hc).
Qed.

(** The loop computes the big-endian value of the masked bytes when it does
    not overflow. *)
Lemma parseNumericLoop_false inv x b :
  (inv = 0 \/ inv = 0xff) -> 0 <= x ->
  bytes_ok ((fun c => Z.lxor c inv) <$> b) ->
  x * 256 ^ len b + be_val ((fun c => Z.lxor c inv) <$> b) < 2 ^ 63 ->
  parseNumericLoop inv false x b = Some (x * 256 ^ len b + be_val ((fun c => Z.lxor c inv) <$> b)).
Proof.
  intros Hinv; revert x; induction b as [|c b IH]; intros x Hx Hb Hv.
  - cbn [parseNumericLoop fmap list_fmap]; f_equal; unfold be_val, len; cbn [foldl length]; lia.
  - cbn [fmap list_fmap] in Hb; pose proof Hb as [Hc Hb']%Forall_cons.
    cbn [parseNumericLoop].
    unfold is_byte in Hc.
    set (c' := Z.lxor c inv) in *.
    assert (Hlen : len (c :: b) = Z.succ (len b)) by (unfold len; cbn [length]; lia).
    assert (Hval : x * 256 ^ len (c :: b) + be_val ((fun c => Z.lxor c inv) <$> c :: b) =
            (x * 256 + c') * 256 ^ len b + be_val ((fun c => Z.lxor c inv) <$> b)).
    { rewrite Hlen, Z.pow_succ_r by auto with arkive.
      unfold be_val at 1; cbn [fmap list_fmap foldl]; rewrite foldl_be_val, len_fmap; fold c'; lia. }
    pose proof (be_val_range _ Hb'); assert (1 <= 256 ^ len b) by (pose proof (Z.pow_pos_nonneg 256 (len b)); unfold len in *; lia).
    assert (x * 256 < 2 ^ 63) by nia.
    assert (Z.shiftr x 56 = 0) as -> by (rewrite Z.shiftr_div_pow2 by lia; apply Z.div_small; lia).
    cbn [Z.ltb Z.compare].
    assert (uint64 (Z.shiftl x 8) = x * 256) as ->.
    { rewrite Z.shiftl_mul_pow2 by lia; apply wrapu_id; unfold in_uint; lia. }
    change (x * 256) with (x * 2 ^ 8); rewrite <- Z.shiftl_mul_pow2 by lia.
    rewrite (lor_disjoint_add x c' 8) by lia.
    rewrite Z.shiftl_mul_pow2 by lia; change (2 ^ 8) with 256.
    rewrite IH; [by rewrite Hval | lia | done | by rewrite <- Hval].
Qed.

Lemma parseNumericLoop_true inv c b :
  (inv = 0 \/ inv = 0xff) ->
  bytes_ok ((fun c => Z.lxor c inv) <$> b) ->
  Z.land (Z.lxor c inv) 0x7f = 0 ->
  be_val ((fun c => Z.lxor c inv) <$> b) < 2 ^ 63 ->
  parseNumericLoop inv true 0 (c :: b) = Some (be_val ((fun c => Z.lxor c inv) <$> b)).
Proof.
  intros Hinv Hb Hc Hv; cbn [parseNumericLoop].
  rewrite Hc, Z.shiftr_0_l; cbn [Z.ltb Z.compare].
  change (Z.lor (uint64 (Z.shiftl 0 8)) 0) with 0.
  rewrite parseNumericLoop_false by (done || lia); f_equal; lia.
Qed.

Lemma lxor_0_fmap (b : bytes) : (fun c => Z.lxor c 0) <$> b = b.
Proof. induction b; cbn; rewrite ?Z.lxor_0_r; congruence. Qed.

(** Inverting the bytes of [x] gives the bytes of [-x-1]. *)
Lemma lxor_ff_be_bytes n x :
  (fun c => Z.lxor c 0xff) <$> be_bytes n x = be_bytes n (Z.lnot x).
Proof.
  unfold be_bytes.
  assert ((fun c => Z.lxor c 0xff) <$> le_bytes n x = le_bytes n (Z.lnot x)) as E.
  { revert x; induction n as [|n IH]; intros x; [done|]; cbn [le_bytes fmap list_fmap].
    f_equal.
    - rewrite lxor_ff by apply uint8_byte; rewrite !uint8_eq; unfold Z.lnot.
      pose proof (Z.mod_pos_bound x 256); pose proof (Z.div_mod x 256).
      apply Z.mod_unique with (- (x / 256) - 1); lia.
    - rewrite IH; f_equal; rewrite !shiftr8; unfold Z.lnot.
      apply Z.div_unique with (255 - x mod 256);
        pose proof (Z.mod_pos_bound x 256); pose proof (Z.div_mod x 256); lia. }
  rewrite <- E; by rewrite <- fmap_reverse.
Qed.

Lemma be_bytes_small n x :
  0 <= x < 256 ^ Z.of_nat n -> be_bytes (S n) x = 0 :: be_bytes n x.
Proof.
  intros Hx; rewrite be_bytes_S; f_equal.
  rewrite Z.shiftr_div_pow2 by lia.
  replace (2 ^ (8 * Z.of_nat n)) with (256 ^ Z.of_nat n) by (rewrite Z.pow_mul_r by lia; done).
  by rewrite Z.div_small.
Qed.

(** A first byte 0x80 or 0xff followed by the bytes of the number, or of its
    complement, is parsed back. *)
Lemma parseNumeric_nonneg p n x :
  0 <= x < 2 ^ 63 -> x < 256 ^ Z.of_nat n ->
  parseNumeric p (0x80 :: be_bytes n x) = (p, x).
Proof.
  intros Hx Hn; unfold parseNumeric; cbn [Z.land Pos.land Z.eqb negb].
  change (Z.land 128 128 =? 0) with false; change (Z.land 128 64 =? 0) with true; cbn [negb].
  assert (Hv : be_val (be_bytes n x) = x) by (rewrite be_val_be_bytes, Z.mod_small by lia; done).
  rewrite parseNumericLoop_true; rewrite ?lxor_0_fmap, ?Hv; auto using be_bytes_ok; [|lia].
  assert (Z.shiftr x 63 = 0) as -> by (rewrite Z.shiftr_div_pow2 by lia; apply Z.div_small; lia).
  cbn [Z.ltb Z.compare Z.eqb]; by rewrite int64_id by (unfold in_int64; lia).
Qed.

Lemma parseNumeric_neg p n x :
  - 2 ^ 63 <= x < 0 -> - 256 ^ Z.of_nat n <= x ->
  parseNumeric p (0xff :: be_bytes n x) = (p, x).
Proof.
  intros Hx Hn; unfold parseNumeric.
  change (Z.land 255 128 =? 0) with false; change (Z.land 255 64 =? 0) with false; cbn [negb].
  assert (Hl : Z.lnot x = - x - 1) by (unfold Z.lnot; lia).
  assert (Hv : be_val (be_bytes n (Z.lnot x)) = - x - 1).
  { rewrite be_val_be_bytes, Hl, Z.mod_small; lia. }
  rewrite parseNumericLoop_true; rewrite ?lxor_ff_be_bytes, ?Hv; auto using be_bytes_ok; [|lia].
  assert (Z.shiftr (- x - 1) 63 = 0) as -> by (rewrite Z.shiftr_div_pow2 by lia; apply Z.div_small; lia).
  cbn [Z.ltb Z.compare Z.eqb Pos.eqb]; rewrite int64_id by (unfold in_int64; lia).
  f_equal; unfold Z.lnot; lia.
Qed.

(** The bytes [formatNumeric] writes for a number that fits. *)
Lemma formatNumeric_layout f b x n :
  length b = S n -> - 256 ^ Z.of_nat n <= x < 256 ^ Z.of_nat n ->
  fitsInBase256 (len b) x = true ->
  formatNumeric f b x = (f, (if 0 <=? x then 0x80 else 0xff) :: be_bytes n x).
Proof.
  intros Hl Hx Hf; unfold formatNumeric; rewrite Hf; f_equal.
  rewrite formatNumericLoop_eq, Hl by lia.
  rewrite drop_ge, app_nil_r, be_bytes_S by lia; cbn; f_equal.
  rewrite Z.shiftr_div_pow2 by lia.
  replace (2 ^ (8 * Z.of_nat n)) with (256 ^ Z.of_nat n) by (rewrite Z.pow_mul_r by lia; done).
  destruct (Z.leb_spec 0 x).
  - rewrite Z.div_small by lia; done.
  - replace (x / 256 ^ Z.of_nat n) with (-1); [done|].
    apply Z.div_unique with (x + 256 ^ Z.of_nat n); lia.
Qed.

Lemma formatNumeric_range (b : bytes) x n :
  length b = S n -> in_int64 x -> fitsInBase256 (len b) x = true ->
  - 256 ^ Z.of_nat n <= x < 256 ^ Z.of_nat n.
Proof.
  intros Hl Hx Hf; assert (El : len b = Z.of_nat (S n)) by (unfold len; by rewrite Hl).
  rewrite El in Hf; pose proof (fitsInBase256_spec (Z.of_nat (S n)) x ltac:(lia) Hx Hf) as Hf'.
  replace (256 ^ Z.of_nat n) with (2 ^ (8 * Z.of_nat n)) by (rewrite Z.pow_mul_r by lia; done).
  replace (8 * (Z.of_nat (S n) - 1)) with (8 * Z.of_nat n) in Hf' by lia; done.
Qed.

Lemma parseNumeric_formatNumeric f p b x :
  in_int64 x -> fitsInBase256 (len b) x = true ->
  parseNumeric p (formatNumeric f b x).2 = (p, x).
Proof.
  intros Hx Hf; pose proof (fitsInBase256_pos _ _ Hx (len_nonneg b) Hf) as Hpos.
  destruct (length b) as [|n] eqn:Hl; [unfold len in Hpos; lia|].
  pose proof (formatNumeric_range b x n Hl Hx Hf) as Hr.
  rewrite (formatNumeric_layout f b x n) by done; cbn [snd]; unfold in_int64 in Hx.
  destruct (Z.leb_spec 0 x); [apply parseNumeric_nonneg | apply parseNumeric_neg]; lia.
Qed.

(** ** Octal numbers *)
Lemma Repeat_single c n : Repeat [c] n = replicate (Z.to_nat n) c.
Proof.
  unfold Repeat; induction (Z.to_nat n) as [|m IH]; [done|]; cbn.
  f_equal; exact IH.
Qed.

Lemma digit_ascii base s :
  2 <= base <= 10 -> Forall (is_digit base) s -> Forall (fun c => 0 <= c < 0x80) s.
Proof. intros Hb Hs; eapply Forall_impl; [exact Hs|]; unfold is_digit; cbn; lia. Qed.

Lemma digit_notin base s c :
  2 <= base <= 10 -> Forall (is_digit base) s -> ~ is_digit base c -> c ∉ s.
Proof. intros Hb Hs Hc Hin; rewrite Forall_forall in Hs; auto. Qed.

(** Digits between any NULs and spaces parse to their value. *)
Lemma parseOctal_padded p pre s post :
  Forall (.∈ [32; 0]) pre -> Forall (.∈ [32; 0]) post ->
  s <> [] -> Forall (is_digit 8) s -> dval 8 s < 2 ^ 63 ->
  parseOctal p (pre ++ s ++ post) = (p, dval 8 s).
Proof.
  intros Hpre Hpost Hne Hs Hv; unfold parseOctal.
  rewrite Trim_padded; [|done..|].
  - rewrite (proj2 (Z.eqb_neq _ _)) by (destruct s; unfold len; simpl; done || lia).
    rewrite parseString_all by (eapply digit_notin; [|done|]; unfold is_digit; lia).
    rewrite ParseUint_digits by (done || lia).
    pose proof (dval_range 8 s ltac:(lia) Hs).
    rewrite (proj2 (Z.ltb_lt _ _)) by lia; by rewrite int64_id by (unfold in_int64; lia).
  - eapply Forall_impl; [exact Hs|]; cbn; unfold is_digit; intros c Hc Hin.
    rewrite !elem_of_cons, elem_of_nil in Hin; lia.
Qed.

(** A number of [len b] octal digits or fewer fills the field with leading
    zeros and one NUL, the NUL giving way to a last digit. *)
Lemma formatOctal_layout f b x :
  0 <= x < 8 ^ len b -> (0 < length b)%nat ->
  exists s, formatOctal f b x = (f, s ++ replicate (length b - length s) 0) /\
    Forall (is_digit 8) s /\ dval 8 s = x /\ s <> [] /\
    (length s <= length b <= S (length s))%nat /\
    (x < 8 ^ (len b - 1) -> (1 < length b)%nat -> length b = S (length s)).
Proof.
  intros Hx Hb; unfold formatOctal; rewrite FormatInt_nonneg by lia.
  destruct (FormatUint_spec 8 x) as (Hd & Hv & Hne & _); [lia..|].
  destruct (FormatUint_len 8 x (len b)) as [Hl1 Hl2]; [lia | unfold len; lia | done |].
  set (u := FormatUint x 8) in *.
  set (s := if 0 <? len b - len u - 1 then Repeat [48] (len b - len u - 1) ++ u else u).
  assert (Hs : s = replicate (Z.to_nat (len b - len u - 1)) 48 ++ u).
  { unfold s; rewrite Repeat_single.
    destruct (Z.ltb_spec 0 (len b - len u - 1)); [done|].
    by replace (Z.to_nat (len b - len u - 1)) with 0%nat by lia. }
  assert (Hsd : Forall (is_digit 8) s).
  { rewrite Hs; apply Forall_app; split; [apply Forall_replicate; unfold is_digit; lia | done]. }
  assert (Hsl : length s = Nat.max (length u) (length b - 1)).
  { rewrite Hs, length_app, length_replicate; unfold len in *; lia. }
  destruct (ascii_bytes_ok s (digit_ascii 8 s ltac:(lia) Hsd)) as [_ Hsa].
  unfold len in *; exists s; rewrite formatString_fits by (done || lia).
  split; [|split; [done|split; [by rewrite Hs, dval_replicate0|split; [|split]]]].
  - f_equal; f_equal; destruct (Nat.ltb_spec (length s) (length b)).
    + rewrite drop_ge by lia; by replace (length b - length s)%nat with 1%nat by lia.
    + by replace (length b - length s)%nat with 0%nat by lia.
  - rewrite Hs; by destruct (replicate _ _), u.
  - lia.
  - intros Hx' Hb'; destruct (FormatUint_len 8 x (len b - 1)) as [_ Hl3];
      [lia | unfold len; lia | unfold len in *; lia |]; fold u in Hl3; unfold len in *; lia.
Qed.

Lemma parseOctal_formatOctal f p b x :
  0 <= x < 8 ^ len b -> x < 2 ^ 63 -> (0 < length b)%nat ->
  parseOctal p (formatOctal f b x).2 = (p, x) /\ (formatOctal f b x).1 = f.
Proof.
  intros Hx Hx' Hb; destruct (formatOctal_layout f b x Hx Hb) as (s & -> & Hd & <- & Hn & _).
  split; [|done]; cbn [snd].
  apply (parseOctal_padded p []); [constructor | | done..].
  apply Forall_replicate; set_solver.
Qed.

(** A field of octal digits is not mistaken for a binary one. *)
Lemma parseNumeric_digits p c s : is_digit 8 c -> parseNumeric p (c :: s) = parseOctal p (c :: s).
Proof.
  intros Hc; unfold parseNumeric.
  assert ((Z.land c 0x80 =? 0) = true) as ->; [|done].
  exact (range_forallb (fun c => Z.land c 0x80 =? 0) 48 8 c eq_refl ltac:(unfold is_digit in Hc; lia)).
Qed.

Lemma parseNumeric_formatOctal f p b x :
  0 <= x < 8 ^ len b -> x < 2 ^ 63 -> (0 < length b)%nat ->
  parseNumeric p (formatOctal f b x).2 = (p, x).
Proof.
  intros Hx Hx' Hb.
  destruct (parseOctal_formatOctal f p b x Hx Hx' Hb) as [Hp _].
  destruct (formatOctal_layout f b x Hx Hb) as (s & Hs & Hd & _ & Hn & _).
  rewrite Hs in *; cbn [snd] in *; destruct s as [|c s]; [done|].
  apply Forall_cons_1 in Hd as [Hc _]; cbn [app] in *; by rewrite parseNumeric_digits.
Qed.

(** ** PAX records *)
Lemma len_paxRecordBytes size k v :
  len (paxRecordBytes size k v) = len (Itoa size) + (len k + len v + 3).
Proof. unfold paxRecordBytes; rewrite !len_app; change (len [32]) with 1; change (len [61]) with 1;
  change (len [10]) with 1; lia. Qed.

(** Adding its own digit count to a number adds at most one digit. *)
Lemma Itoa_len_add a :
  0 < a -> let d := len (Itoa a) in
  len (Itoa (a + d)) = d \/ (len (Itoa (a + d)) = d + 1 /\ len (Itoa (a + d + 1)) = d + 1).
Proof.
  intros Ha d; unfold d, Itoa in *.
  rewrite !FormatInt_nonneg by (unfold len; lia).
  set (u := len (FormatUint a 10)).
  destruct (FormatUint_spec 10 a) as (Hd & Hv & Hne & Hlo & _); [lia..|].
  fold u in Hlo; specialize (Hlo Ha).
  pose proof (dval_range 10 _ ltac:(lia) Hd) as Hhi; rewrite Hv in Hhi; fold u in Hhi.
  assert (1 <= u) by (unfold u, len; destruct (FormatUint a 10); [done | simpl; lia]).
  assert (Hu : u < 10 ^ u) by (apply Z.pow_gt_lin_r; lia).
  assert (10 ^ (u + 1) = 10 * 10 ^ u) by (rewrite Z.pow_add_r by lia; lia).
  assert (Hlow : forall y, 10 ^ (u - 1) <= y -> u <= len (FormatUint y 10)).
  { intros y Hy; pose proof (FormatUint_len_lower 10 y (u - 1)); lia. }
  destruct (Z.lt_ge_cases (a + u) (10 ^ u)).
  - left; pose proof (FormatUint_len 10 (a + u) u); pose proof (Hlow (a + u)); lia.
  - right; pose proof (FormatUint_len 10 (a + u) (u + 1));
      pose proof (FormatUint_len_lower 10 (a + u) u);
      pose proof (FormatUint_len 10 (a + u + 1) (u + 1));
      pose proof (FormatUint_len_lower 10 (a + u + 1) u); lia.
Qed.

(** The size written at the front of a record is the record's own length. *)
Lemma formatPAXRecord_size k v :
  exists n, formatPAXRecord k v = paxRecordBytes n k v /\ n = len (formatPAXRecord k v) /\
    len k + len v + 3 < n.
Proof.
  unfold formatPAXRecord; set (a := len k + len v + 3).
  assert (0 < a) by (unfold a; pose proof (len_nonneg k); pose proof (len_nonneg v); lia).
  rewrite !len_paxRecordBytes; fold a.
  assert (Hpos : forall x, 0 <= x -> 0 < len (Itoa x)).
  { intros x Hx; unfold Itoa; rewrite FormatInt_nonneg by lia.
    destruct (FormatUint_spec 10 x) as (_ & _ & Hne & _); [lia..|].
    unfold len; destruct (FormatUint x 10); [done | simpl; lia]. }
  pose proof (Hpos a ltac:(lia)).
  destruct (Itoa_len_add a ltac:(done)) as [E | [E E']].
  - rewrite (proj2 (Z.eqb_eq _ _)) by lia; cbn [negb].
    exists (a + len (Itoa a)); rewrite len_paxRecordBytes; fold a; split; [done | lia].
  - rewrite (proj2 (Z.eqb_neq _ _)) by lia; cbn [negb].
    replace (len (Itoa (a + len (Itoa a))) + a) with (a + len (Itoa a) + 1) by lia.
    exists (a + len (Itoa a) + 1); rewrite len_paxRecordBytes; fold a; split; [done | lia].
Qed.

Lemma slice_app_l {A} (l1 l2 : list A) : slice (l1 ++ l2) 0 (len l1) = l1.
Proof. unfold slice, len; rewrite Z.sub_0_r, Nat2Z.id, drop_0; by rewrite take_app_length. Qed.

Lemma slice_app_r {A} (l1 l2 : list A) j :
  j = len l1 + len l2 -> slice (l1 ++ l2) (len l1) j = l2.
Proof.
  intros ->; unfold slice, len; rewrite Nat2Z.id, drop_app_length.
  apply take_ge; lia.
Qed.

Lemma slice_mid {A} (l1 l2 l3 : list A) i j :
  i = len l1 -> j = len l1 + len l2 -> slice (l1 ++ l2 ++ l3) i j = l2.
Proof.
  intros -> ->; unfold slice, len; rewrite Nat2Z.id, drop_app_length.
  replace (Z.to_nat _) with (length l2) by lia; by rewrite take_app_length.
Qed.

Lemma gslice_mid l1 l2 l3 i j :
  i = len l1 -> j = len l1 + len l2 -> gslice (l1 ++ l2 ++ l3) i j = Ok l2.
Proof.
  intros Hi Hj; unfold gslice.
  pose proof (len_nonneg l1); pose proof (len_nonneg l2); pose proof (len_nonneg l3).
  rewrite !len_app, !(proj2 (Z.leb_le _ _)) by lia; cbn [andb].
  by rewrite (slice_mid l1 l2 l3) by done.
Qed.

Lemma Itoa_digits n : 0 <= n -> Forall (is_digit 10) (Itoa n) /\ Itoa n <> [].
Proof.
  intros Hn; unfold Itoa; rewrite FormatInt_nonneg by lia.
  by destruct (FormatUint_spec 10 n) as (? & _ & ? & _); [lia..|].
Qed.

(** A well-formed record at the front of a string is split off. *)
Lemma parsePAXRecord_wf n k v r :
  n = len (paxRecordBytes n k v) -> 5 <= n < 2 ^ 63 -> 61 ∉ k ->
  parsePAXRecord (paxRecordBytes n k v ++ r) = Ok (k, v, r).
Proof.
  intros Hn H5 Hk; unfold parsePAXRecord.
  destruct (Itoa_digits n) as [Hd Hne]; [lia|].
  assert (Hsp : 32 ∉ Itoa n) by (eapply (digit_notin 10); [lia | done | unfold is_digit; lia]).
  rewrite len_paxRecordBytes in Hn.
  pose proof (len_nonneg k); pose proof (len_nonneg v); pose proof (len_nonneg r).
  assert (E : paxRecordBytes n k v ++ r = (Itoa n ++ [32]) ++ (k ++ 61 :: v) ++ [10] ++ r).
  { unfold paxRecordBytes; rewrite <- !app_assoc; done. }
  assert (El : len (paxRecordBytes n k v ++ r) = n + len r) by (rewrite len_app, len_paxRecordBytes; lia).
  assert (Esp : IndexByte (paxRecordBytes n k v ++ r) 32 = len (Itoa n)).
  { rewrite E, <- app_assoc; by apply IndexByte_first. }
  rewrite Esp, (proj2 (Z.eqb_neq _ _)) by (unfold len; lia).
  replace (slice (paxRecordBytes n k v ++ r) 0 (len (Itoa n))) with (Itoa n)
    by (rewrite E, <- app_assoc; symmetry; apply slice_app_l).
  rewrite ParseInt_Itoa by lia.
  rewrite bool_decide_eq_false_2 by (intros H'; by apply H'); cbn [orb].
  rewrite (proj2 (Z.ltb_ge n 5)) by lia.
  rewrite El, (proj2 (Z.ltb_ge _ n)) by lia; cbn [orb].
  rewrite E, (gslice_mid (Itoa n ++ [32]) (k ++ 61 :: v));
    [|by lens | lens; lia].
  cbn [obind]; rewrite (app_assoc (Itoa n ++ [32])).
  rewrite (gslice_mid _ [10]);
    [|lens; lia
     |lens; lia].
  cbn [obind]; rewrite app_assoc, <- (app_nil_r r), app_assoc, <- app_assoc.
  rewrite (gslice_mid _ r []);
    [|lens; lia
     |lens; lia].
  cbn [obind]; rewrite bool_decide_eq_true_2 by done; cbn [negb].
  rewrite IndexByte_first by done; rewrite (proj2 (Z.eqb_neq _ _)) by lia.
  rewrite app_nil_r, slice_app_l; do 3 f_equal.
  replace (k ++ 61 :: v) with ((k ++ [61]) ++ v) by (by rewrite <- app_assoc).
  replace (len k + 1) with (len (k ++ [61])) by (by rewrite len_app).
  rewrite slice_app_r; [done | by rewrite !len_app].
Qed.

(** A record that is written is parsed back. *)
Lemma parsePAXRecord_format k v r :
  61 ∉ k -> 0 < len k + len v < 2 ^ 62 -> parsePAXRecord (formatPAXRecord k v ++ r) = Ok (k, v, r).
Proof.
  intros Hk Hl; destruct (formatPAXRecord_size k v) as (n & E & En & Hlo).
  rewrite E in En |- *; apply parsePAXRecord_wf; [done| |done].
  split; [lia|]; rewrite len_paxRecordBytes in En.
  pose proof (Z.div_mod n 4 ltac:(lia)); pose proof (Z.mod_pos_bound n 4 ltac:(lia)).
  assert (len (Itoa n) <= n / 4 + 1); [|lia].
  unfold Itoa; rewrite FormatInt_nonneg by lia.
  apply (FormatUint_len 10 n (n / 4 + 1)); [lia..|split; [lia|]].
  apply Z.lt_le_trans with (5 ^ (n / 4 + 1)); [|apply Z.pow_le_mono_l; lia].
  assert (forall m, 0 <= m -> 4 * m + 4 <= 5 ^ (m + 1)) as G.
  { intros m Hm; pattern m; apply natlike_ind; [done| |done].
    intros y Hy IH; replace (Z.succ y + 1) with (Z.succ (y + 1)) by lia.
    rewrite Z.pow_succ_r by lia; lia. }
  specialize (G (n / 4) ltac:(lia)); lia.
Qed.

Lemma gslice_inv s i j t :
  gslice s i j = Ok t -> exists a b, s = a ++ t ++ b /\ len a = i /\ len t = j - i /\ 0 <= i <= j /\ j <= len s.
Proof.
  unfold gslice; destruct (_ && _) eqn:E; [|done]; intros [= <-].
  apply andb_true_iff in E as [[E1%Z.leb_le E2%Z.leb_le]%andb_true_iff E3%Z.leb_le].
  exists (take (Z.to_nat i) s), (drop (Z.to_nat (j - i)) (drop (Z.to_nat i) s)).
  unfold slice; rewrite !take_drop; split; [done|].
  unfold len in *; rewrite !length_take, length_drop; lia.
Qed.

Lemma len_length {A B} (l : list A) (l' : list B) : len l = len l' -> length l = length l'.
Proof. unfold len; lia. Qed.

(** What a successful parse says about the string. *)
Lemma parsePAXRecord_inv s k v r :
  parsePAXRecord s = Ok (k, v, r) ->
  exists ns, s = ns ++ [32] ++ (k ++ [61] ++ v) ++ [10] ++ r /\ (61 ∉ k) /\
    ParseInt ns 10 = (len s - len r, None).
Proof.
  unfold parsePAXRecord; intros H.
  destruct (IndexByte_spec s 32) as [[Es _] | (ns & s2 & Es & Hns & Ei)]; [by rewrite Es in H|].
  rewrite Ei in H; destruct (len ns =? -1); [done|].
  assert (slice s 0 (len ns) = ns) as E by (rewrite Es; apply slice_app_l); rewrite E in H; clear E.
  destruct (ParseInt ns 10) as [n perr] eqn:Hn.
  destruct (bool_decide_reflect (perr <> None)) as [|Hp]; [done|]; cbn [orb] in H.
  destruct (Z.ltb_spec n 5), (Z.ltb_spec (len s) n); try done; cbn [orb] in H.
  destruct (gslice s (len ns + 1) (n - 1)) as [rec| | |] eqn:G1; try done; cbn [obind] in H.
  destruct (gslice s (n - 1) n) as [nl| | |] eqn:G2; try done; cbn [obind] in H.
  destruct (gslice s n (len s)) as [rem| | |] eqn:G3; try done; cbn [obind] in H.
  destruct (bool_decide_reflect (nl = [10])) as [->|]; [|done]; cbn [negb] in H.
  apply gslice_inv in G1 as (a1 & b1 & E1 & L1 & L1' & ?).
  apply gslice_inv in G2 as (a2 & b2 & E2 & L2 & L2' & ?).
  apply gslice_inv in G3 as (a3 & b3 & E3 & L3 & L3' & ?).
  assert (a1 = ns ++ [32]) as ->.
  { rewrite Es in E1; change (32 :: s2) with ([32] ++ s2) in E1; rewrite app_assoc in E1.
    apply app_inj_1 in E1 as [-> _]; [done|]; apply len_length; by lens. }
  assert (a2 = (ns ++ [32]) ++ rec /\ [10] ++ b2 = b1) as [-> <-].
  { rewrite E1, app_assoc in E2; apply app_inj_1 in E2 as [-> ->]; [done|].
    apply len_length; revert L1; lens; lia. }
  assert (b3 = []) as ->.
  { apply len_nil_inv; apply (f_equal len) in E3; revert E3; lens; lia. }
  rewrite app_nil_r in E3.
  assert (b2 = rem) as ->.
  { rewrite E2, app_assoc in E3; apply app_inj_1 in E3 as [_ ->]; [done|].
    apply len_length; revert L1 L2 L3; lens; lia. }
  destruct (IndexByte_spec rec 61) as [[Er _] | (k' & v' & Er & Hk & Ej)]; [by rewrite Er in H|].
  rewrite Ej in H; destruct (len k' =? -1); [done|].
  rewrite Er, slice_app_l in H.
  assert (slice (k' ++ 61 :: v') (len k' + 1) (len (k' ++ 61 :: v')) = v') as Ev.
  { replace (k' ++ 61 :: v') with ((k' ++ [61]) ++ v') by (by rewrite <- app_assoc).
    replace (len k' + 1) with (len (k' ++ [61])) by (by lens).
    apply slice_app_r; by lens. }
  rewrite Ev in H; injection H as <- <- <-.
  exists ns; rewrite E1, Er at 1; split; [by rewrite <- !app_assoc|]; split; [done|].
  replace (len s - len rem) with n by lia; destruct perr; [by destruct Hp | done].
Qed.

(** A parsed record is at least five bytes long, so parsing makes progress. *)
Lemma parsePAXRecord_shorter s k v r :
  parsePAXRecord s = Ok (k, v, r) -> (length r < length s)%nat.
Proof.
  intros (ns & -> & _)%parsePAXRecord_inv; rewrite !length_app; simpl; lia.
Qed.

Lemma parsePAXRecord_suffix s k v r : parsePAXRecord s = Ok (k, v, r) -> r `suffix_of` s.
Proof. intros (ns & -> & _)%parsePAXRecord_inv; rewrite !app_assoc; eexists; reflexivity. Qed.

(** ** PAX times *)
(** The first nine digits of a fraction, padded with zeros: its nanoseconds. *)
Definition frac_nanos (sn : bytes) : Z := dval 10 (take 9 (sn ++ replicate 9 48)).

Lemma digits10_spec c : c ∈ digits10 <-> is_digit 10 c.
Proof.
  unfold is_digit; split.
  - intros Hc; assert (E : forallb (fun c => (48 <=? c) && (c <? 58)) digits10 = true) by reflexivity.
    rewrite forallb_forall in E; apply list_elem_of_In, E in Hc; lia.
  - intros Hc; apply (bool_decide_eq_true_1 (c ∈ digits10)).
    exact (range_forallb (fun c => bool_decide (c ∈ digits10)) 48 10 c eq_refl Hc).
Qed.

Lemma frac_nanos_digits sn :
  Forall (is_digit 10) sn ->
  Forall (is_digit 10) (take 9 (sn ++ replicate 9 48)) /\
  length (take 9 (sn ++ replicate 9 48)) = 9%nat /\ 0 <= frac_nanos sn < 1000000000.
Proof.
  intros Hs; assert (Hd : Forall (is_digit 10) (take 9 (sn ++ replicate 9 48))).
  { apply Forall_take, Forall_app; split; [done | apply Forall_replicate; unfold is_digit; lia]. }
  assert (Hl : length (take 9 (sn ++ replicate 9 48)) = 9%nat).
  { rewrite length_take, length_app, length_replicate; lia. }
  split; [done|]; split; [done|].
  pose proof (dval_range 10 _ ltac:(lia) Hd) as Hr; unfold len in Hr; rewrite Hl in Hr; done.
Qed.

Lemma frac_parse sn :
  sn <> [] -> Forall (is_digit 10) sn ->
  ParseInt (if len sn <? maxNanoSecondDigits
            then sn ++ Repeat [48] (maxNanoSecondDigits - len sn)
            else slice sn 0 maxNanoSecondDigits) 10 = (frac_nanos sn, None).
Proof.
  intros Hne Hs; destruct (frac_nanos_digits sn Hs) as (Hd & Hl & Hr).
  assert (E : (if len sn <? maxNanoSecondDigits
            then sn ++ Repeat [48] (maxNanoSecondDigits - len sn)
            else slice sn 0 maxNanoSecondDigits) = take 9 (sn ++ replicate 9 48)).
  { unfold maxNanoSecondDigits, slice, len in *; rewrite Repeat_single.
    destruct (Z.ltb_spec (Z.of_nat (length sn)) 9).
    - rewrite take_app_ge by lia; f_equal; rewrite take_replicate; f_equal; lia.
    - rewrite take_app_le by lia; done. }
  rewrite E; apply ParseInt_digits; [lia | by destruct (take 9 _) | done |].
  unfold frac_nanos in Hr; lia.
Qed.

(** ** Properties *)

(** C17: base-256 round trip. For every [int64] [x] and every field [b],
    [formatNumeric] leaves the formatter's error alone and [parseNumeric]
    reads [x] back, negative numbers included, exactly when
    [fitsInBase256] says the number fits; otherwise the formatter ends with
    [ErrFieldTooLong]. *)
Theorem formatNumeric_roundtrip f p b x :
  in_int64 x ->
  if fitsInBase256 (len b) x
  then (formatNumeric f b x).1 = f /\ parseNumeric p (formatNumeric f b x).2 = (p, x)
  else (formatNumeric f b x).1 = Some ErrFieldTooLong.
Proof.
  intros Hx; destruct (fitsInBase256 (len b) x) eqn:Hf.
  - split; [unfold formatNumeric; by rewrite Hf | by apply parseNumeric_formatNumeric].
  - unfold formatNumeric; rewrite Hf; by destruct (formatOctal f b 0).
Qed.

Lemma formatNumeric_roundtrip_witness :
  in_int64 (-5) /\ fitsInBase256 8 (-5) = true /\
  parseNumeric None (formatNumeric None (replicate 8 0) (-5)).2 = (None, -5).
Proof.
  assert (H : in_int64 (-5)) by (unfold in_int64; lia).
  split; [exact H|]; split; [reflexivity|].
  exact (proj2 (formatNumeric_roundtrip None None (replicate 8 0) (-5) H)).
Defined.

(** C19: octal round trip and its bound. A number below [8^n] written by
    [formatOctal] to a field of [n] bytes is read back by [parseOctal] and by
    [parseNumeric], and sets no error; a number from [8^n] on sets
    [ErrFieldTooLong] and leaves the field untouched. *)
Theorem formatOctal_roundtrip f p b x :
  0 <= x < 2 ^ 63 -> (0 < length b)%nat ->
  if x <? 8 ^ len b
  then (formatOctal f b x).1 = f /\ parseOctal p (formatOctal f b x).2 = (p, x) /\
       parseNumeric p (formatOctal f b x).2 = (p, x)
  else formatOctal f b x = (Some ErrFieldTooLong, b).
Proof.
  intros Hx Hb; destruct (Z.ltb_spec x (8 ^ len b)).
  - destruct (parseOctal_formatOctal f p b x) as [? ?]; [lia..|].
    rewrite parseNumeric_formatOctal by lia; auto.
  - unfold formatOctal; rewrite FormatInt_nonneg by lia.
    pose proof (FormatUint_len_lower 8 x (len b) ltac:(lia) (len_nonneg b) ltac:(lia)).
    rewrite (proj2 (Z.ltb_ge 0 _)) by lia; unfold formatString.
    by rewrite (proj2 (Z.ltb_lt _ _)).
Qed.

Lemma formatOctal_roundtrip_witness :
  parseOctal None (formatOctal None (replicate 8 0) 493).2 = (None, 493).
Proof.
  exact (proj1 (proj2 (formatOctal_roundtrip None None (replicate 8 0) 493
    ltac:(lia) ltac:(simpl; lia)))).
Defined.

(** C18: PAX record round trip. A record is written with its own total length
    in front, and [parsePAXRecord] splits key, value and the rest of the
    string off it, whatever follows, provided the key holds no equals sign
    and key and value are not both empty. *)
Theorem formatPAXRecord_roundtrip k v r :
  61 ∉ k -> 0 < len k + len v < 2 ^ 62 ->
  (exists n, formatPAXRecord k v = paxRecordBytes n k v /\ n = len (formatPAXRecord k v)) /\
  parsePAXRecord (formatPAXRecord k v ++ r) = Ok (k, v, r).
Proof.
  intros Hk Hl; split; [|by apply parsePAXRecord_format].
  destruct (formatPAXRecord_size k v) as (n & E & En & _); by exists n.
Qed.

Lemma formatPAXRecord_roundtrip_witness :
  parsePAXRecord (formatPAXRecord (str "path") (str "dir/file") ++ str "rest") =
    Ok (str "path", str "dir/file", str "rest").
Proof.
  refine (proj2 (formatPAXRecord_roundtrip (str "path") (str "dir/file") (str "rest") _ _)).
  - apply (bool_decide_eq_true_1 _); vm_compute; reflexivity.
  - vm_compute; split; reflexivity.
Defined.

(** C29: a PAX record whose length field is padded with zeros makes
    [parsePAXRecord] slice with its bounds out of order: the call panics
    instead of returning [ErrHeader]. *)
Theorem parsePAXRecord_padded_panics m s :
  (3 <= m)%nat -> parsePAXRecord (replicate m 48 ++ [53; 32] ++ s) = Panic.
Proof.
  intros Hm; unfold parsePAXRecord.
  assert (Hd : Forall (is_digit 10) (replicate m 48 ++ [53])).
  { apply Forall_app; split; [apply Forall_replicate | repeat constructor]; unfold is_digit; lia. }
  assert (E : replicate m 48 ++ [53; 32] ++ s = (replicate m 48 ++ [53]) ++ [32] ++ s)
    by (by rewrite <- app_assoc).
  assert (El : len (replicate m 48 ++ [53]) = Z.of_nat m + 1).
  { lens; unfold len; rewrite length_replicate; lia. }
  rewrite E; cbn [app]; rewrite IndexByte_first by (eapply (digit_notin 10); [lia|done|unfold is_digit; lia]).
  rewrite El, (proj2 (Z.eqb_neq _ _)) by lia; rewrite <- El, slice_app_l.
  rewrite (ParseInt_digits 10) by (done || (rewrite dval_replicate0; vm_compute; done) || (by destruct m)).
  rewrite dval_replicate0; change (dval 10 [53]) with 5.
  rewrite bool_decide_eq_false_2 by (intros H'; by apply H'); cbn [orb Z.ltb Z.compare Pos.compare Pos.compare_cont].
  rewrite (proj2 (Z.ltb_ge _ 5)) by (rewrite len_app, El, len_cons; pose proof (len_nonneg s); lia).
  unfold gslice at 1; rewrite El, (proj2 (Z.leb_gt (Z.of_nat m + 1 + 1) (5 - 1))) by lia.
  by rewrite andb_false_r.
Qed.

Lemma parsePAXRecord_padded_panics_witness :
  parsePAXRecord (str "0005 k=v") = Panic.
Proof. exact (parsePAXRecord_padded_panics 3 (str "k=v") (le_n 3)). Defined.

(** C27: [parsePAXTime] on [seconds.fraction]. Any number of fraction digits is
    read to nanosecond precision by truncation or padding, a sign on the
    seconds applies to the fraction as well, the nanoseconds are normalised
    to [0, 10^9); a fraction with a byte that is not a digit, or seconds that
    do not parse, give [ErrHeader]. *)
Theorem parsePAXTime_fraction ss sn :
  46 ∉ ss -> sn <> [] ->
  match ParseInt ss 10 with
  | (_, Some _) => parsePAXTime (ss ++ 46 :: sn) = Err ErrHeader
  | (secs, None) =>
      (Forall (is_digit 10) sn -> - 2 ^ 62 <= secs < 2 ^ 62 ->
       exists t, parsePAXTime (ss ++ 46 :: sn) = Ok t /\ 0 <= t_nsec t < 1000000000 /\
         time_nanos t = secs * 1000000000 +
           (if bool_decide (head ss = Some 45) then - frac_nanos sn else frac_nanos sn)) /\
      (~ Forall (is_digit 10) sn -> parsePAXTime (ss ++ 46 :: sn) = Err ErrHeader)
  end.
Proof.
  intros Hss Hsn; unfold parsePAXTime; rewrite IndexByte_first by done.
  rewrite (proj2 (Z.leb_le 0 (len ss))) by auto with arkive.
  rewrite slice_app_l.
  replace (ss ++ 46 :: sn) with ((ss ++ [46]) ++ sn) by (by rewrite <- app_assoc).
  replace (len ss + 1) with (len (ss ++ [46])) by (by lens).
  rewrite slice_app_r by (by lens).
  destruct (ParseInt ss 10) as [secs [e|]]; [done|].
  rewrite (proj2 (Z.eqb_neq (len sn) 0)) by (destruct sn; [done | unfold len; simpl; lia]).
  assert (Ht : Trim sn digits10 = [] <-> Forall (is_digit 10) sn).
  { rewrite Trim_nil; split; intros H; (eapply Forall_impl; [exact H|]); cbn; apply digits10_spec. }
  destruct (bool_decide_reflect (Trim sn digits10 = [])) as [Hd|Hd]; cbn [negb]; rewrite Ht in Hd; [|done].
  split; [|done]; intros _ Hs; destruct (frac_nanos_digits sn Hd) as (_ & _ & Hr).
  rewrite (frac_parse sn Hsn Hd).
  assert (G : forall n, - 1000000000 < n < 1000000000 ->
    exists t, Ok (Unix secs n) = Ok t /\ 0 <= t_nsec t < 1000000000 /\
      time_nanos t = secs * 1000000000 + n).
  { intros n Hn; exists (Unix secs n); destruct (Unix_nanos secs n); auto. }
  case_bool_decide as Hh.
  - destruct ss as [|c ss]; [done|]; injection Hh as ->.
    destruct (G (- frac_nanos sn)) as (t & Et & ?); [lia|].
    exists t; rewrite <- Et; split; [do 2 f_equal; lia | done].
  - assert (match ss with 45 :: _ => Ok (Unix secs (-1 * frac_nanos sn))
            | _ => Ok (Unix secs (frac_nanos sn)) end = Ok (Unix secs (frac_nanos sn))) as ->.
    { destruct ss as [|c ss]; [done|].
      destruct c as [|p|]; try done; do 6 (destruct p as [p|p|]; try done). }
    apply G; lia.
Qed.

Lemma parsePAXTime_fraction_witness :
  exists t, parsePAXTime (str "-1.5") = Ok t /\ time_nanos t = -1500000000.
Proof.
  destruct (proj1 (parsePAXTime_fraction (str "-1") (str "5")
    ltac:(apply (bool_decide_eq_true_1 _); vm_compute; reflexivity) ltac:(discriminate))
    ltac:(repeat constructor; vm_compute; discriminate) ltac:(vm_compute; split; [discriminate|reflexivity]))
    as (t & Ht & _ & Hn).
  exists t; split; [exact Ht | rewrite Hn; vm_compute; reflexivity].
Defined.
