(* ===== verification/GoIO.v ===== *)
(** * Go's io package, as far as the archive packages use it

    An [io.Reader] the caller supplies is an instance of [IoReader]: the
    result of [Read] on a buffer of the given length, and of [Seek] relative
    to the current position when the value also implements [io.Seeker]. The
    library loops ([io.ReadFull], [io.CopyN] into [ioutil.Discard],
    [ioutil.ReadAll]) are written over any read method of the model; their
    fuel bounds the number of calls, as a reader is free to return no bytes
    and no error for ever. *)
From S2P Require Import Prelude GoInt.
Open Scope go_scope.

Class IoReader (S : Type) := {
  io_read : S -> Z -> bytes * option error * S;
  io_seek : option (S -> Z -> (Z + error) * S)
}.

(** [Read(b)]: the bytes stored in [b[0:n]] and the error. *)
Definition readMethod (T : Type) : Type := Z -> M T (bytes * option error).

Definition ioRead {S} `{IoReader S} : readMethod S :=
  fun n s => let '(bs, e, s') := io_read s n in (Ok (bs, e), s').

Section Loops.
Context {T : Type} (rd : readMethod T).

(** [io.ReadFull]: the bytes read and the error; the loop of
    [io.ReadAtLeast] with [n] bytes still missing. *)
Fixpoint readFullLoop (fuel : nat) (n : Z) (acc : bytes) : M T (bytes * option error) :=
  if n <=? 0 then ret (acc, None)
  else match fuel with
       | O => lift OutOfFuel
       | S f =>
           let! (bs, e) := rd n in
           let acc := acc ++ bs in
           let n := n - len bs in
           match e with
           | None => readFullLoop f n acc
           | Some err =>
               ret (acc, if n <=? 0 then None
                         else if (0 <? len acc) && bool_decide (err = EOF) then Some ErrUnexpectedEOF
                         else Some err)
           end
       end.

Definition ReadFull (fuel : nat) (n : Z) : M T (bytes * option error) := readFullLoop fuel n [].

(** [ioutil.Discard.ReadFrom] on a [LimitedReader] with [n] bytes left. *)
Fixpoint discardLoop (fuel : nat) (n total : Z) : M T (Z * option error) :=
  if n <=? 0 then ret (total, None)
  else match fuel with
       | O => lift OutOfFuel
       | S f =>
           let! (bs, e) := rd (Z.min n 8192) in
           let n := n - len bs in
           let total := total + len bs in
           match e with
           | None => discardLoop f n total
           | Some EOF => ret (total, None)
           | Some err => ret (total, Some err)
           end
       end.

(** [io.CopyN(ioutil.Discard, r, n)]. *)
Definition CopyN (fuel : nat) (n : Z) : M T (Z * option error) :=
  let! (written, err) := discardLoop fuel n 0 in
  ret (written, if written =? n then None
                else if (written <? n) && bool_decide (err = None) then Some EOF else err).

(** [ioutil.ReadAll]: [bytes.Buffer.ReadFrom] with the buffer's growth. *)
Fixpoint readAllLoop (fuel : nat) (acc : bytes) (cap : Z) : M T (bytes * option error) :=
  match fuel with
  | O => lift OutOfFuel
  | S f =>
      let cap := if 512 <=? cap - len acc then cap else 2 * cap + 512 in
      let! (bs, e) := rd (cap - len acc) in
      let acc := acc ++ bs in
      match e with
      | None => readAllLoop f acc cap
      | Some EOF => ret (acc, None)
      | Some err => ret (acc, Some err)
      end
  end.

Definition ReadAll (fuel : nat) : M T (bytes * option error) := readAllLoop fuel [] 512.
End Loops.

(** ** Interfaces

    What a component promises about a read method. [ReadsTo rd Inv]: in a
    state with [Inv out] the method delivers exactly the bytes [out], in
    pieces of its choice but never empty ones, and then end-of-file. *)
Class ReadsTo {T : Type} (rd : readMethod T) (Inv : bytes -> T -> Prop) : Prop :=
  reads_step : forall out t n, Inv out t -> 0 < n ->
    exists bs e t', rd n t = (Ok (bs, e), t') /\ len bs <= n /\
      ((e = None /\ bs <> [] /\ exists out', out = bs ++ out' /\ Inv out' t') \/
       (e = Some EOF /\ out = bs /\ Inv [] t')).

(** The documented contract of [io.Reader]: at most [len(b)] bytes. *)
Class IoReaderOk (S : Type) `{IoReader S} : Prop :=
  io_read_len : forall s n bs e s', 0 <= n -> io_read s n = (bs, e, s') -> len bs <= n.

(** A reader over a byte stream without I/O faults: [io_rest] is what is left
    of the stream. [Read] makes progress, reports end-of-file only at the
    end of the stream; a seeker either refuses to seek without side effects or
    skips exactly. *)
Class IoStream (S : Type) `{IoReader S} := {
  io_rest : S -> bytes;
  io_read_conserves : forall s n bs e s', io_read s n = (bs, e, s') -> io_rest s = bs ++ io_rest s';
  io_read_stream : forall s n bs e s', 0 < n -> io_read s n = (bs, e, s') ->
    len bs <= n /\ io_rest s = bs ++ io_rest s' /\
    (e = None /\ bs <> [] \/ e = Some EOF /\ io_rest s' = []);
  io_seek_stream : forall seek s k, io_seek = Some seek -> 0 <= k ->
    (exists e s', seek s 0 = (inr e, s') /\ io_rest s' = io_rest s) \/
    (exists p s' s'', seek s 0 = (inl p, s') /\ io_rest s' = io_rest s /\
       seek s' k = (inl (p + k), s'') /\ io_rest s'' = drop (Z.to_nat k) (io_rest s))
}.

#[export] Instance ioRead_ReadsTo {S} `{IoStream S} :
  ReadsTo ioRead (fun out s => io_rest s = out).
Proof.
  intros out s n <- Hn; unfold ioRead.
  destruct (io_read s n) as [[bs e] s'] eqn:E.
  destruct (io_read_stream _ _ _ _ _ Hn E) as (Hl & Hr & He).
  exists bs, e, s'; split; [done|]; split; [done|].
  destruct He as [[-> Hb] | [-> He]].
  - left; split; [done|]; split; [done|]; eauto.
  - right; rewrite He, app_nil_r in Hr; auto.
Qed.

(** ** The loops on a well-behaved method *)
Section LoopSpecs.
Context {T : Type} (rd : readMethod T) (Inv : bytes -> T -> Prop) `{!ReadsTo rd Inv}.

Lemma readFullLoop_enough fuel n acc out t :
  Inv out t -> n <= len out -> (Z.to_nat n <= fuel)%nat ->
  exists t', readFullLoop rd fuel n acc t = (Ok (acc ++ take (Z.to_nat n) out, None), t') /\
    Inv (drop (Z.to_nat n) out) t'.
Proof.
  revert n acc out t; induction fuel as [|f IH]; intros n acc out t Ht Hn Hf; cbn [readFullLoop];
    destruct (Z.leb_spec n 0).
  - exists t; replace (Z.to_nat n) with 0%nat by lia; by rewrite take_0, app_nil_r, drop_0.
  - lia.
  - exists t; replace (Z.to_nat n) with 0%nat by lia; by rewrite take_0, app_nil_r, drop_0.
  - destruct (reads_step out t n Ht ltac:(lia)) as (bs & e & t' & E & Hl & Hcase).
    unfold bind; rewrite E.
    destruct Hcase as [(-> & Hb & out' & -> & Ht') | (-> & -> & Ht')].
    + rewrite len_app in Hn; assert (1 <= len bs) by (destruct bs; [done | rewrite len_cons; pose proof (len_nonneg bs); lia]).
      destruct (IH (n - len bs) (acc ++ bs) out' t' Ht') as (t'' & E'' & Ht''); [lia..|].
      exists t''; rewrite E''.
      replace (Z.to_nat (n - len bs)) with (Z.to_nat n - length bs)%nat in * by (unfold len; lia).
      rewrite take_app_ge, drop_app_ge by (unfold len in *; lia); by rewrite app_assoc.
    + exists t'; rewrite (proj2 (Z.leb_le _ 0)) by lia; unfold ret.
      rewrite take_ge, drop_ge by (unfold len in *; lia); done.
Qed.

Lemma ReadFull_enough fuel n out t :
  Inv out t -> n <= len out -> (Z.to_nat n <= fuel)%nat ->
  exists t', ReadFull rd fuel n t = (Ok (take (Z.to_nat n) out, None), t') /\
    Inv (drop (Z.to_nat n) out) t'.
Proof. apply readFullLoop_enough. Qed.

Lemma readFullLoop_short fuel n acc out t :
  Inv out t -> len out < n -> (length out < fuel)%nat ->
  exists t', readFullLoop rd fuel n acc t =
    (Ok (acc ++ out, Some (if 0 <? len (acc ++ out) then ErrUnexpectedEOF else EOF)), t') /\
    Inv [] t'.
Proof.
  revert n acc out t; induction fuel as [|f IH]; intros n acc out t Ht Hn Hf; [lia|];
    cbn [readFullLoop].
  pose proof (len_nonneg out); destruct (Z.leb_spec n 0); [lia|].
  destruct (reads_step out t n Ht ltac:(lia)) as (bs & e & t' & E & Hl & Hcase).
  unfold bind; rewrite E.
  destruct Hcase as [(-> & Hb & out' & -> & Ht') | (-> & -> & Ht')].
  - rewrite len_app in Hn; rewrite length_app in Hf.
    assert (0 < length bs)%nat by (destruct bs; [done | simpl; lia]).
    destruct (IH (n - len bs) (acc ++ bs) out' t' Ht') as (t'' & E'' & Ht''); [lia..|].
    exists t''; by rewrite E'', app_assoc.
  - exists t'; rewrite (proj2 (Z.leb_gt _ 0)) by lia; unfold ret.
    rewrite bool_decide_eq_true_2 by done; split; [|done]; do 3 f_equal.
    destruct (0 <? _); done.
Qed.

(** Reading a block from a stream that has fewer bytes: end-of-file at once,
    or in the middle. *)
Lemma ReadFull_short fuel n out t :
  Inv out t -> len out < n -> (length out < fuel)%nat ->
  exists t', ReadFull rd fuel n t =
    (Ok (out, Some (if 0 <? len out then ErrUnexpectedEOF else EOF)), t') /\ Inv [] t'.
Proof. apply (readFullLoop_short fuel n []). Qed.

Lemma discardLoop_enough fuel n total out t :
  Inv out t -> n <= len out -> (Z.to_nat n <= fuel)%nat ->
  exists t', discardLoop rd fuel n total t = (Ok (total + Z.max 0 n, None), t') /\
    Inv (drop (Z.to_nat n) out) t'.
Proof.
  revert n total out t; induction fuel as [|f IH]; intros n total out t Ht Hn Hf; cbn [discardLoop];
    destruct (Z.leb_spec n 0).
  - exists t; replace (Z.to_nat n) with 0%nat by lia; rewrite drop_0, Z.max_l, Z.add_0_r by lia; done.
  - lia.
  - exists t; replace (Z.to_nat n) with 0%nat by lia; rewrite drop_0, Z.max_l, Z.add_0_r by lia; done.
  - destruct (reads_step out t (Z.min n 8192) Ht ltac:(lia)) as (bs & e & t' & E & Hl & Hcase).
    unfold bind; rewrite E.
    destruct Hcase as [(-> & Hb & out' & -> & Ht') | (-> & -> & Ht')].
    + rewrite len_app in Hn; assert (1 <= len bs) by (destruct bs; [done | rewrite len_cons; pose proof (len_nonneg bs); lia]).
      destruct (IH (n - len bs) (total + len bs) out' t' Ht') as (t'' & E'' & Ht''); [lia..|].
      exists t''; rewrite E''; split; [do 3 f_equal; lia|].
      replace (Z.to_nat (n - len bs)) with (Z.to_nat n - length bs)%nat in * by (unfold len; lia).
      rewrite drop_app_ge by (unfold len in *; lia); done.
    + exists t'; unfold ret; rewrite drop_ge by (unfold len in *; lia).
      split; [do 3 f_equal; lia | done].
Qed.

Lemma discardLoop_short fuel n total out t :
  Inv out t -> len out < n -> (length out < fuel)%nat ->
  exists t', discardLoop rd fuel n total t = (Ok (total + len out, None), t') /\ Inv [] t'.
Proof.
  revert n total out t; induction fuel as [|f IH]; intros n total out t Ht Hn Hf; [lia|]; cbn [discardLoop].
  pose proof (len_nonneg out); destruct (Z.leb_spec n 0); [lia|].
  destruct (reads_step out t (Z.min n 8192) Ht ltac:(lia)) as (bs & e & t' & E & Hl & Hcase).
  unfold bind; rewrite E.
  destruct Hcase as [(-> & Hb & out' & -> & Ht') | (-> & -> & Ht')].
  - rewrite len_app in Hn |- *; rewrite length_app in Hf.
    assert (0 < length bs)%nat by (destruct bs; [done | simpl; lia]).
    destruct (IH (n - len bs) (total + len bs) out' t' Ht') as (t'' & E'' & Ht''); [lia..|].
    exists t''; rewrite E''; split; [do 3 f_equal; lia | done].
  - by exists t'.
Qed.

Lemma CopyN_enough fuel n out t :
  Inv out t -> 0 <= n <= len out -> (Z.to_nat n <= fuel)%nat ->
  exists t', CopyN rd fuel n t = (Ok (n, None), t') /\ Inv (drop (Z.to_nat n) out) t'.
Proof.
  intros Ht Hn Hf; destruct (discardLoop_enough fuel n 0 out t Ht ltac:(lia) Hf) as (t' & E & Ht').
  exists t'; split; [|done]; unfold CopyN, bind; rewrite E; unfold ret.
  replace (0 + Z.max 0 n) with n by lia; by rewrite Z.eqb_refl.
Qed.

Lemma CopyN_short fuel n out t :
  Inv out t -> len out < n -> (length out < fuel)%nat ->
  exists t', CopyN rd fuel n t = (Ok (len out, Some EOF), t') /\ Inv [] t'.
Proof.
  intros Ht Hn Hf; destruct (discardLoop_short fuel n 0 out t Ht Hn Hf) as (t' & E & Ht').
  exists t'; split; [|done]; unfold CopyN, bind; rewrite E; unfold ret.
  by rewrite Z.add_0_l, (proj2 (Z.eqb_neq _ _)), (proj2 (Z.ltb_lt _ _)) by lia.
Qed.

Lemma readAllLoop_spec fuel acc cap out t :
  Inv out t -> len acc <= cap -> (length out < fuel)%nat ->
  exists t', readAllLoop rd fuel acc cap t = (Ok (acc ++ out, None), t') /\ Inv [] t'.
Proof.
  revert acc cap out t; induction fuel as [|f IH]; intros acc cap out t Ht Hc Hf; [lia|].
  cbn [readAllLoop].
  set (cap' := if 512 <=? cap - len acc then cap else 2 * cap + 512).
  pose proof (len_nonneg acc).
  assert (512 <= cap' - len acc) by (unfold cap'; destruct (Z.leb_spec 512 (cap - len acc)); lia).
  destruct (reads_step out t (cap' - len acc) Ht ltac:(lia)) as (bs & e & t' & E & Hl & Hcase).
  unfold bind; rewrite E.
  destruct Hcase as [(-> & Hb & out' & -> & Ht') | (-> & -> & Ht')].
  - rewrite length_app in Hf; assert (0 < length bs)%nat by (destruct bs; [done | simpl; lia]).
    destruct (IH (acc ++ bs) cap' out' t' Ht') as (t'' & E'' & Ht''); [rewrite len_app; lia | lia |].
    exists t''; by rewrite E'', app_assoc.
  - by exists t'.
Qed.

Lemma ReadAll_spec fuel out t :
  Inv out t -> (length out < fuel)%nat ->
  exists t', ReadAll rd fuel t = (Ok (out, None), t') /\ Inv [] t'.
Proof. intros Ht Hf; by apply (readAllLoop_spec fuel [] 512). Qed.
End LoopSpecs.

(** ** The loops on any method that keeps the contract of [io.Reader]

    A weaker interface than [ReadsTo]: the method may fail with any error at
    any point. [I] is kept by every call; when [prog] holds, each call that
    reports no error makes progress and [mu] bounds the bytes it can still
    deliver, and then the loops terminate. *)
Class ReadsOk {T : Type} (prog : Prop) (rd : readMethod T) (I : T -> Prop) (mu : T -> nat) : Prop :=
  reads_ok : forall t n, I t -> 0 < n ->
    exists bs e t', rd n t = (Ok (bs, e), t') /\ I t' /\ len bs <= n /\
      (prog -> (mu t' + length bs <= mu t)%nat /\ (e = None -> bs <> [])).

(** The result of a loop of reads that had [fuel]: it can only run out of it
    when the source is longer. *)
Definition loopPost {T A : Type} (prog : Prop) (I : T -> Prop) (mu : T -> nat) (fuel : nat) (t : T)
    (got : A -> nat) (o : outcome A) (t' : T) : Prop :=
  I t' /\
  match o with
  | Ok a => prog -> (mu t' + got a <= mu t)%nat
  | OutOfFuel => prog -> (fuel <= mu t)%nat
  | _ => False
  end.

Section LoopContracts.
Context {T : Type} (prog : Prop) (rd : readMethod T) (I : T -> Prop) (mu : T -> nat) `{!ReadsOk prog rd I mu}.

Lemma readFullLoop_ok fuel n acc t :
  I t ->
  wp (readFullLoop rd fuel n acc)
     (fun o t' => loopPost prog I mu fuel t (fun '(bs, e) => length bs - length acc)%nat o t' /\
                  match o with Ok (bs, None) => len acc <= len bs /\ (0 <= n -> len bs = len acc + n) | _ => True end) t.
Proof.
  revert n acc t; induction fuel as [|f IH]; intros n acc t Ht; cbn [readFullLoop];
    destruct (Z.leb_spec n 0).
  - split; [split; [done | intros; cbn; lia] | split; [lia | intros; cbn; lia]].
  - split; [split; [done | intros; cbn; lia] | done].
  - split; [split; [done | intros; cbn; lia] | split; [lia | intros; cbn; lia]].
  - destruct (reads_ok t n Ht ltac:(lia)) as (bs & e & t' & E & Ht' & Hl & Hp).
    unfold wp, bind; rewrite E; destruct e as [err|].
    + cbn; split; [split; [done|]|].
      * intros P; destruct (Hp P); cbn; rewrite length_app; lia.
      * destruct (Z.leb_spec (n - len bs) 0); [rewrite len_app; split; intros; cbn; lia | by destruct (_ && _)].
    + specialize (IH (n - len bs) (acc ++ bs) t' Ht'); unfold wp in IH.
      destruct (readFullLoop _ _ _ _ _) as [o t'']; cbn in *; destruct IH as [[Hi Ho] He].
      split; [split; [done|]|].
      * destruct o as [[bs' e']| | |]; try done; intros P; specialize (Ho P); destruct (Hp P) as [? Hb];
          specialize (Hb eq_refl); destruct bs; try done; rewrite ?length_app in Ho; cbn [length] in *; lia.
      * destruct o as [[bs' [|]]| | |]; try done; rewrite len_app in He; pose proof (len_nonneg bs); lia.
Qed.

Lemma ReadFull_ok fuel n t :
  I t -> 0 <= n ->
  wp (ReadFull rd fuel n)
     (fun o t' => loopPost prog I mu fuel t (fun '(bs, e) => length bs) o t' /\
                  match o with Ok (bs, None) => len bs = n | _ => True end) t.
Proof.
  intros Ht Hn; eapply wp_mono; [by apply (readFullLoop_ok fuel n [])|]; cbn; intros o t' [[Hi Ho] He].
  split; [split; [done|] | destruct o as [[bs [|]]| | |]; try done; rewrite (@len_nil Z) in He; lia].
  destruct o as [[bs e]| | |]; try done; intros P; specialize (Ho P); cbn in *; lia.
Qed.

(** [io.ReadFull] never returns more bytes than asked for. *)
Lemma readFullLoop_len fuel n acc t :
  I t -> match (readFullLoop rd fuel n acc t).1 with Ok (bs, _) => len bs <= len acc + Z.max 0 n | _ => True end.
Proof.
  revert n acc t; induction fuel as [|f IH]; intros n acc t Ht; cbn [readFullLoop];
    destruct (Z.leb_spec n 0); try (cbn; lia); try done.
  destruct (reads_ok t n Ht ltac:(lia)) as (bs & e & t' & E & Ht' & Hl & _).
  unfold bind; rewrite E; destruct e as [err|]; [cbn; rewrite len_app; lia|].
  specialize (IH (n - len bs) (acc ++ bs) t' Ht'); rewrite len_app in IH.
  destruct (readFullLoop _ _ _ _ _) as [[[bs' e']| | |] t'']; cbn in *; try done; lia.
Qed.

Lemma discardLoop_ok fuel n total t :
  I t ->
  wp (discardLoop rd fuel n total) (loopPost prog I mu fuel t (fun '(k, e) => Z.to_nat (k - total))) t.
Proof.
  revert n total t; induction fuel as [|f IH]; intros n total t Ht; cbn [discardLoop];
    destruct (Z.leb_spec n 0); try (split; [done | cbn; intros; cbn; lia]).
  destruct (reads_ok t (Z.min n 8192) Ht ltac:(lia)) as (bs & e & t' & E & Ht' & Hl & Hp).
  unfold wp, bind; rewrite E.
  destruct e as [err|].
  - assert (forall e' : option error, loopPost prog I mu (S f) t (fun '(k, _) => Z.to_nat (k - total))
      (Ok (total + len bs, e')) t') by (intros e'; split; [done | intros P; destruct (Hp P); cbn; unfold len; lia]).
    destruct err; apply H0.
  - specialize (IH (n - len bs) (total + len bs) t' Ht'); unfold wp in IH.
    destruct (discardLoop _ _ _ _ _) as [o t'']; cbn in *; destruct IH as [Hi Ho]; split; [done|].
    destruct o as [[k e']| | |]; try done; intros P; specialize (Ho P); destruct (Hp P) as [? Hb];
      specialize (Hb eq_refl); destruct bs; try done; unfold len in *; cbn [length] in *; lia.
Qed.

Lemma CopyN_ok fuel n t :
  I t -> wp (CopyN rd fuel n) (loopPost prog I mu fuel t (fun '(k, e) => Z.to_nat k)) t.
Proof.
  intros Ht; unfold CopyN; eapply wp_seq; [by apply discardLoop_ok|].
  intros o t' [Hi Ho]; destruct o as [[k e]| | |]; try done; cbn.
  split; [done|]; intros P; specialize (Ho P); cbn in *; by rewrite Z.sub_0_r in Ho.
Qed.

Lemma readAllLoop_ok fuel acc cap t :
  I t -> len acc <= cap ->
  wp (readAllLoop rd fuel acc cap)
     (loopPost prog I mu fuel t (fun '(bs, e) => length bs - length acc)%nat) t.
Proof.
  revert acc cap t; induction fuel as [|f IH]; intros acc cap t Ht Hc; cbn [readAllLoop].
  { split; [done | intros; cbn; lia]. }
  pose proof (len_nonneg acc); set (cap' := if 512 <=? cap - len acc then cap else 2 * cap + 512).
  assert (512 <= cap' - len acc) by (unfold cap'; destruct (Z.leb_spec 512 (cap - len acc)); lia).
  destruct (reads_ok t (cap' - len acc) Ht ltac:(lia)) as (bs & e & t' & E & Ht' & Hl & Hp).
  unfold wp, bind; rewrite E.
  assert (Hdone : forall e' : option error, loopPost prog I mu (S f) t (fun '(bs', _) => length bs' - length acc)%nat
    (Ok (acc ++ bs, e')) t').
  { intros e'; split; [done | intros P; destruct (Hp P); cbn; rewrite length_app; lia]. }
  destruct e as [err|]; [destruct err; apply Hdone|].
  specialize (IH (acc ++ bs) cap' t' Ht' ltac:(rewrite len_app; lia)); unfold wp in IH.
  destruct (readAllLoop _ _ _ _ _) as [o t'']; cbn in *; destruct IH as [Hi Ho]; split; [done|].
  destruct o as [[bs' e']| | |]; try done; intros P; specialize (Ho P); destruct (Hp P) as [? Hb];
    specialize (Hb eq_refl); destruct bs; try done; rewrite ?length_app in Ho; cbn [length] in *; lia.
Qed.

Lemma ReadAll_ok fuel t :
  I t -> wp (ReadAll rd fuel) (loopPost prog I mu fuel t (fun '(bs, e) => length bs)) t.
Proof.
  intros Ht; eapply wp_mono; [apply (readAllLoop_ok fuel [] 512 t Ht); done|].
  intros o t' [Hi Ho]; split; [done|]; destruct o as [[bs e]| | |]; try done; intros P; specialize (Ho P); cbn in *; lia.
Qed.
End LoopContracts.

(** ** What the loops keep *)
Section LoopKeeps.
Context {T : Type} (rd : readMethod T) (J : T -> Prop) (Hrd : forall n, keeps J (rd n)).

Lemma keeps_readFullLoop fuel n acc : keeps J (readFullLoop rd fuel n acc).
Proof.
  revert n acc; induction fuel as [|f IH]; intros n acc; cbn [readFullLoop]; destruct (n <=? 0); auto with arkive.
  apply keeps_bind; [done|]; intros [bs [e|]]; auto with arkive.
Qed.

Lemma keeps_CopyN fuel n : keeps J (CopyN rd fuel n).
Proof.
  unfold CopyN; apply keeps_bind; [|intros [k e]; auto with arkive].
  assert (G : forall total, keeps J (discardLoop rd fuel n total)); [|apply G].
  revert n; induction fuel as [|f IH]; intros n total; cbn [discardLoop]; destruct (n <=? 0); auto with arkive.
  apply keeps_bind; [done|]; intros [bs [[]|]]; auto with arkive.
Qed.

Lemma keeps_readAllLoop fuel acc cap : keeps J (readAllLoop rd fuel acc cap).
Proof.
  revert acc cap; induction fuel as [|f IH]; intros acc cap; cbn [readAllLoop]; auto with arkive.
  apply keeps_bind; [done|]; intros [bs [[]|]]; auto with arkive.
Qed.
End LoopKeeps.

(** ** Concrete readers, for the witnesses *)

(** A reader over a byte list that returns short reads by a schedule, may
    report end-of-file together with the last bytes, and may be a seeker. *)
Record chunkReader := mkChunk { ck_data : bytes; ck_pos : Z; ck_sched : list nat; ck_eager : bool }.

Definition chunkRead (s : chunkReader) (n : Z) : bytes * option error * chunkReader :=
  match ck_data s with
  | [] => ([], Some EOF, s)
  | _ =>
      let k := Nat.min (Z.to_nat n) (match ck_sched s with [] => Z.to_nat n | c :: _ => S c end) in
      let bs := take k (ck_data s) in
      let s' := mkChunk (drop k (ck_data s)) (ck_pos s + len bs) (tail (ck_sched s)) (ck_eager s) in
      (bs, if ck_eager s && bool_decide (ck_data s' = []) then Some EOF else None, s')
  end.

Definition chunkSeek (s : chunkReader) (k : Z) : (Z + error) * chunkReader :=
  (inl (ck_pos s + k), mkChunk (drop (Z.to_nat k) (ck_data s)) (ck_pos s + k) (ck_sched s) (ck_eager s)).

#[export] Instance chunk_IoReader : IoReader chunkReader :=
  {| io_read := chunkRead; io_seek := Some chunkSeek |}.

#[export, refine] Instance chunk_IoStream : IoStream chunkReader :=
  {| io_rest := ck_data |}.
Proof.
  - intros s n bs e s' H; cbn in H; unfold chunkRead in H.
    destruct (ck_data s) as [|c d] eqn:Ed; injection H as <- <- <-; cbn [ck_data]; [by rewrite Ed | by rewrite take_drop].
  - intros s n bs e s' Hn H; cbn in H; unfold chunkRead in H.
    destruct (ck_data s) as [|c d] eqn:Ed.
    { injection H as <- <- <-; rewrite Ed; split; [unfold len; simpl; lia|]; auto. }
    set (k := Nat.min _ _) in H.
    assert (1 <= k <= Z.to_nat n)%nat by (unfold k; destruct (ck_sched s); lia).
    injection H as <- <- <-; cbn [ck_data].
    split; [unfold len; rewrite length_take; lia|].
    split; [by rewrite take_drop|].
    destruct k as [|k]; [lia|]; cbn [take drop].
    destruct (ck_eager s); cbn [andb]; [|by left].
    case_bool_decide; [by right | by left].
  - intros seek s k [= <-] Hk; right.
    eexists _, _, _; split; [reflexivity|]; cbn.
    split; [by rewrite drop_0|]; split; [f_equal; f_equal; lia | by rewrite drop_0].
Defined.

(** A pipe: whole reads, no seeking. *)
Record pipe := mkPipe { pipe_data : bytes }.

Definition pipeRead (s : pipe) (n : Z) : bytes * option error * pipe :=
  match pipe_data s with
  | [] => ([], Some EOF, s)
  | d => (take (Z.to_nat n) d, None, mkPipe (drop (Z.to_nat n) d))
  end.

#[export] Instance pipe_IoReader : IoReader pipe := {| io_read := pipeRead; io_seek := None |}.

#[export, refine] Instance pipe_IoStream : IoStream pipe := {| io_rest := pipe_data |}.
Proof.
  - intros s n bs e s' H; cbn in H; unfold pipeRead in H.
    destruct (pipe_data s) as [|c d] eqn:Ed; injection H as <- <- <-; cbn [pipe_data]; [by rewrite Ed | by rewrite take_drop].
  - intros s n bs e s' Hn H; cbn in H; unfold pipeRead in H.
    destruct (pipe_data s) as [|c d] eqn:Ed.
    { injection H as <- <- <-; rewrite Ed; split; [unfold len; simpl; lia|]; auto. }
    injection H as <- <- <-; cbn [pipe_data].
    split; [unfold len; rewrite length_take; lia|]; split; [by rewrite take_drop|]; left.
    split; [done|]; destruct (Z.to_nat n) eqn:E; [lia | done].
  - intros seek s k [=].
Defined.

#[export] Instance chunk_IoReaderOk : IoReaderOk chunkReader.
Proof.
  intros s n bs e s' Hn H; cbn in H; unfold chunkRead in H; pose proof (len_nonneg bs).
  destruct (ck_data s); injection H as <- <- <-; [done|]; unfold len; rewrite length_take; lia.
Qed.

#[export] Instance pipe_IoReaderOk : IoReaderOk pipe.
Proof.
  intros s n bs e s' Hn H; cbn in H; unfold pipeRead in H.
  destruct (pipe_data s); injection H as <- <- <-; [done|]; unfold len; rewrite length_take; lia.
Qed.

(** ** Writers *)

(** An [io.Writer] supplied by the caller: [Write(b)] gives the number of
    bytes written and the error. *)
Class IoWriter (W : Type) := io_write : W -> bytes -> Z * option error * W.

(** The documented contract of [io.Writer]. *)
Class IoWriterOk (W : Type) `{IoWriter W} : Prop :=
  io_write_ok : forall w b n e w', io_write w b = (n, e, w') -> 0 <= n <= len b /\ (n < len b -> e <> None).

(** A writer that stores everything; [io_out] is what it has stored. *)
Class IoSink (W : Type) `{IoWriter W} := {
  io_out : W -> bytes;
  io_write_sink : forall w b, exists w', io_write w b = (len b, None, w') /\ io_out w' = io_out w ++ b
}.

#[export] Instance IoSink_ok W `{IoSink W} : IoWriterOk W.
Proof.
  intros w b n e w' E; destruct (io_write_sink w b) as (w'' & E' & _); rewrite E in E'; injection E' as -> -> ->.
  pose proof (len_nonneg b); lia.
Qed.

Record buffer := mkBuffer { buf_data : bytes }.
#[export] Instance buffer_IoWriter : IoWriter buffer := fun w b => (len b, None, mkBuffer (buf_data w ++ b)).
#[export, refine] Instance buffer_IoSink : IoSink buffer := {| io_out := buf_data |}.
Proof. intros w b; by eexists. Defined.

