(* ===== verification/TarFormat.v ===== *)
(** * tar/format.go: header blocks, their fields, magic values and checksum

    A [block] is a byte list of length 512. A header view ([headerV7],
    [headerGNU], [headerSTAR], [headerUSTAR]) is a set of fields of the same
    array, so a field is its offset and size; [getF] and [setF] read and
    overwrite it. *)
From S2P Require Import Prelude GoInt GoString GoTime TarStrconv.
Open Scope go_scope.

Definition formatUnknown : Z := Z.shiftl 1 0 / 2.
Definition formatV7 : Z := Z.shiftl 1 1 / 2.
Definition formatGNU : Z := Z.shiftl 1 2 / 2.
Definition formatSTAR : Z := Z.shiftl 1 3 / 2.
Definition formatUSTAR : Z := Z.shiftl 1 4 / 2.
Definition formatPAX : Z := Z.shiftl 1 5 / 2.

Definition magicGNU : bytes := str "ustar ".
Definition versionGNU : bytes := [32; 0].
Definition magicUSTAR : bytes := str "ustar" ++ [0].
Definition versionUSTAR : bytes := str "00".
Definition trailerSTAR : bytes := str "tar" ++ [0].

Definition blockSize : Z := 512.
Definition nameSize : Z := 100.
Definition prefixSize : Z := 155.

Definition block : Type := bytes.
Definition zeroBlock : block := replicate 512 0.

Record field := Field { f_off : nat; f_size : nat }.

Definition getF (f : field) (b : block) : bytes := take (f_size f) (drop (f_off f) b).
Definition setF (f : field) (s : bytes) (b : block) : block := splice (f_off f) s b.

Module V7.
Definition Name := Field 0 100.
Definition Mode := Field 100 8.
Definition UID := Field 108 8.
Definition GID := Field 116 8.
Definition Size := Field 124 12.
Definition ModTime := Field 136 12.
Definition Chksum := Field 148 8.
Definition TypeFlag := Field 156 1.
Definition LinkName := Field 157 100.
End V7.

Module GNU.
Definition Magic := Field 257 6.
Definition Version := Field 263 2.
Definition UserName := Field 265 32.
Definition GroupName := Field 297 32.
Definition DevMajor := Field 329 8.
Definition DevMinor := Field 337 8.
Definition AccessTime := Field 345 12.
Definition ChangeTime := Field 357 12.
Definition Sparse := Field 386 97.
Definition RealSize := Field 483 12.
End GNU.

Module STAR.
Definition Magic := Field 257 6.
Definition Version := Field 263 2.
Definition UserName := Field 265 32.
Definition GroupName := Field 297 32.
Definition DevMajor := Field 329 8.
Definition DevMinor := Field 337 8.
Definition Prefix := Field 345 131.
Definition AccessTime := Field 476 12.
Definition ChangeTime := Field 488 12.
Definition Trailer := Field 508 4.
End STAR.

Module USTAR.
Definition Magic := Field 257 6.
Definition Version := Field 263 2.
Definition UserName := Field 265 32.
Definition GroupName := Field 297 32.
Definition DevMajor := Field 329 8.
Definition DevMinor := Field 337 8.
Definition Prefix := Field 345 155.
End USTAR.

(** A sparse array is a slice of 24-byte entries and one trailing byte. *)
Definition sparseArray : Type := bytes.
Definition Entry (s : sparseArray) (i : nat) : bytes := drop (i * 24) s.
Definition MaxEntries (s : sparseArray) : nat := (length s / 24)%nat.
Definition IsExtended (s : sparseArray) : bytes := take 1 (drop (24 * MaxEntries s) s).
Definition sparseNodeOffset (s : bytes) : bytes := take 12 s.
Definition sparseNodeNumBytes (s : bytes) : bytes := take 12 (drop 12 s).

Fixpoint checksumLoop (i unsigned signed : Z) (b : bytes) : Z * Z :=
  match b with
  | [] => (unsigned, signed)
  | c :: b' =>
      let c := if (148 <=? i) && (i <? 156) then 32 else c in
      checksumLoop (i + 1) (int64 (unsigned + uint8 c)) (int64 (signed + int8 c)) b'
  end.

Definition ComputeChecksum (b : block) : Z * Z := checksumLoop 0 0 0 b.

Definition GetFormat (b : block) : Z :=
  let '(err, value) := parseOctal None (getF V7.Chksum b) in
  let '(chksum1, chksum2) := ComputeChecksum b in
  if bool_decide (err <> None) || (negb (value =? chksum1) && negb (value =? chksum2))
  then formatUnknown
  else
    let magic := getF USTAR.Magic b in
    let version := getF USTAR.Version b in
    let trailer := getF STAR.Trailer b in
    if bool_decide (magic = magicUSTAR) && bool_decide (trailer = trailerSTAR) then formatSTAR
    else if bool_decide (magic = magicUSTAR) then formatUSTAR
    else if bool_decide (magic = magicGNU) && bool_decide (version = versionGNU) then formatGNU
    else formatV7.

(** The magic values of the [switch] of [SetFormat]. *)
Definition setMagic (format : Z) (b : block) : outcome block :=
  if format =? formatV7 then Ok b
  else if format =? formatGNU then
    Ok (setF GNU.Version versionGNU (setF GNU.Magic magicGNU b))
  else if format =? formatSTAR then
    Ok (setF STAR.Trailer trailerSTAR (setF STAR.Version versionUSTAR (setF STAR.Magic magicUSTAR b)))
  else if (format =? formatUSTAR) || (format =? formatPAX) then
    Ok (setF USTAR.Version versionUSTAR (setF USTAR.Magic magicUSTAR b))
  else Panic.

Definition SetFormat (b : block) (format : Z) : outcome block :=
  let? b := setMagic format b in
  let fld := getF V7.Chksum b in
  let '(chksum, _) := ComputeChecksum b in
  let '(_, fld7) := formatOctal None (take 7 fld) chksum in
  Ok (setF V7.Chksum (<[7%nat := 32]> (fld7 ++ drop 7 fld)) b).

(** ** Fields *)
Definition disjointF (f g : field) : bool :=
  ((f_off f + f_size f <=? f_off g)%nat || (f_off g + f_size g <=? f_off f)%nat).

Definition block_ok (b : block) : Prop := length b = 512%nat /\ bytes_ok b.

Definition in_block (f : field) : bool := (f_off f + f_size f <=? 512)%nat.

Lemma getF_setF_eq f s b :
  block_ok b -> length s = f_size f -> in_block f = true -> getF f (setF f s b) = s.
Proof.
  intros [Hl _] Hs Hf%Nat.leb_le; unfold getF, setF; rewrite <- Hs; apply field_splice_eq; lia.
Qed.

Lemma getF_setF_ne f g s b :
  block_ok b -> length s = f_size g -> in_block g = true -> disjointF f g = true ->
  getF f (setF g s b) = getF f b.
Proof.
  intros [Hl _] Hs Hg%Nat.leb_le Hd; unfold getF, setF.
  apply orb_true_iff in Hd as [Hd%Nat.leb_le | Hd%Nat.leb_le].
  - apply field_splice_before; lia.
  - apply field_splice_after; lia.
Qed.

Lemma setF_ok f s b :
  block_ok b -> bytes_ok s -> length s = f_size f -> in_block f = true -> block_ok (setF f s b).
Proof.
  intros [Hl Hb] Hs Hlen Hf%Nat.leb_le; unfold setF; split.
  - rewrite length_splice; lia.
  - by apply bytes_ok_splice.
Qed.

Lemma length_getF f b : block_ok b -> in_block f = true -> length (getF f b) = f_size f.
Proof.
  intros [Hl _] Hf%Nat.leb_le; unfold getF; rewrite length_take, length_drop; lia.
Qed.

Lemma getF_ok f b : block_ok b -> bytes_ok (getF f b).
Proof. intros [_ Hb]; by apply Forall_take, Forall_drop. Qed.

Lemma zeroBlock_ok : block_ok zeroBlock.
Proof. split; [done | apply bytes_ok_replicate; unfold is_byte; lia]. Qed.

Lemma getF_zeroBlock f : in_block f = true -> getF f zeroBlock = replicate (f_size f) 0.
Proof.
  intros Hf%Nat.leb_le; unfold getF, zeroBlock; rewrite drop_replicate, take_replicate; f_equal; lia.
Qed.
#[export] Hint Resolve zeroBlock_ok getF_ok : arkive.

(** ** The checksum *)
Definition sumZ (l : list Z) : Z := foldr Z.add 0 l.

(** The block with the checksum field taken as spaces, from index [i] on. *)
Fixpoint maskChk (i : Z) (b : bytes) : bytes :=
  match b with
  | [] => []
  | c :: b' => (if (148 <=? i) && (i <? 156) then 32 else c) :: maskChk (i + 1) b'
  end.

Lemma sumZ_app l1 l2 : sumZ (l1 ++ l2) = sumZ l1 + sumZ l2.
Proof. induction l1 as [|x l1 IH]; cbn; [done|]; fold (sumZ (l1 ++ l2)) (sumZ l1); lia. Qed.

Lemma sumZ_bounds lo hi l :
  Forall (fun c => lo <= c <= hi) l -> lo * len l <= sumZ l <= hi * len l.
Proof.
  unfold len; induction 1 as [|c l Hc Hl IH]; [simpl; lia|].
  cbn [sumZ foldr length]; fold (sumZ l); lia.
Qed.

Lemma int8_range c : -128 <= int8 c <= 127.
Proof. pose proof (wraps_range 8 c ltac:(lia)); unfold int8; simpl in *; lia. Qed.

Lemma maskChk_ok i b : bytes_ok b -> bytes_ok (maskChk i b).
Proof.
  intros Hb; revert i; induction Hb as [|c b Hc Hb IH]; intros i; constructor; [|apply IH].
  destruct (_ && _); [unfold is_byte; lia | done].
Qed.

Lemma maskChk_app i b1 b2 : maskChk i (b1 ++ b2) = maskChk i b1 ++ maskChk (i + len b1) b2.
Proof.
  revert i; induction b1 as [|c b1 IH]; intros i; cbn [app maskChk].
  - by rewrite len_nil, Z.add_0_r.
  - rewrite IH; do 3 f_equal; rewrite len_cons; lia.
Qed.

Lemma maskChk_out i b : i + len b <= 148 \/ 156 <= i -> maskChk i b = b.
Proof.
  revert i; induction b as [|c b IH]; intros i Hi; [done|]; cbn [maskChk].
  rewrite len_cons in Hi; pose proof (len_nonneg b); rewrite IH by lia.
  f_equal; destruct (Z.leb_spec 148 i), (Z.ltb_spec i 156); cbn; lia.
Qed.

Lemma maskChk_in i b : 148 <= i -> i + len b <= 156 -> maskChk i b = replicate (length b) 32.
Proof.
  revert i; induction b as [|c b IH]; intros i Hi Hl; [done|]; cbn [maskChk length replicate].
  rewrite len_cons in Hl; pose proof (len_nonneg b); rewrite IH by lia.
  by rewrite (proj2 (Z.leb_le 148 i)), (proj2 (Z.ltb_lt i 156)) by lia.
Qed.

Lemma maskChk_block b :
  length b = 512%nat -> maskChk 0 b = take 148 b ++ replicate 8 32 ++ drop 156 b.
Proof.
  intros Hl; rewrite <- (take_drop 148 b) at 1; rewrite maskChk_app.
  assert (L1 : len (take 148 b) = 148) by (unfold len; rewrite length_take; lia).
  rewrite L1, maskChk_out by lia; f_equal.
  rewrite <- (take_drop 8 (drop 148 b)), maskChk_app, drop_drop.
  assert (L2 : length (take 8 (drop 148 b)) = 8%nat) by (rewrite length_take, length_drop; lia).
  rewrite maskChk_in, L2 by (unfold len; lia).
  by rewrite maskChk_out by (unfold len; lia).
Qed.

Lemma checksumLoop_sum i u s b K :
  bytes_ok b -> 0 <= u <= K -> - K <= s <= K -> K + 256 * len b < 2 ^ 62 ->
  checksumLoop i u s b = (u + sumZ (maskChk i b), s + sumZ (int8 <$> maskChk i b)).
Proof.
  intros Hb; revert i u s K; induction Hb as [|c b Hc Hb IH]; intros i u s K Hu Hs HK.
  - cbn; f_equal; lia.
  - cbn [checksumLoop maskChk fmap list_fmap sumZ foldr].
    set (c' := if (148 <=? i) && (i <? 156) then 32 else c).
    assert (is_byte c') by (unfold c'; destruct (_ && _); [unfold is_byte; lia | done]).
    rewrite uint8_id by done; pose proof (int8_range c'); unfold is_byte in *.
    rewrite len_cons in HK; pose proof (len_nonneg b).
    rewrite !int64_id by (unfold in_int64; lia).
    rewrite (IH _ _ _ (K + 256)) by lia.
    fold (sumZ (maskChk (i + 1) b)) (sumZ (int8 <$> maskChk (i + 1) b)); f_equal; lia.
Qed.

(** The two sums, over the block with a blank checksum field. *)
Lemma ComputeChecksum_eq b :
  block_ok b ->
  ComputeChecksum b =
    (sumZ (take 148 b ++ replicate 8 32 ++ drop 156 b),
     sumZ (int8 <$> (take 148 b ++ replicate 8 32 ++ drop 156 b))).
Proof.
  intros [Hl Hb]; unfold ComputeChecksum.
  rewrite (checksumLoop_sum _ _ _ _ 0), maskChk_block by (done || (unfold len; lia)); done.
Qed.

Lemma splice_take {A} n off (s b : list A) : (n <= off)%nat -> (off <= length b)%nat ->
  take n (splice off s b) = take n b.
Proof.
  intros; unfold splice; rewrite take_app_le by (rewrite length_take; lia).
  rewrite take_take; f_equal; lia.
Qed.

Lemma splice_drop {A} n off (s b : list A) : (off + length s <= n)%nat -> (off + length s <= length b)%nat ->
  drop n (splice off s b) = drop n b.
Proof.
  intros; unfold splice; rewrite app_assoc, drop_app_ge by (rewrite length_app, length_take; lia).
  rewrite length_app, length_take, drop_drop; f_equal; lia.
Qed.

(** Rewriting the checksum field does not change the checksum. *)
Lemma ComputeChecksum_setF b s :
  block_ok b -> bytes_ok s -> length s = 8%nat ->
  ComputeChecksum (setF V7.Chksum s b) = ComputeChecksum b.
Proof.
  intros Hb Hs Hl; rewrite !ComputeChecksum_eq by (done || by apply setF_ok).
  destruct Hb as [Hlb _]; unfold setF; cbn [f_off V7.Chksum].
  by rewrite splice_take, splice_drop by lia.
Qed.

Lemma ComputeChecksum_bounds b :
  block_ok b ->
  256 <= (ComputeChecksum b).1 <= 128776 /\ -64256 <= (ComputeChecksum b).2 <= 64264.
Proof.
  intros Hb; rewrite ComputeChecksum_eq by done; cbn [fst snd].
  destruct Hb as [Hl Hb]; rewrite !fmap_app, !sumZ_app.
  assert (L1 : len (take 148 b) = 148) by (unfold len; rewrite length_take; lia).
  assert (L2 : len (drop 156 b) = 356) by (unfold len; rewrite length_drop; lia).
  assert (U : forall l, bytes_ok l -> 0 <= sumZ l <= 255 * len l).
  { intros l Hl'; assert (Forall (fun c => 0 <= c <= 255) l) as HF.
    { eapply Forall_impl; [exact Hl'|]; unfold is_byte; cbn; lia. }
    pose proof (sumZ_bounds 0 255 l HF); lia. }
  assert (S : forall l, -128 * len l <= sumZ (int8 <$> l) <= 127 * len l).
  { intros l; rewrite <- (len_fmap int8 l); apply sumZ_bounds, Forall_fmap, Forall_true.
    intros c; apply int8_range. }
  pose proof (U _ (Forall_take _ 148 _ Hb)); pose proof (U _ (Forall_drop _ 156 _ Hb)).
  pose proof (S (take 148 b)); pose proof (S (drop 156 b)).
  change (sumZ (replicate 8 32)) with 256; change (sumZ (int8 <$> replicate 8 32)) with 256; lia.
Qed.

(** ** SetFormat and GetFormat *)
Definition valid_format (fmt : Z) : Prop :=
  fmt ∈ [formatV7; formatGNU; formatSTAR; formatUSTAR; formatPAX].

Ltac fields := repeat first
  [ done | rewrite getF_setF_eq | rewrite getF_setF_ne | apply setF_ok
  | by unfold bytes_ok; repeat constructor; unfold is_byte; lia ].

Lemma magic_bytes_ok :
  Forall bytes_ok [magicGNU; versionGNU; magicUSTAR; versionUSTAR; trailerSTAR].
Proof. repeat constructor; vm_compute; discriminate. Qed.

Lemma setMagic_ok b fmt :
  block_ok b -> valid_format fmt ->
  exists b1, setMagic fmt b = Ok b1 /\ block_ok b1 /\
    (forall f, disjointF f (Field 257 8) = true -> disjointF f STAR.Trailer = true ->
       getF f b1 = getF f b).
Proof.
  intros Hb Hf; unfold setMagic.
  pose proof magic_bytes_ok as Hm; rewrite !Forall_cons in Hm; destruct Hm as (?&?&?&?&?&_).
  assert (D : forall f, disjointF f (Field 257 8) = true ->
            disjointF f (Field 257 6) = true /\ disjointF f (Field 263 2) = true).
  { intros f [Hd%Nat.leb_le|Hd%Nat.leb_le]%orb_true_iff; cbn in Hd;
      split; apply orb_true_iff; [left|left|right|right]; apply Nat.leb_le; cbn; lia. }
  unfold valid_format in Hf; rewrite !elem_of_cons, elem_of_nil in Hf; destruct_or!; try done; subst;
    vm_compute (_ =? _); cbv beta iota; cbn [orb];
    (eexists; split; [reflexivity | split; [by fields | intros f Hf1 Hf2; destruct (D f Hf1); fields]]).
Qed.

Lemma Chksum_field_layout (b : block) (x : Z) :
  block_ok b -> 0 <= x < 8 ^ 6 ->
  exists s, <[7%nat := 32]> ((formatOctal None (take 7 (getF V7.Chksum b)) x).2 ++
                             drop 7 (getF V7.Chksum b)) = s ++ [0; 32] /\
    Forall (is_digit 8) s /\ length s = 6%nat /\ dval 8 s = x.
Proof.
  intros Hb Hx; assert (Lf : length (getF V7.Chksum b) = 8%nat) by (by rewrite length_getF).
  assert (L7 : length (take 7 (getF V7.Chksum b)) = 7%nat) by (rewrite length_take; lia).
  assert (Hl7 : len (take 7 (getF V7.Chksum b)) = 7) by (unfold len; lia).
  destruct (formatOctal_layout None (take 7 (getF V7.Chksum b)) x) as (s & -> & Hd & Hv & _ & _ & Hs).
  { rewrite Hl7; assert (8 ^ 6 < 8 ^ 7) by done; lia. }
  { lia. }
  rewrite Hl7 in Hs; specialize (Hs ltac:(change (7 - 1) with 6; lia) ltac:(lia)).
  exists s; cbn [snd]; split; [|split; [done|split; [lia|done]]].
  rewrite L7; replace (7 - length s)%nat with 1%nat by lia; cbn [replicate].
  destruct (drop 7 (getF V7.Chksum b)) as [|c [|]] eqn:E;
    apply (f_equal length) in E; rewrite length_drop, Lf in E; try done.
  rewrite <- app_assoc; cbn [app]; rewrite insert_app_r_alt by lia.
  by replace (7 - length s)%nat with 1%nat by lia.
Qed.

(** [SetFormat] writes the magic values and then a checksum field that
    [parseOctal] reads back as the block's unsigned checksum. *)
Lemma SetFormat_spec b fmt :
  block_ok b -> valid_format fmt ->
  exists b1 s, setMagic fmt b = Ok b1 /\ block_ok b1 /\ SetFormat b fmt = Ok (setF V7.Chksum s b1) /\
    bytes_ok s /\ length s = 8%nat /\ forall p, parseOctal p s = (p, (ComputeChecksum b1).1).
Proof.
  intros Hb Hf; destruct (setMagic_ok b fmt Hb Hf) as (b1 & E1 & Hb1 & _).
  destruct (ComputeChecksum_bounds b1 Hb1) as [Hc _].
  destruct (Chksum_field_layout b1 (ComputeChecksum b1).1 Hb1) as (s & Es & Hd & Hl & Hv).
  { assert (128776 < 8 ^ 6) by done; lia. }
  exists b1, (s ++ [0; 32]); split; [done|]; split; [done|]; split; [|split; [|split]].
  - unfold SetFormat; rewrite E1; cbn [obind].
    destruct (ComputeChecksum b1) as [c1 c2]; cbn [fst] in *.
    destruct (formatOctal None _ c1) as [f fld7]; cbn [snd] in Es; by rewrite Es.
  - apply bytes_ok_app; split; [|repeat constructor; unfold is_byte; lia].
    eapply Forall_impl; [exact Hd|]; intros c; apply is_digit_byte; lia.
  - rewrite length_app; simpl; lia.
  - intros p; rewrite <- Hv; change (s ++ [0; 32]) with ([] ++ s ++ [0; 32]).
    apply parseOctal_padded; [constructor | | by destruct s | done |].
    + repeat constructor; set_solver.
    + rewrite Hv; lia.
Qed.

Lemma GetFormat_checksum b s :
  block_ok b -> bytes_ok s -> length s = 8%nat ->
  (forall p, parseOctal p s = (p, (ComputeChecksum b).1)) ->
  GetFormat (setF V7.Chksum s b) =
    if bool_decide (getF USTAR.Magic b = magicUSTAR) && bool_decide (getF STAR.Trailer b = trailerSTAR)
    then formatSTAR
    else if bool_decide (getF USTAR.Magic b = magicUSTAR) then formatUSTAR
    else if bool_decide (getF USTAR.Magic b = magicGNU) && bool_decide (getF USTAR.Version b = versionGNU)
    then formatGNU else formatV7.
Proof.
  intros Hb Hs Hl Hp; unfold GetFormat.
  rewrite getF_setF_eq by done; rewrite Hp, ComputeChecksum_setF by done.
  destruct (ComputeChecksum b) as [c1 c2]; cbn [fst].
  rewrite bool_decide_eq_false_2 by (intros H; by apply H); rewrite Z.eqb_refl; cbn [orb negb andb].
  by rewrite !(getF_setF_ne _ V7.Chksum) by done.
Qed.

(** The format that a stamped block is recognised as. *)
Lemma SetFormat_format b fmt :
  block_ok b -> fmt ∈ [formatGNU; formatSTAR; formatUSTAR; formatPAX] ->
  exists b', SetFormat b fmt = Ok b' /\ block_ok b' /\
    GetFormat b' =
      if fmt =? formatGNU then formatGNU
      else if fmt =? formatSTAR then formatSTAR
      else if bool_decide (getF STAR.Trailer b = trailerSTAR) then formatSTAR else formatUSTAR.
Proof.
  intros Hb Hf; destruct (SetFormat_spec b fmt Hb) as (b1 & s & E1 & Hb1 & -> & Hs & Hl & Hp).
  { unfold valid_format; rewrite elem_of_cons; auto. }
  exists (setF V7.Chksum s b1); split; [done|]; split; [by apply setF_ok|].
  rewrite GetFormat_checksum by done.
  pose proof magic_bytes_ok as Hm; rewrite !Forall_cons in Hm; destruct Hm as (?&?&?&?&?&_).
  rewrite !elem_of_cons, elem_of_nil in Hf; destruct_or!; try done; subst;
    revert E1; unfold setMagic; vm_compute (_ =? _); cbv beta iota; cbn [orb]; intros [= <-];
    unfold STAR.Magic, STAR.Version, GNU.Magic, GNU.Version, USTAR.Magic, USTAR.Version;
    fields; rewrite ?bool_decide_eq_true_2 by done; cbn [andb]; try done;
    by destruct (bool_decide (getF STAR.Trailer b = trailerSTAR)).
Qed.

(** The fields that stamping a block leaves alone. *)
Lemma SetFormat_fields b fmt b' f :
  block_ok b -> valid_format fmt -> SetFormat b fmt = Ok b' ->
  disjointF f (Field 257 8) = true -> disjointF f STAR.Trailer = true -> disjointF f V7.Chksum = true ->
  getF f b' = getF f b.
Proof.
  intros Hb Hf E H1 H2 H3; destruct (SetFormat_spec b fmt Hb Hf) as (b1 & s & E1 & Hb1 & E' & Hs & Hl & _).
  rewrite E in E'; injection E' as ->; destruct (setMagic_ok b fmt Hb Hf) as (b1' & E1' & _ & Hp).
  rewrite E1 in E1'; injection E1' as <-; rewrite getF_setF_ne by done; auto.
Qed.

(** ** Properties *)

(** C16: a block stamped by [SetFormat] is recognised by [GetFormat]: the
    stored checksum verifies and the magic values select the format that was
    asked for. PAX headers carry the USTAR magic, and the STAR trailer, if
    the block already has it, turns a USTAR block into a STAR one. *)
Theorem SetFormat_GetFormat b fmt :
  block_ok b -> fmt ∈ [formatGNU; formatSTAR; formatUSTAR; formatPAX] ->
  exists b', SetFormat b fmt = Ok b' /\ block_ok b' /\
    GetFormat b' =
      if fmt =? formatGNU then formatGNU
      else if fmt =? formatSTAR then formatSTAR
      else if bool_decide (getF STAR.Trailer b = trailerSTAR) then formatSTAR else formatUSTAR.
Proof. apply SetFormat_format. Qed.

Lemma SetFormat_GetFormat_witness :
  exists b', SetFormat zeroBlock formatUSTAR = Ok b' /\ GetFormat b' = formatUSTAR.
Proof.
  destruct (SetFormat_GetFormat zeroBlock formatUSTAR zeroBlock_ok
    ltac:(apply (bool_decide_eq_true_1 _); vm_compute; reflexivity)) as (b' & E & _ & G).
  exists b'; split; [exact E | exact G].
Defined.

(** C25: the checksum fits its field. For every block the unsigned sum is
    between 256 and 128776 (the bound the comment in [SetFormat] states) and
    the signed one between -64256 and 64264, neither depends on the stored
    checksum field, and so the six octal digits of the field hold it. *)
Theorem ComputeChecksum_range b s :
  block_ok b -> bytes_ok s -> length s = 8%nat ->
  256 <= (ComputeChecksum b).1 <= 128776 /\ 128776 < 8 ^ 6 /\ -64256 <= (ComputeChecksum b).2 <= 64264 /\
  ComputeChecksum (setF V7.Chksum s b) = ComputeChecksum b.
Proof.
  intros Hb Hs Hl; destruct (ComputeChecksum_bounds b Hb) as [? ?].
  rewrite ComputeChecksum_setF by done.
  repeat (split; [done || lia|]); done.
Qed.

Lemma ComputeChecksum_range_witness :
  ComputeChecksum (setF V7.Chksum (replicate 8 49) zeroBlock) = ComputeChecksum zeroBlock.
Proof.
  refine (proj2 (proj2 (proj2 (ComputeChecksum_range zeroBlock (replicate 8 49) zeroBlock_ok _ _)))).
  - repeat constructor; vm_compute; discriminate.
  - reflexivity.
Defined.
