(* ===== verification/GoPath.v ===== *)
(** * Go's path package and os.FileMode, as the archive packages use them *)
From S2P Require Import Prelude GoInt GoString.

(** ** os.FileMode (Go 1.12, the version of go.mod) *)
Definition ModeDir : Z := Z.shiftl 1 31.
Definition ModeSymlink : Z := Z.shiftl 1 27.
Definition ModeDevice : Z := Z.shiftl 1 26.
Definition ModeNamedPipe : Z := Z.shiftl 1 25.
Definition ModeSocket : Z := Z.shiftl 1 24.
Definition ModeSetuid : Z := Z.shiftl 1 23.
Definition ModeSetgid : Z := Z.shiftl 1 22.
Definition ModeCharDevice : Z := Z.shiftl 1 21.
Definition ModeSticky : Z := Z.shiftl 1 20.
Definition ModeIrregular : Z := Z.shiftl 1 19.
Definition ModeType : Z :=
  fold_right Z.lor 0 [ModeDir; ModeSymlink; ModeNamedPipe; ModeSocket; ModeDevice; ModeCharDevice; ModeIrregular].

Definition Perm (m : Z) : Z := Z.land m 511.
Definition IsRegular (m : Z) : bool := Z.land m ModeType =? 0.
Definition ModeIsDir (m : Z) : bool := negb (Z.land m ModeDir =? 0).

(** [m & bit != 0]. *)
Definition hasBit (m bit : Z) : bool := negb (Z.land m bit =? 0).

(** ** path *)
Definition slash : Z := 47.

(** The elements of a slash-separated path that [path.Clean] keeps: empty and
    "." elements go, ".." removes the element before it or, in a relative
    path with nothing left to remove, stays. The stack is reversed. *)
Fixpoint cleanElems (rooted : bool) (stack elems : list bytes) : list bytes :=
  match elems with
  | [] => reverse stack
  | e :: es =>
      if bool_decide (e = []) || bool_decide (e = [46]) then cleanElems rooted stack es
      else if bool_decide (e = [46; 46]) then
        match stack with
        | top :: stack' =>
            if bool_decide (top = [46; 46]) then cleanElems rooted (e :: stack) es
            else cleanElems rooted stack' es
        | [] => cleanElems rooted (if rooted then [] else [e]) es
        end
      else cleanElems rooted (e :: stack) es
  end.

Definition Clean (p : bytes) : bytes :=
  let rooted := bool_decide (head p = Some slash) in
  let body := Join (cleanElems rooted [] (Split p slash)) [slash] in
  if rooted then slash :: body
  else if bool_decide (body = []) then [46] else body.

(** Drop the trailing slashes. *)
Definition trimSlashes (p : bytes) : bytes := reverse (TrimLeft (reverse p) [slash]).

Definition Base (p : bytes) : bytes :=
  if bool_decide (p = []) then [46]
  else let p := trimSlashes p in
       let i := LastIndexByte p slash in
       let p := if 0 <=? i then slice p (i + 1) (len p) else p in
       if bool_decide (p = []) then [slash] else p.

Definition PathSplit (p : bytes) : bytes * bytes :=
  let i := LastIndexByte p slash in
  (slice p 0 (i + 1), slice p (i + 1) (len p)).

Fixpoint PathJoin (elems : list bytes) : bytes :=
  match elems with
  | [] => []
  | e :: es => if bool_decide (e = []) then PathJoin es else Clean (Join elems [slash])
  end.

(** Cleaning and joining keep ASCII paths ASCII. *)
Lemma Split_forall (P : Z -> Prop) s c : Forall P s -> Forall (Forall P) (Split s c).
Proof.
  induction 1 as [|x s Hx Hs IH]; [repeat constructor|]; cbn.
  destruct (x =? c); [by repeat constructor|].
  destruct (Split s c) as [|w ws]; [by repeat constructor|].
  apply Forall_cons_1 in IH as [? ?]; by repeat constructor.
Qed.

Lemma Join_forall (P : Z -> Prop) l sep : Forall (Forall P) l -> Forall P sep -> Forall P (Join l sep).
Proof.
  intros Hl Hsep; induction Hl as [|w ws Hw Hws IH]; [constructor|]; cbn.
  destruct ws; [done|]; by rewrite !Forall_app.
Qed.

Lemma cleanElems_forall (P : bytes -> Prop) r st es :
  Forall P st -> Forall P es -> Forall P (cleanElems r st es).
Proof.
  intros Hst Hes; revert st Hst; induction Hes as [|e es He Hes IH]; intros st Hst; cbn.
  - by apply Forall_reverse.
  - destruct (_ || _); [by apply IH|]; destruct (bool_decide _).
    + destruct st as [|top st]; [apply IH; destruct r; by repeat constructor|].
      destruct (bool_decide _); apply IH; [by constructor | by apply Forall_cons_1 in Hst as [_ ?]].
    + apply IH; by constructor.
Qed.

Lemma Clean_forall (P : Z -> Prop) p : P 46 -> P slash -> Forall P p -> Forall P (Clean p).
Proof.
  intros Hdot Hsl Hp; unfold Clean.
  assert (Forall P (Join (cleanElems (bool_decide (head p = Some slash)) [] (Split p slash)) [slash])).
  { apply Join_forall; [|by repeat constructor].
    apply cleanElems_forall; [constructor | by apply Split_forall]. }
  destruct (bool_decide (head p = Some slash)); [by constructor|].
  destruct (bool_decide _); [by repeat constructor | done].
Qed.

Lemma PathJoin_forall (P : Z -> Prop) l :
  P 46 -> P slash -> Forall (Forall P) l -> Forall P (PathJoin l).
Proof.
  intros ? ?; induction 1 as [|e es He Hes IH]; cbn; [constructor|].
  destruct (bool_decide _); [done|].
  apply Clean_forall; [done..|]; change (Forall P (Join (e :: es) [slash])); apply Join_forall; by repeat constructor.
Qed.

Lemma slice_forall (P : Z -> Prop) s i j : Forall P s -> Forall P (slice s i j).
Proof. intros; unfold slice; by apply Forall_take, Forall_drop. Qed.
