(* ===== verification/TarCommon.v ===== *)
(** * tar/common.go, tar/stat_unix.go: headers and file information *)
From S2P Require Import Prelude GoInt GoString GoTime GoPath TarStrconv TarFormat.

Definition TypeReg : Z := 48.
Definition TypeRegA : Z := 0.
Definition TypeLink : Z := 49.
Definition TypeSymlink : Z := 50.
Definition TypeChar : Z := 51.
Definition TypeBlock : Z := 52.
Definition TypeDir : Z := 53.
Definition TypeFifo : Z := 54.
Definition TypeCont : Z := 55.
Definition TypeXHeader : Z := 120.
Definition TypeXGlobalHeader : Z := 103.
Definition TypeGNULongName : Z := 76.
Definition TypeGNULongLink : Z := 75.
Definition TypeGNUSparse : Z := 83.

(** [Xattrs] is a Go map that may be nil. *)
Record Header := mkHeader {
  h_Name : bytes;
  h_Mode : Z;
  h_Uid : Z;
  h_Gid : Z;
  h_Size : Z;
  h_ModTime : Time;
  h_Typeflag : Z;
  h_Linkname : bytes;
  h_Uname : bytes;
  h_Gname : bytes;
  h_Devmajor : Z;
  h_Devminor : Z;
  h_AccessTime : Time;
  h_ChangeTime : Time;
  h_Xattrs : option (gmap bytes bytes)
}.

#[export] Instance Header_eq_dec : EqDecision Header.
Proof. solve_decision. Defined.

(** [new(Header)]. *)
Definition newHeader : Header :=
  mkHeader [] 0 0 0 0 zeroTime 0 [] [] [] 0 0 zeroTime zeroTime None.

(** Field assignments. *)
Definition set_Name v h := mkHeader v (h_Mode h) (h_Uid h) (h_Gid h) (h_Size h) (h_ModTime h) (h_Typeflag h) (h_Linkname h) (h_Uname h) (h_Gname h) (h_Devmajor h) (h_Devminor h) (h_AccessTime h) (h_ChangeTime h) (h_Xattrs h).
Definition set_Mode v h := mkHeader (h_Name h) v (h_Uid h) (h_Gid h) (h_Size h) (h_ModTime h) (h_Typeflag h) (h_Linkname h) (h_Uname h) (h_Gname h) (h_Devmajor h) (h_Devminor h) (h_AccessTime h) (h_ChangeTime h) (h_Xattrs h).
Definition set_Uid v h := mkHeader (h_Name h) (h_Mode h) v (h_Gid h) (h_Size h) (h_ModTime h) (h_Typeflag h) (h_Linkname h) (h_Uname h) (h_Gname h) (h_Devmajor h) (h_Devminor h) (h_AccessTime h) (h_ChangeTime h) (h_Xattrs h).
Definition set_Gid v h := mkHeader (h_Name h) (h_Mode h) (h_Uid h) v (h_Size h) (h_ModTime h) (h_Typeflag h) (h_Linkname h) (h_Uname h) (h_Gname h) (h_Devmajor h) (h_Devminor h) (h_AccessTime h) (h_ChangeTime h) (h_Xattrs h).
Definition set_Size v h := mkHeader (h_Name h) (h_Mode h) (h_Uid h) (h_Gid h) v (h_ModTime h) (h_Typeflag h) (h_Linkname h) (h_Uname h) (h_Gname h) (h_Devmajor h) (h_Devminor h) (h_AccessTime h) (h_ChangeTime h) (h_Xattrs h).
Definition set_ModTime v h := mkHeader (h_Name h) (h_Mode h) (h_Uid h) (h_Gid h) (h_Size h) v (h_Typeflag h) (h_Linkname h) (h_Uname h) (h_Gname h) (h_Devmajor h) (h_Devminor h) (h_AccessTime h) (h_ChangeTime h) (h_Xattrs h).
Definition set_Typeflag v h := mkHeader (h_Name h) (h_Mode h) (h_Uid h) (h_Gid h) (h_Size h) (h_ModTime h) v (h_Linkname h) (h_Uname h) (h_Gname h) (h_Devmajor h) (h_Devminor h) (h_AccessTime h) (h_ChangeTime h) (h_Xattrs h).
Definition set_Linkname v h := mkHeader (h_Name h) (h_Mode h) (h_Uid h) (h_Gid h) (h_Size h) (h_ModTime h) (h_Typeflag h) v (h_Uname h) (h_Gname h) (h_Devmajor h) (h_Devminor h) (h_AccessTime h) (h_ChangeTime h) (h_Xattrs h).
Definition set_Uname v h := mkHeader (h_Name h) (h_Mode h) (h_Uid h) (h_Gid h) (h_Size h) (h_ModTime h) (h_Typeflag h) (h_Linkname h) v (h_Gname h) (h_Devmajor h) (h_Devminor h) (h_AccessTime h) (h_ChangeTime h) (h_Xattrs h).
Definition set_Gname v h := mkHeader (h_Name h) (h_Mode h) (h_Uid h) (h_Gid h) (h_Size h) (h_ModTime h) (h_Typeflag h) (h_Linkname h) (h_Uname h) v (h_Devmajor h) (h_Devminor h) (h_AccessTime h) (h_ChangeTime h) (h_Xattrs h).
Definition set_AccessTime v h := mkHeader (h_Name h) (h_Mode h) (h_Uid h) (h_Gid h) (h_Size h) (h_ModTime h) (h_Typeflag h) (h_Linkname h) (h_Uname h) (h_Gname h) (h_Devmajor h) (h_Devminor h) v (h_ChangeTime h) (h_Xattrs h).
Definition set_ChangeTime v h := mkHeader (h_Name h) (h_Mode h) (h_Uid h) (h_Gid h) (h_Size h) (h_ModTime h) (h_Typeflag h) (h_Linkname h) (h_Uname h) (h_Gname h) (h_Devmajor h) (h_Devminor h) (h_AccessTime h) v (h_Xattrs h).
Definition set_Xattrs v h := mkHeader (h_Name h) (h_Mode h) (h_Uid h) (h_Gid h) (h_Size h) (h_ModTime h) (h_Typeflag h) (h_Linkname h) (h_Uname h) (h_Gname h) (h_Devmajor h) (h_Devminor h) (h_AccessTime h) (h_ChangeTime h) v.

Definition isHeaderOnlyType (flag : Z) : bool :=
  bool_decide (flag ∈ [TypeLink; TypeSymlink; TypeChar; TypeBlock; TypeDir; TypeFifo]).

Definition c_ISUID : Z := 2048.
Definition c_ISGID : Z := 1024.
Definition c_ISVTX : Z := 512.
Definition c_ISDIR : Z := 16384.
Definition c_ISFIFO : Z := 4096.
Definition c_ISREG : Z := 32768.
Definition c_ISLNK : Z := 40960.
Definition c_ISBLK : Z := 24576.
Definition c_ISCHR : Z := 8192.
Definition c_ISSOCK : Z := 49152.

(** Keywords for the PAX extended header. *)
Definition paxAtime : bytes := str "atime".
Definition paxCtime : bytes := str "ctime".
Definition paxGid : bytes := str "gid".
Definition paxGname : bytes := str "gname".
Definition paxLinkpath : bytes := str "linkpath".
Definition paxMtime : bytes := str "mtime".
Definition paxPath : bytes := str "path".
Definition paxSize : bytes := str "size".
Definition paxUid : bytes := str "uid".
Definition paxUname : bytes := str "uname".
Definition paxXattr : bytes := str "SCHILY.xattr.".
Definition paxNone : bytes := [].

(** [if cond { mode |= bit }]. *)
Definition orIf (cond : bool) (bit mode : Z) : Z := if cond then Z.lor mode bit else mode.

(** [headerFileInfo.Mode]. *)
Definition fileInfoMode (h : Header) : Z :=
  let mode := Perm (uint32 (h_Mode h)) in
  let mode := orIf (hasBit (h_Mode h) c_ISUID) ModeSetuid mode in
  let mode := orIf (hasBit (h_Mode h) c_ISGID) ModeSetgid mode in
  let mode := orIf (hasBit (h_Mode h) c_ISVTX) ModeSticky mode in
  let m := Z.ldiff (uint32 (h_Mode h)) 4095 in
  let mode := orIf (m =? c_ISDIR) ModeDir mode in
  let mode := orIf (m =? c_ISFIFO) ModeNamedPipe mode in
  let mode := orIf (m =? c_ISLNK) ModeSymlink mode in
  let mode := orIf (m =? c_ISBLK) ModeDevice mode in
  let mode := orIf (m =? c_ISCHR) ModeCharDevice (orIf (m =? c_ISCHR) ModeDevice mode) in
  let mode := orIf (m =? c_ISSOCK) ModeSocket mode in
  if h_Typeflag h =? TypeSymlink then Z.lor mode ModeSymlink
  else if h_Typeflag h =? TypeChar then Z.lor (Z.lor mode ModeDevice) ModeCharDevice
  else if h_Typeflag h =? TypeBlock then Z.lor mode ModeDevice
  else if h_Typeflag h =? TypeDir then Z.lor mode ModeDir
  else if h_Typeflag h =? TypeFifo then Z.lor mode ModeNamedPipe
  else mode.

Definition fileInfoIsDir (h : Header) : bool := ModeIsDir (fileInfoMode h).

(** [headerFileInfo.Name]. *)
Definition fileInfoName (h : Header) : bytes :=
  if fileInfoIsDir h then Base (Clean (h_Name h)) else Base (h_Name h).

(** The fields of a [syscall.Stat_t] that stat_unix.go reads. *)
Record Stat_t := mkStat {
  st_Uid : Z; st_Gid : Z; st_Atim : Z * Z; st_Ctim : Z * Z
}.

(** What [fi.Sys()] holds, as far as the code distinguishes it. *)
Inductive Sys := SysHeader (h : Header) | SysStat (st : Stat_t) | SysOther.

(** The os.FileInfo interface: the results of its methods. *)
Record FileInfo := mkFileInfo {
  fi_Name : bytes; fi_Size : Z; fi_Mode : Z; fi_ModTime : Time; fi_IsDir : bool; fi_Sys : Sys
}.

(** [h.FileInfo()]. *)
Definition headerFileInfo (h : Header) : FileInfo :=
  mkFileInfo (fileInfoName h) (h_Size h) (fileInfoMode h) (h_ModTime h) (fileInfoIsDir h) (SysHeader h).

Definition statAtime (st : Stat_t) : Time := Unix (st_Atim st).1 (st_Atim st).2.
Definition statCtime (st : Stat_t) : Time := Unix (st_Ctim st).1 (st_Ctim st).2.

Definition statUnix (fi : FileInfo) (h : Header) : Header :=
  match fi_Sys fi with
  | SysStat sys =>
      set_ChangeTime (statCtime sys) (set_AccessTime (statAtime sys)
        (set_Gid (goint (st_Gid sys)) (set_Uid (goint (st_Uid sys)) h)))
  | _ => h
  end.

(** The switch on the file mode: type flag, size, name suffix, link name. *)
Definition headerOfMode (fi : FileInfo) (link : bytes) (h : Header) : outcome Header :=
  let fm := fi_Mode fi in
  if IsRegular fm then Ok (set_Size (fi_Size fi) (set_Typeflag TypeReg h))
  else if fi_IsDir fi then Ok (set_Name (h_Name h ++ [slash]) (set_Typeflag TypeDir h))
  else if hasBit fm ModeSymlink then Ok (set_Linkname link (set_Typeflag TypeSymlink h))
  else if hasBit fm ModeDevice then
    if hasBit fm ModeCharDevice then Ok (set_Typeflag TypeChar h) else Ok (set_Typeflag TypeBlock h)
  else if hasBit fm ModeNamedPipe then Ok (set_Typeflag TypeFifo h)
  else if hasBit fm ModeSocket then Err (ErrMsg "archive/tar: sockets not supported")
  else Err (ErrMsg "archive/tar: unknown file mode").

(** The fields taken from a [*Header] behind [fi.Sys()]. *)
Definition copySysHeader (fi : FileInfo) (h : Header) : Header :=
  match fi_Sys fi with
  | SysHeader sys =>
      let h := set_ChangeTime (h_ChangeTime sys) (set_AccessTime (h_AccessTime sys)
        (set_Gname (h_Gname sys) (set_Uname (h_Uname sys)
          (set_Gid (h_Gid sys) (set_Uid (h_Uid sys) h))))) in
      let h := match h_Xattrs sys with Some m => set_Xattrs (Some m) h | None => h end in
      if h_Typeflag sys =? TypeLink
      then set_Linkname (h_Linkname sys) (set_Size 0 (set_Typeflag TypeLink h)) else h
  | _ => h
  end.

(** [sysStat] is nil or [statUnix], depending on the build's operating system. *)
Definition FileInfoHeader (sysStat : option (FileInfo -> Header -> Header))
    (fi : option FileInfo) (link : bytes) : outcome Header :=
  match fi with
  | None => Err (ErrMsg "tar: FileInfo is nil")
  | Some fi =>
      let fm := fi_Mode fi in
      let h := set_Mode (Perm fm) (set_ModTime (fi_ModTime fi) (set_Name (fi_Name fi) newHeader)) in
      match headerOfMode fi link h with
      | Ok h =>
          let h := set_Mode (orIf (hasBit fm ModeSetuid) c_ISUID (h_Mode h)) h in
          let h := set_Mode (orIf (hasBit fm ModeSetgid) c_ISGID (h_Mode h)) h in
          let h := set_Mode (orIf (hasBit fm ModeSticky) c_ISVTX (h_Mode h)) h in
          let h := copySysHeader fi h in
          match sysStat with Some f => Ok (f fi h) | None => Ok h end
      | o => o
      end
  end.

(** ** File modes *)

(** The mode bits and type flag of the header that [FileInfoHeader] builds
    from a mode, when the information does not come from a header. *)
Definition modeAndFlag (fm : Z) : option (Z * Z) :=
  let mode := orIf (hasBit fm ModeSticky) c_ISVTX
    (orIf (hasBit fm ModeSetgid) c_ISGID (orIf (hasBit fm ModeSetuid) c_ISUID (Perm fm))) in
  if IsRegular fm then Some (mode, TypeReg)
  else if ModeIsDir fm then Some (mode, TypeDir)
  else if hasBit fm ModeSymlink then Some (mode, TypeSymlink)
  else if hasBit fm ModeDevice then Some (mode, if hasBit fm ModeCharDevice then TypeChar else TypeBlock)
  else if hasBit fm ModeNamedPipe then Some (mode, TypeFifo)
  else None.

Lemma statUnix_mode fi h :
  h_Mode (statUnix fi h) = h_Mode h /\ h_Typeflag (statUnix fi h) = h_Typeflag h.
Proof. unfold statUnix; by destruct (fi_Sys fi). Qed.

Lemma FileInfoHeader_modeAndFlag sysStat fi link :
  (forall h, fi_Sys fi <> SysHeader h) -> fi_IsDir fi = ModeIsDir (fi_Mode fi) ->
  sysStat ∈ [None; Some statUnix] ->
  match modeAndFlag (fi_Mode fi) with
  | Some (m, t) => exists h, FileInfoHeader sysStat (Some fi) link = Ok h /\ h_Mode h = m /\ h_Typeflag h = t
  | None => exists e, FileInfoHeader sysStat (Some fi) link = Err e
  end.
Proof.
  intros Hs Hd Hst; unfold FileInfoHeader, modeAndFlag, headerOfMode; rewrite Hd; cbv zeta.
  assert (HC : forall h, copySysHeader fi h = h).
  { intros h; unfold copySysHeader; destruct (fi_Sys fi) eqn:E; [by destruct (Hs h0) | done | done]. }
  assert (HS : forall h, exists h', match sysStat with Some f => Ok (f fi h) | None => Ok h end = Ok h' /\
            h_Mode h' = h_Mode h /\ h_Typeflag h' = h_Typeflag h).
  { intros h; rewrite !elem_of_cons, elem_of_nil in Hst; destruct_or!; try done; subst;
      [by exists h | exists (statUnix fi h); split; [done | apply statUnix_mode]]. }
  set (fm := fi_Mode fi).
  destruct (IsRegular fm), (ModeIsDir fm), (hasBit fm ModeSymlink), (hasBit fm ModeDevice),
    (hasBit fm ModeCharDevice), (hasBit fm ModeNamedPipe), (hasBit fm ModeSocket);
    rewrite ?HC; first [by eexists | match goal with |- exists h, match _ with Some f => Ok (f fi ?h0) | None => _ end = _ /\ _ =>
      destruct (HS h0) as (h' & E & Em & Et); exists h'; split; [exact E | rewrite Em, Et; done] end].
Qed.

Definition supportedTypes : list Z :=
  [0; ModeDir; ModeSymlink; ModeDevice; Z.lor ModeDevice ModeCharDevice; ModeNamedPipe].
Definition setBits : list Z :=
  b1 ← [0; ModeSetuid]; b2 ← [0; ModeSetgid]; b3 ← [0; ModeSticky]; [Z.lor b1 (Z.lor b2 b3)].

(** The reconstruction on every supported mode, by computation. *)
Definition modeRoundTrips (fm : Z) : bool :=
  match modeAndFlag fm with
  | Some (m, t) => fileInfoMode (set_Typeflag t (set_Mode m newHeader)) =? fm
  | None => false
  end.

Lemma modeRoundTrips_all :
  forallb (fun ty => forallb (fun sb => forallb (fun perm =>
    modeRoundTrips (Z.lor ty (Z.lor sb perm))) (seqZ 0 512)) setBits) supportedTypes = true.
Proof. vm_compute; reflexivity. Qed.

Lemma fileInfoMode_ext h h' :
  h_Mode h = h_Mode h' -> h_Typeflag h = h_Typeflag h' -> fileInfoMode h = fileInfoMode h'.
Proof. unfold fileInfoMode; by intros -> ->. Qed.

(** ** Properties *)

(** C26: file mode round trip. For a regular file, directory, symbolic link,
    block or character device or FIFO, with any permission, setuid, setgid
    and sticky bits, the header [FileInfoHeader] builds reports, through its
    own [FileInfo().Mode()], the mode it was built from; any mode whose type
    is none of these (a socket, an irregular file) is refused with an
    error. *)
Theorem FileInfoHeader_mode sysStat fi link :
  (forall h, fi_Sys fi <> SysHeader h) -> fi_IsDir fi = ModeIsDir (fi_Mode fi) ->
  sysStat ∈ [None; Some statUnix] ->
  (forall ty sb perm, ty ∈ supportedTypes -> sb ∈ setBits -> 0 <= perm < 512 ->
     fi_Mode fi = Z.lor ty (Z.lor sb perm) ->
     exists h, FileInfoHeader sysStat (Some fi) link = Ok h /\ fileInfoMode h = fi_Mode fi) /\
  (IsRegular (fi_Mode fi) = false ->
   hasBit (fi_Mode fi) (fold_right Z.lor 0 supportedTypes) = false ->
   exists e, FileInfoHeader sysStat (Some fi) link = Err e).
Proof.
  intros Hs Hd Hst; pose proof (FileInfoHeader_modeAndFlag sysStat fi link Hs Hd Hst) as H.
  split.
  - intros ty sb perm Hty Hsb Hperm Hfm.
    pose proof modeRoundTrips_all as A.
    rewrite forallb_forall in A; apply list_elem_of_In, A in Hty.
    rewrite forallb_forall in Hty; apply list_elem_of_In, Hty in Hsb.
    apply (range_forallb _ _ _ perm) in Hsb; [|lia]; cbv beta in Hsb; rewrite <- Hfm in Hsb.
    unfold modeRoundTrips in Hsb; destruct (modeAndFlag _) as [[m t]|]; [|done].
    destruct H as (h & E & Em & Et); exists h; split; [done|].
    apply Z.eqb_eq in Hsb; rewrite <- Hsb; apply fileInfoMode_ext; cbn; congruence.
  - intros Hr Hb.
    assert (N : forall b, Z.land b (fold_right Z.lor 0 supportedTypes) = b -> hasBit (fi_Mode fi) b = false).
    { intros b Eb; unfold hasBit in *; apply negb_false_iff, Z.eqb_eq in Hb; apply negb_false_iff, Z.eqb_eq.
      rewrite <- Eb, (Z.land_comm b), Z.land_assoc, Hb; apply Z.land_0_l. }
    unfold modeAndFlag in H; rewrite Hr in H.
    change (ModeIsDir (fi_Mode fi)) with (hasBit (fi_Mode fi) ModeDir) in H.
    by rewrite !N in H by reflexivity.
Qed.

Lemma FileInfoHeader_mode_witness :
  exists h, FileInfoHeader (Some statUnix)
    (Some (mkFileInfo (str "d") 0 (Z.lor ModeDir 493) zeroTime true SysOther)) [] = Ok h /\
    fileInfoMode h = Z.lor ModeDir 493.
Proof.
  refine (proj1 (FileInfoHeader_mode (Some statUnix)
    (mkFileInfo (str "d") 0 (Z.lor ModeDir 493) zeroTime true SysOther) [] _ _ _) ModeDir 0 493 _ _ _ _).
  - discriminate.
  - reflexivity.
  - right; left.
  - apply (bool_decide_eq_true_1 _); vm_compute; reflexivity.
  - apply (bool_decide_eq_true_1 _); vm_compute; reflexivity.
  - lia.
  - reflexivity.
Defined.
