(* ===== verification/TarSparse.v ===== *)
(** * tar/reader.go: the readers of one file entry

    [regFileReader] delivers the data section of an entry and
    [sparseFileReader] expands a sparse file over it. Both read from the one
    underlying reader [tr.r], so a [Read] takes and returns its state. *)
From S2P Require Import Prelude GoInt GoString GoIO.
Open Scope go_scope.

Record sparseEntry := mkSparse { offset : Z; numBytes : Z }.

#[export] Instance sparseEntry_eq_dec : EqDecision sparseEntry.
Proof. solve_decision. Defined.

(** The values of the [numBytesReader] interface. [nilSparseFileReader] is
    the typed nil pointer that [handleSparseFile] stores when
    [newSparseFileReader] fails. *)
Inductive numBytesReader :=
  | regFileReader (nb : Z)
  | sparseFileReader (rfr : numBytesReader) (sp : list sparseEntry) (pos total : Z)
  | nilSparseFileReader.

#[export] Instance numBytesReader_eq_dec : EqDecision numBytesReader.
Proof. solve_decision. Defined.

(** [numBytes()]; on the nil pointer the field access panics. *)
Fixpoint nbrNumBytes (c : numBytesReader) : outcome Z :=
  match c with
  | regFileReader nb => Ok nb
  | sparseFileReader rfr _ _ _ => nbrNumBytes rfr
  | nilSparseFileReader => Panic
  end.

(** The loop that drops empty fragments at the front of the sparse map. *)
Fixpoint skipEmpty (sp : list sparseEntry) : list sparseEntry :=
  match sp with
  | e :: sp' => if numBytes e =? 0 then skipEmpty sp' else sp
  | [] => []
  end.

(** [readHole(b, endOffset)]: the zeros stored and the new position. *)
Definition readHole (pos n endOffset : Z) : bytes * Z :=
  let n64 := endOffset - pos in
  let n64 := if n <? n64 then n else n64 in
  (replicate (Z.to_nat n64) 0, pos + n64).

Section Read.
Context {S : Type} `{IoReader S}.

(** [regFileReader.Read] with a buffer of [n] bytes. *)
Definition regRead (nb n : Z) : M S (bytes * option error * numBytesReader) :=
  if nb =? 0 then ret ([], Some EOF, regFileReader nb)
  else if (nb <? n) && (nb <? 0) then lift Panic
  else
    let n := if nb <? n then nb else n in
    let! (bs, err) := ioRead n in
    let nb := nb - len bs in
    let err := if bool_decide (err = Some EOF) && (0 <? nb) then Some ErrUnexpectedEOF else err in
    ret (bs, err, regFileReader nb).

(** [Read] on a [numBytesReader]; the case of [sparseFileReader]. *)
Fixpoint nbrRead (c : numBytesReader) (n : Z) : M S (bytes * option error * numBytesReader) :=
  match c with
  | nilSparseFileReader => lift Panic
  | regFileReader nb => regRead nb n
  | sparseFileReader rfr sp pos total =>
      match skipEmpty sp with
      | [] =>
          if pos <? total then
            let '(bs, pos) := readHole pos n total in
            ret (bs, None, sparseFileReader rfr [] pos total)
          else ret ([], Some EOF, sparseFileReader rfr [] pos total)
      | e :: sp' =>
          if pos <? offset e then
            let '(bs, pos) := readHole pos n (offset e) in
            ret (bs, None, sparseFileReader rfr (e :: sp') pos total)
          else
            let endPos := int64 (offset e + numBytes e) in
            let bytesLeft := int64 (endPos - pos) in
            if (bytesLeft <? n) && (bytesLeft <? 0) then lift Panic
            else
              let n := if bytesLeft <? n then bytesLeft else n in
              let! (bs, err, rfr) := nbrRead rfr n in
              let pos := pos + len bs in
              let err := if bool_decide (err = Some EOF) then
                           if pos <? endPos then Some ErrUnexpectedEOF
                           else if pos <? total then None else err
                         else err in
              ret (bs, err, sparseFileReader rfr (if pos =? endPos then sp' else e :: sp') pos total)
      end
  end.
End Read.

(** The validation loop of [newSparseFileReader]; [prev] is [sp[i-1]]. *)
Fixpoint validSparse (prev : option sparseEntry) (total : Z) (sp : list sparseEntry) : bool :=
  match sp with
  | [] => true
  | s :: sp' =>
      if (offset s <? 0) || (numBytes s <? 0) then false
      else if maxInt64 - numBytes s <? offset s then false
      else if total <? int64 (offset s + numBytes s) then false
      else if match prev with Some p => offset s <? int64 (offset p + numBytes p) | None => false end then false
      else validSparse (Some s) total sp'
  end.

Definition newSparseFileReader (rfr : numBytesReader) (sp : list sparseEntry) (total : Z)
    : numBytesReader * option error :=
  if total <? 0 then (nilSparseFileReader, Some ErrHeader)
  else if negb (validSparse None total sp) then (nilSparseFileReader, Some ErrHeader)
  else (sparseFileReader rfr sp 0 total, None).

(** ** Specification

    The content of a sparse file from position [pos] on, as the comment on
    [sparseEntry] describes it: fragments of the stored data at their
    offsets, zeros everywhere else up to [total]. *)
Fixpoint expand (pos : Z) (sp : list sparseEntry) (total : Z) (data : bytes) : bytes :=
  match sp with
  | [] => replicate (Z.to_nat (total - pos)) 0
  | e :: sp' =>
      replicate (Z.to_nat (offset e - pos)) 0 ++
      take (Z.to_nat (numBytes e)) data ++
      expand (offset e + numBytes e) sp' total (drop (Z.to_nat (numBytes e)) data)
  end.

Fixpoint sparseSize (sp : list sparseEntry) : Z :=
  match sp with [] => 0 | e :: sp' => numBytes e + sparseSize sp' end.

(** An ordered map of non-overlapping fragments inside [pos, total). *)
Fixpoint sparseMapOk (pos total : Z) (sp : list sparseEntry) : Prop :=
  match sp with
  | [] => pos <= total
  | e :: sp' => pos <= offset e /\ 0 <= numBytes e /\ sparseMapOk (offset e + numBytes e) total sp'
  end.

Example expand_doc :
  expand 0 [mkSparse 2 5; mkSparse 18 3] 25 (str "abcdefgh") =
    replicate 2 0 ++ str "abcde" ++ replicate 11 0 ++ str "fgh" ++ replicate 4 0.
Proof. reflexivity. Qed.

(** ** The map *)
Lemma validSparse_spec prev total sp :
  0 <= total <= maxInt64 -> 
  match prev with Some p => 0 <= offset p /\ 0 <= numBytes p /\ offset p + numBytes p <= total | None => True end ->
  validSparse prev total sp = true <->
  sparseMapOk (match prev with Some p => offset p + numBytes p | None => 0 end) total sp.
Proof.
  intros Ht; revert prev; induction sp as [|e sp IH]; intros prev Hp; cbn [validSparse sparseMapOk].
  { split; [intros _ | done]; destruct prev; lia. }
  assert (Hmono : forall pos sp, sparseMapOk pos total sp -> pos <= total).
  { clear; intros pos sp; revert pos; induction sp as [|e sp IH]; intros pos; cbn; [done|].
    intros (? & ? & ?%IH); lia. }
  destruct (Z.ltb_spec (offset e) 0); cbn [orb].
  { split; [done|]; intros (? & _); destruct prev; lia. }
  destruct (Z.ltb_spec (numBytes e) 0); [split; [done | lia]|].
  destruct (Z.ltb_spec (maxInt64 - numBytes e) (offset e)).
  { split; [done|]; intros (_ & _ & ?%Hmono); lia. }
  rewrite (int64_id (offset e + numBytes e)) by (unfold in_int64, maxInt64 in *; lia).
  destruct (Z.ltb_spec total (offset e + numBytes e)).
  { split; [done|]; intros (_ & _ & ?%Hmono); lia. }
  destruct prev as [p|].
  - rewrite (int64_id (offset p + numBytes p)) by (unfold in_int64, maxInt64 in *; lia).
    destruct (Z.ltb_spec (offset e) (offset p + numBytes p)); [split; [done | lia]|].
    rewrite IH by done; naive_solver lia.
  - rewrite IH by done; naive_solver lia.
Qed.

Lemma sparseMapOk_le pos total sp : sparseMapOk pos total sp -> pos <= total.
Proof. revert pos; induction sp as [|e sp IH]; intros pos; cbn; [done|]; intros (? & ? & ?%IH); lia. Qed.

Lemma sparseMapOk_size pos total sp : sparseMapOk pos total sp -> 0 <= sparseSize sp <= total - pos.
Proof.
  revert pos; induction sp as [|e sp IH]; intros pos; cbn; [lia|]; intros (? & ? & ?%IH); lia.
Qed.

Lemma len_replicate {A} n (x : A) : len (replicate n x) = Z.of_nat n.
Proof. unfold len; by rewrite length_replicate. Qed.

Lemma expand_len pos sp total data :
  sparseMapOk pos total sp -> sparseSize sp <= len data -> len (expand pos sp total data) = total - pos.
Proof.
  revert pos data; induction sp as [|e sp IH]; intros pos data; cbn [sparseMapOk expand sparseSize].
  - intros; rewrite len_replicate; lia.
  - intros (H1 & H2 & H3) Hd; pose proof (sparseMapOk_size _ _ _ H3).
    rewrite !len_app, len_replicate, IH; [|done|]; unfold len in *;
      rewrite ?length_take, ?length_drop; lia.
Qed.

(** A hole in front of the map can be split off. *)
Lemma expand_gap pos m sp total data :
  pos <= m -> sparseMapOk m total sp ->
  expand pos sp total data = replicate (Z.to_nat (m - pos)) 0 ++ expand m sp total data.
Proof.
  intros Hm Hok; destruct sp as [|e sp]; cbn in *.
  - rewrite <- replicate_add; f_equal; lia.
  - rewrite (app_assoc (replicate (Z.to_nat (m - pos)) 0)), <- replicate_add; do 2 f_equal; lia.
Qed.

Lemma expand_full sp total data : sparseMapOk total total sp -> expand total sp total data = [].
Proof.
  intros Hok; apply len_nil_inv; pose proof (sparseMapOk_size _ _ _ Hok).
  clear -Hok; revert data Hok; enough (G : forall pos data, total <= pos -> sparseMapOk pos total sp ->
    len (expand pos sp total data) = 0) by (intros; apply G; [lia|done]).
  induction sp as [|e sp IH]; intros pos data Hp Hok; cbn in *.
  - rewrite len_replicate; lia.
  - destruct Hok as (H1 & H2 & H3); pose proof (sparseMapOk_le _ _ _ H3).
    rewrite !len_app, len_replicate, IH by (done || lia).
    replace (Z.to_nat (numBytes e)) with 0%nat by lia; rewrite take_0, (@len_nil Z); lia.
Qed.

(** ** Reading *)

(** The rest of the fragment at the front of the map, when [pos] is inside it. *)
Definition norm (pos : Z) (sp : list sparseEntry) : list sparseEntry :=
  match sp with
  | [] => []
  | e :: sp' => let o := Z.max pos (offset e) in mkSparse o (offset e + numBytes e - o) :: sp'
  end.

Definition midOk (pos total : Z) (sp : list sparseEntry) : Prop :=
  0 <= pos /\ total <= maxInt64 /\
  match sp with
  | [] => pos <= total
  | e :: sp' => (pos <= offset e \/ pos < offset e + numBytes e) /\ 0 <= offset e /\ 0 <= numBytes e /\
                sparseMapOk (offset e + numBytes e) total sp'
  end.

Lemma sparseMapOk_mid pos total sp :
  0 <= pos -> total <= maxInt64 -> sparseMapOk pos total sp -> midOk pos total sp /\ norm pos sp = sp.
Proof.
  intros Hp Ht; destruct sp as [|e sp]; cbn; [by unfold midOk|].
  intros (H1 & H2 & H3); split; [unfold midOk; naive_solver lia|].
  destruct e as [o n]; cbn in *; f_equal; f_equal; lia.
Qed.

Lemma skipEmpty_mid pos total sp data :
  midOk pos total sp ->
  midOk pos total (skipEmpty sp) /\
  expand pos (norm pos (skipEmpty sp)) total data = expand pos (norm pos sp) total data /\
  sparseSize (norm pos (skipEmpty sp)) = sparseSize (norm pos sp) /\
  match skipEmpty sp with e :: _ => numBytes e <> 0 | [] => True end.
Proof.
  induction sp as [|e sp IH]; intros Hm; [done|]; cbn [skipEmpty].
  destruct (Z.eqb_spec (numBytes e) 0) as [E|E]; [|done].
  destruct Hm as (Hp & Ht & Ho & Hoff & Hn & Hok).
  rewrite E, Z.add_0_r in *; assert (pos <= offset e) by lia.
  assert (Hok' : sparseMapOk pos total sp) by (destruct sp; cbn in *; lia || naive_solver lia).
  destruct (sparseMapOk_mid pos total sp Hp Ht Hok') as [Hmid Hnorm].
  destruct (IH Hmid) as (H1 & H2 & H3 & H4).
  split; [done|]; split; [|split; [|done]].
  - rewrite H2, Hnorm; cbn [norm expand offset numBytes].
    rewrite Z.max_r, E, Z.add_0_r, Z.sub_diag, Z.add_0_r, take_0, drop_0 by lia; cbn [app].
    by apply expand_gap.
  - rewrite H3, Hnorm; cbn; lia.
Qed.

Section ReadSpec.
Context {S : Type} `{IoStream S}.

(** [Read] through the interface value, as a read method on it and the
    underlying reader. *)
Definition nbrMethod : readMethod (numBytesReader * S) :=
  fun n '(c, s) =>
    match nbrRead c n s with
    | (Ok (bs, e, c'), s') => (Ok (bs, e), (c', s'))
    | (Err e, s') => (Err e, (c, s'))
    | (Panic, s') => (Panic, (c, s'))
    | (OutOfFuel, s') => (OutOfFuel, (c, s'))
    end.

(** An entry's data section: [out] is left of it, [tail] follows it. *)
Definition regInv (tail : bytes) (out : bytes) (cs : numBytesReader * S) : Prop :=
  cs.1 = regFileReader (len out) /\ io_rest cs.2 = out ++ tail.

Lemma regRead_step tail out s n :
  io_rest s = out ++ tail -> 0 < n ->
  exists bs e s', regRead (len out) n s = (Ok (bs, e, regFileReader (len out - len bs)), s') /\
    len bs <= n /\
    ((e = None /\ bs <> [] /\ exists out', out = bs ++ out' /\ io_rest s' = out' ++ tail) \/
     (e = Some EOF /\ out = bs /\ io_rest s' = tail)).
Proof.
  intros Hs Hn; unfold regRead; pose proof (len_nonneg out).
  destruct (Z.eqb_spec (len out) 0) as [E|E].
  { apply len_nil_inv in E; subst out; exists [], (Some EOF), s; unfold ret.
    rewrite len_nil in *; split; [done|]; split; [lia|]; right; done. }
  rewrite (proj2 (Z.ltb_ge (len out) 0)), andb_false_r by lia.
  set (n' := if len out <? n then len out else n).
  assert (Hn' : 0 < n' <= n /\ n' <= len out) by (unfold n'; destruct (Z.ltb_spec (len out) n); lia).
  unfold bind, ioRead; destruct (io_read s n') as [[bs e] s'] eqn:E'.
  destruct (io_read_stream s n' bs e s' ltac:(lia) E') as (Hl & Hr & He).
  rewrite Hs in Hr.
  assert (Hsplit : exists out', out = bs ++ out' /\ io_rest s' = out' ++ tail).
  { exists (drop (length bs) out); split.
    - rewrite <- (take_drop (length bs) out) at 1; f_equal.
      rewrite <- (take_app_le out tail) by (unfold len in *; lia); by rewrite Hr, take_app_length.
    - rewrite <- drop_app_le by (unfold len in *; lia); by rewrite Hr, drop_app_length. }
  destruct Hsplit as (out' & Ho & Hr').
  assert (Hnb : len out - len bs = len out') by (rewrite Ho, len_app; lia).
  unfold ret; destruct He as [[-> Hb] | [-> He]].
  - rewrite bool_decide_eq_false_2 by done; cbn [andb].
    exists bs, None, s'; split; [done|]; split; [lia|]; left; eauto.
  - rewrite He in Hr'; symmetry in Hr'; apply app_nil in Hr' as [-> ->].
    rewrite len_nil in Hnb; rewrite Hnb, bool_decide_eq_true_2 by done; cbn [andb Z.ltb Z.compare].
    exists bs, (Some EOF), s'; rewrite Hnb; split; [done|]; split; [lia|].
    right; by rewrite app_nil_r in Ho.
Qed.

#[export] Instance regFileReader_ReadsTo tail : ReadsTo nbrMethod (regInv tail).
Proof.
  intros out [c s] n [Hc Hs] Hn; cbn in Hc, Hs; subst c; cbn [nbrMethod nbrRead].
  destruct (regRead_step tail out s n Hs Hn) as (bs & e & s' & -> & Hl & Hcase).
  exists bs, e, (regFileReader (len out - len bs), s'); split; [done|]; split; [done|].
  destruct Hcase as [(-> & Hb & out' & -> & Hs') | (-> & -> & Hs')].
  - left; split; [done|]; split; [done|]; exists out'; split; [done|].
    split; cbn; [f_equal; lens; lia | done].
  - right; split; [done|]; split; [done|]; split; cbn; [by rewrite Z.sub_diag | done].
Qed.

(** A sparse entry: at [pos], with [data] left in the data section, at least
    as much as the fragments of the map still need; [tail] follows. *)
Definition sparseInv (tail : bytes) (out : bytes) (cs : numBytesReader * S) : Prop :=
  exists sp pos total data,
    cs.1 = sparseFileReader (regFileReader (len data)) sp pos total /\
    io_rest cs.2 = data ++ tail /\ midOk pos total sp /\
    sparseSize (norm pos sp) <= len data /\ out = expand pos (norm pos sp) total data.

Lemma nbrRead_sparse rfr sp pos total n :
  nbrRead (sparseFileReader rfr sp pos total) n = nbrRead (S := S) (sparseFileReader rfr (skipEmpty sp) pos total) n.
Proof.
  cbn [nbrRead].
  assert (skipEmpty (skipEmpty sp) = skipEmpty sp) as ->; [|done].
  induction sp as [|e sp IH]; [done|]; cbn [skipEmpty].
  destruct (Z.eqb_spec (numBytes e) 0) as [E|E]; [done|].
  cbn [skipEmpty]; by rewrite (proj2 (Z.eqb_neq _ _)).
Qed.

Lemma readHole_spec pos n endOffset :
  pos < endOffset -> 0 < n ->
  exists k, (0 < k)%nat /\ Z.of_nat k <= n /\ Z.of_nat k <= endOffset - pos /\
    readHole pos n endOffset = (replicate k 0, pos + Z.of_nat k).
Proof.
  intros Hp Hn; unfold readHole; exists (Z.to_nat (Z.min n (endOffset - pos))).
  split; [lia|]; split; [lia|]; split; [lia|].
  destruct (Z.ltb_spec n (endOffset - pos)); (f_equal; [do 2 f_equal; lia | lia]).
Qed.

(** The hole case, shared by the last hole and the holes between fragments. *)
Lemma sparse_hole_step sp pos total data tail n endOffset s :
  io_rest s = data ++ tail -> midOk pos total sp -> sparseSize (norm pos sp) <= len data ->
  endOffset = (match sp with [] => total | e :: _ => offset e end) -> pos < endOffset -> 0 < n ->
  exists bs pos', readHole pos n endOffset = (bs, pos') /\ len bs <= n /\ bs <> [] /\
    exists out', expand pos (norm pos sp) total data = bs ++ out' /\
      sparseInv tail out' (sparseFileReader (regFileReader (len data)) sp pos' total, s).
Proof.
  intros Hs Hm Hsz He Hlt Hn.
  destruct (readHole_spec pos n endOffset Hlt Hn) as (k & Hk & Hkn & Hke & E).
  exists (replicate k 0), (pos + Z.of_nat k); rewrite len_replicate.
  split; [done|]; split; [done|]; split; [destruct k; [lia | done]|].
  exists (expand (pos + Z.of_nat k) (norm (pos + Z.of_nat k) sp) total data).
  assert (Hmid : midOk (pos + Z.of_nat k) total sp).
  { destruct Hm as (? & ? & Hm); split; [lia|]; split; [done|]; subst endOffset.
    destruct sp as [|e sp]; [lia | naive_solver lia]. }
  assert (Hnorm : norm (pos + Z.of_nat k) sp = norm pos sp).
  { destruct sp as [|e sp]; [done|]; cbn; subst endOffset; rewrite !Z.max_r by lia; done. }
  split.
  - rewrite Hnorm; subst endOffset; destruct sp as [|e sp]; cbn [norm expand offset numBytes].
    + rewrite <- replicate_add; f_equal; lia.
    + rewrite (app_assoc (replicate k 0)), <- replicate_add; do 2 f_equal; lia.
  - exists sp, (pos + Z.of_nat k), total, data; rewrite Hnorm; done.
Qed.

(** The data case: the next bytes of the fragment the position is in. *)
Lemma sparse_data_step e sp pos total data tail n s :
  io_rest s = data ++ tail -> midOk pos total (e :: sp) -> numBytes e <> 0 -> offset e <= pos ->
  sparseSize (norm pos (e :: sp)) <= len data -> 0 < n ->
  exists bs err c' s', nbrRead (sparseFileReader (regFileReader (len data)) (e :: sp) pos total) n s =
      (Ok (bs, err, c'), s') /\ len bs <= n /\
    ((err = None /\ bs <> [] /\ exists out', expand pos (norm pos (e :: sp)) total data = bs ++ out' /\
       sparseInv tail out' (c', s')) \/
     (err = Some EOF /\ expand pos (norm pos (e :: sp)) total data = bs /\ sparseInv tail [] (c', s'))).
Proof.
  intros Hs (Hp & Ht & Hmid & Hoff & Hnb & Hok) Hne Hge Hsz Hn.
  pose proof (sparseMapOk_le _ _ _ Hok) as Hle; pose proof (sparseMapOk_size _ _ _ Hok) as Hszs.
  unfold maxInt64 in *.
  cbn [nbrRead skipEmpty]; rewrite (proj2 (Z.eqb_neq (numBytes e) 0)), (proj2 (Z.ltb_ge pos (offset e))) by done.
  set (endPos := offset e + numBytes e) in *.
  rewrite (int64_id endPos) by (unfold in_int64, endPos; lia).
  rewrite (int64_id (endPos - pos)) by (unfold in_int64, endPos; lia).
  rewrite (proj2 (Z.ltb_ge (endPos - pos) 0)), andb_false_r by (unfold endPos; lia).
  set (n' := if endPos - pos <? n then endPos - pos else n).
  assert (Hn' : 0 < n' <= n /\ n' <= endPos - pos)
    by (unfold n', endPos in *; destruct (Z.ltb_spec (offset e + numBytes e - pos) n); lia).
  cbn [norm sparseSize offset numBytes] in Hsz |- *; fold endPos in Hsz |- *; rewrite Z.max_l in * by lia.
  cbn [expand offset numBytes]; fold endPos.
  rewrite Z.sub_diag; cbn [Z.to_nat replicate app].
  replace (pos + (endPos - pos)) with endPos by lia.
  destruct (regRead_step tail data s n' Hs ltac:(lia)) as (bs & err & s' & E & Hl & Hcase).
  unfold bind; rewrite E; unfold ret.
  set (fin := if pos + len bs =? endPos then sp else e :: sp).
  destruct Hcase as [(-> & Hb & data' & -> & Hs') | (-> & -> & Hs')].
  - rewrite bool_decide_eq_false_2 by done; rewrite len_app in *.
    assert (1 <= len bs) by (destruct bs; [done | rewrite len_cons; pose proof (len_nonneg bs); lia]).
    eexists _, _, _, _; split; [reflexivity|]; split; [lia|]; left; split; [done|]; split; [done|].
    assert (Ed : len bs + len data' - len bs = len data') by lia; rewrite Ed; fold fin.
    set (k := (Z.to_nat (endPos - pos) - length bs)%nat).
    rewrite take_app_ge, drop_app_ge by (unfold len in *; lia); fold k.
    exists (take k data' ++ expand endPos sp total (drop k data')).
    split; [by rewrite <- app_assoc|].
    exists fin, (pos + len bs), total, data'; cbn [fst snd].
    split; [done|]; split; [done|]; unfold fin; destruct (Z.eqb_spec (pos + len bs) endPos) as [Ee|Ee].
    + rewrite Ee; destruct (sparseMapOk_mid endPos total sp) as [Hm' Hnorm]; [unfold endPos; lia | done..|].
      rewrite Hnorm; replace k with 0%nat by (unfold k, len in *; lia); rewrite take_0, drop_0.
      split; [done|]; split; [lia | done].
    + split; [unfold midOk; fold endPos; naive_solver lia|].
      cbn [norm sparseSize expand offset numBytes]; fold endPos; rewrite Z.max_l by lia.
      split; [lia|]; rewrite Z.sub_diag; cbn [Z.to_nat replicate app].
      replace (Z.to_nat (endPos - (pos + len bs))) with k by (unfold k, len in *; lia).
      by replace (pos + len bs + (endPos - (pos + len bs))) with endPos by lia.
  - rewrite bool_decide_eq_true_2 by done.
    assert (Hb : len bs = endPos - pos) by lia.
    rewrite (proj2 (Z.ltb_ge (pos + len bs) endPos)) by lia.
    unfold fin; rewrite (proj2 (Z.eqb_eq _ endPos)) by lia; rewrite Z.sub_diag.
    rewrite take_ge, drop_ge by (unfold len in *; lia).
    destruct (sparseMapOk_mid endPos total sp) as [Hm' Hnorm]; [unfold endPos; lia | done..|].
    assert (Hinv : sparseInv tail (expand endPos sp total [])
       (sparseFileReader (regFileReader 0) sp (pos + len bs) total, s')).
    { exists sp, endPos, total, []; cbn [fst snd]; rewrite Hnorm.
      split; [f_equal; lia|]; split; [done|].
      split; [done|]; split; [rewrite (@len_nil Z); lia | done]. }
    eexists _, _, _, _; split; [reflexivity|]; split; [lia|].
    destruct (Z.ltb_spec (pos + len bs) total).
    + left; split; [done|]; split; [|by eexists].
      intros ->; rewrite len_nil in Hb; unfold endPos in *; lia.
    + right; split; [done|].
      assert (total = endPos) as -> by lia; rewrite expand_full in Hinv |- * by done.
      by rewrite app_nil_r.
Qed.

#[export] Instance sparseFileReader_ReadsTo tail : ReadsTo nbrMethod (sparseInv tail).
Proof.
  intros out [c s] n (sp & pos & total & data & Hc & Hs & Hm & Hsz & ->) Hn; cbn in Hc, Hs; subst c.
  destruct (skipEmpty_mid pos total sp data Hm) as (Hm' & He & Hz & Hne).
  unfold nbrMethod; rewrite nbrRead_sparse, <- He; rewrite <- Hz in Hsz; clear Hm He Hz.
  assert (Hidem : skipEmpty (skipEmpty sp) = skipEmpty sp).
  { destruct (skipEmpty sp) as [|e sp'] eqn:E; [done|]; cbn; by rewrite (proj2 (Z.eqb_neq _ _)). }
  destruct (skipEmpty sp) as [|e sp'].
  - cbn [nbrRead skipEmpty]; destruct (Z.ltb_spec pos total) as [Hlt|Hge].
    + destruct (sparse_hole_step [] pos total data tail n total s Hs Hm' Hsz eq_refl Hlt Hn)
        as (bs & pos' & -> & Hl & Hb & out' & Ho & Hinv).
      unfold ret; exists bs, None, (sparseFileReader (regFileReader (len data)) [] pos' total, s).
      split; [done|]; split; [done|]; left; eauto.
    + unfold ret; exists [], (Some EOF), (sparseFileReader (regFileReader (len data)) [] pos total, s).
      split; [done|]; rewrite len_nil; split; [lia|]; right.
      assert (expand pos (norm pos []) total data = []) as E by (cbn; by replace (Z.to_nat (total - pos)) with 0%nat by lia).
      rewrite E; split; [done|]; split; [done|]; exists [], pos, total, data; done.
  - destruct (Z.lt_ge_cases pos (offset e)) as [Hlt|Hge].
    + cbn [nbrRead]; rewrite Hidem, (proj2 (Z.ltb_lt _ _)) by done.
      destruct (sparse_hole_step (e :: sp') pos total data tail n (offset e) s Hs Hm' Hsz eq_refl Hlt Hn)
        as (bs & pos' & -> & Hl & Hb & out' & Ho & Hinv).
      unfold ret; exists bs, None, (sparseFileReader (regFileReader (len data)) (e :: sp') pos' total, s).
      split; [done|]; split; [done|]; left; eauto.
    + destruct (sparse_data_step e sp' pos total data tail n s Hs Hm' Hne Hge Hsz Hn)
        as (bs & err & c' & s' & -> & Hl & Hcase).
      exists bs, err, (c', s'); split; [done|]; split; [done|].
      destruct Hcase as [(-> & Hb & out' & Ho & Hinv) | (-> & Ho & Hinv)]; [left | right]; eauto.
Qed.
End ReadSpec.

(** ** Properties *)

(** A well-formed map, position by position: fragments lie inside the file,
    and each one ends before all later ones begin. *)
Definition fragmentsIn (lo total : Z) (sp : list sparseEntry) : Prop :=
  lo <= total /\
  Forall (fun e => lo <= offset e /\ 0 <= numBytes e /\ offset e + numBytes e <= total) sp /\
  forall i j ei ej, (i < j)%nat -> sp !! i = Some ei -> sp !! j = Some ej ->
    offset ei + numBytes ei <= offset ej.

Lemma sparseMapOk_fragments pos total sp : sparseMapOk pos total sp <-> fragmentsIn pos total sp.
Proof.
  revert pos; induction sp as [|e sp IH]; intros pos; cbn [sparseMapOk].
  { unfold fragmentsIn; split; [|tauto]; intros Hle; split; [done|]; split; [constructor | done]. }
  rewrite IH; unfold fragmentsIn; rewrite Forall_cons, !Forall_forall; split.
  - intros (H1 & H2 & H3 & H4 & H5); split; [lia|]; split; [split; [lia|]|].
    + intros x Hx; specialize (H4 x Hx); lia.
    + intros [|i] [|j] ei ej Hij Hi Hj; cbn in Hi, Hj; try lia.
      * injection Hi as <-; apply list_elem_of_lookup_2, H4 in Hj; lia.
      * apply (H5 i j); [lia | done..].
  - intros (H1 & (H2 & H3) & H4); split; [lia|]; split; [lia|]; split; [lia|]; split.
    + intros x Hx; pose proof (H3 x Hx) as H3x; split; [|lia].
      apply list_elem_of_lookup_1 in Hx as [j Hj]; apply (H4 0%nat (S j) e x); [lia | done..].
    + intros i j ei ej Hij Hi Hj; apply (H4 (S i) (S j)); [lia | done..].
Qed.

Lemma newSparseFileReader_spec rfr sp total :
  total <= maxInt64 ->
  fragmentsIn 0 total sp /\ newSparseFileReader rfr sp total = (sparseFileReader rfr sp 0 total, None) \/
  ~ fragmentsIn 0 total sp /\ newSparseFileReader rfr sp total = (nilSparseFileReader, Some ErrHeader).
Proof.
  intros Ht; unfold newSparseFileReader; rewrite <- sparseMapOk_fragments.
  destruct (Z.ltb_spec total 0).
  { right; split; [|done]; intros Hok%sparseMapOk_le; lia. }
  pose proof (validSparse_spec None total sp ltac:(lia) I) as Hv.
  destruct (validSparse None total sp); cbn [negb].
  - left; split; [by apply Hv | done].
  - right; split; [|done]; by intros Hok%Hv.
Qed.

(** C24: validation of sparse maps. For any [int64] total size,
    [newSparseFileReader] accepts a sparse map exactly when the size is not
    negative, every fragment lies inside the file and each fragment ends
    before any later one begins; otherwise it returns [ErrHeader]. No map
    passes by overflowing the sum of an offset and a length. *)
Theorem newSparseFileReader_validates rfr sp total :
  total <= maxInt64 ->
  (snd (newSparseFileReader rfr sp total) = None <-> fragmentsIn 0 total sp) /\
  (snd (newSparseFileReader rfr sp total) = None ->
     fst (newSparseFileReader rfr sp total) = sparseFileReader rfr sp 0 total) /\
  (snd (newSparseFileReader rfr sp total) <> None ->
     newSparseFileReader rfr sp total = (nilSparseFileReader, Some ErrHeader)).
Proof.
  intros Ht; destruct (newSparseFileReader_spec rfr sp total Ht) as [[? ->] | [? ->]]; naive_solver.
Qed.

Lemma newSparseFileReader_validates_witness :
  fragmentsIn 0 25 [mkSparse 2 5; mkSparse 18 3] /\ ~ fragmentsIn 0 25 [mkSparse 2 5; mkSparse 6 3] /\
  newSparseFileReader (regFileReader 8) [mkSparse maxInt64 5] 25 = (nilSparseFileReader, Some ErrHeader).
Proof.
  split; [|split].
  - apply (newSparseFileReader_validates (regFileReader 8)); [unfold maxInt64; lia | vm_compute; reflexivity].
  - intros Hf; apply (newSparseFileReader_validates (regFileReader 8)) in Hf; [|unfold maxInt64; lia].
    vm_compute in Hf; discriminate.
  - apply (newSparseFileReader_validates (regFileReader 8)); [unfold maxInt64; lia | vm_compute; discriminate].
Defined.

Section Whole.
Context {S : Type} `{IoStream S}.

(** C13: reading a sparse file. When the data section holds at least the
    bytes the fragments need, reading an accepted sparse file to its end
    yields exactly its expansion (the stored fragments at their offsets,
    zeros elsewhere), which has the announced total size, without error;
    the counter of the underlying reader still tells how much of the data
    section is unread, so that the archive can be skipped to the next
    entry. The reader underneath may deliver the data in any pieces. *)
Theorem sparse_ReadAll sp total data tail s fuel :
  fragmentsIn 0 total sp -> total <= maxInt64 -> sparseSize sp <= len data ->
  io_rest s = data ++ tail -> (Z.to_nat total < fuel)%nat ->
  exists c' s' rest,
    ReadAll nbrMethod fuel (fst (newSparseFileReader (regFileReader (len data)) sp total), s) =
      (Ok (expand 0 sp total data, None), (c', s')) /\
    len (expand 0 sp total data) = total /\
    nbrNumBytes c' = Ok (len rest) /\ io_rest s' = rest ++ tail.
Proof.
  intros Hf Ht Hsz Hs Hfuel.
  destruct (newSparseFileReader_spec (regFileReader (len data)) sp total Ht) as [[_ ->] | [? _]]; [|done].
  apply sparseMapOk_fragments in Hf; cbn [fst].
  pose proof (expand_len 0 sp total data Hf Hsz) as Hlen; pose proof (sparseMapOk_le _ _ _ Hf).
  destruct (sparseMapOk_mid 0 total sp ltac:(lia) Ht Hf) as [Hm Hn].
  destruct (ReadAll_spec nbrMethod (sparseInv tail) fuel (expand 0 sp total data)
    (sparseFileReader (regFileReader (len data)) sp 0 total, s)) as ([c' s'] & E & Hinv).
  - exists sp, 0, total, data; rewrite Hn; done.
  - unfold len in Hlen; lia.
  - destruct Hinv as (sp' & pos' & total' & rest & Hc & Hr & _); cbn in Hc, Hr; subst c'.
    eexists _, s', rest; rewrite E; split; [done|]; split; [lia | done].
Qed.

(** Reading past the end of the stream inside a data section. *)
Lemma readAllLoop_truncated nb out s fuel acc cap :
  io_rest s = out -> len out < nb -> len acc <= cap -> (length out < fuel)%nat ->
  exists c' s', readAllLoop nbrMethod fuel acc cap (regFileReader nb, s) =
    (Ok (acc ++ out, Some ErrUnexpectedEOF), (c', s')) /\ io_rest s' = [].
Proof.
  revert nb out s acc cap; induction fuel as [|f IH]; intros nb out s acc cap Hs Hnb Hcap Hf; [lia|].
  cbn [readAllLoop]; pose proof (len_nonneg acc); pose proof (len_nonneg out).
  set (cap' := if 512 <=? cap - len acc then cap else 2 * cap + 512).
  assert (512 <= cap' - len acc) by (unfold cap'; destruct (Z.leb_spec 512 (cap - len acc)); lia).
  cbn [nbrMethod nbrRead]; unfold bind at 1; cbn [nbrMethod nbrRead]; unfold regRead.
  rewrite (proj2 (Z.eqb_neq nb 0)), (proj2 (Z.ltb_ge nb 0)), andb_false_r by lia.
  set (n' := if nb <? cap' - len acc then nb else cap' - len acc).
  assert (Hn' : 0 < n') by (unfold n'; destruct (Z.ltb_spec nb (cap' - len acc)); lia).
  unfold bind at 1, ioRead; destruct (io_read s n') as [[bs e] s'] eqn:E'.
  destruct (io_read_stream s n' bs e s' Hn' E') as (Hl & Hr & He); unfold ret.
  rewrite Hs in Hr; rewrite Hr, len_app in Hnb; pose proof (len_nonneg (io_rest s')).
  destruct He as [[-> Hb] | [-> He]].
  - rewrite bool_decide_eq_false_2 by done; cbn [andb].
    assert (0 < length bs)%nat by (destruct bs; [done | simpl; lia]).
    destruct (IH (nb - len bs) (io_rest s') s' (acc ++ bs) cap') as (c'' & s'' & E'' & Hr'');
      [done | lia | rewrite len_app; unfold n' in Hl; destruct (Z.ltb_spec nb (cap' - len acc)); lia | |].
    { apply (f_equal length) in Hr; rewrite length_app in Hr; lia. }
    exists c'', s''; by rewrite E'', Hr, (app_assoc acc).
  - rewrite bool_decide_eq_true_2 by done; rewrite (proj2 (Z.ltb_lt 0 _)) by lia; cbn [andb].
    rewrite He, app_nil_r in Hr; subst bs; eexists _, _; split; done.
Qed.

(** Truncated entries. When the stream ends before the size announced
    for a regular entry, reading the entry returns the bytes that are there
    and [io.ErrUnexpectedEOF], never a clean end of file. *)
Theorem regFile_truncated nb out s fuel :
  io_rest s = out -> len out < nb -> (length out < fuel)%nat ->
  exists c' s', ReadAll nbrMethod fuel (regFileReader nb, s) =
    (Ok (out, Some ErrUnexpectedEOF), (c', s')) /\ io_rest s' = [].
Proof. intros; by apply (readAllLoop_truncated nb out s fuel [] 512). Qed.
End Whole.

(** A seekable reader in short pieces that ends eagerly. *)
Definition demoReader (b : bytes) : chunkReader := mkChunk b 0 [2%nat; 0%nat; 4%nat] true.

Lemma sparse_ReadAll_witness :
  exists c' s' rest,
    ReadAll nbrMethod 30 (fst (newSparseFileReader (regFileReader 8) [mkSparse 2 5; mkSparse 18 3] 25),
      demoReader (str "abcdefgh")) =
    (Ok (replicate 2 0 ++ str "abcde" ++ replicate 11 0 ++ str "fgh" ++ replicate 4 0, None), (c', s')) /\
    len (expand 0 [mkSparse 2 5; mkSparse 18 3] 25 (str "abcdefgh")) = 25 /\
    nbrNumBytes c' = Ok (len rest) /\ io_rest s' = rest ++ [].
Proof.
  apply (sparse_ReadAll [mkSparse 2 5; mkSparse 18 3] 25 (str "abcdefgh") [] (demoReader (str "abcdefgh")) 30).
  - apply sparseMapOk_fragments; cbn; lia.
  - unfold maxInt64; lia.
  - vm_compute; discriminate.
  - reflexivity.
  - vm_compute; lia.
Defined.

Lemma regFile_truncated_witness :
  exists c' s', ReadAll nbrMethod 30 (regFileReader 100, demoReader (str "abcdefgh")) =
    (Ok (str "abcdefgh", Some ErrUnexpectedEOF), (c', s')) /\ io_rest s' = [].
Proof.
  apply (regFile_truncated 100 (str "abcdefgh") (demoReader (str "abcdefgh")) 30); [reflexivity | reflexivity | vm_compute; lia].
Defined.
