(* ===== verification/TarReader.v ===== *)
(** * tar/reader.go: the archive reader

    A [Reader] over an [io.Reader] with state [S]; a method is a computation
    on the reader's state. One [fuel] bounds the iterations of every loop,
    here and in package io. *)
From S2P Require Import Prelude GoInt GoString GoTime GoIO TarStrconv TarFormat TarCommon TarSparse.
Open Scope go_scope.

(** The nil map of extended headers is only read, iterated or replaced, so
    it is the empty map here. *)
Abbreviation paxMap := (gmap bytes bytes).

Definition paxGNUSparseNumBlocks : bytes := str "GNU.sparse.numblocks".
Definition paxGNUSparseOffset : bytes := str "GNU.sparse.offset".
Definition paxGNUSparseNumBytes : bytes := str "GNU.sparse.numbytes".
Definition paxGNUSparseMap : bytes := str "GNU.sparse.map".
Definition paxGNUSparseName : bytes := str "GNU.sparse.name".
Definition paxGNUSparseMajor : bytes := str "GNU.sparse.major".
Definition paxGNUSparseMinor : bytes := str "GNU.sparse.minor".
Definition paxGNUSparseSize : bytes := str "GNU.sparse.size".
Definition paxGNUSparseRealSize : bytes := str "GNU.sparse.realsize".

Record Reader (S : Type) := mkReader {
  tr_r : S;
  tr_pad : Z;
  tr_curr : option numBytesReader;
  tr_blk : block;
  tr_err : option error
}.
Arguments mkReader {S}.
Arguments tr_r {S}.
Arguments tr_pad {S}.
Arguments tr_curr {S}.
Arguments tr_blk {S}.
Arguments tr_err {S}.

Definition NewReader {S} (r : S) : Reader S := mkReader r 0 None zeroBlock None.

(** ** Headers *)

(** [strconv.ParseInt(v, 10, 64)] where any error is reported as [ErrHeader]. *)
Definition parseDec (v : bytes) : outcome Z :=
  match ParseInt v 10 with (n, None) => Ok n | _ => Err ErrHeader end.

Definition orErrHeader {A} (o : outcome A) : outcome A :=
  match o with Err _ => Err ErrHeader | o => o end.

(** The body of the loop of [mergePAX]: the field of [hdr] that [k] names. *)
Definition mergeField (k v : bytes) (hdr : Header) : outcome Header :=
  if bool_decide (k = paxPath) then Ok (set_Name v hdr)
  else if bool_decide (k = paxLinkpath) then Ok (set_Linkname v hdr)
  else if bool_decide (k = paxUname) then Ok (set_Uname v hdr)
  else if bool_decide (k = paxGname) then Ok (set_Gname v hdr)
  else if bool_decide (k = paxUid) then let? id64 := parseDec v in Ok (set_Uid (goint id64) hdr)
  else if bool_decide (k = paxGid) then let? id64 := parseDec v in Ok (set_Gid (goint id64) hdr)
  else if bool_decide (k = paxAtime) then let? t := orErrHeader (parsePAXTime v) in Ok (set_AccessTime t hdr)
  else if bool_decide (k = paxMtime) then let? t := orErrHeader (parsePAXTime v) in Ok (set_ModTime t hdr)
  else if bool_decide (k = paxCtime) then let? t := orErrHeader (parsePAXTime v) in Ok (set_ChangeTime t hdr)
  else if bool_decide (k = paxSize) then let? n := parseDec v in Ok (set_Size n hdr)
  else if HasPrefix k paxXattr then
    Ok (set_Xattrs (Some (<[drop (length paxXattr) k := v]> (default ∅ (h_Xattrs hdr)))) hdr)
  else Ok hdr.

(** [for k, v := range headers]: the iteration order of a Go map is not
    specified, so it is a parameter here. *)
Fixpoint mergeLoop (kvs : list (bytes * bytes)) (hdr : Header) : outcome Header :=
  match kvs with
  | [] => Ok hdr
  | (k, v) :: kvs => let? hdr := mergeField k v hdr in mergeLoop kvs hdr
  end.

Definition mergePAX (hdr : Header) (headers : paxMap) : outcome Header :=
  mergeLoop (map_to_list headers) hdr.

(** The loop of [parsePAX] over the records of [sbuf]. *)
Fixpoint parsePAXLoop (fuel : nat) (sbuf : bytes) (sparseMap : list bytes) (extHdrs : paxMap)
    : outcome (list bytes * paxMap) :=
  match sbuf with
  | [] => Ok (sparseMap, extHdrs)
  | _ =>
      match fuel with
      | O => OutOfFuel
      | S f =>
          let? (key, value, residual) := orErrHeader (parsePAXRecord sbuf) in
          if bool_decide (key = paxGNUSparseOffset) || bool_decide (key = paxGNUSparseNumBytes) then
            if (len sparseMap mod 2 =? 0) && bool_decide (key <> paxGNUSparseOffset)
               || (len sparseMap mod 2 =? 1) && bool_decide (key <> paxGNUSparseNumBytes)
               || Contains1 value 44
            then Err ErrHeader
            else parsePAXLoop f residual (sparseMap ++ [value]) extHdrs
          else parsePAXLoop f residual sparseMap
                 (if 0 <? len value then <[key := value]> extHdrs else delete key extHdrs)
      end
  end.

(** [parsePAX] once [ioutil.ReadAll] has returned the buffer. *)
Definition parsePAXBuf (buf : bytes) : outcome paxMap :=
  let? (sparseMap, extHdrs) := parsePAXLoop (length buf) buf [] ∅ in
  Ok (if 0 <? len sparseMap then <[paxGNUSparseMap := Join sparseMap [44]]> extHdrs else extHdrs).

(** [numEntries < 0 || int(2*numEntries) < int(numEntries)]. *)
Definition badNumEntries (numEntries : Z) : bool :=
  (numEntries <? 0) || (int64 (2 * numEntries) <? numEntries).

Fixpoint parsePairs (l : list bytes) : outcome (list sparseEntry) :=
  match l with
  | o :: n :: l =>
      let? offset := parseDec o in
      let? numBytes := parseDec n in
      let? sp := parsePairs l in
      Ok (mkSparse offset numBytes :: sp)
  | _ => Ok []
  end.

Definition readGNUSparseMap0x1 (extHdrs : paxMap) : outcome (list sparseEntry) :=
  let? numEntries := parseDec (default [] (extHdrs !! paxGNUSparseNumBlocks)) in
  if badNumEntries numEntries then Err ErrHeader
  else
    let sparseMap := Split (default [] (extHdrs !! paxGNUSparseMap)) 44 in
    if negb (len sparseMap =? int64 (2 * numEntries)) then Err ErrHeader
    else parsePairs sparseMap.

(** [tryParseTime]. *)
Definition tryParseTime (b : bytes) : Time :=
  let '(err, n) := parseNumeric None b in
  if negb (bool_decide (take 1 b = [0])) && bool_decide (err = None) then Unix n 0 else zeroTime.

(** The V7 fields of a header block. *)
Definition unpackV7 (p : parser) (blk : block) : parser * Header :=
  let '(p, mode) := parseNumeric p (getF V7.Mode blk) in
  let '(p, uid) := parseNumeric p (getF V7.UID blk) in
  let '(p, gid) := parseNumeric p (getF V7.GID blk) in
  let '(p, size) := parseNumeric p (getF V7.Size blk) in
  let '(p, mtime) := parseNumeric p (getF V7.ModTime blk) in
  (p, mkHeader (parseString (getF V7.Name blk)) mode (goint uid) (goint gid) size (Unix mtime 0)
        (hd 0 (getF V7.TypeFlag blk)) (parseString (getF V7.LinkName blk))
        [] [] 0 0 zeroTime zeroTime None).

Definition setDev (major minor : Z) (h : Header) : Header :=
  mkHeader (h_Name h) (h_Mode h) (h_Uid h) (h_Gid h) (h_Size h) (h_ModTime h) (h_Typeflag h)
    (h_Linkname h) (h_Uname h) (h_Gname h) major minor (h_AccessTime h) (h_ChangeTime h) (h_Xattrs h).

(** The fields of the formats after V7. *)
Definition unpackExt (p : parser) (format : Z) (blk : block) (hdr : Header) : parser * Header :=
  let hdr := set_Uname (parseString (getF USTAR.UserName blk)) hdr in
  let hdr := set_Gname (parseString (getF USTAR.GroupName blk)) hdr in
  let '(p, hdr) :=
    if (h_Typeflag hdr =? TypeChar) || (h_Typeflag hdr =? TypeBlock) then
      let '(p, major) := parseNumeric p (getF USTAR.DevMajor blk) in
      let '(p, minor) := parseNumeric p (getF USTAR.DevMinor blk) in
      (p, setDev major minor hdr)
    else (p, hdr) in
  let '(p, prefix, hdr) :=
    if format =? formatUSTAR then (p, parseString (getF USTAR.Prefix blk), hdr)
    else if format =? formatSTAR then
      let prefix := parseString (getF STAR.Prefix blk) in
      let '(p, atime) := parseNumeric p (getF STAR.AccessTime blk) in
      let '(p, ctime) := parseNumeric p (getF STAR.ChangeTime blk) in
      (p, prefix, set_ChangeTime (Unix ctime 0) (set_AccessTime (Unix atime 0) hdr))
    else if format =? formatGNU then
      (p, [], set_ChangeTime (tryParseTime (getF GNU.ChangeTime blk))
                (set_AccessTime (tryParseTime (getF GNU.AccessTime blk)) hdr))
    else (p, [], hdr) in
  (p, if 0 <? len prefix then set_Name (prefix ++ [47] ++ h_Name hdr) hdr else hdr).

(** The part of [readHeader] after the block has been read. *)
Definition unpackHeader (blk : block) : outcome Header :=
  let format := GetFormat blk in
  if format =? formatUnknown then Err ErrHeader
  else
    let '(p, hdr) := unpackV7 None blk in
    let '(p, hdr) := if formatV7 <? format then unpackExt p format blk hdr else (p, hdr) in
    match p with Some e => Err e | None => Ok hdr end.

(** One entry of the old GNU sparse format: [None] at the end of the array. *)
Definition oldGNUEntry (p : parser) (e : bytes) : outcome (option sparseEntry) :=
  if bool_decide (take 1 (sparseNodeOffset e) = [0]) then Ok None
  else
    let '(p, offset) := parseNumeric p (sparseNodeOffset e) in
    let '(p, numBytes) := parseNumeric p (sparseNodeNumBytes e) in
    match p with Some err => Err err | None => Ok (Some (mkSparse offset numBytes)) end.

(** The inner loop of [readOldGNUSparseMap], from entry [i] on with [k]
    entries left. *)
Fixpoint oldGNUEntries (s : sparseArray) (i k : nat) : outcome (list sparseEntry) :=
  match k with
  | O => Ok []
  | S k =>
      let? e := oldGNUEntry None (Entry s i) in
      match e with
      | None => Ok []
      | Some e => let? sp := oldGNUEntries s (S i) k in Ok (e :: sp)
      end
  end.

Section Methods.
Context {S : Type} `{IoReader S}.
Variable fuel : nat.

Definition setPad pad (tr : Reader S) := mkReader (tr_r tr) pad (tr_curr tr) (tr_blk tr) (tr_err tr).
Definition setCurr c (tr : Reader S) := mkReader (tr_r tr) (tr_pad tr) c (tr_blk tr) (tr_err tr).
Definition setBlk b (tr : Reader S) := mkReader (tr_r tr) (tr_pad tr) (tr_curr tr) b (tr_err tr).
Definition setErr e (tr : Reader S) := mkReader (tr_r tr) (tr_pad tr) (tr_curr tr) (tr_blk tr) e.

Definition modify {T : Type} (f : T -> T) : M T unit := fun t => (Ok tt, f t).

(** A computation on the underlying reader. *)
Definition onR {A} (m : M S A) : M (Reader S) A :=
  fun tr => let '(o, s) := m (tr_r tr) in
            (o, mkReader s (tr_pad tr) (tr_curr tr) (tr_blk tr) (tr_err tr)).

(** [tr.curr.Read]; the reader behind [curr] is updated in place. *)
Definition currRead : readMethod (Reader S) :=
  fun n tr =>
    match tr_curr tr with
    | None => (Panic, tr)
    | Some c =>
        match nbrRead c n (tr_r tr) with
        | (Ok (bs, e, c'), s) => (Ok (bs, e), mkReader s (tr_pad tr) (Some c') (tr_blk tr) (tr_err tr))
        | (Err e, s) => (Err e, mkReader s (tr_pad tr) (Some c) (tr_blk tr) (tr_err tr))
        | (Panic, s) => (Panic, mkReader s (tr_pad tr) (Some c) (tr_blk tr) (tr_err tr))
        | (OutOfFuel, s) => (OutOfFuel, mkReader s (tr_pad tr) (Some c) (tr_blk tr) (tr_err tr))
        end
    end.

(** [Reader.Read]. *)
Definition Read : readMethod (Reader S) :=
  fun n =>
    let! tr := get in
    match tr_err tr, tr_curr tr with
    | Some e, _ => ret ([], Some e)
    | None, None => ret ([], Some EOF)
    | None, Some _ =>
        let! (bs, err) := currRead n in
        do! (if bool_decide (err <> None) && bool_decide (err <> Some EOF)
             then modify (setErr err) else ret tt);
        ret (bs, err)
    end.

(** [Reader.numBytes]. *)
Definition trNumBytes (tr : Reader S) : outcome Z :=
  match tr_curr tr with None => Ok 0 | Some c => nbrNumBytes c end.

(** The attempt of [skipUnread] to seek: the number of bytes skipped. *)
Definition seekSkip (dataSkip : Z) : M (Reader S) Z :=
  match io_seek with
  | Some seek =>
      if 1 <? dataSkip then
        onR (fun s =>
          match seek s 0 with
          | (inr _, s1) => (Ok 0, s1)
          | (inl pos1, s1) =>
              match seek s1 (dataSkip - 1) with
              | (inr e, s2) => (Err e, s2)
              | (inl pos2, s2) => (Ok (int64 (pos2 - pos1)), s2)
              end
          end)
      else ret 0
  | None => ret 0
  end.

Definition skipUnread : M (Reader S) unit :=
  let! tr := get in
  let! dataSkip := lift (trNumBytes tr) in
  let totalSkip := int64 (dataSkip + tr_pad tr) in
  do! modify (fun tr => setPad 0 (setCurr None tr));
  let! seekSkipped := seekSkip dataSkip in
  let! (copySkipped, err) := onR (CopyN ioRead fuel (int64 (totalSkip - seekSkipped))) in
  let err := if bool_decide (err = Some EOF) && (int64 (seekSkipped + copySkipped) <? dataSkip)
             then Some ErrUnexpectedEOF else err in
  match err with None => ret tt | Some e => throw e end.

(** [io.ReadFull(tr.r, tr.blk[:])]: the bytes read replace the front of the block. *)
Definition readBlk : M (Reader S) (option error) :=
  let! (bs, err) := onR (ReadFull ioRead fuel blockSize) in
  do! modify (fun tr => setBlk (splice 0 bs (tr_blk tr)) tr);
  ret err.

Definition readHeader : M (Reader S) Header :=
  let! err := readBlk in
  match err with
  | Some e => throw e
  | None =>
      let! tr := get in
      if bool_decide (tr_blk tr = zeroBlock) then
        let! err := readBlk in
        match err with
        | Some e => throw e
        | None =>
            let! tr := get in
            throw (if bool_decide (tr_blk tr = zeroBlock) then EOF else ErrHeader)
        end
      else lift (unpackHeader (tr_blk tr))
  end.

Definition handleRegularFile (hdr : Header) : M (Reader S) unit :=
  let nb := if isHeaderOnlyType (h_Typeflag hdr) then 0 else h_Size hdr in
  if nb <? 0 then throw ErrHeader
  else modify (fun tr => setCurr (Some (regFileReader nb)) (setPad (Z.land (- nb) (blockSize - 1)) tr)).

Definition parsePAX : M (Reader S) paxMap :=
  let! (buf, err) := ReadAll Read fuel in
  match err with
  | Some e => throw e
  | None => lift (parsePAXBuf buf)
  end.

(** The outer loop of [readOldGNUSparseMap]; [blk] is [tr.blk]. *)
Fixpoint readOldGNULoop (n : nat) (s : sparseArray) (acc : list sparseEntry) : M (Reader S) (list sparseEntry) :=
  let! es := lift (oldGNUEntries s 0 (MaxEntries s)) in
  let acc := acc ++ es in
  if 0 <? hd 0 (IsExtended s) then
    match n with
    | O => lift OutOfFuel
    | Datatypes.S n =>
        let! err := readBlk in
        match err with
        | Some e => throw (if bool_decide (e = EOF) then ErrUnexpectedEOF else e)
        | None => let! tr := get in readOldGNULoop n (tr_blk tr) acc
        end
    end
  else ret acc.

Definition readOldGNUSparseMap (hdr : Header) : M (Reader S) (Header * list sparseEntry) :=
  let! tr := get in
  if negb (GetFormat (tr_blk tr) =? formatGNU) then throw ErrHeader
  else
    match parseNumeric None (getF GNU.RealSize (tr_blk tr)) with
    | (Some e, _) => throw e
    | (None, size) =>
        let! sp := readOldGNULoop fuel (getF GNU.Sparse (tr_blk tr)) [] in
        ret (set_Size size hdr, sp)
    end.

(** The closures of [readGNUSparseMap1x0] over [cntNewline] and [buf]. *)
Fixpoint feedTokens (n : nat) (cnt : Z) (cb : Z * bytes) : M (Reader S) (Z * bytes) :=
  let '(cntNewline, buf) := cb in
  if cntNewline <? cnt then
    match n with
    | O => lift OutOfFuel
    | Datatypes.S n =>
        let! (blk, err) := ReadFull currRead fuel blockSize in
        match err with
        | Some e => throw (if bool_decide (e = EOF) then ErrUnexpectedEOF else e)
        | None => feedTokens n cnt (cntNewline + len (filter (fun c => c = 10) blk), buf ++ blk)
        end
    end
  else ret cb.
End Methods.

Definition nextToken (cb : Z * bytes) : outcome (bytes * (Z * bytes)) :=
  let '(cntNewline, buf) := cb in
  let i := IndexByte buf 10 in
  if i =? -1 then
    if len buf =? 0 then Panic else Ok (slice buf 0 (len buf - 1), (cntNewline - 1, []))
  else Ok (slice buf 0 i, (cntNewline - 1, slice buf (i + 1) (len buf))).

Fixpoint parseTokens (n : nat) (cb : Z * bytes) : outcome (list sparseEntry) :=
  match n with
  | O => Ok []
  | S n =>
      let? (o, cb) := nextToken cb in
      let? offset := parseDec o in
      let? (l, cb) := nextToken cb in
      let? numBytes := parseDec l in
      let? sp := parseTokens n cb in
      Ok (mkSparse offset numBytes :: sp)
  end.

Section Next.
Context {S : Type} `{IoReader S}.
Variable fuel : nat.

(** [readGNUSparseMap1x0(tr.curr)]. *)
Definition readGNUSparseMap1x0 : M (Reader S) (list sparseEntry) :=
  let! cb := feedTokens fuel fuel 1 (0, []) in
  let! (tok, cb) := lift (nextToken cb) in
  let! numEntries := lift (parseDec tok) in
  if badNumEntries numEntries then throw ErrHeader
  else
    let! cb := feedTokens fuel fuel (int64 (2 * numEntries)) cb in
    lift (parseTokens (Z.to_nat numEntries) cb).

Definition sparseFormatOf (headers : paxMap) : option bytes :=
  match headers !! paxGNUSparseMajor, headers !! paxGNUSparseMinor with
  | Some major, Some minor => Some (major ++ str "." ++ minor)
  | _, _ =>
      if bool_decide (is_Some (headers !! paxGNUSparseName)) && bool_decide (is_Some (headers !! paxGNUSparseMap))
      then Some (str "0.1")
      else if bool_decide (is_Some (headers !! paxGNUSparseSize)) then Some (str "0.0")
      else None
  end.

(** The updates of [hdr] from the GNU sparse headers. *)
Definition sparseHeader (hdr : Header) (headers : paxMap) : outcome Header :=
  let hdr := match headers !! paxGNUSparseName with Some n => set_Name n hdr | None => hdr end in
  match headers !! paxGNUSparseSize, headers !! paxGNUSparseRealSize with
  | Some v, _ => let? realSize := parseDec v in Ok (set_Size realSize hdr)
  | None, Some v => let? realSize := parseDec v in Ok (set_Size realSize hdr)
  | None, None => Ok hdr
  end.

Definition checkForGNUSparsePAXHeaders (hdr : Header) (headers : paxMap)
    : M (Reader S) (Header * option (list sparseEntry)) :=
  match sparseFormatOf headers with
  | None => ret (hdr, None)
  | Some sparseFormat =>
      if bool_decide (sparseFormat ∉ [str "0.0"; str "0.1"; str "1.0"]) then ret (hdr, None)
      else
        let! hdr := lift (sparseHeader hdr headers) in
        let! sp := if bool_decide (sparseFormat = str "1.0") then readGNUSparseMap1x0
                   else lift (readGNUSparseMap0x1 headers) in
        ret (hdr, Some sp)
  end.

Definition handleSparseFile (hdr : Header) (extHdrs : paxMap) : M (Reader S) Header :=
  let! (hdr, sp) :=
    if h_Typeflag hdr =? TypeGNUSparse then
      let! (hdr, sp) := readOldGNUSparseMap fuel hdr in ret (hdr, Some sp)
    else checkForGNUSparsePAXHeaders hdr extHdrs in
  match sp with
  | None => ret hdr
  | Some sp =>
      let! tr := get in
      match tr_curr tr with
      | None => lift Panic
      | Some rfr =>
          let '(c, err) := newSparseFileReader rfr sp (h_Size hdr) in
          do! modify (setCurr (Some c));
          match err with None => ret hdr | Some e => throw e end
      end
  end.

(** The loop of [next] over meta headers. *)
Fixpoint nextLoop (n : nat) (extHdrs : paxMap) : M (Reader S) Header :=
  match n with
  | O => lift OutOfFuel
  | Datatypes.S n =>
      do! skipUnread fuel;
      let! hdr := readHeader fuel in
      do! handleRegularFile hdr;
      if h_Typeflag hdr =? TypeXHeader then
        let! extHdrs := parsePAX fuel in nextLoop n extHdrs
      else if (h_Typeflag hdr =? TypeGNULongName) || (h_Typeflag hdr =? TypeGNULongLink) then
        let! (realname, err) := ReadAll Read fuel in
        match err with
        | Some e => throw e
        | None =>
            let key := if h_Typeflag hdr =? TypeGNULongName then paxPath else paxLinkpath in
            nextLoop n (<[key := parseString realname]> extHdrs)
        end
      else
        let! hdr := lift (mergePAX hdr extHdrs) in
        do! handleRegularFile hdr;
        handleSparseFile hdr extHdrs
  end.

Definition next : M (Reader S) Header := nextLoop fuel ∅.

Definition Next : M (Reader S) Header :=
  let! tr := get in
  match tr_err tr with
  | Some e => throw e
  | None =>
      let! res := attempt next in
      match res with
      | inl hdr => do! modify (setErr None); ret hdr
      | inr e => do! modify (setErr (Some e)); throw e
      end
  end.
End Next.
