(* ===== verification/TarPax.v ===== *)
(** * Properties of the PAX parsing of tar/reader.go

    Merging extended headers into a header, parsing a body of PAX records,
    and the sparse maps of the formats 0.0, 0.1 and 1.0. *)
From S2P Require Import Prelude GoInt GoString GoTime GoIO TarStrconv TarFormat TarCommon TarSparse TarReader.
Open Scope go_scope.

(** ** Merging *)

Lemma parseDec_cases v : (exists n : Z, parseDec v = Ok n) \/ parseDec v = Err ErrHeader.
Proof. unfold parseDec; destruct (ParseInt v 10) as [n [e|]]; eauto. Qed.

Lemma parseTime_cases (v : bytes) :
  (exists t : Time, orErrHeader (parsePAXTime v) = Ok t) \/ orErrHeader (parsePAXTime v) = Err ErrHeader.
Proof.
  unfold parsePAXTime; destruct (if 0 <=? IndexByte v 46 then _ else _) as [ss sn];
    destruct (ParseInt ss 10) as [secs [e|]];
    cbn [orErrHeader]; [by right|].
  destruct (len sn =? 0); [eauto|]; destruct (negb _); [by right|].
  destruct (ParseInt _ 10) as [ns ?]; left; repeat case_match; eauto.
Qed.

(** Case analysis on the keyword of a call of [mergeField]. *)
Ltac merge_cases :=
  unfold mergeField;
  repeat match goal with
         | |- context [bool_decide (?k = ?c)] => is_var k; destruct (bool_decide_reflect (k = c))
         end; cbn [andb].

Lemma mergeField_total k v h :
  (exists h' : Header, mergeField k v h = Ok h') \/ mergeField k v h = Err ErrHeader.
Proof.
  merge_cases; eauto;
    try (destruct (parseDec_cases v) as [[? ->] | ->]; cbn; eauto);
    try (destruct (parseTime_cases v) as [[? ->] | ->]; cbn; eauto).
  destruct (HasPrefix k paxXattr); eauto.
Qed.

Lemma HasPrefix_split k p : HasPrefix k p = true -> k = p ++ drop (length p) k.
Proof. unfold HasPrefix; intros H%bool_decide_eq_true_1; by rewrite <- H at 1; rewrite take_drop. Qed.

(** Fields of different keywords can be set in either order. *)
Lemma mergeField_comm k1 v1 k2 v2 h :
  k1 <> k2 ->
  obind (mergeField k1 v1 h) (mergeField k2 v2) = obind (mergeField k2 v2 h) (mergeField k1 v1).
Proof.
  intros Hne.
  assert (Hx : HasPrefix k1 paxXattr = true -> HasPrefix k2 paxXattr = true ->
    drop (length paxXattr) k1 <> drop (length paxXattr) k2).
  { intros H1%HasPrefix_split H2%HasPrefix_split E; apply Hne; by rewrite H1, H2, E. }
  merge_cases; try congruence;
    try (destruct (parseDec_cases v1) as [[? ->] | ->]);
    try (destruct (parseTime_cases v1) as [[? ->] | ->]);
    try (destruct (parseDec_cases v2) as [[? ->] | ->]);
    try (destruct (parseTime_cases v2) as [[? ->] | ->]);
    try (destruct (HasPrefix k1 paxXattr) eqn:X1); try (destruct (HasPrefix k2 paxXattr) eqn:X2);
    try reflexivity.
  specialize (Hx eq_refl eq_refl); cbn; rewrite (insert_insert_ne (default ∅ (h_Xattrs h))) by done; done.
Qed.

Lemma mergeLoop_perm kvs kvs' h :
  NoDup kvs.*1 -> kvs ≡ₚ kvs' -> mergeLoop kvs h = mergeLoop kvs' h.
Proof.
  intros Hnd Hp; revert h Hnd; induction Hp as [|[k v] l l' _ IH|[k1 v1] [k2 v2] l|l l' l'' Hl IH1 _ IH2];
    intros h Hnd; cbn [mergeLoop]; [done|..].
  - cbn [fmap list_fmap fst] in Hnd; apply NoDup_cons in Hnd as [_ Hnd].
    destruct (mergeField k v h); cbn; auto.
  - cbn [fmap list_fmap fst] in Hnd; apply NoDup_cons in Hnd as [Hk _].
    pose proof (mergeField_comm k1 v1 k2 v2 h ltac:(set_solver)) as E.
    assert (A : forall ka va kb vb, obind (mergeField ka va h) (fun h => obind (mergeField kb vb h) (mergeLoop l)) =
      obind (obind (mergeField ka va h) (mergeField kb vb)) (mergeLoop l)) by (intros; by destruct (mergeField ka va h)).
    by rewrite !A, E.
  - rewrite IH1 by done; apply IH2; by rewrite <- Hl.
Qed.

Definition xattr (h : Header) (x : bytes) : option bytes := default ∅ (h_Xattrs h) !! x.

(** The header [h'] is [h] updated from the extended headers [m]: a present
    keyword gives the field, an absent one leaves it. *)
Record headerMerged (m : paxMap) (h h' : Header) : Prop := {
  hm_Name : h_Name h' = default (h_Name h) (m !! paxPath);
  hm_Linkname : h_Linkname h' = default (h_Linkname h) (m !! paxLinkpath);
  hm_Uname : h_Uname h' = default (h_Uname h) (m !! paxUname);
  hm_Gname : h_Gname h' = default (h_Gname h) (m !! paxGname);
  hm_Uid : match m !! paxUid with Some v => parseDec v = Ok (h_Uid h') | None => h_Uid h' = h_Uid h end;
  hm_Gid : match m !! paxGid with Some v => parseDec v = Ok (h_Gid h') | None => h_Gid h' = h_Gid h end;
  hm_Size : match m !! paxSize with Some v => parseDec v = Ok (h_Size h') | None => h_Size h' = h_Size h end;
  hm_Atime : match m !! paxAtime with Some v => parsePAXTime v = Ok (h_AccessTime h') | None => h_AccessTime h' = h_AccessTime h end;
  hm_Mtime : match m !! paxMtime with Some v => parsePAXTime v = Ok (h_ModTime h') | None => h_ModTime h' = h_ModTime h end;
  hm_Ctime : match m !! paxCtime with Some v => parsePAXTime v = Ok (h_ChangeTime h') | None => h_ChangeTime h' = h_ChangeTime h end;
  hm_Xattrs : forall x, xattr h' x = match m !! (paxXattr ++ x) with Some v => Some v | None => xattr h x end;
  hm_rest : (h_Mode h', h_Typeflag h', h_Devmajor h', h_Devminor h') = (h_Mode h, h_Typeflag h, h_Devmajor h, h_Devminor h)
}.

Lemma headerMerged_empty h : headerMerged ∅ h h.
Proof. split; try (rewrite lookup_empty; done); try done; intros x; by rewrite lookup_empty. Qed.

Lemma parseDec_goint v n : parseDec v = Ok n -> goint n = n.
Proof.
  unfold parseDec; destruct (ParseInt v 10) as [n' [e|]] eqn:E; [done|]; intros [= ->].
  apply ParseInt_range in E; by apply int64_id.
Qed.

Lemma orErrHeader_ok {A} (o : outcome A) a : orErrHeader o = Ok a -> o = Ok a.
Proof. by destruct o. Qed.

(** Distinct keywords, and keywords that are no extended attributes. *)
Ltac keyword_ne := first [assumption | congruence |
  let H := fresh in intros H; subst; vm_compute in H; discriminate H | done ].

Lemma headerMerged_step m k v h h1 h' :
  m !! k = None -> mergeField k v h = Ok h1 -> headerMerged m h1 h' -> headerMerged (<[k := v]> m) h h'.
Proof.
  intros Hk; merge_cases; intros Hm;
    try (destruct (parseDec v) eqn:Ed; [|done..]); try (destruct (orErrHeader (parsePAXTime v)) eqn:Ed; [|done..]);
    try (destruct (HasPrefix k paxXattr) eqn:Hp); cbn [obind] in Hm; simplify_eq;
    try apply parseDec_goint in Ed as Eg; try apply orErrHeader_ok in Ed;
    intros [H1 H2 H3 H4 H5 H6 H7 H8 H9 H10 H11 H12];
    split; try (rewrite lookup_insert_eq); try (rewrite lookup_insert_ne by keyword_ne);
    rewrite ?Hk in *; cbn in *; try assumption; try congruence.
  all: try (intros x; rewrite lookup_insert_ne by keyword_ne; by rewrite H11).
  - intros x; rewrite H11; unfold xattr; cbn.
    apply HasPrefix_split in Hp; destruct (decide (x = drop (length paxXattr) k)) as [->|Hx].
    + rewrite <- Hp, Hk, lookup_insert_eq, lookup_insert_eq; done.
    + rewrite !lookup_insert_ne; try done; intros ->; apply Hx; by rewrite drop_app_length.
  - intros x; rewrite H11, lookup_insert_ne; [done|]; intros ->.
    unfold HasPrefix in Hp; by rewrite take_app_length, bool_decide_eq_true_2 in Hp.
Qed.

Lemma mergeLoop_merged kvs h h' :
  NoDup kvs.*1 -> mergeLoop kvs h = Ok h' -> headerMerged (list_to_map kvs) h h'.
Proof.
  revert h; induction kvs as [|[k v] kvs IH]; intros h Hnd; cbn [mergeLoop list_to_map foldr].
  { intros [= ->]; apply headerMerged_empty. }
  cbn [fmap list_fmap fst] in Hnd; apply NoDup_cons in Hnd as [Hk Hnd].
  destruct (mergeField k v h) as [h1| | |] eqn:E; try done; cbn [obind]; intros Hl.
  eapply headerMerged_step; [by apply not_elem_of_list_to_map_1 | exact E | by apply IH].
Qed.

Lemma mergeLoop_total kvs h : (exists h', mergeLoop kvs h = Ok h') \/ mergeLoop kvs h = Err ErrHeader.
Proof.
  revert h; induction kvs as [|[k v] kvs IH]; intros h; cbn [mergeLoop]; [eauto|].
  destruct (mergeField_total k v h) as [[h1 ->] | ->]; cbn [obind]; [apply IH | by right].
Qed.

(** ** Records *)

(** The value of a key is stored, or the key deleted when the value is empty. *)
Definition putRecord (m : paxMap) (kv : bytes * bytes) : paxMap :=
  if 0 <? len kv.2 then <[kv.1 := kv.2]> m else delete kv.1 m.

Definition recordOk (kv : bytes * bytes) : Prop :=
  (61 ∉ kv.1) /\ 0 < len kv.1 + len kv.2 < 2 ^ 62.

Definition plainKey (kv : bytes * bytes) : Prop :=
  kv.1 <> paxGNUSparseOffset /\ kv.1 <> paxGNUSparseNumBytes.

Fixpoint encodeRecords (kvs : list (bytes * bytes)) : bytes :=
  match kvs with
  | [] => []
  | (k, v) :: kvs => formatPAXRecord k v ++ encodeRecords kvs
  end.

Lemma formatPAXRecord_nonempty k v : (0 < length (formatPAXRecord k v))%nat.
Proof.
  destruct (formatPAXRecord_size k v) as (n & _ & En & Hlo).
  pose proof (len_nonneg k); pose proof (len_nonneg v); unfold len in *; lia.
Qed.

(** One record of a body with a key that is no sparse 0.0 key. *)
Lemma parsePAXLoop_plain fuel k v r sm m :
  recordOk (k, v) -> plainKey (k, v) -> (0 < fuel)%nat ->
  parsePAXLoop fuel (formatPAXRecord k v ++ r) sm m = parsePAXLoop (pred fuel) r sm (putRecord m (k, v)).
Proof.
  intros Hok [Hp1 Hp2] Hf; destruct fuel as [|f]; [lia|]; cbn [parsePAXLoop pred].
  pose proof (formatPAXRecord_nonempty k v).
  destruct (formatPAXRecord k v ++ r) eqn:E.
  { apply (f_equal length) in E; rewrite length_app in E; cbn in E; lia. }
  rewrite <- E, parsePAXRecord_format by apply Hok; cbn [orErrHeader obind].
  by rewrite !bool_decide_eq_false_2 by done.
Qed.

Lemma parsePAXLoop_records fuel kvs r sm m :
  Forall recordOk kvs -> Forall plainKey kvs -> (length kvs <= fuel)%nat ->
  parsePAXLoop fuel (encodeRecords kvs ++ r) sm m =
    parsePAXLoop (fuel - length kvs) r sm (foldl putRecord m kvs).
Proof.
  intros Hok Hpl; revert fuel m; induction kvs as [|[k v] kvs IH]; intros fuel m Hf; cbn [foldl length] in *.
  { by rewrite Nat.sub_0_r. }
  apply Forall_cons_1 in Hok as [Hok1 Hok]; apply Forall_cons_1 in Hpl as [Hpl1 Hpl].
  cbn [encodeRecords].
  rewrite <- app_assoc, parsePAXLoop_plain, IH by (done || lia); f_equal; lia.
Qed.

Lemma encodeRecords_length kvs : (length kvs <= length (encodeRecords kvs))%nat.
Proof.
  induction kvs as [|[k v] kvs IH]; [done|].
  cbn [encodeRecords length]; rewrite length_app.
  pose proof (formatPAXRecord_nonempty k v); lia.
Qed.

Lemma parsePAXLoop_fuel fuel sbuf sm m :
  (length sbuf <= fuel)%nat ->
  match parsePAXLoop fuel sbuf sm m with
  | Ok _ => True
  | Err e => e = ErrHeader
  | Panic => exists s, s `suffix_of` sbuf /\ parsePAXRecord s = Panic
  | OutOfFuel => False
  end.
Proof.
  revert sbuf sm m; induction fuel as [|f IH]; intros sbuf sm m Hf; destruct sbuf as [|c sbuf]; cbn [parsePAXLoop]; try done.
  { cbn in Hf; lia. }
  destruct (parsePAXRecord (c :: sbuf)) as [[[k v] r]| | |] eqn:E; cbn [orErrHeader obind]; try done; [|by exists (c :: sbuf)|].
  - pose proof (parsePAXRecord_shorter _ _ _ _ E) as Hl; apply parsePAXRecord_suffix in E; cbn [length] in *.
    assert (G : forall sm m, match parsePAXLoop f r sm m with
      Ok _ => True | Err e => e = ErrHeader | Panic => exists s, s `suffix_of` c :: sbuf /\ parsePAXRecord s = Panic | OutOfFuel => False end).
    { intros sm' m'; specialize (IH r sm' m' ltac:(lia)); destruct (parsePAXLoop f r sm' m'); try done.
      destruct IH as (s & Hs & Hp); exists s; split; [by etrans | done]. }
    destruct (_ || _); [destruct (_ || _); [done|]|]; apply G.
  - exfalso; unfold parsePAXRecord, gslice in E; repeat case_match; simplify_eq;
    cbn [obind] in E; repeat case_match; simplify_eq.
Qed.

Lemma parsePAXBuf_cases buf :
  match parsePAXBuf buf with
  | Ok _ => True
  | Err e => e = ErrHeader
  | Panic => exists s, s `suffix_of` buf /\ parsePAXRecord s = Panic
  | OutOfFuel => False
  end.
Proof.
  unfold parsePAXBuf; pose proof (parsePAXLoop_fuel (length buf) buf [] ∅ ltac:(lia)) as H.
  by destruct (parsePAXLoop _ _ _ _) as [[sm m]| | |].
Qed.

(** The body without sparse 0.0 records. *)
Lemma parsePAXBuf_records kvs :
  Forall recordOk kvs -> Forall plainKey kvs ->
  parsePAXBuf (encodeRecords kvs) = Ok (foldl putRecord ∅ kvs).
Proof.
  intros Hok Hpl; unfold parsePAXBuf; pose proof (encodeRecords_length kvs).
  pose proof (parsePAXLoop_records (length (encodeRecords kvs)) kvs [] [] ∅ Hok Hpl ltac:(done)) as E.
  rewrite app_nil_r in E; rewrite E; by destruct (length (encodeRecords kvs) - length kvs)%nat.
Qed.

(** Records with distinct keys and non-empty values are the map. *)
Lemma foldl_putRecord kvs m :
  NoDup kvs.*1 -> Forall (fun kv => 0 < len kv.2) kvs ->
  foldl putRecord m kvs = list_to_map kvs ∪ m.
Proof.
  revert m; induction kvs as [|[k v] kvs IH]; intros m Hnd Hv; cbn [foldl list_to_map foldr].
  { by rewrite (left_id_L ∅ (∪)). }
  cbn [fmap list_fmap fst] in Hnd; apply NoDup_cons in Hnd as [Hk Hnd].
  apply Forall_cons_1 in Hv as [Hv1 Hv]; cbn in Hv1.
  rewrite IH by done; unfold putRecord; cbn; rewrite (proj2 (Z.ltb_lt _ _)) by done.
  rewrite <- insert_union_r by (by apply not_elem_of_list_to_map_1).
  apply insert_union_l.
Qed.

(** ** Sparse maps in the extended headers *)

(** The pairs of records of the format 0.0, and the fields of the map. *)
Fixpoint sparseRecords (sp : list sparseEntry) : list (bytes * bytes) :=
  match sp with
  | [] => []
  | e :: sp => (paxGNUSparseOffset, Itoa (offset e)) :: (paxGNUSparseNumBytes, Itoa (numBytes e)) :: sparseRecords sp
  end.

Fixpoint sparseFields (sp : list sparseEntry) : list bytes :=
  match sp with [] => [] | e :: sp => Itoa (offset e) :: Itoa (numBytes e) :: sparseFields sp end.

Definition entryOk (e : sparseEntry) : Prop := 0 <= offset e < 2 ^ 63 /\ 0 <= numBytes e < 2 ^ 63.

Lemma Itoa_fits n : 0 <= n < 2 ^ 63 -> Forall (is_digit 10) (Itoa n) /\ 0 < len (Itoa n) <= 19.
Proof.
  intros Hn; destruct (Itoa_digits n) as [Hd Hne]; [lia|]; split; [done|].
  split; [destruct (Itoa n); [done | rewrite len_cons; pose proof (len_nonneg l); lia]|].
  unfold Itoa; rewrite FormatInt_nonneg by lia; apply FormatUint_len; lia.
Qed.

Lemma Contains1_digits s c : Forall (is_digit 10) s -> ~ is_digit 10 c -> Contains1 s c = false.
Proof. intros Hs Hc; apply bool_decide_eq_false_2; eapply (digit_notin 10); [lia | done | done]. Qed.

Lemma parseDec_Itoa n : 0 <= n < 2 ^ 63 -> parseDec (Itoa n) = Ok n.
Proof. intros; unfold parseDec; by rewrite ParseInt_Itoa. Qed.

(** One sparse record of a body, in its turn. *)
Lemma parsePAXLoop_sparse fuel k n r sm m :
  0 <= n < 2 ^ 63 -> (0 < fuel)%nat ->
  k = (if Z.even (len sm) then paxGNUSparseOffset else paxGNUSparseNumBytes) ->
  parsePAXLoop fuel (formatPAXRecord k (Itoa n) ++ r) sm m = parsePAXLoop (pred fuel) r (sm ++ [Itoa n]) m.
Proof.
  intros Hn Hf Hk; destruct fuel as [|f]; [lia|]; cbn [parsePAXLoop pred].
  destruct (Itoa_fits n Hn) as [Hd Hl]; pose proof (formatPAXRecord_nonempty k (Itoa n)).
  assert (Hlk : 0 <= len k <= 30 /\ 61 ∉ k).
  { subst k; destruct (Z.even _); (split; [vm_compute; split; discriminate | apply (bool_decide_eq_true_1 _); vm_compute; reflexivity]). }
  destruct (formatPAXRecord k (Itoa n) ++ r) eqn:E.
  { apply (f_equal length) in E; rewrite length_app in E; cbn in E; lia. }
  rewrite <- E, parsePAXRecord_format by (apply Hlk || lia); cbn [orErrHeader obind].
  rewrite (Contains1_digits _ 44 Hd) by (unfold is_digit; lia); rewrite orb_false_r.
  rewrite Zeven_mod in Hk; pose proof (Z.mod_pos_bound (len sm) 2 ltac:(lia)).
  destruct (Z.eqb_spec (len sm mod 2) 0) as [E0|E0].
  - rewrite E0 in *; cbn in Hk; subst k; rewrite bool_decide_eq_true_2, bool_decide_eq_false_2 by done; done.
  - replace (len sm mod 2) with 1 in * by lia; cbn in Hk; subst k.
    rewrite (bool_decide_eq_true_2 (paxGNUSparseNumBytes = paxGNUSparseNumBytes)), orb_true_r by done.
    rewrite (bool_decide_eq_false_2 (paxGNUSparseNumBytes <> paxGNUSparseNumBytes)) by (intros Hx; by apply Hx); done.
Qed.

Lemma parsePAXLoop_sparses fuel sp r sm m :
  Forall entryOk sp -> Z.even (len sm) = true -> (2 * length sp <= fuel)%nat ->
  parsePAXLoop fuel (encodeRecords (sparseRecords sp) ++ r) sm m =
    parsePAXLoop (fuel - 2 * length sp) r (sm ++ sparseFields sp) m.
Proof.
  intros Hok; revert fuel sm; induction Hok as [|e sp [Ho Hn] _ IH]; intros fuel sm Hev Hf;
    cbn [sparseRecords sparseFields encodeRecords length app] in *.
  { by rewrite Nat.sub_0_r, app_nil_r. }
  rewrite <- !app_assoc.
  rewrite (parsePAXLoop_sparse fuel) by (lia || by rewrite Hev).
  rewrite parsePAXLoop_sparse; [|lia..|].
  - rewrite IH; [|by rewrite <- app_assoc, len_app, Z.even_add, Hev | lia].
    rewrite <- !app_assoc; cbn [app]; f_equal; lia.
  - by rewrite len_app, Z.even_add, Hev.
Qed.

Lemma sparseRecords_len sp : (2 * length sp <= length (encodeRecords (sparseRecords sp)))%nat.
Proof.
  etransitivity; [|apply encodeRecords_length]; induction sp; cbn [sparseRecords length]; lia.
Qed.

Lemma parsePAXBuf_sparse kvs sp :
  Forall recordOk kvs -> Forall plainKey kvs -> Forall entryOk sp -> sp <> [] ->
  parsePAXBuf (encodeRecords kvs ++ encodeRecords (sparseRecords sp)) =
    Ok (<[paxGNUSparseMap := Join (sparseFields sp) [44]]> (foldl putRecord ∅ kvs)).
Proof.
  intros Hok Hpl Hsp Hne; unfold parsePAXBuf.
  pose proof (encodeRecords_length kvs); pose proof (sparseRecords_len sp).
  rewrite parsePAXLoop_records by (done || rewrite length_app; lia).
  rewrite <- (app_nil_r (encodeRecords (sparseRecords sp))), parsePAXLoop_sparses
    by (done || rewrite !length_app; lia).
  destruct (_ - _)%nat; cbn [parsePAXLoop obind app]; by destruct sp.
Qed.

Lemma Split_cons w s sep : sep ∉ w -> Split (w ++ sep :: s) sep = w :: Split s sep.
Proof.
  induction w as [|c w IH]; intros Hw; cbn [app Split]; [by rewrite Z.eqb_refl|].
  apply not_elem_of_cons in Hw as [Hc Hw].
  by rewrite (proj2 (Z.eqb_neq c sep)), (IH Hw) by done.
Qed.

Lemma Split_single w sep : sep ∉ w -> Split w sep = [w].
Proof.
  induction w as [|c w IH]; intros Hw; cbn [Split]; [done|].
  apply not_elem_of_cons in Hw as [Hc Hw].
  by rewrite (proj2 (Z.eqb_neq c sep)), (IH Hw) by done.
Qed.

(** Splitting a joined list of fields gives the fields. *)
Lemma Split_Join l sep : l <> [] -> Forall (fun w => sep ∉ w) l -> Split (Join l [sep]) sep = l.
Proof.
  induction l as [|w l IH]; intros Hne Hl; [done|]; apply Forall_cons_1 in Hl as [Hw Hl].
  destruct l as [|w' l]; [by apply Split_single|].
  change (Join (w :: w' :: l) [sep]) with (w ++ [sep] ++ Join (w' :: l) [sep]).
  cbn [app]; rewrite Split_cons, IH; done.
Qed.

Lemma parsePairs_fields sp : Forall entryOk sp -> parsePairs (sparseFields sp) = Ok sp.
Proof.
  induction 1 as [|[o n] sp [Ho Hn] _ IH]; cbn [sparseFields parsePairs] in *; [done|].
  cbn [offset numBytes] in *; by rewrite !parseDec_Itoa, IH by done.
Qed.

Lemma sparseFields_len sp : len (sparseFields sp) = 2 * len sp.
Proof. induction sp as [|e sp IH]; [done|]; cbn [sparseFields]; rewrite !len_cons; lia. Qed.

Lemma sparseFields_no_comma sp : Forall entryOk sp -> Forall (fun w => 44 ∉ w) (sparseFields sp).
Proof.
  assert (G : forall n, 0 <= n < 2 ^ 63 -> 44 ∉ Itoa n).
  { intros n Hn; eapply (digit_notin 10); [lia | apply Itoa_fits; lia | unfold is_digit; lia]. }
  induction 1 as [|e sp [Ho Hn] _ IH]; cbn [sparseFields]; constructor; [by apply G | constructor; [by apply G | done]].
Qed.

Lemma badNumEntries_small n : 0 <= n < 2 ^ 62 -> badNumEntries n = false.
Proof.
  intros Hn; unfold badNumEntries; rewrite int64_id by (unfold in_int64; lia).
  by rewrite !(proj2 (Z.ltb_ge _ _)) by lia.
Qed.

Lemma readGNUSparseMap0x1_fields m sp :
  Forall entryOk sp -> sp <> [] -> len sp < 2 ^ 62 ->
  m !! paxGNUSparseNumBlocks = Some (Itoa (len sp)) ->
  m !! paxGNUSparseMap = Some (Join (sparseFields sp) [44]) ->
  readGNUSparseMap0x1 m = Ok sp.
Proof.
  intros Hok Hne Hl Hn Hm; unfold readGNUSparseMap0x1; rewrite Hn, Hm; cbn [from_option]; unfold id.
  pose proof (len_nonneg sp); rewrite parseDec_Itoa by lia; cbn [obind].
  rewrite badNumEntries_small by lia.
  rewrite Split_Join; [|by destruct sp | by apply sparseFields_no_comma].
  rewrite sparseFields_len, int64_id by (unfold in_int64; lia).
  rewrite Z.eqb_refl; by apply parsePairs_fields.
Qed.

(** The values a keyword accepts. *)
Definition keywordOk (k v : bytes) : Prop :=
  (k ∈ [paxUid; paxGid; paxSize] -> exists n : Z, parseDec v = Ok n) /\
  (k ∈ [paxAtime; paxMtime; paxCtime] -> exists t : Time, parsePAXTime v = Ok t).

(** What [mergeField] does on the keywords whose value is parsed. *)
Lemma mergeField_keywords v h :
  mergeField paxUid v h = (let? n := parseDec v in Ok (set_Uid (goint n) h)) /\
  mergeField paxGid v h = (let? n := parseDec v in Ok (set_Gid (goint n) h)) /\
  mergeField paxSize v h = (let? n := parseDec v in Ok (set_Size n h)) /\
  mergeField paxAtime v h = (let? t := orErrHeader (parsePAXTime v) in Ok (set_AccessTime t h)) /\
  mergeField paxMtime v h = (let? t := orErrHeader (parsePAXTime v) in Ok (set_ModTime t h)) /\
  mergeField paxCtime v h = (let? t := orErrHeader (parsePAXTime v) in Ok (set_ChangeTime t h)).
Proof. repeat split; reflexivity. Qed.

Lemma mergeField_ok k v h : keywordOk k v <-> exists h', mergeField k v h = Ok h'.
Proof.
  destruct (mergeField_keywords v h) as (E1 & E2 & E3 & E4 & E5 & E6).
  unfold keywordOk; rewrite !elem_of_cons, !elem_of_nil; split.
  - intros [H1 H2]; destruct (mergeField_total k v h) as [?|Herr]; [done|]; exfalso; revert Herr; merge_cases;
      try done; try (destruct (HasPrefix k paxXattr); done).
    all: try (destruct (H1 ltac:(tauto)) as [? ->]; cbn; done).
    all: destruct (H2 ltac:(tauto)) as [? ->]; cbn; done.
  - intros [h' Hh]; split; intros Hk; destruct_or?; try done; subst.
    all: rewrite ?E1, ?E2, ?E3, ?E4, ?E5, ?E6 in Hh.
    all: try (destruct (parseDec v); try done; by eexists).
    all: destruct (parsePAXTime v); try done; by eexists.
Qed.

Lemma mergeLoop_ok kvs h :
  Forall (fun kv => keywordOk kv.1 kv.2) kvs <-> exists h', mergeLoop kvs h = Ok h'.
Proof.
  revert h; induction kvs as [|[k v] kvs IH]; intros h; cbn [mergeLoop]; [split; eauto|].
  rewrite Forall_cons; cbn [fst snd]; split.
  - intros [[h1 E]%(mergeField_ok k v h) Hr]; rewrite E; cbn [obind]; by apply IH.
  - destruct (mergeField k v h) as [h1| | |] eqn:E; cbn [obind]; intros [h' Hh]; try done.
    split; [apply (mergeField_ok k v h); eauto | apply (IH h1); eauto].
Qed.

(** ** Properties *)

(** C15: extended headers override the header. Whatever order the map of
    extended headers is iterated in, merging gives the same result: it
    succeeds exactly when every numeric and time keyword has a well-formed
    value, and then each field of the header has the value of its keyword
    where the map holds it and is unchanged otherwise, extended attributes
    included; every failure is [ErrHeader]. *)
Theorem mergePAX_spec hdr headers kvs :
  kvs ≡ₚ map_to_list headers ->
  mergeLoop kvs hdr = mergePAX hdr headers /\
  ((forall k v, headers !! k = Some v -> keywordOk k v) <-> exists hdr', mergePAX hdr headers = Ok hdr') /\
  match mergePAX hdr headers with
  | Ok hdr' => headerMerged headers hdr hdr'
  | Err e => e = ErrHeader
  | _ => False
  end.
Proof.
  intros Hp; pose proof (NoDup_fst_map_to_list headers) as Hnd.
  assert (Hnd' : NoDup kvs.*1) by (by rewrite Hp).
  unfold mergePAX; rewrite <- (mergeLoop_perm kvs (map_to_list headers)) by done.
  split; [done|]; split.
  - rewrite <- mergeLoop_ok, Forall_forall; split.
    + intros H [k v] Hin; rewrite Hp in Hin; cbn; by apply H, elem_of_map_to_list.
    + intros H k v Hk; apply (H (k, v)); rewrite Hp; by apply elem_of_map_to_list.
  - destruct (mergeLoop_total kvs hdr) as [[h' E] | E]; rewrite E; [|done].
    rewrite <- (list_to_map_to_list headers), <- (list_to_map_proper kvs (map_to_list headers)) by done.
    by apply mergeLoop_merged.
Qed.

Lemma mergePAX_spec_witness :
  let headers := <[paxPath := str "long"]> {[paxUid := str "7"]} in
  mergeLoop (rev (map_to_list headers)) newHeader = mergePAX newHeader headers /\
  h_Uid (match mergePAX newHeader headers with Ok h => h | _ => newHeader end) = 7.
Proof.
  intros headers; split; [|vm_compute; reflexivity].
  refine (proj1 (mergePAX_spec newHeader headers (rev (map_to_list headers)) _)).
  symmetry; apply Permutation_rev.
Defined.

(** Parsing PAX records is total. On any bytes whatsoever the loop over
    the records terminates within one iteration per byte, and the call
    returns a map or [ErrHeader]; the one other outcome is a panic of
    [parsePAXRecord] on a record of the body. *)
Theorem parsePAX_total buf :
  match parsePAXBuf buf with
  | Ok _ => True
  | Err e => e = ErrHeader
  | Panic => exists s, s `suffix_of` buf /\ parsePAXRecord s = Panic
  | OutOfFuel => False
  end.
Proof. apply parsePAXBuf_cases. Qed.

(** C23: sparse maps of the PAX formats 0.0 and 0.1. A non-empty sparse map
    written as the records of format 0.0, after any other records that give
    its number of entries, is parsed to the headers of format 0.1 and read
    back entry by entry. *)
Theorem sparse_0x_roundtrip kvs sp :
  Forall recordOk kvs -> Forall plainKey kvs -> Forall entryOk sp -> sp <> [] -> len sp < 2 ^ 62 ->
  foldl putRecord ∅ kvs !! paxGNUSparseNumBlocks = Some (Itoa (len sp)) ->
  exists headers, parsePAXBuf (encodeRecords kvs ++ encodeRecords (sparseRecords sp)) = Ok headers /\
    headers !! paxGNUSparseMap = Some (Join (sparseFields sp) [44]) /\
    readGNUSparseMap0x1 headers = Ok sp.
Proof.
  intros Hok Hpl Hsp Hne Hl Hn; rewrite parsePAXBuf_sparse by done.
  eexists; split; [done|]; rewrite lookup_insert_eq; split; [done|].
  apply readGNUSparseMap0x1_fields; try done; [|by rewrite lookup_insert_eq].
  rewrite lookup_insert_ne; [done|]; intros H; vm_compute in H; discriminate.
Qed.

Lemma sparse_0x_roundtrip_witness :
  exists headers,
    parsePAXBuf (encodeRecords [(paxGNUSparseNumBlocks, Itoa 2)] ++
                 encodeRecords (sparseRecords [mkSparse 2 5; mkSparse 18 3])) = Ok headers /\
    headers !! paxGNUSparseMap = Some (str "2,5,18,3") /\
    readGNUSparseMap0x1 headers = Ok [mkSparse 2 5; mkSparse 18 3].
Proof.
  apply (sparse_0x_roundtrip [(paxGNUSparseNumBlocks, Itoa 2)] [mkSparse 2 5; mkSparse 18 3]).
  - constructor; [|constructor]; split; [apply (bool_decide_eq_true_1 _); vm_compute; reflexivity | vm_compute; split; reflexivity].
  - constructor; [|constructor]; split; intros H; vm_compute in H; discriminate.
  - repeat constructor; cbn; lia.
  - discriminate.
  - vm_compute; reflexivity.
  - vm_compute; reflexivity.
Defined.

(** C30: a sparse file without data fragments is refused in the PAX formats
    0.0 and 0.1: when the headers announce zero entries and their (empty)
    map is absent or empty, splitting the empty string gives one field, and
    the reader returns [ErrHeader]. *)
Theorem sparse_0x_empty_rejected headers :
  headers !! paxGNUSparseNumBlocks = Some (str "0") ->
  headers !! paxGNUSparseMap = None \/ headers !! paxGNUSparseMap = Some [] ->
  readGNUSparseMap0x1 headers = Err ErrHeader.
Proof. intros Hn Hm; unfold readGNUSparseMap0x1; rewrite Hn; destruct Hm as [-> | ->]; reflexivity. Qed.

Lemma sparse_0x_empty_rejected_witness :
  readGNUSparseMap0x1 {[paxGNUSparseNumBlocks := str "0"]} = Err ErrHeader.
Proof. apply sparse_0x_empty_rejected; [vm_compute; reflexivity | left; vm_compute; reflexivity]. Defined.
