(* ===== verification/TarStream.v ===== *)
(** * The archive reader on a byte stream

    Specifications of the methods of tar/reader.go against the interface
    [IoStream] of the underlying reader: reading the current entry, skipping
    to the next one, and the sparse map that is stored in front of the data
    (format 1.0). *)
From S2P Require Import Prelude GoInt GoString GoTime GoIO TarStrconv TarFormat TarCommon TarSparse TarReader.
From S2P Require Import TarPax.
Open Scope go_scope.

Section Stream.
Context {S : Type} `{IoStream S}.

(** The reader [tr] with the underlying reader in state [s]. *)
Definition withR (s : S) (tr : Reader S) : Reader S :=
  mkReader s (tr_pad tr) (tr_curr tr) (tr_blk tr) (tr_err tr).

Definition rest (tr : Reader S) : bytes := io_rest (tr_r tr).

(** ** Reading the current entry *)

(** [out] is left of the current regular entry of [tr], [tail] follows; the
    other fields are those of [base]. *)
Definition entryInv (base : Reader S) (tail out : bytes) (tr : Reader S) : Prop :=
  rest tr = out ++ tail /\ tr = setCurr (Some (regFileReader (len out))) (withR (tr_r tr) base).

#[export] Instance currRead_ReadsTo base tail : ReadsTo currRead (entryInv base tail).
Proof.
  intros out tr n [Hr Htr] Hn; rewrite Htr; unfold currRead; cbn [tr_curr setCurr nbrRead].
  destruct (regRead_step tail out (tr_r tr) n Hr Hn) as (bs & e & s' & E & Hl & Hcase).
  cbn [tr_r setCurr withR]; rewrite E.
  eexists bs, e, _; split; [reflexivity|]; split; [done|].
  destruct Hcase as [(-> & Hb & out' & -> & Hs') | (-> & -> & Hs')]; [left | right].
  - split; [done|]; split; [done|]; exists out'; split; [done|]; split; [done|].
    cbn; by replace (len (bs ++ out') - len bs) with (len out') by (rewrite len_app; lia).
  - split; [done|]; split; [done|]; split; [done|]; cbn; by rewrite Z.sub_diag.
Qed.

#[export] Instance Read_ReadsTo base tail : TCEq (tr_err base) None -> ReadsTo Read (entryInv base tail).
Proof.
  intros Herr%TCEq_eq out tr n Hinv Hn.
  assert (tr_err tr = None /\ is_Some (tr_curr tr)) as [He [c Hc]] by (destruct Hinv as [_ ->]; cbn; eauto).
  destruct (currRead_ReadsTo base tail out tr n Hinv Hn) as (bs & e & tr' & E & Hl & Hcase).
  exists bs, e, tr'; split; [|done]; unfold Read, bind, get; rewrite He, Hc, E.
  destruct Hcase as [(-> & _) | (-> & _)]; reflexivity.
Qed.

(** ** Skipping to the next entry *)
Lemma seekSkip_spec n tr :
  n < 2 ^ 63 ->
  exists k s', seekSkip n tr = (Ok k, withR s' tr) /\ 0 <= k <= Z.max 0 (n - 1) /\
    io_rest s' = drop (Z.to_nat k) (rest tr).
Proof.
  intros Hn; unfold seekSkip.
  assert (Hret : exists k s', ret 0 tr = (Ok k, withR s' tr) /\ 0 <= k <= Z.max 0 (n - 1) /\
    io_rest s' = drop (Z.to_nat k) (rest tr)).
  { exists 0, (tr_r tr); split; [by destruct tr|]; split; [lia | done]. }
  destruct io_seek as [seek|] eqn:Hseek; [|done].
  destruct (Z.ltb_spec 1 n) as [H1|H1]; [|done]; clear Hret; unfold onR.
  destruct (io_seek_stream seek (tr_r tr) (n - 1) Hseek ltac:(lia))
    as [(e & s' & E & Hr) | (p & s' & s'' & E & Hr & E' & Hr')]; rewrite E.
  - exists 0, s'; split; [done|]; split; [lia | by rewrite drop_0].
  - rewrite E'; exists (n - 1), s''; split; [|split; [lia | done]].
    replace (p + (n - 1) - p) with (n - 1) by lia; by rewrite int64_id by (unfold in_int64; lia).
Qed.

Variable fuel : nat.

(** What [skipUnread] does on a stream, by the number of bytes that are left. *)
Lemma skipUnread_spec tr n :
  trNumBytes tr = Ok n -> 0 <= n -> 0 <= tr_pad tr -> n + tr_pad tr < 2 ^ 63 -> (length (rest tr) < fuel)%nat ->
  let total := n + tr_pad tr in
  exists o s', skipUnread fuel tr = (o, setPad 0 (setCurr None (withR s' tr))) /\
    if total <=? len (rest tr) then o = Ok tt /\ io_rest s' = drop (Z.to_nat total) (rest tr)
    else o = Err (if n <=? len (rest tr) then EOF else ErrUnexpectedEOF) /\ io_rest s' = [].
Proof.
  intros Hnb Hn Hpad Hov Hf total; unfold skipUnread, bind at 1, get, bind at 1, lift; rewrite Hnb.
  unfold bind at 1, modify.
  set (tr1 := setPad 0 (setCurr None tr)).
  destruct (seekSkip_spec n tr1) as (k & s1 & E1 & Hk & Hr1); [lia|].
  unfold bind at 1; rewrite E1; cbn match.
  rewrite (int64_id (n + tr_pad tr)) by (unfold in_int64; lia); fold total.
  rewrite (int64_id (total - k)) by (unfold in_int64, total; lia).
  change (rest tr1) with (rest tr) in Hr1.
  unfold bind, onR; cbn [withR tr_r].
  assert (Hlen : len (io_rest s1) = Z.max 0 (len (rest tr) - k))
    by (rewrite Hr1; unfold len; rewrite length_drop; lia).
  assert (Hf' : (length (io_rest s1) < fuel)%nat) by (rewrite Hr1, length_drop; lia).
  destruct (Z.leb_spec total (len (rest tr))) as [Ht|Ht].
  - destruct (CopyN_enough ioRead _ fuel (total - k) (io_rest s1) s1 eq_refl) as (s2 & E2 & Hr2);
      [unfold total in *; lia | unfold len in *; lia |].
    rewrite E2; cbn match; rewrite bool_decide_eq_false_2 by done; cbn [andb].
    eexists _, s2; split; [reflexivity|]; split; [done|].
    rewrite Hr2, Hr1, drop_drop; f_equal; unfold total in *; lia.
  - pose proof (len_nonneg (rest tr)); destruct (CopyN_short ioRead _ fuel (total - k) (io_rest s1) s1 eq_refl) as (s2 & E2 & Hr2);
      [unfold total in *; lia | lia |].
    rewrite E2; cbn match; rewrite bool_decide_eq_true_2 by done; cbn [andb].
    rewrite (int64_id (k + _)) by (unfold in_int64, total in *; pose proof (len_nonneg (rest tr)); lia).
    exists (Err (if k + len (io_rest s1) <? n then ErrUnexpectedEOF else EOF)), s2; rewrite Hlen.
    split; [|split; [|done]];
      destruct (Z.ltb_spec (k + Z.max 0 (len (rest tr) - k)) n), (Z.leb_spec n (len (rest tr))); done || lia.
Qed.

(** ** The sparse map in front of the data *)

(** Newlines in a buffer. *)
Definition nl (b : bytes) : Z := len (filter (fun c => c = 10) b).

Lemma nl_app b1 b2 : nl (b1 ++ b2) = nl b1 + nl b2.
Proof. unfold nl; by rewrite filter_app, len_app. Qed.

Lemma nl_nonneg b : 0 <= nl b.
Proof. apply len_nonneg. Qed.

Lemma feedTokens_spec n base tail data B tr buf cnt :
  entryInv base tail (B ++ data) tr -> len B mod 512 = 0 -> cnt <= nl (buf ++ B) ->
  (length B < n)%nat -> (512 <= fuel)%nat ->
  exists B1 B2 tr', B = B1 ++ B2 /\ len B2 mod 512 = 0 /\ cnt <= nl (buf ++ B1) /\
    feedTokens fuel n cnt (nl buf, buf) tr = (Ok (nl (buf ++ B1), buf ++ B1), tr') /\
    entryInv base tail (B2 ++ data) tr'.
Proof.
  revert B tr buf; induction n as [|n IH]; intros B tr buf Hinv Hmod Hcnt Hn Hf; [lia|]; cbn [feedTokens].
  destruct (Z.ltb_spec (nl buf) cnt) as [Hlt|Hge].
  - assert (512 <= len B).
    { pose proof (len_nonneg B); pose proof (Z.div_mod (len B) 512 ltac:(lia)).
      destruct (Z.eq_dec (len B) 0) as [E%len_nil_inv|]; [subst B; rewrite app_nil_r in Hcnt; lia | lia]. }
    destruct (ReadFull_enough currRead (entryInv base tail) fuel 512 (B ++ data) tr Hinv)
      as (tr1 & E & Hinv1); [lens; pose proof (len_nonneg data); lia | lia|].
    change blockSize with 512; unfold bind at 1; rewrite E; cbn match.
    rewrite take_app_le in * by (unfold len in *; lia); rewrite drop_app_le in Hinv1 by (unfold len in *; lia).
    change (Z.to_nat 512) with 512%nat in *; fold (nl (take 512 B)); rewrite <- nl_app.
    destruct (IH (drop 512 B) tr1 (buf ++ take 512 B) Hinv1) as (B1 & B2 & tr' & EB & Hm & Hc & E' & Hinv').
    + replace (len (drop 512 B)) with (len B - 512) by (unfold len in *; rewrite length_drop; lia).
      by rewrite Zminus_mod, Hmod.
    + by rewrite <- app_assoc, take_drop.
    + rewrite length_drop; unfold len in *; lia.
    + done.
    + exists (take 512 B ++ B1), B2, tr'; rewrite app_assoc, E'.
      split; [by rewrite <- app_assoc, <- EB, take_drop | done].
  - exists [], B, tr; rewrite app_nil_r; done.
Qed.

(** A prefix with all the newlines of a text that ends in one has the text. *)
Lemma prefix_has_text (t0 pad p q : bytes) :
  p ++ q = (t0 ++ [10]) ++ pad -> nl (t0 ++ [10]) <= nl p -> len q <= len pad.
Proof.
  intros E Hn; destruct (Z.le_gt_cases (len q) (len pad)) as [|Hgt]; [done|]; exfalso.
  assert (El : (length p <= length t0)%nat).
  { apply (f_equal length) in E; rewrite !length_app in E; cbn in E; unfold len in Hgt; lia. }
  assert (Ep : t0 = p ++ drop (length p) t0).
  { rewrite <- app_assoc in E; apply (f_equal (take (length p))) in E.
    rewrite take_app_length, take_app_le in E by done; rewrite E at 1; by rewrite take_drop. }
  generalize dependent (drop (length p) t0); intros r ->.
  rewrite !nl_app in Hn; pose proof (nl_nonneg r); change (nl [10]) with 1 in Hn; lia.
Qed.

Lemma nextToken_line cnt w r : 10 ∉ w -> nextToken (cnt, w ++ 10 :: r) = Ok (w, (cnt - 1, r)).
Proof.
  intros Hw; unfold nextToken; rewrite IndexByte_first by done; pose proof (len_nonneg w).
  rewrite (proj2 (Z.eqb_neq _ _)) by lia; rewrite slice_app_l; do 3 f_equal.
  replace (w ++ 10 :: r) with ((w ++ [10]) ++ r) by (by rewrite <- app_assoc).
  replace (len w + 1) with (len (w ++ [10])) by (by rewrite len_app).
  apply slice_app_r; by rewrite len_app.
Qed.

(** The text of the map in format 1.0. *)
Fixpoint entriesText (sp : list sparseEntry) : bytes :=
  match sp with
  | [] => []
  | e :: sp => Itoa (offset e) ++ [10] ++ Itoa (numBytes e) ++ [10] ++ entriesText sp
  end.

Definition mapText (sp : list sparseEntry) : bytes := Itoa (len sp) ++ [10] ++ entriesText sp.

Lemma Itoa_no_newline n : 0 <= n -> 10 ∉ Itoa n.
Proof. intros; eapply (digit_notin 10); [lia | by apply Itoa_digits | unfold is_digit; lia]. Qed.

Lemma nl_none b : 10 ∉ b -> nl b = 0.
Proof.
  induction b as [|c b IH]; intros Hb; [done|]; apply not_elem_of_cons in Hb as [Hc Hb].
  unfold nl; rewrite filter_cons_False by congruence; by apply IH.
Qed.

Lemma nl_Itoa n : 0 <= n -> nl (Itoa n) = 0.
Proof. intros; by apply nl_none, Itoa_no_newline. Qed.

Lemma nl_entriesText sp : Forall entryOk sp -> nl (entriesText sp) = 2 * len sp.
Proof.
  induction 1 as [|e sp [Ho Hl] _ IH]; [done|]; cbn [entriesText].
  rewrite !nl_app, !nl_Itoa, IH, len_cons by lia; change (nl [10]) with 1; lia.
Qed.

Lemma parseTokens_text sp cnt r : Forall entryOk sp -> parseTokens (length sp) (cnt, entriesText sp ++ r) = Ok sp.
Proof.
  intros Hok; revert cnt; induction Hok as [|[o l] sp [Ho Hl] _ IH]; intros cnt; cbn [parseTokens length]; [done|].
  cbn [entriesText offset numBytes] in *; rewrite <- !app_assoc; cbn [app].
  rewrite nextToken_line by (apply Itoa_no_newline; lia); cbn [obind].
  rewrite parseDec_Itoa by done; cbn [obind].
  rewrite nextToken_line by (apply Itoa_no_newline; lia); cbn [obind].
  by rewrite parseDec_Itoa, IH by done.
Qed.

Lemma entriesText_last sp : sp <> [] -> exists t0, entriesText sp = t0 ++ [10].
Proof.
  induction sp as [|e sp IH]; intros Hne; [done|]; destruct (decide (sp = [])) as [->|Hsp].
  - exists (Itoa (offset e) ++ [10] ++ Itoa (numBytes e)); cbn [entriesText]; by rewrite <- !app_assoc.
  - destruct (IH Hsp) as [t0 Et]; exists (Itoa (offset e) ++ [10] ++ Itoa (numBytes e) ++ [10] ++ t0).
    cbn [entriesText]; rewrite Et; by rewrite <- !app_assoc.
Qed.

(** A multiple of the block size that is smaller than a block is empty. *)
Lemma mod_small_nil (b : bytes) : len b mod 512 = 0 -> len b < 512 -> b = [].
Proof. intros Hm Hl; pose proof (len_nonneg b); rewrite Z.mod_small in Hm by lia; by apply len_nil_inv. Qed.

Lemma len_le_split (a b c d : bytes) : a ++ b = c ++ d -> len b <= len d -> exists r, a = c ++ r /\ r ++ b = d.
Proof.
  intros E Hl; exists (drop (length c) a).
  assert (length c <= length a)%nat by (apply (f_equal length) in E; rewrite !length_app in E; unfold len in Hl; lia).
  split.
  - apply (f_equal (take (length c))) in E; rewrite take_app_length, take_app_le in E by done.
    rewrite <- E at 1; by rewrite take_drop.
  - apply (f_equal (drop (length c))) in E; by rewrite drop_app_length, drop_app_le in E.
Qed.

Lemma readGNUSparseMap1x0_text base tail data pad sp tr :
  entryInv base tail (mapText sp ++ pad ++ data) tr ->
  Forall entryOk sp -> len sp < 2 ^ 62 -> len pad < 512 -> len (mapText sp ++ pad) mod 512 = 0 ->
  (length (mapText sp ++ pad) < fuel)%nat -> (512 <= fuel)%nat ->
  exists tr', readGNUSparseMap1x0 fuel tr = (Ok sp, tr') /\ entryInv base tail data tr'.
Proof.
  intros Hinv Hok Hsp Hpad Hmod Hf Hf'; rewrite app_assoc in Hinv; pose proof (len_nonneg sp) as Hn0.
  set (B := mapText sp ++ pad) in *.
  assert (EB : B = (Itoa (len sp) ++ [10]) ++ entriesText sp ++ pad) by (unfold B, mapText; by rewrite <- !app_assoc).
  assert (Hnl : nl (Itoa (len sp) ++ [10]) = 1) by (rewrite nl_app, nl_Itoa by lia; done).
  unfold readGNUSparseMap1x0, bind at 1.
  destruct (feedTokens_spec fuel base tail data B tr [] 1 Hinv Hmod) as (B1 & B2 & tr1 & EB1 & Hm1 & Hc1 & E1 & Hinv1);
    [cbn [app]; rewrite EB, nl_app, Hnl; pose proof (nl_nonneg (entriesText sp ++ pad)); lia | lia | done |].
  change (nl []) with 0 in E1; rewrite E1; cbn [app] in Hc1 |- *; cbn match.
  rewrite EB1 in EB; destruct (len_le_split B1 B2 _ _ EB) as (r & -> & Er).
  { eapply (prefix_has_text (Itoa (len sp))); [exact EB | by rewrite Hnl]. }
  rewrite <- app_assoc, (app_assoc (Itoa _)), nl_app, Hnl, <- app_assoc.
  unfold bind at 1, lift at 1; cbn [app]; rewrite nextToken_line by (apply Itoa_no_newline; lia); cbn match.
  unfold bind at 1, lift at 1; rewrite parseDec_Itoa by lia; cbn match.
  rewrite badNumEntries_small, int64_id by (unfold in_int64; lia).
  replace (1 + nl r - 1) with (nl r) by lia; unfold bind.
  destruct (feedTokens_spec fuel base tail data B2 tr1 r (2 * len sp) Hinv1 Hm1) as (B3 & B4 & tr2 & EB2 & Hm2 & Hc2 & E2 & Hinv2).
  { rewrite Er, nl_app, nl_entriesText by done; pose proof (nl_nonneg pad); lia. }
  { rewrite EB1, length_app in Hf; lia. }
  { done. }
  assert (B4 = []) as ->.
  { apply mod_small_nil; [done|]; apply Z.le_lt_trans with (len pad); [|done].
    destruct (decide (sp = [])) as [->|Hne].
    - apply (f_equal len) in Er; cbn [entriesText app] in Er; rewrite <- Er, EB2, !len_app.
      pose proof (len_nonneg r); pose proof (len_nonneg B3); lia.
    - destruct (entriesText_last sp Hne) as [t0 Et].
      apply (prefix_has_text t0 pad (r ++ B3)); [|by rewrite <- Et, nl_entriesText].
      by rewrite <- app_assoc, <- EB2, Er, <- Et. }
  rewrite app_nil_r in EB2; subst B3; rewrite E2, Er; unfold lift.
  exists tr2; split; [|done].
  unfold len at 1; by rewrite Nat2Z.id, parseTokens_text.
Qed.

(** ** Properties *)

(** C14: skipping to the next entry. Whatever part of an entry has been read,
    and whether or not the underlying reader can seek, [skipUnread] discards
    exactly the unread data and the padding: the stream is then at the next
    header, and no current entry is left. *)
Theorem skipUnread_aligns tr data padding tail :
  trNumBytes tr = Ok (len data) -> len padding = tr_pad tr -> rest tr = data ++ padding ++ tail ->
  len data + len padding < 2 ^ 63 -> (length (rest tr) < fuel)%nat ->
  exists s', skipUnread fuel tr = (Ok tt, setPad 0 (setCurr None (withR s' tr))) /\ io_rest s' = tail.
Proof.
  intros Hnb Hp Hr Hov Hf; pose proof (len_nonneg data); pose proof (len_nonneg padding).
  destruct (skipUnread_spec tr (len data) Hnb) as (o & s' & E & Hcase); [lia..|done|].
  rewrite Hr, !len_app in Hcase; pose proof (len_nonneg tail).
  rewrite (proj2 (Z.leb_le _ _)) in Hcase by lia; destruct Hcase as [-> Hs].
  exists s'; split; [done|]; rewrite Hs, app_assoc, drop_app_ge; rewrite length_app; unfold len in *; [|lia].
  replace (_ - _)%nat with 0%nat by lia; by rewrite drop_0.
Qed.

(** C28: a truncated archive. When the stream ends before the end of the
    padding of the current entry, [skipUnread] returns an error:
    [io.ErrUnexpectedEOF] when bytes of the data section are missing, seeking
    past the end included, and [io.EOF] when only padding is. *)
Theorem skipUnread_truncated tr n :
  trNumBytes tr = Ok n -> 0 <= n -> 0 <= tr_pad tr -> n + tr_pad tr < 2 ^ 63 ->
  len (rest tr) < n + tr_pad tr -> (length (rest tr) < fuel)%nat ->
  exists s', skipUnread fuel tr =
    (Err (if n <=? len (rest tr) then EOF else ErrUnexpectedEOF), setPad 0 (setCurr None (withR s' tr))).
Proof.
  intros Hnb Hn Hp Hov Hl Hf; destruct (skipUnread_spec tr n Hnb) as (o & s' & E & Hcase); [done..|].
  rewrite (proj2 (Z.leb_gt _ _)) in Hcase by lia; destruct Hcase as [-> _]; by exists s'.
Qed.

(** C22: sparse maps of the PAX format 1.0. A map stored in front of the data
    as decimal lines, padded to whole blocks, is read back entry by entry,
    and the reader stops exactly at the block boundary behind it: the data
    of the file is what the current entry yields next. *)
Theorem readGNUSparseMap1x0_roundtrip base tail data pad sp tr :
  entryInv base tail (mapText sp ++ pad ++ data) tr ->
  Forall entryOk sp -> len sp < 2 ^ 62 -> len pad < 512 -> len (mapText sp ++ pad) mod 512 = 0 ->
  (length (mapText sp ++ pad) < fuel)%nat -> (512 <= fuel)%nat ->
  exists tr', readGNUSparseMap1x0 fuel tr = (Ok sp, tr') /\ entryInv base tail data tr'.
Proof. intros; by apply (readGNUSparseMap1x0_text base tail data pad). Qed.
End Stream.

(** C32: an entry whose announced size and padding overflow [int64] is not
    skipped. With an underlying reader that cannot seek, [skipUnread] then
    returns without an error and without consuming a byte: the next header
    is read from inside the entry's data. *)
Theorem skipUnread_overflow {S : Type} `{IoReader S} fuel (tr : Reader S) n :
  io_seek (S := S) = None -> trNumBytes tr = Ok n -> n < 2 ^ 63 -> 0 <= tr_pad tr < 512 ->
  2 ^ 63 <= n + tr_pad tr ->
  skipUnread fuel tr = (Ok tt, setPad 0 (setCurr None tr)).
Proof.
  intros Hseek Hnb Hn Hp Hov; unfold skipUnread, bind at 1, get, bind at 1, lift; rewrite Hnb.
  unfold bind at 1, modify, seekSkip; rewrite Hseek; unfold bind at 1, ret at 1.
  assert (E : int64 (n + tr_pad tr) = n + tr_pad tr - 2 ^ 64).
  { unfold int64, wraps; rewrite <- (Z.mod_add _ (-1)) by lia.
    rewrite Z.mod_small by lia; lia. }
  rewrite E, Z.sub_0_r, int64_id by (unfold in_int64; lia).
  unfold bind, onR, CopyN, bind at 1; unfold discardLoop.
  destruct fuel; rewrite (proj2 (Z.leb_le _ 0)) by lia; unfold ret;
    rewrite (proj2 (Z.eqb_neq _ _)), (proj2 (Z.ltb_ge 0 _)) by lia; cbn; by destruct tr.
Qed.

(** ** Witnesses *)

(** An entry with 5 unread bytes of data and 3 of padding. *)
Definition demoEntry : Reader chunkReader :=
  mkReader (demoReader (str "abcde" ++ [0; 0; 0] ++ str "next")) 3 (Some (regFileReader 5)) zeroBlock None.

Lemma skipUnread_aligns_witness :
  exists s', skipUnread 50 demoEntry = (Ok tt, setPad 0 (setCurr None (withR s' demoEntry))) /\
    io_rest s' = str "next".
Proof. apply (skipUnread_aligns 50 demoEntry (str "abcde") [0; 0; 0] (str "next")); vm_compute; try reflexivity; lia. Defined.

Lemma skipUnread_truncated_witness :
  let tr := setCurr (Some (regFileReader 20)) demoEntry in
  len (rest tr) = 12 /\
  exists s', skipUnread 50 tr =
    (Err (if 20 <=? len (rest tr) then EOF else ErrUnexpectedEOF), setPad 0 (setCurr None (withR s' tr))).
Proof.
  intros tr; split; [reflexivity|].
  apply (skipUnread_truncated 50 tr 20); vm_compute; try reflexivity; try discriminate; lia.
Defined.

Definition demoMap : list sparseEntry := [mkSparse 2 5; mkSparse 18 3].

Lemma readGNUSparseMap1x0_roundtrip_witness :
  exists tr', readGNUSparseMap1x0 2000
    (mkReader (demoReader (mapText demoMap ++ replicate 501 0 ++ str "abcdefgh")) 0
       (Some (regFileReader 520)) zeroBlock None) = (Ok demoMap, tr') /\
    entryInv (mkReader (demoReader []) 0 None zeroBlock None) [] (str "abcdefgh") tr'.
Proof.
  apply (readGNUSparseMap1x0_roundtrip 2000 _ [] (str "abcdefgh") (replicate 501 0)).
  - split; vm_compute; reflexivity.
  - repeat constructor; cbn; lia.
  - vm_compute; reflexivity.
  - vm_compute; reflexivity.
  - vm_compute; reflexivity.
  - apply Nat.ltb_lt; vm_compute; reflexivity.
  - apply Nat.leb_le; vm_compute; reflexivity.
Defined.

Lemma skipUnread_overflow_witness :
  let tr := mkReader (mkPipe (str "data")) 1 (Some (regFileReader (2 ^ 63 - 1))) zeroBlock None in
  skipUnread 10 tr = (Ok tt, setPad 0 (setCurr None tr)).
Proof. apply (skipUnread_overflow 10 _ (2 ^ 63 - 1)); try reflexivity; cbn; lia. Defined.
