(* ===== verification/TarKeeps.v ===== *)
(** * What every method of the archive reader keeps

    Predicates of the reader and of the underlying reader that reading,
    skipping and seeking keep are kept by whole calls. *)
From S2P Require Import Prelude GoInt GoString GoTime GoIO TarStrconv TarFormat TarCommon TarSparse TarReader.
Open Scope go_scope.

Create HintDb keepdb.

(** ** Predicates that every method keeps

    [J] is a predicate of the reader that reading the current entry, skipping
    it and reading a block keep, and that does not depend on the current
    entry, the padding and the error. *)
Section Keeps.
Context {S : Type} `{IoReader S} (J : Reader S -> Prop) (fuel : nat).
Hypothesis J_set : forall tr c pad e, J tr -> J (mkReader (tr_r tr) pad c (tr_blk tr) e).
Hypothesis J_currRead : forall n, keeps J (currRead n).
Hypothesis J_skipUnread : keeps J (skipUnread fuel).
Hypothesis J_readBlk : keeps J (readBlk fuel).
#[local] Hint Resolve J_currRead J_skipUnread J_readBlk : keepdb.

Lemma keeps_setCurr c : keeps J (modify (setCurr c)).
Proof. intros tr Htr; by apply J_set. Qed.
Lemma keeps_setErr e : keeps J (modify (setErr e)).
Proof. intros tr Htr; by apply J_set. Qed.
#[local] Hint Resolve keeps_setCurr keeps_setErr : keepdb.

Ltac keep := first
  [ solve [auto 2 with keepdb arkive]
  | apply keeps_bind; [keep|intros; keep]
  | progress cbn zeta
  | match goal with |- keeps _ (match ?x with _ => _ end) => destruct x; keep end
  | idtac ].

Lemma keeps_Read n : keeps J (Read n).
Proof. unfold Read; keep. Qed.
#[local] Hint Resolve keeps_Read : keepdb.

Lemma keeps_ReadAll : keeps J (ReadAll Read fuel).
Proof. apply keeps_readAllLoop, keeps_Read. Qed.
#[local] Hint Resolve keeps_ReadAll : keepdb.

Lemma keeps_readHeader : keeps J (readHeader fuel).
Proof. unfold readHeader; keep. Qed.

Lemma keeps_handleRegularFile hdr : keeps J (handleRegularFile hdr).
Proof. unfold handleRegularFile; cbn zeta; keep; intros tr Htr; exact (J_set tr _ _ _ Htr). Qed.

Lemma keeps_parsePAX : keeps J (parsePAX fuel).
Proof. unfold parsePAX; keep. Qed.
#[local] Hint Resolve keeps_readHeader keeps_handleRegularFile keeps_parsePAX : keepdb.

Lemma keeps_readOldGNULoop n s acc : keeps J (readOldGNULoop fuel n s acc).
Proof. revert s acc; induction n as [|n IH]; intros s acc; cbn [readOldGNULoop]; keep. Qed.

Lemma keeps_feedTokens n cnt cb : keeps J (feedTokens fuel n cnt cb).
Proof.
  revert cb; induction n as [|n IH]; intros [c buf]; cbn [feedTokens]; keep.
  apply keeps_readFullLoop, J_currRead.
Qed.
#[local] Hint Resolve keeps_readOldGNULoop keeps_feedTokens : keepdb.

Lemma keeps_handleSparseFile hdr ext : keeps J (handleSparseFile fuel hdr ext).
Proof.
  unfold handleSparseFile, readOldGNUSparseMap, checkForGNUSparsePAXHeaders, readGNUSparseMap1x0; keep.
Qed.
#[local] Hint Resolve keeps_handleSparseFile : keepdb.

Lemma keeps_nextLoop n ext : keeps J (nextLoop fuel n ext).
Proof. revert ext; induction n as [|n IH]; intros ext; cbn [nextLoop]; keep. Qed.

Lemma keeps_Next : keeps J (Next fuel).
Proof. unfold Next; keep; apply keeps_attempt, keeps_nextLoop. Qed.
End Keeps.

(** ** The reader below *)
Section OnR.
Context {S : Type} `{IoReader S} (Q : S -> Prop).
Hypothesis Hseek : forall (seek : S -> Z -> (Z + error) * S) s k, io_seek = Some seek -> Q s -> Q (seek s k).2.
Hypothesis HQ : forall s n bs e s', Q s -> io_read s n = (bs, e, s') -> Q s'.

Definition onQ (tr : Reader S) : Prop := Q (tr_r tr).

Lemma keeps_ioRead n : keeps Q (ioRead n).
Proof. intros s Hs; unfold ioRead; destruct (io_read s n) as [[bs e] s'] eqn:E; by apply (HQ s n bs e). Qed.

Lemma keeps_regRead nb n : keeps Q (regRead nb n).
Proof.
  unfold regRead; destruct (nb =? 0); [auto with arkive|]; destruct ((nb <? n) && (nb <? 0)); [auto with arkive|].
  apply keeps_bind; [apply keeps_ioRead | intros [bs e]; auto with arkive].
Qed.

Lemma keeps_nbrRead c n : keeps Q (nbrRead c n).
Proof.
  revert n; induction c as [nb|rfr IH sp pos total|]; intros n; cbn [nbrRead]; auto using keeps_regRead with arkive.
  destruct (skipEmpty sp) as [|e sp'].
  - destruct (pos <? total); [destruct (readHole pos n total)|]; auto with arkive.
  - destruct (pos <? offset e); [destruct (readHole pos n (offset e)); auto with arkive|].
    destruct (_ && _); [auto with arkive|].
    apply keeps_bind; [apply IH | intros [[bs err] rfr']; auto with arkive].
Qed.

Lemma onQ_currRead n : keeps onQ (currRead n).
Proof.
  intros tr Htr; unfold currRead; destruct (tr_curr tr) as [c|]; [|done].
  pose proof (keeps_nbrRead c n (tr_r tr) Htr) as Hk; by destruct (nbrRead c n (tr_r tr)) as [[[[bs e] c']| | |] s'].
Qed.

Lemma onQ_onR {A} (m : M S A) : keeps Q m -> keeps onQ (onR m).
Proof. intros Hm tr Htr; specialize (Hm (tr_r tr) Htr); unfold onR; by destruct (m (tr_r tr)). Qed.

Lemma onQ_seekSkip n : keeps onQ (seekSkip n).
Proof.
  unfold seekSkip; destruct io_seek as [seek|] eqn:E; [|auto with arkive]; destruct (1 <? n); [|auto with arkive].
  apply onQ_onR; intros s Hs; pose proof (Hseek seek s 0 eq_refl Hs) as H1; destruct (seek s 0) as [[p|e] s1]; cbn [snd] in H1; [|done].
  pose proof (Hseek seek s1 (n - 1) eq_refl H1) as H2; by destruct (seek s1 (n - 1)) as [[p2|e] s2].
Qed.

Lemma onQ_skipUnread fuel : keeps onQ (skipUnread fuel).
Proof.
  unfold skipUnread; apply keeps_bind; [auto with arkive|]; intros tr0; apply keeps_bind; [auto with arkive|]; intros n; cbv zeta.
  apply keeps_bind; [intros tr Htr; exact Htr|]; intros _; apply keeps_bind; [apply onQ_seekSkip|]; intros k; apply keeps_bind.
  - apply onQ_onR, keeps_CopyN, keeps_ioRead.
  - intros [copied err]; cbv zeta; destruct (if _ && _ then _ else err); auto with arkive.
Qed.

Lemma onQ_readBlk fuel : keeps onQ (readBlk fuel).
Proof.
  unfold readBlk; apply keeps_bind; [apply onQ_onR, keeps_readFullLoop, keeps_ioRead|].
  intros [bs e]; apply keeps_bind; [intros tr Htr; exact Htr | auto with arkive].
Qed.

Lemma onQ_Next fuel : keeps onQ (Next fuel).
Proof. apply keeps_Next; [done | apply onQ_currRead | apply onQ_skipUnread | apply onQ_readBlk]. Qed.
End OnR.
