(* ===== verification/TarSafety.v ===== *)
(** * The archive reader on arbitrary readers: safety and termination

    The state invariant of tar/reader.go, that [Next] and [Read] keep it for
    any reader with the documented contract of [io.Reader] (any bytes, any
    errors), and that [Next] terminates when the reader makes progress on a
    finite stream. Both follow from one specification of each method; [prog]
    says whether progress is assumed. *)
From S2P Require Import Prelude GoInt GoString GoTime GoIO TarStrconv TarFormat TarCommon TarSparse TarReader.
From S2P Require Import TarPax TarStream TarKeeps.
Open Scope go_scope.

Section Safety.
Context {S : Type} `{IoReader S} (prog : Prop) (mu : S -> nat).

(** What is assumed of the underlying reader. With [prog], a read that
    reports no error stores at least one byte, and [mu] bounds the bytes
    that are left; seeking forward adds none. *)
Class IoContract : Prop := {
  contract_read : forall s n bs e s', 0 <= n -> (prog -> 0 < n) -> io_read s n = (bs, e, s') ->
    len bs <= n /\ (prog -> (mu s' + length bs <= mu s)%nat /\ (e = None -> bs <> []));
  contract_seek : prog -> forall (seek : S -> Z -> (Z + error) * S) s k, io_seek = Some seek -> 0 <= k ->
    (mu (seek s 0%Z).2 <= mu s)%nat /\
    (forall p s', seek s 0 = (inl p, s') -> (mu (seek s' k).2 <= mu s)%nat)
}.
Context `{!IoContract}.

#[export] Instance ioRead_ok : ReadsOk prog ioRead (fun _ => True) mu.
Proof.
  intros s n _ Hn; unfold ioRead; destruct (io_read s n) as [[bs e] s'] eqn:E.
  destruct (contract_read s n bs e s' ltac:(lia) ltac:(done) E) as [Hl Hp]; by exists bs, e, s'.
Qed.

(** ** The invariant *)
Definition mapInv (pos : Z) (sp : list sparseEntry) : Prop := sp = [] \/ midOk pos maxInt64 sp.

(** A current entry: unread bytes are not negative, and a sparse file sits
    directly on a regular one, with a map that its position is consistent
    with. *)
Definition currOk (c : numBytesReader) : Prop :=
  match c with
  | regFileReader nb => 0 <= nb
  | sparseFileReader (regFileReader nb) sp pos total => 0 <= nb /\ mapInv pos sp
  | _ => False
  end.

Definition isReg (c : numBytesReader) : Prop := match c with regFileReader nb => 0 <= nb | _ => False end.

Definition padOk (tr : Reader S) : Prop := 0 <= tr_pad tr < 512.

Definition rdOk (tr : Reader S) : Prop :=
  match tr_curr tr with None => True | Some c => currOk c end /\ padOk tr.

(** The invariant between calls of the exported methods: an error is sticky,
    and without one the reader is consistent. *)
Definition readerInv (tr : Reader S) : Prop := tr_err tr = None -> rdOk tr.

Definition regOk (tr : Reader S) : Prop :=
  match tr_curr tr with Some c => isReg c | None => False end /\ padOk tr.

(** ** Reading *)
Lemma regRead_ok nb n s :
  0 <= nb -> 0 <= n -> (prog -> 0 < n) ->
  exists bs e nb' s', regRead nb n s = (Ok (bs, e, regFileReader nb'), s') /\ 0 <= nb' /\ len bs <= n /\
    (prog -> (mu s' + length bs <= mu s)%nat /\ (e = None -> bs <> [])).
Proof.
  intros Hnb Hn Hp; unfold regRead; destruct (Z.eqb_spec nb 0) as [->|Hne].
  { exists [], (Some EOF), 0, s; rewrite (@len_nil Z); split; [done|]; split; [done|]; split; [done|].
    intros _; split; [cbn; lia | done]. }
  rewrite (proj2 (Z.ltb_ge nb 0)), andb_false_r by lia.
  set (n' := if nb <? n then nb else n).
  assert (Hn' : 0 <= n' <= n /\ n' <= nb /\ (0 < n -> 0 < n')) by (unfold n'; destruct (Z.ltb_spec nb n); lia).
  unfold bind, ioRead; destruct (io_read s n') as [[bs e] s'] eqn:E; unfold ret.
  destruct (contract_read s n' bs e s' ltac:(lia) ltac:(intros P; specialize (Hp P); lia) E) as [Hl Hpr].
  eexists bs, _, (nb - len bs), s'; split; [done|]; split; [lia|]; split; [lia|].
  intros P; destruct (Hpr P) as [Hm He]; split; [done|].
  destruct (bool_decide (e = Some EOF) && _); done.
Qed.

Lemma mapInv_skipEmpty pos sp : mapInv pos sp -> mapInv pos (skipEmpty sp).
Proof.
  intros [-> | Hm]; [by left|]; right; by destruct (skipEmpty_mid pos maxInt64 sp [] Hm) as [? _].
Qed.

Lemma skipEmpty_head sp e sp' : skipEmpty sp = e :: sp' -> numBytes e <> 0.
Proof.
  induction sp as [|x sp IH]; cbn; [done|]; destruct (Z.eqb_spec (numBytes x) 0); [done|]; by intros [= <- _].
Qed.

Lemma nbrRead_ok c n s :
  currOk c -> 0 <= n -> (prog -> 0 < n) ->
  exists bs e c' s', nbrRead c n s = (Ok (bs, e, c'), s') /\ currOk c' /\ len bs <= n /\
    (isReg c -> isReg c' /\ (prog -> (mu s' + length bs <= mu s)%nat /\ (e = None -> bs <> []))).
Proof.
  intros Hc Hn Hp; destruct c as [nb|[nb| |] sp pos total|]; try done.
  { destruct (regRead_ok nb n s Hc Hn Hp) as (bs & e & nb' & s' & E & Hnb & Hl & Hm).
    exists bs, e, (regFileReader nb'), s'; done. }
  destruct Hc as [Hnb Hmap]; apply mapInv_skipEmpty in Hmap; rewrite nbrRead_sparse.
  assert (Hhole : forall sp' endOff, pos < endOff -> (sp' = [] \/ exists e sp'', sp' = e :: sp'' /\ endOff = offset e) ->
    mapInv pos sp' -> exists bs pos', readHole pos n endOff = (bs, pos') /\ len bs <= n /\ mapInv pos' sp').
  { intros sp' endOff Hlt Hcase Hinv; unfold readHole; eexists _, _; split; [reflexivity|].
    rewrite len_replicate; split; [destruct (Z.ltb_spec n (endOff - pos)); lia|].
    destruct Hcase as [-> | (e & sp'' & -> & ->)]; [by left|]; right; destruct Hinv as [|(H1 & H2 & H3)]; [done|].
    split; [destruct (Z.ltb_spec n (offset e - pos)); lia|]; split; [done|].
    destruct (Z.ltb_spec n (offset e - pos)); naive_solver lia. }
  cbn [nbrRead].
  assert (Hidem : skipEmpty (skipEmpty sp) = skipEmpty sp).
  { destruct (skipEmpty sp) as [|e sp'] eqn:Ee; [done|]; cbn.
    by rewrite (proj2 (Z.eqb_neq _ _) (skipEmpty_head _ _ _ Ee)). }
  rewrite Hidem; destruct (skipEmpty sp) as [|e sp'] eqn:Ee.
  - destruct (Z.ltb_spec pos total) as [Hlt|Hge].
    + destruct (Hhole [] total Hlt ltac:(by left) Hmap) as (bs & pos' & -> & Hl & Hm').
      eexists bs, None, _, s; split; [done|]; split; [split; [done | by left]|]; split; [done | by intros []].
    + eexists [], (Some EOF), _, s; split; [done|]; split; [split; [done | by left]|]; rewrite (@len_nil Z); split; [done | by intros []].
  - pose proof (skipEmpty_head _ _ _ Ee) as Hne.
    destruct (Z.ltb_spec pos (offset e)) as [Hlt|Hge].
    + destruct (Hhole (e :: sp') (offset e) Hlt ltac:(eauto) Hmap) as (bs & pos' & -> & Hl & Hm').
      eexists bs, None, _, s; split; [done|]; split; [done|]; split; [done | by intros []].
    + destruct Hmap as [|(H1 & H2 & H3 & H4 & H5 & H6)]; [done|]; pose proof (sparseMapOk_le _ _ _ H6); unfold maxInt64 in *.
      rewrite !int64_id by (rewrite ?int64_id; unfold in_int64; lia).
      rewrite (proj2 (Z.ltb_ge _ 0)), andb_false_r by lia.
      set (n' := if offset e + numBytes e - pos <? n then offset e + numBytes e - pos else n).
      assert (Hn' : 0 <= n' <= n /\ n' <= offset e + numBytes e - pos /\ (0 < n -> 0 < n'))
        by (unfold n'; destruct (Z.ltb_spec (offset e + numBytes e - pos) n); lia).
      destruct (regRead_ok nb n' s Hnb ltac:(lia) ltac:(intros P; specialize (Hp P); lia))
        as (bs & err & nb' & s' & E & Hnb' & Hl & _).
      unfold bind; rewrite E; unfold ret; pose proof (len_nonneg bs).
      eexists bs, _, _, s'; split; [done|]; split; [split; [done|]|split; [lia | by intros []]].
      destruct (Z.eqb_spec (pos + len bs) (offset e + numBytes e)) as [Epos|Epos].
      * right; rewrite Epos; apply sparseMapOk_mid; [lia | unfold maxInt64; lia | done].
      * right; split; [lia|]; split; [unfold maxInt64; lia|]; naive_solver lia.
Qed.

(** ** The methods

    [P] is what holds in the state in which a method panics, and running out
    of fuel takes a source of at least as many bytes. A method's
    specification says what holds after a normal return. *)
Variables (P : Reader S -> Prop) (fuel lim : nat).

(** Bytes left of the source, when it is known to be finite. *)
Definition within (k : nat) (tr : Reader S) : Prop := prog -> (mu (tr_r tr) + k <= lim)%nat.

Definition safe {A} (K : A -> Reader S -> Prop) (o : outcome A) (tr : Reader S) : Prop :=
  match o with
  | Ok a => K a tr
  | Err _ => True
  | Panic => P tr
  | OutOfFuel => prog -> (fuel <= lim)%nat
  end.

Lemma safe_bind {A B} (m : M (Reader S) A) (f : A -> M (Reader S) B) K1 K2 tr :
  wp m (safe K1) tr -> (forall a tr', K1 a tr' -> wp (f a) (safe K2) tr') -> wp (bind m f) (safe K2) tr.
Proof. intros Hm Hf; eapply wp_seq; [exact Hm|]; intros [a| | |] tr'; cbn; auto. Qed.

Lemma safe_mono {A} (m : M (Reader S) A) (K1 K2 : A -> Reader S -> Prop) tr :
  wp m (safe K1) tr -> (forall a tr', K1 a tr' -> K2 a tr') -> wp m (safe K2) tr.
Proof. intros Hm HK; eapply wp_mono; [exact Hm|]; intros [a| | |] tr'; cbn; auto. Qed.

(** A computation on the underlying reader leaves the other fields. *)
Lemma safe_onR {A} (m : M S A) (K : A -> Reader S -> Prop) (got : A -> nat) k tr :
  wp m (loopPost prog (fun _ => True) mu fuel (tr_r tr) got) (tr_r tr) -> within k tr ->
  (forall a s', within (k + got a) (withR s' tr) -> K a (withR s' tr)) ->
  wp (onR m) (safe K) tr.
Proof.
  unfold wp, onR; destruct (m (tr_r tr)) as [o s']; cbn; intros [_ Ho] Hw HK.
  destruct o as [a| | |]; cbn; try done.
  - apply HK; intros Pr; cbn; specialize (Ho Pr); specialize (Hw Pr); lia.
  - intros Pr; specialize (Ho Pr); specialize (Hw Pr); lia.
Qed.

Lemma safe_seekSkip n tr k :
  within k tr -> wp (seekSkip n) (safe (fun _ tr' => exists s', tr' = withR s' tr /\ within k tr')) tr.
Proof.
  intros Hw; unfold seekSkip.
  assert (Hret : wp (ret 0) (safe (fun _ tr' => exists s', tr' = withR s' tr /\ within k tr')) tr).
  { exists (tr_r tr); split; [by destruct tr | done]. }
  destruct io_seek as [seek|] eqn:E; [|done]; destruct (Z.ltb_spec 1 n) as [Hn|]; [|done]; clear Hret.
  unfold wp, onR.
  assert (Hs : prog -> (mu (seek (tr_r tr) 0%Z).2 <= mu (tr_r tr))%nat /\ forall p s', seek (tr_r tr) 0 = (inl p, s') ->
    (mu (seek s' (n - 1)%Z).2 <= mu (tr_r tr))%nat) by (intros Pr; apply contract_seek; [done..|lia]).
  destruct (seek (tr_r tr) 0) as [[p1|e] s1]; cbn in Hs |- *.
  - destruct (seek s1 (n - 1)) as [[p2|e] s2] eqn:E2; cbn in Hs |- *; [|done].
    exists s2; split; [done|]; intros Pr; destruct (Hs Pr) as [_ Hs']; specialize (Hs' _ _ eq_refl); rewrite E2 in Hs'.
    specialize (Hw Pr); cbn in *; lia.
  - exists s1; split; [done|]; intros Pr; destruct (Hs Pr) as [Hs' _]; specialize (Hw Pr); cbn; lia.
Qed.

(** Arithmetic on the bytes left. *)
Ltac left_bytes :=
  unfold within in *; let Pr := fresh in intros Pr;
  repeat match goal with Hw : prog -> _ |- _ => specialize (Hw Pr) end; cbn in *; lia.

Lemma currOk_numBytes c : currOk c -> exists n, nbrNumBytes c = Ok n.
Proof. destruct c as [nb|[nb| |] ? ? ?|]; cbn; try done; eauto. Qed.

Lemma within_eq k tr tr' : tr_r tr' = tr_r tr -> within k tr -> within k tr'.
Proof. unfold within; by intros ->. Qed.

Lemma safe_skipUnread tr k :
  rdOk tr -> within k tr ->
  wp (skipUnread fuel) (safe (fun _ tr' => tr_curr tr' = None /\ tr_pad tr' = 0 /\ within k tr')) tr.
Proof.
  intros [Hc Hp] Hw; unfold skipUnread; apply wp_bind, wp_get; cbn.
  assert (exists n, trNumBytes tr = Ok n) as [n ->].
  { unfold trNumBytes; clear -Hc; destruct (tr_curr tr); [by apply currOk_numBytes | eauto]. }
  apply wp_bind, wp_lift; cbn; apply wp_bind; unfold modify at 1, wp at 1; cbn.
  set (tr1 := setPad 0 (setCurr None tr)).
  eapply (safe_bind _ _ _ _ tr1); [apply (safe_seekSkip n tr1 k); by apply (within_eq k tr)|].
  intros skipped tr2 (s' & -> & Hw2); cbn.
  eapply safe_bind with (K1 := fun _ tr' => tr_curr tr' = None /\ tr_pad tr' = 0 /\ within k tr').
  - eapply safe_onR; [apply (CopyN_ok prog ioRead (fun _ => True) mu); exact I | exact Hw2|].
    intros a s'' Hw3; split; [done|]; split; [done|]; left_bytes.
  - intros [copied err] tr3 H3; cbn; destruct (if _ && _ then _ else err) as [e|]; cbn; done.
Qed.

(** One block: a normal return without an error used it up. *)
Lemma safe_readBlk tr k :
  within k tr ->
  wp (readBlk fuel) (safe (fun err tr' => tr_curr tr' = tr_curr tr /\ tr_pad tr' = tr_pad tr /\ tr_err tr' = tr_err tr /\
    within k tr' /\ (err = None -> within (k + 512) tr'))) tr.
Proof.
  intros Hw; unfold readBlk, onR; change blockSize with 512; apply wp_bind; unfold wp at 1.
  pose proof (ReadFull_ok prog ioRead (fun _ => True) mu fuel 512 (tr_r tr) I ltac:(lia)) as HR; unfold wp in HR.
  destruct (ReadFull ioRead fuel 512 (tr_r tr)) as [o s']; cbn in HR |- *; destruct HR as [[_ Ho] He].
  destruct o as [[bs err]| | |]; cbn; try done.
  - split; [done|]; split; [done|]; split; [done|]; unfold within; cbn; split.
    + left_bytes.
    + intros -> Pr; specialize (Ho Pr); specialize (Hw Pr); unfold len in He; cbn in *; lia.
  - intros Pr; specialize (Ho Pr); specialize (Hw Pr); lia.
Qed.

Lemma safe_readHeader tr k :
  within k tr -> tr_curr tr = None -> tr_pad tr = 0 ->
  wp (readHeader fuel) (safe (fun hdr tr' => tr_curr tr' = None /\ tr_pad tr' = 0 /\ within (k + 512) tr')) tr.
Proof.
  intros Hw Hc Hp; unfold readHeader; eapply safe_bind; [by apply (safe_readBlk tr k)|].
  intros err tr1 (E1 & E2 & E3 & Hw1 & Hw1'); destruct err as [e|]; [done|]; specialize (Hw1' eq_refl).
  apply wp_bind, wp_get; cbn; case_bool_decide.
  - eapply safe_bind; [by apply (safe_readBlk tr1 k)|]; intros [e|] tr2 _; [done|].
    apply wp_bind, wp_get; cbn; done.
  - apply wp_lift; unfold unpackHeader; destruct (_ =? _); [done|].
    destruct (unpackV7 None (tr_blk tr1)) as [p hdr].
    destruct (if formatV7 <? GetFormat (tr_blk tr1) then _ else _) as [p' hdr'].
    destruct p'; cbn; [done|]; by rewrite E1, E2.
Qed.

Lemma pad_range nb : 0 <= Z.land (- nb) (blockSize - 1) < 512.
Proof.
  change (blockSize - 1) with (Z.ones 9); rewrite Z.land_ones by lia; apply Z.mod_pos_bound; lia.
Qed.

Lemma safe_handleRegularFile hdr tr k :
  within k tr -> wp (handleRegularFile hdr) (safe (fun _ tr' => regOk tr' /\ within k tr' /\ tr_err tr' = tr_err tr)) tr.
Proof.
  intros Hw; unfold handleRegularFile.
  destruct (Z.ltb_spec (if isHeaderOnlyType (h_Typeflag hdr) then 0 else h_Size hdr) 0); [done|].
  split; [split; [done | apply pad_range] | done].
Qed.

#[export] Instance currRead_ok : ReadsOk prog currRead regOk (fun tr => mu (tr_r tr)).
Proof.
  intros tr n [Hc Hp] Hn; unfold currRead; destruct (tr_curr tr) as [[nb| |]|]; try done.
  destruct (nbrRead_ok (regFileReader nb) n (tr_r tr) Hc ltac:(lia) ltac:(done))
    as (bs & e & c' & s' & E & _ & Hl & Hr); rewrite E; destruct (Hr Hc) as [Hc' Hm].
  eexists bs, e, _; split; [reflexivity|]; split; [split; [exact Hc' | exact Hp]|]; split; [done | exact Hm].
Qed.

#[export] Instance Read_ok : ReadsOk prog Read regOk (fun tr => mu (tr_r tr)).
Proof.
  intros tr n Hok Hn; unfold Read, bind, get.
  destruct (tr_err tr) as [e|]; [exists [], (Some e), tr|].
  { rewrite (@len_nil Z); split; [done|]; split; [done|]; split; [lia|]; intros _; split; [cbn; lia | done]. }
  destruct (tr_curr tr) as [c|] eqn:Hc; [|by destruct Hok as [Hx _]; rewrite Hc in Hx].
  destruct (reads_ok tr n Hok Hn) as (bs & e & tr' & E & Hok' & Hl & Hm); rewrite E.
  destruct (bool_decide (e <> None) && bool_decide (e <> Some EOF)).
  - exists bs, e, (setErr e tr'); done.
  - exists bs, e, tr'; done.
Qed.

(** The loops over the current entry, in the terms of [safe]. *)
Lemma safe_loop {A} (m : M (Reader S) A) (got : A -> nat) k tr :
  wp m (loopPost prog regOk (fun tr => mu (tr_r tr)) fuel tr got) tr -> within k tr ->
  wp m (safe (fun a tr' => regOk tr' /\ within (k + got a) tr')) tr.
Proof.
  intros Hm Hw; eapply wp_mono; [exact Hm|]; intros o tr' [Hok Ho]; destruct o as [a| | |]; cbn; try done.
  - split; [done|]; left_bytes.
  - intros Pr; specialize (Ho Pr); specialize (Hw Pr); lia.
Qed.

Lemma safe_ReadAll tr k :
  regOk tr -> within k tr -> wp (ReadAll Read fuel) (safe (fun _ tr' => regOk tr' /\ within k tr')) tr.
Proof.
  intros Hok Hw; eapply safe_mono; [eapply safe_loop; [apply (ReadAll_ok prog Read regOk (fun tr => mu (tr_r tr))); exact Hok | exact Hw]|].
  intros [bs e] tr' [Hok' Hw']; split; [done|]; left_bytes.
Qed.

(** The one source of panics, and what it is known to follow: [J] is kept by
    every method. *)
Variable J : Reader S -> Prop.
Hypothesis J_set : forall tr c pad e, J tr -> J (mkReader (tr_r tr) pad c (tr_blk tr) e).
Hypothesis J_currRead : forall n, keeps J (currRead n).
Hypothesis J_skipUnread : keeps J (skipUnread fuel).
Hypothesis J_readBlk : keeps J (readBlk fuel).
Hypothesis P_panic : forall tr buf tr' s, J tr -> regOk tr -> ReadAll Read fuel tr = (Ok (buf, None), tr') ->
  s `suffix_of` buf -> parsePAXRecord s = Panic -> P tr'.

Lemma safe_keeps {A} (m : M (Reader S) A) (K : A -> Reader S -> Prop) tr :
  wp m (safe K) tr -> keeps J m -> J tr -> wp m (safe (fun a tr' => K a tr' /\ J tr')) tr.
Proof. unfold wp; intros Hm Hk Hj; specialize (Hk tr Hj); destruct (m tr) as [[a| | |] tr']; cbn in *; done. Qed.

Lemma safe_parsePAX tr k :
  regOk tr -> J tr -> within k tr -> wp (parsePAX fuel) (safe (fun _ tr' => regOk tr' /\ within k tr')) tr.
Proof.
  intros Hok Hj Hw; unfold parsePAX; pose proof (safe_ReadAll tr k Hok Hw) as Hs; unfold wp, bind in *.
  destruct (ReadAll Read fuel tr) as [[[bs [e|]]| | |] tr'] eqn:E; cbn in Hs |- *; try done.
  pose proof (parsePAXBuf_cases bs) as Hc; destruct (parsePAXBuf bs); cbn in *; try done.
  destruct Hc as (s & Hsuf & Hp); by apply (P_panic tr bs tr' s).
Qed.

(** ** Sparse maps *)
Lemma oldGNUEntries_total s i k :
  (exists sp, oldGNUEntries s i k = Ok sp) \/ (exists e, oldGNUEntries s i k = Err e).
Proof.
  revert i; induction k as [|k IH]; intros i; cbn [oldGNUEntries]; [eauto|].
  unfold oldGNUEntry; case_bool_decide; cbn [obind]; [eauto|].
  destruct (parseNumeric None _) as [p1 o]; destruct (parseNumeric p1 _) as [p2 l].
  destruct p2; cbn [obind]; [eauto|]; destruct (IH (Datatypes.S i)) as [[sp ->] | [e ->]]; cbn [obind]; eauto.
Qed.

Lemma safe_readOldGNULoop n s acc tr k :
  regOk tr -> within (k + (fuel - n)) tr -> (n <= fuel)%nat ->
  wp (readOldGNULoop fuel n s acc) (safe (fun _ tr' => regOk tr' /\ within k tr')) tr.
Proof.
  revert s acc tr k; induction n as [|n IH]; intros s acc tr k Hok Hw Hn; cbn [readOldGNULoop];
    apply wp_bind, wp_lift; (destruct (oldGNUEntries_total s 0 (MaxEntries s)) as [[es ->] | [e ->]]; cbn [onOk]; [|done]);
    destruct (0 <? hd 0 (IsExtended s)).
  - intros Pr; specialize (Hw Pr); lia.
  - split; [done|]; left_bytes.
  - eapply safe_bind; [by apply (safe_readBlk tr (k + (fuel - Datatypes.S n)))|].
    intros [e|] tr' (E1 & E2 & _ & _ & Hw'); [done|]; specialize (Hw' eq_refl).
    apply wp_bind, wp_get; cbn; apply IH; [|left_bytes | lia].
    destruct Hok as [Hc Hp]; unfold regOk, padOk in *; by rewrite E1, E2.
  - split; [done|]; left_bytes.
Qed.

Lemma safe_readOldGNUSparseMap hdr tr k :
  regOk tr -> within k tr ->
  wp (readOldGNUSparseMap fuel hdr) (safe (fun _ tr' => regOk tr' /\ within k tr')) tr.
Proof.
  intros Hok Hw; unfold readOldGNUSparseMap; apply wp_bind, wp_get; cbn.
  destruct (negb _); [done|]; destruct (parseNumeric None _) as [[e|] size]; [done|].
  eapply safe_bind; [apply (safe_readOldGNULoop fuel _ [] tr k Hok); [left_bytes | lia]|].
  intros sp tr' Hpost; done.
Qed.

Lemma safe_feedTokens n cnt c buf tr k :
  regOk tr -> c = nl buf -> within (k + (fuel - n)) tr -> (n <= fuel)%nat ->
  wp (feedTokens fuel n cnt (c, buf))
     (safe (fun cb tr' => regOk tr' /\ within k tr' /\ cb.1 = nl cb.2 /\ cnt <= cb.1)) tr.
Proof.
  revert c buf tr; induction n as [|n IH]; intros c buf tr Hok -> Hw Hn; cbn [feedTokens];
    destruct (Z.ltb_spec (nl buf) cnt).
  - intros Pr; specialize (Hw Pr); lia.
  - split; [done|]; split; [left_bytes | done].
  - pose proof (ReadFull_ok prog currRead regOk (fun tr => mu (tr_r tr)) fuel 512 tr Hok ltac:(lia)) as HR.
    change blockSize with 512; apply wp_bind; unfold wp at 1; unfold wp in HR.
    destruct (ReadFull currRead fuel 512 tr) as [o tr']; cbn in HR |- *; destruct HR as [[Hok' Ho] He].
    destruct o as [[bs [e|]]| | |]; cbn; try done.
    + apply IH; [done | by rewrite nl_app | | lia]; unfold len in He; left_bytes.
    + intros Pr; specialize (Ho Pr); specialize (Hw Pr); lia.
  - split; [done|]; split; [left_bytes | done].
Qed.

Lemma nextToken_ok c buf :
  c = nl buf -> 0 < c -> exists tok buf', nextToken (c, buf) = Ok (tok, (c - 1, buf')) /\ c - 1 = nl buf'.
Proof.
  intros -> Hc; unfold nextToken.
  destruct (IndexByte_spec buf 10) as [[_ Hn] | (s1 & s2 & -> & Hs1 & Ei)].
  { rewrite nl_none in Hc by done; lia. }
  rewrite Ei; pose proof (len_nonneg s1); rewrite (proj2 (Z.eqb_neq _ _)) by lia.
  eexists _, _; split; [done|].
  replace (s1 ++ 10 :: s2) with ((s1 ++ [10]) ++ s2) by (by rewrite <- app_assoc).
  replace (len s1 + 1) with (len (s1 ++ [10])) by (by rewrite len_app).
  rewrite slice_app_r by (by rewrite len_app); rewrite !nl_app, nl_none by done; change (nl [10]) with 1; lia.
Qed.

Lemma parseTokens_total n c buf :
  c = nl buf -> 2 * Z.of_nat n <= c ->
  (exists sp, parseTokens n (c, buf) = Ok sp) \/ parseTokens n (c, buf) = Err ErrHeader.
Proof.
  revert c buf; induction n as [|n IH]; intros c buf Hc Hn; cbn [parseTokens]; [eauto|].
  destruct (nextToken_ok c buf Hc ltac:(lia)) as (t1 & b1 & -> & Hb1); cbn [obind].
  destruct (parseDec_cases t1) as [[o ->] | ->]; cbn [obind]; [|by right].
  destruct (nextToken_ok (c - 1) b1 Hb1 ltac:(lia)) as (t2 & b2 & -> & Hb2); cbn [obind].
  destruct (parseDec_cases t2) as [[l ->] | ->]; cbn [obind]; [|by right].
  destruct (IH (c - 1 - 1) b2 Hb2 ltac:(lia)) as [[sp ->] | ->]; cbn [obind]; eauto.
Qed.

(** The guard on the number of entries: doubling it does not overflow. *)
Lemma badNumEntries_inv n : in_int64 n -> badNumEntries n = false -> 0 <= n /\ int64 (2 * n) = 2 * n.
Proof.
  unfold badNumEntries, in_int64; intros Hn Hb; apply orb_false_iff in Hb as [H1%Z.ltb_ge H2%Z.ltb_ge].
  split; [done|]; destruct (Z.lt_ge_cases (2 * n) (2 ^ 63)); [by apply int64_id; unfold in_int64; lia|].
  exfalso; unfold int64, wraps in H2; rewrite <- (Z.mod_add _ (-1)) in H2 by lia.
  rewrite Z.mod_small in H2 by lia; lia.
Qed.

Lemma parseDec_range v n : parseDec v = Ok n -> in_int64 n.
Proof.
  unfold parseDec; destruct (ParseInt v 10) as [n' [e|]] eqn:E; [done|]; intros [= ->]; by eapply ParseInt_range.
Qed.

Lemma safe_readGNUSparseMap1x0 tr k :
  regOk tr -> within k tr ->
  wp (readGNUSparseMap1x0 fuel) (safe (fun _ tr' => regOk tr' /\ within k tr')) tr.
Proof.
  intros Hok Hw; unfold readGNUSparseMap1x0.
  eapply safe_bind; [apply (safe_feedTokens fuel 1 0 [] tr k Hok); [done | left_bytes | lia]|].
  intros [c buf] tr1 (Hok1 & Hw1 & Hc & Hge); cbn in Hc, Hge; apply wp_bind, wp_lift.
  destruct (nextToken_ok c buf Hc ltac:(lia)) as (tok & buf1 & -> & Hc1); cbn [onOk].
  apply wp_bind, wp_lift; destruct (parseDec tok) as [n| | |] eqn:En; cbn [onOk]; try done;
    try (destruct (parseDec_cases tok) as [[? E] | E]; congruence).
  destruct (badNumEntries n) eqn:Eb; [done|].
  destruct (badNumEntries_inv n (parseDec_range _ _ En) Eb) as [Hn0 ->].
  eapply safe_bind; [apply (safe_feedTokens fuel (2 * n) (c - 1) buf1 tr1 k Hok1 Hc1); [left_bytes | lia]|].
  intros [c2 buf2] tr2 (Hok2 & Hw2 & Hc2 & Hge2); cbn in Hc2, Hge2; apply wp_lift.
  destruct (parseTokens_total (Z.to_nat n) c2 buf2 Hc2 ltac:(lia)) as [[sp ->] | ->]; done.
Qed.

(** An accepted map has fragments that end within [int64]. *)
Lemma validSparse_int64 prev total sp :
  match prev with Some p => 0 <= offset p + numBytes p <= maxInt64 | None => True end ->
  validSparse prev total sp = true ->
  sparseMapOk (match prev with Some p => offset p + numBytes p | None => 0 end) maxInt64 sp.
Proof.
  revert prev; induction sp as [|e sp IH]; intros prev Hp; cbn [validSparse sparseMapOk].
  { intros _; destruct prev; unfold maxInt64 in *; lia. }
  destruct (Z.ltb_spec (offset e) 0), (Z.ltb_spec (numBytes e) 0); try done; cbn [orb].
  destruct (Z.ltb_spec (maxInt64 - numBytes e) (offset e)); [done|].
  rewrite (int64_id (offset e + numBytes e)) by (unfold in_int64, maxInt64 in *; lia).
  destruct (Z.ltb_spec total (offset e + numBytes e)); [done|].
  destruct prev as [p|]; [rewrite (int64_id (offset p + numBytes p)) by (unfold in_int64, maxInt64 in *; lia); destruct (Z.ltb_spec (offset e) (offset p + numBytes p)); [done|]|];
    intros Hv; apply (IH (Some e)) in Hv; try lia; (split; [lia|]; split; [lia | exact Hv]).
Qed.

Lemma newSparseFileReader_inv rfr sp total c :
  isReg rfr -> newSparseFileReader rfr sp total = (c, None) -> currOk c.
Proof.
  unfold newSparseFileReader; intros Hr.
  destruct (total <? 0), (validSparse None total sp) eqn:Hv; cbn [negb]; try done; intros [= <-].
  destruct rfr as [nb| |]; try done; split; [done|]; right.
  apply sparseMapOk_mid; [done | done | by apply (validSparse_int64 None total)].
Qed.

Lemma safe_checkForGNUSparsePAXHeaders hdr headers tr k :
  regOk tr -> within k tr ->
  wp (checkForGNUSparsePAXHeaders fuel hdr headers) (safe (fun _ tr' => regOk tr' /\ within k tr')) tr.
Proof.
  intros Hok Hw; unfold checkForGNUSparsePAXHeaders.
  destruct (sparseFormatOf headers) as [fmt|]; [|done]; case_bool_decide; [done|].
  apply wp_bind, wp_lift.
  assert (Hh : (exists h, sparseHeader hdr headers = Ok h) \/ sparseHeader hdr headers = Err ErrHeader).
  { unfold sparseHeader; destruct (headers !! paxGNUSparseSize) as [v|];
      [|destruct (headers !! paxGNUSparseRealSize) as [v|]; [|eauto]];
      destruct (parseDec_cases v) as [[? ->] | ->]; cbn; eauto. }
  destruct Hh as [[h ->] | ->]; cbn [onOk]; [|done].
  eapply safe_bind with (K1 := fun _ tr' => regOk tr' /\ within k tr'); [|by intros sp tr' ?].
  case_bool_decide; [by apply safe_readGNUSparseMap1x0|]; apply wp_lift; unfold readGNUSparseMap0x1.
  assert (Hpp : forall l, (exists sp, parsePairs l = Ok sp) \/ parsePairs l = Err ErrHeader).
  { fix IH 1; intros [|a [|b l]]; cbn [parsePairs]; [eauto..|].
    destruct (parseDec_cases a) as [[? ->] | ->]; cbn [obind]; [|by right].
    destruct (parseDec_cases b) as [[? ->] | ->]; cbn [obind]; [|by right].
    destruct (IH l) as [[? ->] | ->]; cbn [obind]; eauto. }
  destruct (parseDec_cases (default [] (headers !! paxGNUSparseNumBlocks))) as [[n ->] | ->]; cbn [obind]; [|done].
  destruct (badNumEntries n); [done|]; destruct (negb _); [done|].
  destruct (Hpp (Split (default [] (headers !! paxGNUSparseMap)) 44)) as [[? ->] | ->]; done.
Qed.

Lemma safe_handleSparseFile hdr headers tr :
  regOk tr -> within 0 tr -> wp (handleSparseFile fuel hdr headers) (safe (fun _ tr' => rdOk tr')) tr.
Proof.
  intros Hok Hw; unfold handleSparseFile.
  eapply safe_bind with (K1 := fun _ tr' => regOk tr').
  - destruct (_ =? _).
    + eapply safe_bind; [by apply (safe_readOldGNUSparseMap hdr tr 0)|]; by intros [h sp] tr' [? _].
    + eapply safe_mono; [by apply (safe_checkForGNUSparsePAXHeaders hdr headers tr 0)|]; by intros ? ? [].
  - intros [h [sp|]] tr' [Hc Hp]; cbn.
    + apply wp_bind, wp_get; cbn; destruct (tr_curr tr') as [rfr|] eqn:E; [|done].
      destruct (newSparseFileReader rfr sp (h_Size h)) as [c [e|]] eqn:En; [done|].
      split; [by eapply newSparseFileReader_inv | done].
    + split; [|done]; destruct (tr_curr tr') as [[nb| |]|]; done.
Qed.

(** ** The loop over meta headers *)
Lemma safe_nextLoop n extHdrs tr :
  rdOk tr -> J tr -> (n <= fuel)%nat -> within (fuel - n) tr ->
  wp (nextLoop fuel n extHdrs) (safe (fun _ tr' => rdOk tr')) tr.
Proof.
  revert extHdrs tr; induction n as [|n IH]; intros extHdrs tr Hok Hj Hn Hw; cbn [nextLoop].
  { intros Pr; specialize (Hw Pr); lia. }
  eapply safe_bind; [apply safe_keeps; [by apply (safe_skipUnread tr (fuel - Datatypes.S n)) | done..]|].
  intros _ tr1 ((Hc1 & Hp1 & Hw1) & Hj1).
  eapply safe_bind; [apply safe_keeps; [by apply (safe_readHeader tr1 (fuel - Datatypes.S n)) | by apply keeps_readHeader | done]|].
  intros hdr tr2 ((Hc2 & Hp2 & Hw2) & Hj2).
  eapply safe_bind; [apply safe_keeps; [apply (safe_handleRegularFile hdr tr2 (fuel - n)); left_bytes | by apply keeps_handleRegularFile | done]|].
  assert (Hreg : forall tr, regOk tr -> rdOk tr).
  { intros tr' [Hc Hp]; split; [destruct (tr_curr tr') as [[| |]|]; done | done]. }
  intros _ tr3 ((Hok3 & Hw3 & _) & Hj3).
  destruct (h_Typeflag hdr =? TypeXHeader).
  { eapply safe_bind; [apply safe_keeps; [by apply (safe_parsePAX tr3 (fuel - n)) | by apply keeps_parsePAX | done]|].
    intros ext tr4 [[Hok4 Hw4] Hj4]; apply IH; [by apply Hreg | done | lia | done]. }
  destruct (_ || _).
  { eapply safe_bind; [apply safe_keeps; [by apply (safe_ReadAll tr3 (fuel - n)) | by apply keeps_ReadAll | done]|].
    intros [realname [e|]] tr4 [[Hok4 Hw4] Hj4]; [done|]; apply IH; [by apply Hreg | done | lia | done]. }
  apply wp_bind, wp_lift; unfold mergePAX.
  destruct (mergeLoop_total (map_to_list extHdrs) hdr) as [[hdr' ->] | ->]; cbn [onOk]; [|done].
  eapply safe_bind; [by apply (safe_handleRegularFile hdr' tr3 (fuel - n))|].
  intros _ tr4 (Hok4 & Hw4 & _); apply safe_handleSparseFile; [done | left_bytes].
Qed.

(** [Next] keeps the invariant, whatever it returns. *)
Lemma Next_inv tr :
  readerInv tr -> J tr -> (prog -> (mu (tr_r tr) <= lim)%nat) ->
  wp (Next fuel) (fun o tr' =>
    match o with
    | Ok _ | Err _ => readerInv tr'
    | Panic => P tr'
    | OutOfFuel => prog -> (fuel <= lim)%nat
    end) tr.
Proof.
  intros Hinv Hj Hm; unfold Next; apply wp_bind, wp_get; cbn; destruct (tr_err tr) as [e|] eqn:He.
  { intros H'; cbn in H'; congruence. }
  pose proof (safe_nextLoop fuel ∅ tr (Hinv He) Hj ltac:(lia)) as Hs.
  unfold wp, bind, attempt, next in *; destruct (nextLoop fuel fuel ∅ tr) as [[h|e| |] tr']; cbn in *.
  - intros _; apply Hs; intros Pr; specialize (Hm Pr); lia.
  - done.
  - apply Hs; intros Pr; specialize (Hm Pr); lia.
  - intros Pr; apply Hs; [|done]; intros _; specialize (Hm Pr); lia.
Qed.

(** [Read] keeps the invariant and never fails to return. *)
Lemma Read_inv tr n :
  readerInv tr -> 0 <= n -> (prog -> 0 < n) ->
  exists bs e tr', Read n tr = (Ok (bs, e), tr') /\ readerInv tr' /\ len bs <= n.
Proof.
  intros Hinv Hn Hp; unfold Read, bind, get; destruct (tr_err tr) as [e|] eqn:He.
  { exists [], (Some e), tr; rewrite (@len_nil Z); done. }
  destruct (Hinv He) as [Hc Hpad]; destruct (tr_curr tr) as [c|] eqn:Ec.
  2: { exists [], (Some EOF), tr; rewrite (@len_nil Z); done. }
  unfold currRead; rewrite Ec; destruct (nbrRead_ok c n (tr_r tr) Hc Hn Hp) as (bs & e & c' & s' & -> & Hc' & Hl & _).
  destruct (bool_decide (e <> None) && bool_decide (e <> Some EOF)) eqn:Eb.
  - eexists bs, e, _; split; [reflexivity|]; split; [|done]; intros H'; cbn in H'; subst e.
    by rewrite bool_decide_eq_false_2 in Eb by (intros Hx; by apply Hx).
  - eexists bs, e, _; split; [reflexivity|]; split; [by intros _; split|done].
Qed.
End Safety.

#[export] Instance IoReaderOk_contract {S} `{IoReaderOk S} : IoContract (S := S) False (fun _ => 0%nat).
Proof. split; [|done]; intros s n bs e s' Hn _ E; split; [by apply (io_read_len s n bs e s') | done]. Qed.

(** When it does not matter why it panics. *)
Lemma Next_inv_any {S : Type} `{IoReader S} (prog : Prop) (mu : S -> nat) `{!IoContract prog mu} fuel lim tr :
  readerInv tr -> (prog -> (mu (tr_r tr) <= lim)%nat) ->
  wp (Next fuel) (fun o tr' =>
    match o with
    | Ok _ | Err _ => readerInv tr'
    | Panic => True
    | OutOfFuel => prog -> (fuel <= lim)%nat
    end) tr.
Proof. intros Hinv Hm; by apply (Next_inv prog mu (fun _ => True) fuel lim (fun _ => True)). Qed.

(** ** What the underlying reader has delivered

    [delivered s bs s']: a history of reads and seeks that leads from [s] to
    [s'], in which the reads have given the bytes [bs]. *)
Inductive delivered {S : Type} `{IoReader S} (s : S) : bytes -> S -> Prop :=
  | delivered_nil : delivered s [] s
  | delivered_read bs s1 n b e s2 : delivered s bs s1 -> io_read s1 n = (b, e, s2) -> delivered s (bs ++ b) s2
  | delivered_seek bs s1 (seek : S -> Z -> (Z + error) * S) k : delivered s bs s1 -> io_seek = Some seek -> delivered s bs (seek s1 k).2.

Lemma delivered_app {S : Type} `{IoReader S} (s1 s2 s3 : S) b1 b2 :
  delivered s1 b1 s2 -> delivered s2 b2 s3 -> delivered s1 (b1 ++ b2) s3.
Proof.
  intros H1 H2; induction H2 as [|bs s3 n b e s4 _ IH E | bs s3 seek k _ IH E].
  - by rewrite app_nil_r.
  - rewrite app_assoc; by eapply delivered_read.
  - by apply delivered_seek.
Qed.

(** A method that reads passes on what is delivered. *)
Section Delivers.
Context {S : Type} `{IoReaderOk S}.

Lemma regRead_delivers nb n s bs e c s' : regRead nb n s = (Ok (bs, e, c), s') -> delivered s bs s'.
Proof.
  unfold regRead, ret; destruct (nb =? 0); [intros [= <- _ _ <-]; constructor|]; destruct (_ && _); [done|].
  unfold bind, ioRead; destruct (io_read s _) as [[b err] s2] eqn:E; intros [= <- _ _ <-].
  rewrite <- (app_nil_l b); eapply delivered_read; [constructor | exact E].
Qed.

Lemma Read_delivers tr n bs e tr' :
  regOk tr -> Read n tr = (Ok (bs, e), tr') -> delivered (tr_r tr) bs (tr_r tr').
Proof.
  intros [Hc _]; unfold Read, bind, get; destruct (tr_err tr); [intros [= <- _ <-]; constructor|].
  destruct (tr_curr tr) as [c|] eqn:Ec; [|done]; unfold currRead; rewrite Ec; destruct c as [nb| |]; try done; cbn [nbrRead].
  destruct (regRead nb n (tr_r tr)) as [[[[b err] c']| | |] s'] eqn:E; try done.
  apply regRead_delivers in E; destruct (bool_decide (err <> None) && _); unfold modify, ret; by intros [= <- _ <-].
Qed.

Lemma ReadAll_delivers fuel tr bs e tr' :
  regOk tr -> ReadAll Read fuel tr = (Ok (bs, e), tr') -> delivered (tr_r tr) bs (tr_r tr').
Proof.
  assert (G : forall acc cap tr, regOk tr -> len acc <= cap -> readAllLoop Read fuel acc cap tr = (Ok (bs, e), tr') ->
    exists b, bs = acc ++ b /\ delivered (tr_r tr) b (tr_r tr')).
  { induction fuel as [|f IH]; intros acc cap tr1 Hok Hcap; cbn [readAllLoop]; [done|].
    set (cap' := if 512 <=? cap - len acc then cap else 2 * cap + 512); pose proof (len_nonneg acc).
    assert (Hn : 512 <= cap' - len acc) by (unfold cap'; destruct (Z.leb_spec 512 (cap - len acc)); lia).
    destruct (Read_ok False (fun _ => 0%nat) tr1 (cap' - len acc) Hok ltac:(lia)) as (b & err & tr2 & E & Hok2 & Hl & _).
    unfold bind; rewrite E; apply Read_delivers in E; [|done].
    destruct err as [err|].
    - assert (forall e' : option error, (Ok (acc ++ b, e'), tr2) = (Ok (bs, e), tr') -> exists b, bs = acc ++ b /\ delivered (tr_r tr1) b (tr_r tr'))
        as D by (intros e' [= <- _ <-]; by exists b).
      destruct err; apply D.
    - intros E2; apply IH in E2 as (b2 & -> & D2); [|done | rewrite len_app; lia].
      exists (b ++ b2); rewrite app_assoc; split; [done | by eapply delivered_app]. }
  intros Hok E; destruct (G [] 512 tr Hok ltac:(done) E) as (b & -> & D); done.
Qed.
End Delivers.

(** ** Histories of calls *)

(** One call of an exported method that returns; [lo] is the least size of
    the buffers passed to [Read]. *)
Inductive reader_step {S : Type} `{IoReader S} (lo : Z) : Reader S -> Reader S -> Prop :=
  | step_next fuel tr o tr' :
      Next fuel tr = (o, tr') -> o <> Panic -> o <> OutOfFuel -> reader_step lo tr tr'
  | step_read n tr res tr' :
      lo <= n -> Read n tr = (Ok res, tr') -> reader_step lo tr tr'.

(** The states of a reader between calls. *)
Definition reachable {S : Type} `{IoReader S} (lo : Z) (tr : Reader S) : Prop :=
  exists r, rtc (reader_step lo) (NewReader r) tr.

Lemma reachable_inv {S : Type} `{IoReader S} (prog : Prop) (mu : S -> nat) lo tr :
  IoContract prog mu -> 0 <= lo -> (prog -> 0 < lo) -> reachable lo tr -> readerInv tr.
Proof.
  intros Hio Hlo Hp [r Hr].
  assert (Hnew : readerInv (NewReader r)) by (intros _; split; [done | unfold padOk; cbn; lia]).
  induction Hr as [tr|tr1 tr2 tr3 Hstep _ IH]; [done|]; apply IH; clear IH.
  destruct Hstep as [fuel tr o tr' E Ho1 Ho2 | n tr [bs e] tr' Hn E].
  - pose proof (Next_inv_any prog mu fuel (mu (tr_r tr)) tr Hnew ltac:(done)) as Hw.
    unfold wp in Hw; rewrite E in Hw; by destruct o.
  - destruct (Read_inv prog mu tr n Hnew ltac:(lia) ltac:(intros Pr; specialize (Hp Pr); lia))
      as (bs' & e' & tr'' & E' & Hinv & _); rewrite E in E'; by injection E' as _ _ ->.
Qed.

#[export] Instance IoStream_contract {S} `{IoStream S} : IoContract (S := S) True (fun s => length (io_rest s)).
Proof.
  split.
  - intros s n bs e s' _ Hn E; destruct (io_read_stream s n bs e s' (Hn I) E) as (Hl & Hr & He).
    split; [done|]; intros _; split; [rewrite Hr, length_app; lia|].
    intros ->; by destruct He as [[_ ?] | [? _]].
  - intros _ seek s k Hseek Hk.
    destruct (io_seek_stream seek s k Hseek Hk) as [(e & s' & -> & Hr) | (p & s' & s'' & -> & Hr & E & Hr')]; cbn.
    + split; [by rewrite Hr | done].
    + split; [by rewrite Hr|]; intros p' s1 [= <- <-]; rewrite E; cbn; rewrite Hr', length_drop; lia.
Qed.

(** ** Properties *)

(** C4: the archive reader never crashes on hostile input. Over any reader
    that keeps the contract of [io.Reader] (any bytes, any short reads and
    errors), and after any history of calls, [Read] returns with at most as
    many bytes as the buffer holds; no slice is out of range in a sparse
    file, whatever its map, and no buffer of a sparse map is read beyond its
    end. [Next] cannot panic either, but for one reason: the bytes that its
    reads have been given end in a record on which [parsePAXRecord] panics. *)
Theorem reader_never_panics {S : Type} `{IoReaderOk S} (tr : Reader S) :
  reachable 0 tr ->
  (forall n, 0 <= n -> exists bs e tr', Read n tr = (Ok (bs, e), tr') /\ len bs <= n) /\
  (forall fuel tr', Next fuel tr = (Panic, tr') ->
     exists bs record, delivered (tr_r tr) bs (tr_r tr') /\ record `suffix_of` bs /\ parsePAXRecord record = Panic).
Proof.
  intros Hr; assert (Hinv : readerInv tr) by (eapply reachable_inv; [apply IoReaderOk_contract | done..]).
  split.
  - intros n Hn; destruct (Read_inv False (fun _ => 0%nat) tr n Hinv Hn ltac:(done)) as (bs & e & tr' & E & _ & Hl); eauto.
  - intros fuel tr' E; set (Q := fun s => exists bs, delivered (tr_r tr) bs s).
    assert (Hseek : forall (seek : S -> Z -> (Z + error) * S) s k, io_seek = Some seek -> Q s -> Q (seek s k).2)
      by (intros seek s k Es [bs D]; exists bs; by apply delivered_seek).
    assert (Hread : forall s n bs e s', Q s -> io_read s n = (bs, e, s') -> Q s')
      by (intros s n b e s' [bs D] Es; exists (bs ++ b); by eapply delivered_read).
    pose proof (Next_inv False (fun _ => 0%nat)
      (fun tr' => exists bs record, delivered (tr_r tr) bs (tr_r tr') /\ record `suffix_of` bs /\ parsePAXRecord record = Panic)
      fuel 0 (onQ Q) (fun _ _ _ _ Hj => Hj) (onQ_currRead Q Hread) (onQ_skipUnread Q Hseek Hread fuel) (onQ_readBlk Q Hread fuel)) as Hw.
    specialize (Hw ltac:(intros tr1 buf tr2 s [bs D] Hok Ea Hs Hp; exists (bs ++ buf), s;
      split; [eapply delivered_app; [exact D | by eapply ReadAll_delivers] | split; [by apply suffix_app_r | done]])
      tr Hinv (ex_intro _ [] (delivered_nil _)) ltac:(done)).
    unfold wp in Hw; by rewrite E in Hw.
Qed.

(** C11: [Next] terminates. On a finite stream whose reads make progress,
    in any state the reader can be in, [Next] needs fewer loop iterations
    than the stream has bytes left: no chain of meta headers, sparse map or
    record list makes it run for ever. *)
Theorem Next_terminates {S : Type} `{IoStream S} fuel (tr : Reader S) :
  reachable 1 tr -> (length (rest tr) < fuel)%nat -> (Next fuel tr).1 <> OutOfFuel.
Proof.
  intros Hr Hf; assert (Hinv : readerInv tr) by (apply (reachable_inv True (fun s => length (io_rest s)) 1); [apply IoStream_contract | lia | intros _; lia | exact Hr]).
  pose proof (Next_inv_any True (fun s => length (io_rest s)) fuel (length (io_rest (tr_r tr))) tr Hinv (fun _ => le_n _)) as Hw.
  unfold wp in Hw; intros E; rewrite E in Hw; specialize (Hw I); unfold rest in Hf; lia.
Qed.

(** C20: errors are sticky. Once [Next] has returned an error, end-of-file
    included, or [Read] has returned one other than end-of-file, every later
    [Next] and [Read] returns the same error without touching the underlying
    reader. *)
Theorem reader_errors_sticky {S : Type} `{IoReader S} (tr tr' : Reader S) e :
  (exists fuel, Next fuel tr = (Err e, tr')) \/
  (exists n bs, Read n tr = (Ok (bs, Some e), tr') /\ e <> EOF) ->
  (forall fuel, Next fuel tr' = (Err e, tr')) /\ (forall n, Read n tr' = (Ok ([], Some e), tr')).
Proof.
  intros Hcase; assert (He : tr_err tr' = Some e).
  { destruct Hcase as [[fuel E] | (n & bs & E & Hne)].
    - unfold Next, bind, get, attempt in E; destruct (tr_err tr) eqn:Et.
      + unfold throw in E; by injection E as <- <-.
      + destruct (next fuel tr) as [[h|e'| |] tr1]; try done; cbn in E; by injection E as <- <-.
    - unfold Read, bind, get in E; destruct (tr_err tr) eqn:Et.
      + unfold ret in E; by injection E as _ <- <-.
      + destruct (tr_curr tr) as [c|] eqn:Ec; [|unfold ret in E; by injection E as _ <- _].
        destruct (currRead n tr) as [[[bs' err]| | |] tr1]; try done.
        destruct err as [err|]; [|by case_bool_decide].
        rewrite bool_decide_eq_true_2 in E by done; cbn [andb] in E.
        case_bool_decide as Heof; cbn in E; injection E as _ <- <-; [done|].
        congruence. }
  split.
  - intros fuel; unfold Next, bind, get; by rewrite He.
  - intros n; unfold Read, bind, get; by rewrite He.
Qed.

(** ** Witnesses *)

(** A PAX header with the one record [0005 ]. *)
Definition paddedArchive : bytes :=
  let b := setF V7.TypeFlag [120] (setF V7.Size (str "00000000005") zeroBlock) in
  match SetFormat b formatPAX with Ok b => b | _ => [] end ++ str "0005 " ++ replicate 507 0.

Lemma paddedArchive_panics : exists tr', Next 600 (NewReader (mkPipe paddedArchive)) = (Panic, tr').
Proof. eexists; vm_compute; reflexivity. Qed.

Lemma reader_never_panics_witness :
  (exists bs e tr', Read 10 (NewReader (demoReader (str "garbage"))) = (Ok (bs, e), tr') /\ len bs <= 10) /\
  exists tr' bs record, Next 600 (NewReader (mkPipe paddedArchive)) = (Panic, tr') /\
    delivered (mkPipe paddedArchive) bs (tr_r tr') /\ record `suffix_of` bs /\ parsePAXRecord record = Panic.
Proof.
  split.
  - apply (reader_never_panics (NewReader (demoReader (str "garbage")))); [|lia].
    exists (demoReader (str "garbage")); apply rtc_refl.
  - destruct paddedArchive_panics as [tr' E].
    destruct (proj2 (reader_never_panics (NewReader (mkPipe paddedArchive)) (ex_intro _ (mkPipe paddedArchive) (rtc_refl _ _))) 600%nat tr' E) as (bs & record & D).
    exists tr', bs, record; exact (conj E D).
Defined.

Lemma Next_terminates_witness :
  (Next 600 (NewReader (mkPipe (replicate 513 1)))).1 <> OutOfFuel.
Proof.
  apply (Next_terminates 600 (NewReader (mkPipe (replicate 513 1)))).
  - exists (mkPipe (replicate 513 1)); apply rtc_refl.
  - apply Nat.ltb_lt; vm_compute; reflexivity.
Defined.

Lemma reader_errors_sticky_witness :
  let tr := (Next 600 (NewReader (mkPipe (replicate 513 1)))).2 in
  (forall fuel, Next fuel tr = (Err ErrHeader, tr)) /\ (forall n, Read n tr = (Ok ([], Some ErrHeader), tr)).
Proof.
  intros tr; apply (reader_errors_sticky (NewReader (mkPipe (replicate 513 1))) tr); left.
  exists 600%nat; vm_compute; reflexivity.
Defined.
