(* ===== verification/TarSaver.v ===== *)
(** * tar/reader.go: checkpoints

    [SaverReader] reads an archive through a [countingReader], [Save] stores
    its state in a [Checkpoint] and [Resume] rebuilds a reader from one. *)
From S2P Require Import Prelude GoInt GoString GoTime GoIO TarStrconv TarFormat TarCommon TarSparse TarReader.
From S2P Require Import TarPax TarStream TarKeeps TarSafety.
Open Scope go_scope.

(** The reader of the archive below, and the bytes read from it. The type
    has no [Seek] method. *)
Record countingReader (S : Type) := mkCounting { cr_r : S; cr_count : Z }.
Arguments mkCounting {S}.
Arguments cr_r {S}.
Arguments cr_count {S}.

Definition countingRead {S} `{IoReader S} (cr : countingReader S) (n : Z)
    : bytes * option error * countingReader S :=
  let '(bs, e, r) := io_read (cr_r cr) n in
  (bs, e, mkCounting r (int64 (cr_count cr + len bs))).

#[export] Instance counting_IoReader {S} `{IoReader S} : IoReader (countingReader S) :=
  {| io_read := countingRead; io_seek := None |}.

Definition CurrTypeNone : Z := 0.
Definition CurrTypeReg : Z := 1.
Definition CurrTypeSparse : Z := 2.

Record Checkpoint := mkCheckpoint {
  Roffset : Z;
  Pad : Z;
  CurrType : Z;
  RegNb : Z;
  SparseSp : list (Z * Z);
  SparsePos : Z;
  SparseTotal : Z
}.

(** A [saverReader]: its [cr] is the reader that its [tr] reads from. *)
Definition saverReader (S : Type) : Type := Reader (countingReader S).

Section Saver.
Context {S : Type} `{IoReader S}.

Definition NewSaverReader (r : S) : saverReader S := NewReader (mkCounting r 0).

(** [Save]; a nil [*sparseFileReader] is dereferenced. *)
Definition Save (sr : saverReader S) : outcome Checkpoint :=
  let roffset := cr_count (tr_r sr) in
  let pad := tr_pad sr in
  match tr_curr sr with
  | None => Ok (mkCheckpoint roffset pad CurrTypeNone 0 [] 0 0)
  | Some (sparseFileReader (regFileReader nb) sp pos total) =>
      Ok (mkCheckpoint roffset pad CurrTypeSparse nb ((fun v => (offset v, numBytes v)) <$> sp) pos total)
  | Some (sparseFileReader _ _ _ _) => Err (ErrMsg "sparse file reader didn't have a regular file reader inside")
  | Some nilSparseFileReader => Panic
  | Some (regFileReader nb) => Ok (mkCheckpoint roffset pad CurrTypeReg nb [] 0 0)
  end.

Definition Resume (c : Checkpoint) (r : S) : saverReader S :=
  let curr :=
    if CurrType c =? CurrTypeReg then Some (regFileReader (RegNb c))
    else if CurrType c =? CurrTypeSparse then
      Some (sparseFileReader (regFileReader (RegNb c))
              ((fun v => mkSparse v.1 v.2) <$> SparseSp c) (SparsePos c) (SparseTotal c))
    else None in
  mkReader (mkCounting r (Roffset c)) (Pad c) curr zeroBlock None.
End Saver.

(** ** Readers that differ in the scratch block only *)
Section Scratch.
Context {S : Type} `{IoReaderOk S}.

(** The scratch block is a full block in both, its content does not matter. *)
Record scratchEq (t1 t2 : Reader S) : Prop := {
  same_r : tr_r t1 = tr_r t2;
  same_pad : tr_pad t1 = tr_pad t2;
  same_curr : tr_curr t1 = tr_curr t2;
  same_err : tr_err t1 = tr_err t2;
  same_blk1 : length (tr_blk t1) = 512%nat;
  same_blk2 : length (tr_blk t2) = 512%nat
}.

Definition sameReader (t1 t2 : Reader S) : Prop := t1 = t2 \/ scratchEq t1 t2.

(** A method that gives the same outcome on such readers. *)
Definition blind {A} (m : M (Reader S) A) : Prop :=
  forall t1 t2, sameReader t1 t2 -> (m t1).1 = (m t2).1 /\ sameReader (m t1).2 (m t2).2.

Lemma blind_intro {A} (m : M (Reader S) A) :
  (forall t1 t2, scratchEq t1 t2 -> (m t1).1 = (m t2).1 /\ sameReader (m t1).2 (m t2).2) -> blind m.
Proof. intros Hm t1 t2 [-> | Hs]; [split; [done | by left] | by apply Hm]. Qed.

Lemma blind_bind {A B} (m : M (Reader S) A) (f : A -> M (Reader S) B) :
  blind m -> (forall a, blind (f a)) -> blind (bind m f).
Proof.
  intros Hm Hf t1 t2 Hs; unfold bind; destruct (Hm t1 t2 Hs) as [E Hs'].
  destruct (m t1) as [o1 t1'], (m t2) as [o2 t2']; cbn in *; subst o2; destruct o1; try done; by apply Hf.
Qed.

(** After a call that makes the readers equal, anything may follow. *)
Lemma blind_bind_eq {A B} (m : M (Reader S) A) (f : A -> M (Reader S) B) :
  (forall t1 t2, scratchEq t1 t2 -> (m t1).1 = (m t2).1 /\ sameReader (m t1).2 (m t2).2 /\
     (forall a, (m t1).1 = Ok a -> (m t1).2 = (m t2).2)) ->
  blind (bind m f).
Proof.
  intros Hm; apply blind_intro; intros t1 t2 Hs; unfold bind; destruct (Hm t1 t2 Hs) as (E & Hs' & Heq).
  destruct (m t1) as [o1 t1'], (m t2) as [o2 t2']; cbn in *; subst o2; destruct o1 as [a| | |]; try done.
  specialize (Heq a eq_refl); subst t2'; split; [done | by left].
Qed.

Lemma blind_lift {A} (o : outcome A) : blind (lift o).
Proof. done. Qed.

Lemma blind_ret {A} (a : A) : blind (ret a).
Proof. done. Qed.

Lemma blind_throw {A} e : blind (throw (A := A) e).
Proof. done. Qed.

(** A method that looks at the fields other than the block. *)
Lemma blind_get {A} (f : Reader S -> M (Reader S) A) :
  (forall t1 t2, scratchEq t1 t2 -> f t1 = f t2) -> (forall t, blind (f t)) ->
  blind (bind get f).
Proof.
  intros He Hf; apply blind_intro; intros t1 t2 Hs; unfold bind, get; rewrite (He t1 t2 Hs).
  apply Hf; by right.
Qed.

Lemma blind_onR {A} (m : M S A) : blind (onR m).
Proof.
  apply blind_intro; intros t1 t2 [Hr ? ? ? ? ?]; unfold onR; rewrite Hr; destruct (m (tr_r t2)) as [o s'].
  split; [done | right; by split].
Qed.

Lemma blind_setErr e : blind (modify (setErr e)).
Proof. apply blind_intro; intros t1 t2 [? ? ? ? ? ?]; split; [done | right; by split]. Qed.

Lemma blind_currRead n : blind (currRead n).
Proof.
  apply blind_intro; intros t1 t2 [Hr Hp Hc He H1 H2]; unfold currRead; rewrite Hc, Hr.
  destruct (tr_curr t2) as [c|] eqn:E; [|split; [done | right; split; cbn; congruence]].
  destruct (nbrRead c n (tr_r t2)) as [[[[bs e] c']| | |] s']; (split; [done | right; by split]).
Qed.

Lemma blind_Read n : blind (Read n).
Proof.
  unfold Read; apply blind_get; [by intros t1 t2 [_ _ -> -> _ _]|]; intros t.
  destruct (tr_err t), (tr_curr t); try apply blind_ret.
  apply blind_bind; [apply blind_currRead|]; intros [bs e]; apply blind_bind; [|intros; apply blind_ret].
  destruct (_ && _); [apply blind_setErr | apply blind_ret].
Qed.

Variable fuel : nat.

Lemma blind_skipUnread : blind (skipUnread fuel).
Proof.
  unfold skipUnread; apply blind_get.
  { intros t1 t2 [_ Hp Hc _ _ _]; unfold trNumBytes; by rewrite Hp, Hc. }
  intros t; apply blind_bind; [apply blind_lift|]; intros n; apply blind_bind.
  { apply blind_intro; intros t1 t2 [? ? ? ? ? ?]; split; [done | right; by split]. }
  intros _; apply blind_bind.
  { unfold seekSkip; destruct io_seek; [destruct (1 <? n); [apply blind_onR | apply blind_ret] | apply blind_ret]. }
  intros k; apply blind_bind; [apply blind_onR|]; intros [copied err].
  destruct (if _ && _ then _ else err); [apply blind_throw | apply blind_ret].
Qed.

(** A block that is read completely replaces the scratch block. *)
Lemma readBlk_same t1 t2 :
  scratchEq t1 t2 ->
  (readBlk fuel t1).1 = (readBlk fuel t2).1 /\ sameReader (readBlk fuel t1).2 (readBlk fuel t2).2 /\
  ((readBlk fuel t1).1 = Ok None -> (readBlk fuel t1).2 = (readBlk fuel t2).2).
Proof.
  intros [Hr Hp Hc He H1 H2]; unfold readBlk, bind, onR; rewrite Hr; change blockSize with 512.
  pose proof (ReadFull_ok False ioRead (fun _ => True) (fun _ => 0%nat) fuel 512 (tr_r t2) I ltac:(lia)) as Hfull.
  pose proof (readFullLoop_len False ioRead (fun _ => True) (fun _ => 0%nat) fuel 512 [] (tr_r t2) I) as Hlen.
  fold (ReadFull ioRead fuel 512) in Hlen; unfold wp in Hfull.
  destruct (ReadFull ioRead fuel 512 (tr_r t2)) as [[[bs err]| | |] s']; cbn in *;
    try (split; [done | split; [right; by split | done]]).
  destruct Hfull as [_ Hfull]; unfold len in Hlen, Hfull; cbn in Hlen.
  assert (Hb : (length bs <= 512)%nat) by lia.
  split; [done|]; split.
  - right; split; try done; cbn [tr_blk setBlk]; rewrite !length_app, length_take, length_drop; lia.
  - intros [= ->]; unfold setBlk; cbn; f_equal; try done; unfold splice; cbn [take app].
    by rewrite !drop_ge by lia.
Qed.

(** A header that is read makes the readers equal. *)
Lemma readHeader_same t1 t2 :
  scratchEq t1 t2 ->
  (readHeader fuel t1).1 = (readHeader fuel t2).1 /\ sameReader (readHeader fuel t1).2 (readHeader fuel t2).2 /\
  (forall hdr, (readHeader fuel t1).1 = Ok hdr -> (readHeader fuel t1).2 = (readHeader fuel t2).2).
Proof.
  intros Hs; unfold readHeader, bind; destruct (readBlk_same t1 t2 Hs) as (E & Hs' & Heq).
  destruct (readBlk fuel t1) as [o1 t1'], (readBlk fuel t2) as [o2 t2']; cbn in *; subst o2.
  destruct o1 as [[e|]| | |]; try done.
  specialize (Heq eq_refl); subst t2'; split; [done|]; split; [by left | done].
Qed.

Lemma blind_nextLoop n extHdrs : blind (nextLoop fuel n extHdrs).
Proof.
  destruct n as [|n]; [apply blind_lift|]; cbn [nextLoop].
  apply blind_bind; [apply blind_skipUnread|]; intros _; apply blind_bind_eq, readHeader_same.
Qed.

Lemma blind_Next : blind (Next fuel).
Proof.
  unfold Next; apply blind_get; [by intros t1 t2 [_ _ _ -> _ _]|]; intros t.
  destruct (tr_err t); [apply blind_throw|].
  apply blind_bind.
  - intros t1 t2 Hs; unfold attempt, next; destruct (blind_nextLoop fuel ∅ t1 t2 Hs) as [E Hs'].
    destruct (nextLoop fuel fuel ∅ t1) as [o1 t1'], (nextLoop fuel fuel ∅ t2) as [o2 t2']; cbn in *; subst o2.
    by destruct o1.
  - intros [hdr|e]; apply blind_bind; try apply blind_setErr; intros; [apply blind_ret | apply blind_throw].
Qed.
End Scratch.

(** ** Histories *)

(** A call of an exported method, and what it returns. *)
Inductive call := CallNext (fuel : nat) | CallRead (n : Z).
Inductive result := NextResult (o : outcome Header) | ReadResult (o : outcome (bytes * option error)).

Definition runCall {S} `{IoReader S} (c : call) (tr : Reader S) : result * Reader S :=
  match c with
  | CallNext fuel => let '(o, tr) := Next fuel tr in (NextResult o, tr)
  | CallRead n => let '(o, tr) := Read n tr in (ReadResult o, tr)
  end.

Fixpoint run {S} `{IoReader S} (cs : list call) (tr : Reader S) : list result * Reader S :=
  match cs with
  | [] => ([], tr)
  | c :: cs => let '(x, tr) := runCall c tr in let '(xs, tr) := run cs tr in (x :: xs, tr)
  end.

Lemma run_same {S} `{IoReaderOk S} cs (t1 t2 : Reader S) :
  sameReader t1 t2 -> (run cs t1).1 = (run cs t2).1 /\ sameReader (run cs t1).2 (run cs t2).2.
Proof.
  revert t1 t2; induction cs as [|c cs IH]; intros t1 t2 Hs; [done|]; cbn [run].
  assert (Hc : (runCall c t1).1 = (runCall c t2).1 /\ sameReader (runCall c t1).2 (runCall c t2).2).
  { destruct c as [fuel|n]; cbn [runCall]; [destruct (blind_Next fuel t1 t2 Hs) as [E Hs'] | destruct (blind_Read n t1 t2 Hs) as [E Hs']].
    - destruct (Next fuel t1), (Next fuel t2); cbn [fst snd] in *; subst; split; [done | exact Hs'].
    - destruct (Read n t1), (Read n t2); cbn [fst snd] in *; subst; split; [done | exact Hs']. }
  destruct (runCall c t1) as [x1 t1'], (runCall c t2) as [x2 t2']; cbn in Hc; destruct Hc as [-> Hs'].
  destruct (IH t1' t2' Hs') as [E Hs'']; destruct (run cs t1') as [xs1 t1''], (run cs t2') as [xs2 t2'']; cbn in *.
  by subst.
Qed.

(** A predicate that the two exported methods keep holds in every history. *)
Lemma reachable_keeps {S : Type} `{IoReader S} (J : Reader S -> Prop) r tr :
  (forall fuel, keeps J (Next fuel)) -> (forall n, keeps J (Read n)) -> J (NewReader r) ->
  rtc (reader_step 0) (NewReader r) tr -> J tr.
Proof.
  intros HN HR H0 Hr; induction Hr as [|tr1 tr2 tr3 Hstep _ IH]; [done|]; apply IH; clear IH.
  destruct Hstep as [fuel tr o tr' E _ _ | n tr res tr' _ E].
  - specialize (HN fuel tr H0); by rewrite E in HN.
  - specialize (HR n tr H0); by rewrite E in HR.
Qed.

(** *** The reader below *)
Section OnReachable.
Context {S : Type} `{IoReader S} (Q : S -> Prop).
Hypothesis Hseek : forall (seek : S -> Z -> (Z + error) * S) s k, io_seek = Some seek -> Q s -> Q (seek s k).2.
Hypothesis HQ : forall s n bs e s', Q s -> io_read s n = (bs, e, s') -> Q s'.

Lemma onQ_reachable r tr : Q r -> rtc (reader_step 0) (NewReader r) tr -> Q (tr_r tr).
Proof.
  intros Hr; apply (reachable_keeps (onQ Q) r tr); [| |done].
  - by apply onQ_Next.
  - intros n; apply keeps_Read; [done | by apply onQ_currRead].
Qed.
End OnReachable.

(** *** The scratch block stays a block *)
Section BlkLen.
Context {S : Type} `{IoReaderOk S}.

Definition blkOk (tr : Reader S) : Prop := length (tr_blk tr) = 512%nat.

Lemma blkOk_onR {A} (m : M S A) : keeps blkOk (onR m).
Proof. intros tr Htr; unfold onR; by destruct (m (tr_r tr)). Qed.

Lemma blkOk_currRead n : keeps blkOk (currRead n).
Proof.
  intros tr Htr; unfold currRead; destruct (tr_curr tr) as [c|]; [|done].
  by destruct (nbrRead c n (tr_r tr)) as [[[[bs e] c']| | |] s'].
Qed.

Lemma blkOk_skipUnread fuel : keeps blkOk (skipUnread fuel).
Proof.
  unfold skipUnread, seekSkip; repeat (apply keeps_bind; [|intros ?]); auto with arkive.
  - intros tr Htr; exact Htr.
  - repeat case_match; auto with arkive; apply blkOk_onR.
  - apply blkOk_onR.
  - repeat case_match; auto with arkive.
Qed.

Lemma blkOk_readBlk fuel : keeps blkOk (readBlk fuel).
Proof.
  intros tr Htr; unfold blkOk in *; unfold readBlk, bind, onR; change blockSize with 512.
  pose proof (readFullLoop_len False ioRead (fun _ => True) (fun _ => 0%nat) fuel 512 [] (tr_r tr) I) as Hlen.
  fold (ReadFull ioRead fuel 512) in Hlen.
  destruct (ReadFull ioRead fuel 512 (tr_r tr)) as [[[bs err]| | |] s']; try done.
  cbn [fst] in Hlen; unfold len in Hlen; cbn [snd tr_blk setBlk modify ret]; rewrite length_splice; cbn in *; lia.
Qed.

Lemma blkOk_reachable r tr : rtc (reader_step 0) (NewReader r) tr -> blkOk tr.
Proof.
  apply (reachable_keeps blkOk r tr); [| |done].
  - intros fuel; apply keeps_Next; [done | apply blkOk_currRead | apply blkOk_skipUnread | apply blkOk_readBlk].
  - intros n; apply keeps_Read; [done | apply blkOk_currRead].
Qed.
End BlkLen.

(** ** The counting reader keeps the contracts of the reader below *)
#[export] Instance counting_IoReaderOk {S} `{IoReaderOk S} : IoReaderOk (countingReader S).
Proof.
  intros cr n bs e cr' Hn E; cbn in E; unfold countingRead in E.
  destruct (io_read (cr_r cr) n) as [[bs' e'] r'] eqn:E'; injection E as <- <- <-; by apply (io_read_len _ _ _ _ _ Hn E').
Qed.

#[export, refine] Instance counting_IoStream {S} `{IoStream S} : IoStream (countingReader S) :=
  {| io_rest := fun cr => io_rest (cr_r cr) |}.
Proof.
  - intros cr n bs e cr' E; cbn in E; unfold countingRead in E.
    destruct (io_read (cr_r cr) n) as [[bs' e'] r'] eqn:E'; injection E as <- <- <-; by apply (io_read_conserves _ _ _ _ _ E').
  - intros cr n bs e cr' Hn E; cbn in E; unfold countingRead in E.
    destruct (io_read (cr_r cr) n) as [[bs' e'] r'] eqn:E'; injection E as <- <- <-; by apply (io_read_stream _ _ _ _ _ Hn E').
  - intros seek cr k [=].
Defined.

(** Saving a consistent reader and resuming gives the same reader, up to the
    scratch block. *)
Lemma Save_Resume_same {S} `{IoReaderOk S} (sr : saverReader S) :
  rdOk sr -> tr_err sr = None -> blkOk sr ->
  exists c, Save sr = Ok c /\ sameReader sr (Resume c (cr_r (tr_r sr))).
Proof.
  intros [Hc Hp] He Hb; destruct sr as [[r count] pad curr blk err]; cbn in *; subst err.
  destruct curr as [[nb|[nb| |] sp pos total|]|]; try done; unfold Save; cbn;
    (eexists; split; [reflexivity|]; right; split; try done).
  unfold Resume; cbn; do 2 f_equal; rewrite <- list_fmap_compose.
  symmetry; rewrite <- (list_fmap_id sp) at 2; apply list_fmap_ext; by intros ? [] _.
Qed.

(** ** Properties *)

(** C7: a checkpoint loses nothing. After any history of calls over any
    reader, if no error has been returned, [Save] succeeds, and the reader
    that [Resume] builds from the checkpoint over the same underlying
    position returns exactly the same results as the original for every
    further sequence of calls of [Next] and [Read]: in a regular file, in
    the middle of a fragment or hole of a sparse file, or between entries. *)
Theorem Save_Resume_transparent {S} `{IoReaderOk S} (r0 : S) (sr : saverReader S) :
  rtc (reader_step 0) (NewSaverReader r0) sr -> tr_err sr = None ->
  exists c, Save sr = Ok c /\
    forall cs, (run cs (Resume c (cr_r (tr_r sr)))).1 = (run cs sr).1.
Proof.
  intros Hr He.
  assert (Hinv : readerInv sr).
  { apply (reachable_inv False (fun _ => 0%nat) 0); [apply IoReaderOk_contract | done..|].
    by exists (mkCounting r0 0). }
  destruct (Save_Resume_same sr (Hinv He) He (blkOk_reachable _ _ Hr)) as (c & E & Hs).
  exists c; split; [done|]; intros cs; symmetry; by apply run_same.
Qed.

(** C21: the offset of a checkpoint. [Roffset] is the number of bytes the
    reader has consumed from the archive: the rest of the stream is the
    archive from that offset on, so that [Resume] can be given a reader
    repositioned there. *)
Theorem Save_offset {S} `{IoStream S} (r0 : S) (sr : saverReader S) c :
  rtc (reader_step 0) (NewSaverReader r0) sr -> len (io_rest r0) < 2 ^ 63 -> Save sr = Ok c ->
  0 <= Roffset c <= len (io_rest r0) /\
  io_rest (cr_r (tr_r sr)) = drop (Z.to_nat (Roffset c)) (io_rest r0).
Proof.
  intros Hr Hl Hs.
  assert (Hc : Roffset c = cr_count (tr_r sr)).
  { unfold Save in Hs; repeat case_match; simplify_eq; done. }
  set (Q := fun cr : countingReader S => exists consumed, io_rest r0 = consumed ++ io_rest (cr_r cr) /\ cr_count cr = len consumed).
  assert (HQ : Q (tr_r sr)).
  { apply (onQ_reachable Q) with (r := mkCounting r0 0); [done | | |exact Hr].
    - intros cr n bs e cr' (consumed & E & En) Er; cbn in Er; unfold countingRead in Er.
      destruct (io_read (cr_r cr) n) as [[bs' e'] r'] eqn:E'; injection Er as <- <- <-.
      apply io_read_conserves in E'; rewrite E' in E; exists (consumed ++ bs'); cbn.
      split; [by rewrite E, <- app_assoc|]; rewrite En, int64_id, len_app; [done|].
      apply (f_equal len) in E; rewrite !len_app in E.
      pose proof (len_nonneg consumed); pose proof (len_nonneg bs'); pose proof (len_nonneg (io_rest r')).
      unfold in_int64; lia.
    - by exists []. }
  destruct HQ as (consumed & E & En); rewrite Hc, En, E, len_app.
  pose proof (len_nonneg consumed); pose proof (len_nonneg (io_rest (cr_r (tr_r sr)))).
  split; [lia|]; unfold len; rewrite Nat2Z.id; by rewrite drop_app_length.
Qed.

(** ** Witnesses *)

(** The middle of a sparse file, by two calls from the start. *)
Definition goodSparseBlock : block :=
  let b := setF V7.TypeFlag [83] zeroBlock in
  let b := setF V7.Size (str "00000000005" ++ [0]) b in
  let b := setF (Field 386 24) (str "00000000005" ++ [0] ++ str "00000000005" ++ [0]) b in
  let b := setF GNU.RealSize (str "00000000014" ++ [0]) b in
  match SetFormat b formatGNU with Ok b => b | _ => [] end.

Definition demoSaver : saverReader pipe :=
  (Read 3 (Next 600 (NewSaverReader (mkPipe (goodSparseBlock ++ str "abcde" ++ replicate 507 0)))).2).2.

Lemma demoSaver_reachable :
  rtc (reader_step 0) (NewSaverReader (mkPipe (goodSparseBlock ++ str "abcde" ++ replicate 507 0))) demoSaver.
Proof.
  set (r := NewSaverReader (mkPipe (goodSparseBlock ++ str "abcde" ++ replicate 507 0))).
  assert (E : exists h, (Next 600 r).1 = Ok h) by (eexists; vm_compute; reflexivity).
  assert (E' : exists b, (Read 3 (Next 600 r).2).1 = Ok b) by (eexists; vm_compute; reflexivity).
  unfold demoSaver; fold r; destruct E as [h E], E' as [b E'].
  eapply rtc_l; [apply (step_next 0 600 r (Ok h) (Next 600 r).2); [by rewrite <- E; destruct (Next 600 r) | done..]|].
  eapply rtc_l; [|apply rtc_refl].
  apply (step_read 0 3 _ b); [lia | by rewrite <- E'; destruct (Read 3 _)].
Qed.

Lemma Save_Resume_transparent_witness :
  exists c, Save demoSaver = Ok c /\
    forall cs, (run cs (Resume c (cr_r (tr_r demoSaver)))).1 = (run cs demoSaver).1.
Proof.
  apply (Save_Resume_transparent (mkPipe (goodSparseBlock ++ str "abcde" ++ replicate 507 0)) demoSaver);
    [exact demoSaver_reachable | vm_compute; reflexivity].
Defined.

Lemma Save_offset_witness :
  let c := match Save demoSaver with Ok c => c | _ => mkCheckpoint 0 0 0 0 [] 0 0 end in
  0 <= Roffset c <= 1024 /\ CurrType c = CurrTypeSparse /\ SparsePos c = 3.
Proof.
  intros c; split; [|vm_compute; split; reflexivity].
  assert (El : len (io_rest (mkPipe (goodSparseBlock ++ str "abcde" ++ replicate 507 0))) = 1024) by (vm_compute; reflexivity).
  assert (Ec : Save demoSaver = Ok c) by (vm_compute; reflexivity).
  rewrite <- El; refine (proj1 (Save_offset _ demoSaver c demoSaver_reachable _ Ec)); rewrite El; reflexivity.
Defined.
