(* ===== verification/TarWriter.v ===== *)
(** * tar/writer.go: the archive writer

    A [Writer] over an [io.Writer] with state [W]. A method returns Go's
    [error] value as an [option error] next to the updated writer; [Panic]
    is a run-time panic. *)
From stdpp Require Import sorting.
From S2P Require Import Prelude GoInt GoString GoTime GoIO GoPath TarStrconv TarFormat TarCommon.
Open Scope go_scope.

Abbreviation paxMap := (gmap bytes bytes).

Record Writer (W : Type) := mkWriter {
  tw_w : W;
  tw_err : option error;
  tw_nb : Z;
  tw_pad : Z;
  tw_closed : bool;
  tw_usedBinary : bool;
  tw_preferPax : bool;
  tw_hdrBuff : block;
  tw_paxHdrBuff : block
}.
Arguments mkWriter {W}.
Arguments tw_w {W}.
Arguments tw_err {W}.
Arguments tw_nb {W}.
Arguments tw_pad {W}.
Arguments tw_closed {W}.
Arguments tw_usedBinary {W}.
Arguments tw_preferPax {W}.
Arguments tw_hdrBuff {W}.
Arguments tw_paxHdrBuff {W}.

Definition NewWriter {W} (w : W) : Writer W := mkWriter w None 0 0 false false false zeroBlock zeroBlock.

Definition minTime : Time := Unix 0 0.
Definition maxTime : Time := Unix (2 ^ 33 - 1) 0.

(** ** Splitting a path for the USTAR prefix field *)
Definition splitUSTARPath (name : bytes) : option (bytes * bytes) :=
  let length := len name in
  if (length <=? nameSize) || negb (isASCII name) then None
  else
    let length :=
      if prefixSize + 1 <? length then prefixSize + 1
      else if bool_decide (slice name (length - 1) length = [slash]) then length - 1 else length in
    let i := LastIndexByte (slice name 0 length) slash in
    let nlen := len name - i - 1 in
    let plen := i in
    if (i <=? 0) || (nameSize <? nlen) || (nlen =? 0) || (prefixSize <? plen) then None
    else Some (slice name 0 i, slice name (i + 1) (len name)).

(** ** Filling a header block

    The variables that the closures [formatString] and [formatNumeric] of
    [writeHeader] update: the block, the map of extended headers, the
    formatter's error and the flag [tw.usedBinary]. *)
Record hdrState := mkHdrState {
  hs_blk : block;
  hs_pax : paxMap;
  hs_f : formatter;
  hs_bin : bool
}.

Definition putString (fld : field) (s paxKeyword : bytes) (hs : hdrState) : hdrState :=
  let b := getF fld (hs_blk hs) in
  let needsPaxHeader := bool_decide (paxKeyword <> paxNone) && (len b <? len s) || negb (isASCII s) in
  let pax := if needsPaxHeader then <[paxKeyword := s]> (hs_pax hs) else hs_pax hs in
  let s := toASCII s in
  let s := if len b <? len s then slice s 0 (len b) else s in
  let '(f, b) := formatString (hs_f hs) b s in
  mkHdrState (setF fld b (hs_blk hs)) pax f (hs_bin hs).

Definition putOctal (fld : field) (x : Z) (hs : hdrState) : hdrState :=
  let '(f, b) := formatOctal (hs_f hs) (getF fld (hs_blk hs)) x in
  mkHdrState (setF fld b (hs_blk hs)) (hs_pax hs) f (hs_bin hs).

Definition putNumeric (preferPax : bool) (fld : field) (x : Z) (paxKeyword : bytes) (hs : hdrState) : hdrState :=
  let b := getF fld (hs_blk hs) in
  if len (FormatInt x 8) <? len b then putOctal fld x hs
  else if bool_decide (paxKeyword <> paxNone) && preferPax then
    let hs := putOctal fld 0 hs in
    mkHdrState (hs_blk hs) (<[paxKeyword := FormatInt x 10]> (hs_pax hs)) (hs_f hs) (hs_bin hs)
  else
    let '(f, b) := formatNumeric (hs_f hs) b x in
    mkHdrState (setF fld b (hs_blk hs)) (hs_pax hs) f true.

Definition putByte (fld : field) (c : Z) (hs : hdrState) : hdrState :=
  mkHdrState (setF fld [c] (hs_blk hs)) (hs_pax hs) (hs_f hs) (hs_bin hs).

(** Out of range modification times are written as zero. *)
Definition headerModTime (hdr : Header) : Z :=
  if negb (Before (h_ModTime hdr) minTime) && negb (After (h_ModTime hdr) maxTime)
  then toUnix (h_ModTime hdr) else 0.

Definition usePrefix : bool := false.

(** The fields, in the order of the source. *)
Definition fillHeader (preferPax usedBinary : bool) (hdr : Header) : hdrState :=
  let hs := mkHdrState zeroBlock ∅ None usedBinary in
  let hs := putString V7.Name (h_Name hdr) paxPath hs in
  let hs := putOctal V7.Mode (h_Mode hdr) hs in
  let hs := putNumeric preferPax V7.UID (h_Uid hdr) paxUid hs in
  let hs := putNumeric preferPax V7.GID (h_Gid hdr) paxGid hs in
  let hs := putNumeric preferPax V7.Size (h_Size hdr) paxSize hs in
  let hs := putNumeric preferPax V7.ModTime (headerModTime hdr) paxNone hs in
  let hs := putByte V7.TypeFlag (h_Typeflag hdr) hs in
  let hs := putString V7.LinkName (h_Linkname hdr) paxLinkpath hs in
  let hs := putString USTAR.UserName (h_Uname hdr) paxUname hs in
  let hs := putString USTAR.GroupName (h_Gname hdr) paxGname hs in
  let hs := putNumeric preferPax USTAR.DevMajor (h_Devmajor hdr) paxNone hs in
  let hs := putNumeric preferPax USTAR.DevMinor (h_Devminor hdr) paxNone hs in
  if usePrefix && negb preferPax && (Z.of_nat (size (hs_pax hs)) =? 1) &&
     bool_decide (is_Some (hs_pax hs !! paxPath))
  then
    match splitUSTARPath (h_Name hdr) with
    | Some (prefix, suffix) =>
        let hs := mkHdrState (hs_blk hs) (delete paxPath (hs_pax hs)) (hs_f hs) (hs_bin hs) in
        putString USTAR.Prefix prefix paxNone (putString V7.Name suffix paxNone hs)
    | None => hs
    end
  else hs.

(** [paxHeaders[paxXattr+k] = v] for the extended attributes. *)
Definition addXattrs (hdr : Header) (pax : paxMap) : paxMap :=
  foldr (fun '(k, v) m => <[paxXattr ++ k := v]> m) pax (map_to_list (default ∅ (h_Xattrs hdr))).

(** Go's string order: lexicographic by bytes. *)
Fixpoint bytes_leb (a b : bytes) : bool :=
  match a, b with
  | [], _ => true
  | _, [] => false
  | x :: a, y :: b => (x <? y) || (x =? y) && bytes_leb a b
  end.
Definition bytes_le (a b : bytes) : Prop := bytes_leb a b = true.
#[export] Instance bytes_le_dec a b : Decision (bytes_le a b).
Proof. unfold bytes_le; apply _. Defined.

(** The body of an extended header, from the keys of the map in any order. *)
Definition paxBody (keys : list bytes) (pax : paxMap) : bytes :=
  mjoin ((fun k => formatPAXRecord k (default [] (pax !! k))) <$> merge_sort bytes_le keys).

(** The header of the meta file that holds extended headers. *)
Definition paxExtHeader (hdr : Header) (body : bytes) : Header :=
  let '(dir, file) := PathSplit (h_Name hdr) in
  let fullName := PathJoin [dir; str "PaxHeaders.0"; file] in
  let ascii := toASCII fullName in
  let ascii := if nameSize <? len ascii then slice ascii 0 nameSize else ascii in
  set_Size (len body) (set_Name ascii (set_ModTime (h_ModTime hdr) (set_Typeflag TypeXHeader newHeader))).

Section Methods.
Context {W : Type} `{IoWriter W}.

Definition upd (f : Writer W -> Writer W) : M (Writer W) unit := fun tw => (Ok tt, f tw).
Definition setTw w err nb pad (tw : Writer W) : Writer W :=
  mkWriter w err nb pad (tw_closed tw) (tw_usedBinary tw) (tw_preferPax tw) (tw_hdrBuff tw) (tw_paxHdrBuff tw).
Definition setTwErr err (tw : Writer W) : Writer W := setTw (tw_w tw) err (tw_nb tw) (tw_pad tw) tw.

(** [tw.w.Write(b)]. *)
Definition writeW (b : bytes) : M (Writer W) (Z * option error) :=
  fun tw => let '(n, err, w) := io_write (tw_w tw) b in
            (Ok (n, err), setTw w (tw_err tw) (tw_nb tw) (tw_pad tw) tw).

(** The loop of [Flush] that writes the padding. *)
Fixpoint flushLoop (fuel : nat) (n : Z) : M (Writer W) unit :=
  let! tw := get in
  if (0 <? n) && bool_decide (tw_err tw = None) then
    match fuel with
    | O => lift OutOfFuel
    | S fuel =>
        let nr := if blockSize <? n then blockSize else n in
        let! (nw, err) := writeW (slice zeroBlock 0 nr) in
        do! upd (setTwErr err);
        flushLoop fuel (n - nw)
    end
  else ret tt.

Definition Flush (fuel : nat) : M (Writer W) (option error) :=
  let! tw := get in
  if 0 <? tw_nb tw then
    let err := Some (ErrMissed (tw_nb tw)) in
    do! upd (setTwErr err); ret err
  else
    do! flushLoop fuel (tw_nb tw + tw_pad tw);
    do! upd (fun tw => setTw (tw_w tw) (tw_err tw) 0 0 tw);
    let! tw := get in
    ret (tw_err tw).

Definition Write (b : bytes) : M (Writer W) (Z * option error) :=
  let! tw := get in
  if tw_closed tw then ret (0, Some ErrWriteAfterClose)
  else
    let overwrite := tw_nb tw <? len b in
    if overwrite && (tw_nb tw <? 0) then lift Panic
    else
      let b := if overwrite then slice b 0 (tw_nb tw) else b in
      let! (n, err) := writeW b in
      do! upd (fun tw => setTw (tw_w tw) (tw_err tw) (tw_nb tw - n) (tw_pad tw) tw);
      if bool_decide (err = None) && overwrite then ret (n, Some ErrWriteTooLong)
      else do! upd (setTwErr err); ret (n, err).

Definition headerBuff (allowPax : bool) (tw : Writer W) : block :=
  if allowPax then tw_hdrBuff tw else tw_paxHdrBuff tw.
Definition setHeaderBuff (allowPax : bool) (b : block) (tw : Writer W) : Writer W :=
  if allowPax
  then mkWriter (tw_w tw) (tw_err tw) (tw_nb tw) (tw_pad tw) (tw_closed tw) (tw_usedBinary tw) (tw_preferPax tw) b (tw_paxHdrBuff tw)
  else mkWriter (tw_w tw) (tw_err tw) (tw_nb tw) (tw_pad tw) (tw_closed tw) (tw_usedBinary tw) (tw_preferPax tw) (tw_hdrBuff tw) b.
Definition setUsedBinary (u : bool) (tw : Writer W) : Writer W :=
  mkWriter (tw_w tw) (tw_err tw) (tw_nb tw) (tw_pad tw) (tw_closed tw) u (tw_preferPax tw) (tw_hdrBuff tw) (tw_paxHdrBuff tw).

(** The end of [writeHeader]: the sizes, and the block from its buffer. *)
Definition writeBlock (allowPax : bool) (hdr : Header) : M (Writer W) (option error) :=
  let nb := h_Size hdr in
  let pad := Z.rem (blockSize - Z.rem nb blockSize) blockSize in
  do! upd (fun tw => setTw (tw_w tw) (tw_err tw) nb pad tw);
  let! tw := get in
  let! (_, err) := writeW (headerBuff allowPax tw) in
  do! upd (setTwErr err);
  ret err.

(** [writeHeader]; [writePAX] is the call of [writePAXHeader]. *)
Definition writeHeaderWith (writePAX : Header -> paxMap -> M (Writer W) (option error))
    (fuel : nat) (hdr : Header) (allowPax : bool) : M (Writer W) (option error) :=
  let! tw := get in
  if tw_closed tw then ret (Some ErrWriteAfterClose)
  else
    do! (if bool_decide (tw_err tw = None) then let! _ := Flush fuel in ret tt else ret tt);
    let! tw := get in
    match tw_err tw with
    | Some e => ret (Some e)
    | None =>
        let hs := fillHeader (tw_preferPax tw) (tw_usedBinary tw) hdr in
        do! upd (setUsedBinary (hs_bin hs));
        let! blk := lift (SetFormat (hs_blk hs) (if hs_bin hs then formatGNU else formatUSTAR)) in
        do! upd (setHeaderBuff allowPax blk);
        match hs_f hs with
        | Some e => do! upd (setTwErr (Some e)); ret (Some e)
        | None =>
            let pax := if allowPax then addXattrs hdr (hs_pax hs) else hs_pax hs in
            if bool_decide (pax = ∅) then writeBlock allowPax hdr
            else if negb allowPax then ret (Some errInvalidHeader)
            else
              let! err := writePAX hdr pax in
              match err with
              | Some e => ret (Some e)
              | None => writeBlock allowPax hdr
              end
        end
    end.

(** [writeHeader(hdr, false)], which never writes an extended header. *)
Definition writeHeaderNoPax (fuel : nat) (hdr : Header) : M (Writer W) (option error) :=
  writeHeaderWith (fun _ _ => lift OutOfFuel) fuel hdr false.

Definition writePAXHeader (fuel : nat) (hdr : Header) (pax : paxMap) : M (Writer W) (option error) :=
  let body := paxBody ((map_to_list pax).*1) pax in
  let! err := writeHeaderNoPax fuel (paxExtHeader hdr body) in
  match err with
  | Some e => ret (Some e)
  | None =>
      let! (_, err) := Write body in
      match err with
      | Some e => ret (Some e)
      | None => Flush fuel
      end
  end.

Definition WriteHeader (fuel : nat) (hdr : Header) : M (Writer W) (option error) :=
  writeHeaderWith (writePAXHeader fuel) fuel hdr true.

(** The trailer: two zero blocks. *)
Fixpoint writeTrailer (i : nat) : M (Writer W) unit :=
  match i with
  | O => ret tt
  | S i =>
      let! (_, err) := writeW zeroBlock in
      do! upd (setTwErr err);
      match err with Some _ => ret tt | None => writeTrailer i end
  end.

Definition Close (fuel : nat) : M (Writer W) (option error) :=
  let! tw := get in
  if bool_decide (tw_err tw <> None) || tw_closed tw then ret (tw_err tw)
  else
    let! _ := Flush fuel in
    do! upd (fun tw => mkWriter (tw_w tw) (tw_err tw) (tw_nb tw) (tw_pad tw) true (tw_usedBinary tw)
                         (tw_preferPax tw) (tw_hdrBuff tw) (tw_paxHdrBuff tw));
    let! tw := get in
    match tw_err tw with
    | Some e => ret (Some e)
    | None =>
        do! writeTrailer 2;
        let! tw := get in
        ret (tw_err tw)
    end.
End Methods.

(** ** The writer on a sink *)

Lemma SetFormat_total b (bin : bool) : exists b', SetFormat b (if bin then formatGNU else formatUSTAR) = Ok b'.
Proof.
  unfold SetFormat, setMagic; destruct bin; cbn [obind];
    repeat (vm_compute (_ =? _); cbv beta iota; cbn [orb obind]);
    destruct (ComputeChecksum _) as [c ?]; destruct (formatOctal None _ c); eauto.
Qed.

Section Sink.
Context {W : Type} `{IoSink W}.

Definition out (tw : Writer W) : bytes := io_out (tw_w tw).

Lemma writeW_sink b tw :
  exists w', writeW b tw = (Ok (len b, None), setTw w' (tw_err tw) (tw_nb tw) (tw_pad tw) tw) /\ io_out w' = out tw ++ b.
Proof. unfold writeW; destruct (io_write_sink (tw_w tw) b) as (w' & -> & Ho); eauto. Qed.

Lemma slice_zeroBlock n : 0 <= n <= 512 -> slice zeroBlock 0 n = replicate (Z.to_nat n) 0.
Proof. intros; unfold slice, zeroBlock; rewrite drop_0, take_replicate; f_equal; lia. Qed.

Lemma Flush_sink fuel tw :
  tw_err tw = None -> tw_nb tw = 0 -> 0 <= tw_pad tw < 512 -> (2 <= fuel)%nat ->
  exists w', Flush fuel tw = (Ok None, setTw w' None 0 0 tw) /\ io_out w' = out tw ++ replicate (Z.to_nat (tw_pad tw)) 0.
Proof.
  intros He Hnb Hp Hf; destruct fuel as [|[|f]]; [lia..|]; unfold Flush, bind at 1, get.
  rewrite Hnb; cbn [Z.ltb Z.compare]; rewrite Z.add_0_l; unfold bind at 1.
  assert (L : exists w', flushLoop (S (S f)) (tw_pad tw) tw = (Ok tt, setTw w' None 0 (tw_pad tw) tw) /\
    io_out w' = out tw ++ replicate (Z.to_nat (tw_pad tw)) 0).
  { cbn [flushLoop]; unfold bind at 1, get; rewrite He, bool_decide_eq_true_2, andb_true_r by done.
    destruct (Z.ltb_spec 0 (tw_pad tw)) as [Hlt|Hge].
    - change blockSize with 512; rewrite (proj2 (Z.ltb_ge 512 _)) by lia.
      rewrite slice_zeroBlock by lia.
      destruct (writeW_sink (replicate (Z.to_nat (tw_pad tw)) 0) tw) as (w' & E & Ho).
      unfold bind at 1; rewrite E; cbn match; unfold bind, upd, get; cbn [setTwErr setTw tw_err].
      unfold len; rewrite length_replicate, Z2Nat.id, Z.sub_diag by lia; cbn [Z.ltb Z.compare andb].
      exists w'; split; [|done]; unfold ret, setTwErr, setTw; cbn; by rewrite Hnb.
    - exists (tw_w tw); replace (tw_pad tw) with 0 by lia; cbn; rewrite app_nil_r; split; [|done].
      unfold ret, setTw; rewrite <- Hnb at 1; replace 0 with (tw_pad tw) by lia; rewrite <- He; by destruct tw. }
  destruct L as (w' & -> & Ho); cbn match; exists w'; split; [|done].
  unfold bind, upd, get, ret, setTw; by cbn.
Qed.

(** Bytes beyond the announced size are refused. *)
Lemma Write_sink b tw :
  tw_closed tw = false -> 0 <= tw_nb tw ->
  let n := Z.min (len b) (tw_nb tw) in
  exists w', Write b tw =
    (Ok (n, if tw_nb tw <? len b then Some ErrWriteTooLong else None),
     setTw w' (if tw_nb tw <? len b then tw_err tw else None) (tw_nb tw - n) (tw_pad tw) tw) /\
    io_out w' = out tw ++ take (Z.to_nat (tw_nb tw)) b.
Proof.
  intros Hc Hnb n; unfold Write, bind at 1, get; rewrite Hc, (proj2 (Z.ltb_ge (tw_nb tw) 0)), andb_false_r by lia.
  pose proof (len_nonneg b).
  assert (Eb : (if tw_nb tw <? len b then slice b 0 (tw_nb tw) else b) = take (Z.to_nat (tw_nb tw)) b).
  { destruct (Z.ltb_spec (tw_nb tw) (len b)); [unfold slice; by rewrite drop_0, Z.sub_0_r|].
    symmetry; apply take_ge; unfold len in *; lia. }
  rewrite Eb; destruct (writeW_sink (take (Z.to_nat (tw_nb tw)) b) tw) as (w' & E & Ho).
  assert (El : len (take (Z.to_nat (tw_nb tw)) b) = n) by (unfold n, len in *; rewrite length_take; lia).
  unfold bind at 1; rewrite E, El; cbn match; unfold bind at 1, upd at 1; rewrite bool_decide_eq_true_2 by done; cbn [andb].
  destruct (tw_nb tw <? len b); exists w'; split; try done.
Qed.

Lemma writeBlock_sink allow hdr tw :
  exists w', writeBlock allow hdr tw =
      (Ok None, setTw w' None (h_Size hdr) (Z.rem (blockSize - Z.rem (h_Size hdr) blockSize) blockSize) tw) /\
    io_out w' = out tw ++ headerBuff allow tw.
Proof.
  unfold writeBlock, bind at 1, upd, bind at 1, get.
  set (tw1 := setTw _ _ _ _ tw); destruct (writeW_sink (headerBuff allow tw1) tw1) as (w' & E & Ho).
  unfold bind; rewrite E; cbn match; exists w'; split; [done|]; rewrite Ho; unfold tw1; by destruct allow.
Qed.

(** [writeHeader] when the previous entry is complete: the padding, and then
    what the fields of the header call for. *)
Lemma writeHeaderWith_sink wpax fuel hdr (allow : bool) tw blk0 pax0 f bin :
  tw_closed tw = false -> tw_err tw = None -> tw_nb tw = 0 -> 0 <= tw_pad tw < 512 -> (2 <= fuel)%nat ->
  fillHeader (tw_preferPax tw) (tw_usedBinary tw) hdr = mkHdrState blk0 pax0 f bin ->
  exists blk w', SetFormat blk0 (if bin then formatGNU else formatUSTAR) = Ok blk /\
    io_out w' = out tw ++ replicate (Z.to_nat (tw_pad tw)) 0 /\
    forall tw2 pax, tw2 = setHeaderBuff allow blk (setUsedBinary bin (setTw w' None 0 0 tw)) ->
    pax = (if allow then addXattrs hdr pax0 else pax0) ->
    writeHeaderWith wpax fuel hdr allow tw =
      match f with
      | Some e => (Ok (Some e), setTwErr (Some e) tw2)
      | None =>
          if bool_decide (pax = ∅) then writeBlock allow hdr tw2
          else if negb allow then (Ok (Some errInvalidHeader), tw2)
          else match wpax hdr pax tw2 with
               | (Ok None, tw3) => writeBlock allow hdr tw3
               | r => r
               end
      end.
Proof.
  intros Hc He Hnb Hp Hf Hfill; destruct (SetFormat_total blk0 bin) as [blk Eblk].
  destruct (Flush_sink fuel tw He Hnb Hp Hf) as (w' & EF & Ho).
  exists blk, w'; split; [done|]; split; [done|]; intros tw2 pax -> Epax.
  unfold writeHeaderWith, bind at 1, get; rewrite Hc, He, bool_decide_eq_true_2 by done.
  unfold bind at 1, bind at 1; rewrite EF; unfold ret; cbn match; unfold bind at 1; cbn [tw_err setTw].
  cbn [tw_preferPax tw_usedBinary setTw]; rewrite Hfill; cbn [hs_bin hs_blk hs_f hs_pax].
  unfold bind at 1, upd at 1; unfold bind at 1, lift; rewrite Eblk; unfold bind at 1, upd at 1.
  destruct f as [e|]; [done|]; rewrite <- Epax; destruct (bool_decide (pax = ∅)); [done|].
  destruct allow; cbn [negb]; [|done]; unfold bind.
  by destruct (wpax hdr pax _) as [[[e|]| | |] tw3].
Qed.
End Sink.
