(* ===== verification/TarFill.v ===== *)
(** * The header block that tar/writer.go fills

    [fillHeader] as one nest of field assignments: the values of the string
    and number fields, the extended headers the strings need, and the cases
    in which a number needs the binary encoding. *)
From S2P Require Import Prelude GoInt GoString GoTime GoPath TarStrconv TarFormat TarCommon TarWriter.
Open Scope go_scope.

(** ** Values of fields *)

(** A string in a field of [n] zero bytes: the ASCII part, truncated. *)
Definition strV (n : nat) (s : bytes) : bytes := (formatString None (replicate n 0) (take n (toASCII s))).2.
Definition octV (n : nat) (x : Z) : bytes := (formatOctal None (replicate n 0) x).2.
Definition binV (n : nat) (x : Z) : bytes := (formatNumeric None (replicate n 0) x).2.

(** A number whose octal digits do not leave room for the final NUL. *)
Definition needsBin (n : nat) (x : Z) : bool := negb (len (FormatInt x 8) <? Z.of_nat n).
Definition numV (n : nat) (x : Z) : bytes := if needsBin n x then binV n x else octV n x.

(** The formatter's error after a field of octal digits or a number. *)
Definition octF (n : nat) (x : Z) (f : formatter) : formatter := (formatOctal f (replicate n 0) x).1.
Definition numF (n : nat) (x : Z) (f : formatter) : formatter :=
  if needsBin n x then (formatNumeric f (replicate n 0) x).1 else octF n x f.

Definition needsPax (n : nat) (s : bytes) : bool := (Z.of_nat n <? len s) || negb (isASCII s).
Definition strPax (n : nat) (s k : bytes) (m : paxMap) : paxMap := if needsPax n s then <[k := s]> m else m.

Lemma FormatInt_bytes_ok x : bytes_ok (FormatInt x 8).
Proof.
  assert (G : forall y, 0 <= y -> bytes_ok (FormatUint y 8)).
  { intros y Hy; destruct (FormatUint_spec 8 y) as (Hd & _); [lia..|].
    eapply Forall_impl; [exact Hd|]; intros c; by apply is_digit_byte. }
  unfold FormatInt; destruct (Z.ltb_spec x 0); [constructor; [unfold is_byte; lia|]|]; apply G; lia.
Qed.

Lemma formatString_snd f b s : formatString f b s = ((formatString f b s).1, (formatString None b s).2).
Proof. unfold formatString; by destruct (_ <? _). Qed.

Lemma formatOctal_snd f b x : formatOctal f b x = ((formatOctal f b x).1, (formatOctal None b x).2).
Proof. unfold formatOctal; apply formatString_snd. Qed.

Lemma formatOctal_ok b x : bytes_ok b -> bytes_ok (formatOctal None b x).2 /\ length (formatOctal None b x).2 = length b.
Proof.
  intros Hb; unfold formatOctal; cbn zeta.
  set (s := if 0 <? _ then _ else _).
  assert (Hs : bytes_ok s).
  { unfold s; destruct (_ <? _); [rewrite Repeat_single; apply bytes_ok_app; split|]; try apply FormatInt_bytes_ok.
    apply bytes_ok_replicate; unfold is_byte; lia. }
  split; [by apply formatString_ok | by apply formatString_length].
Qed.

Lemma formatNumericLoop_ok i x b :
  bytes_ok b -> bytes_ok (formatNumericLoop i x b) /\ length (formatNumericLoop i x b) = length b.
Proof.
  revert x b; induction i as [|i IH]; intros x b Hb; cbn [formatNumericLoop]; [done|].
  destruct (IH (Z.shiftr x 8) (<[i := uint8 x]> b)) as [H1 H2].
  { apply Forall_insert; [done | apply uint8_byte]. }
  by rewrite H2, length_insert.
Qed.

Lemma formatNumeric_ok b x : bytes_ok b -> bytes_ok (formatNumeric None b x).2 /\ length (formatNumeric None b x).2 = length b.
Proof.
  intros Hb; unfold formatNumeric; destruct (fitsInBase256 _ _).
  - destruct (formatNumericLoop_ok (length b) x b Hb) as [H1 H2]; cbn [snd]; rewrite length_alter; split; [|done].
    apply Forall_alter; [done|]; intros c Hc _; cbn.
    assert (is_byte c) by (eapply Forall_lookup_1; [exact H1 | exact Hc]); by apply lor_0x80_byte.
  - destruct (formatOctal_ok b 0 Hb); rewrite formatOctal_snd; done.
Qed.

Lemma zeros_ok n : bytes_ok (replicate n 0).
Proof. apply bytes_ok_replicate; unfold is_byte; lia. Qed.

Lemma octV_ok n x : bytes_ok (octV n x) /\ length (octV n x) = n.
Proof. destruct (formatOctal_ok (replicate n 0) x (zeros_ok n)) as [? H]; rewrite length_replicate in H; done. Qed.

Lemma numV_ok n x : bytes_ok (numV n x) /\ length (numV n x) = n.
Proof.
  unfold numV; destruct (needsBin n x); [|apply octV_ok].
  destruct (formatNumeric_ok (replicate n 0) x (zeros_ok n)) as [? H]; rewrite length_replicate in H; done.
Qed.

Lemma strV_ok n s : bytes_ok s -> bytes_ok (strV n s) /\ length (strV n s) = n.
Proof.
  intros Hs; assert (bytes_ok (take n (toASCII s))) by (by apply Forall_take, toASCII_ok).
  unfold strV; rewrite formatString_length, length_replicate by done; split; [|done].
  apply formatString_ok; [done | apply zeros_ok].
Qed.

(** ** The steps of [fillHeader] *)
Lemma slice_take (s : bytes) n : slice s 0 n = take (Z.to_nat n) s.
Proof. unfold slice; by rewrite drop_0, Z.sub_0_r. Qed.

Lemma putString_eq fld s kw blk pax f bin :
  getF fld blk = replicate (f_size fld) 0 -> bytes_ok s -> kw <> paxNone ->
  putString fld s kw (mkHdrState blk pax f bin) =
    mkHdrState (setF fld (strV (f_size fld) s) blk) (strPax (f_size fld) s kw pax) f bin.
Proof.
  intros Hg Hs Hkw; unfold putString; cbn [hs_blk hs_pax hs_f hs_bin]; rewrite Hg.
  rewrite bool_decide_eq_true_2 by done; cbn [andb].
  assert (L : len (replicate (f_size fld) 0) = Z.of_nat (f_size fld)) by (unfold len; by rewrite length_replicate).
  rewrite L; cbn zeta.
  assert (T : (if Z.of_nat (f_size fld) <? len (toASCII s) then slice (toASCII s) 0 (Z.of_nat (f_size fld)) else toASCII s) =
    take (f_size fld) (toASCII s)).
  { destruct (Z.ltb_spec (Z.of_nat (f_size fld)) (len (toASCII s))); [by rewrite slice_take, Nat2Z.id|].
    symmetry; apply take_ge; unfold len in *; lia. }
  rewrite T, formatString_snd; unfold strV, strPax, needsPax; f_equal.
  unfold formatString; rewrite (proj2 (Z.ltb_ge _ _)); [done|].
  rewrite L; unfold len; rewrite length_take; lia.
Qed.

Lemma putOctal_eq fld x blk pax f bin :
  getF fld blk = replicate (f_size fld) 0 ->
  putOctal fld x (mkHdrState blk pax f bin) =
    mkHdrState (setF fld (octV (f_size fld) x) blk) pax (octF (f_size fld) x f) bin.
Proof. intros Hg; unfold putOctal; cbn [hs_blk hs_pax hs_f hs_bin]; by rewrite Hg, formatOctal_snd. Qed.

Lemma putNumeric_eq fld x kw blk pax f bin :
  getF fld blk = replicate (f_size fld) 0 ->
  putNumeric false fld x kw (mkHdrState blk pax f bin) =
    mkHdrState (setF fld (numV (f_size fld) x) blk) pax (numF (f_size fld) x f) (bin || needsBin (f_size fld) x).
Proof.
  intros Hg; unfold putNumeric; cbn [hs_blk hs_pax hs_f hs_bin]; rewrite andb_false_r, Hg.
  unfold numV, numF, needsBin; unfold len at 2; rewrite length_replicate.
  destruct (len (FormatInt x 8) <? Z.of_nat (f_size fld)); cbn [negb].
  - by rewrite putOctal_eq, orb_false_r.
  - rewrite orb_true_r; unfold binV.
    assert (E : formatNumeric f (replicate (f_size fld) 0) x =
      ((formatNumeric f (replicate (f_size fld) 0) x).1, (formatNumeric None (replicate (f_size fld) 0) x).2)).
    { unfold formatNumeric; destruct (fitsInBase256 _ _); [done|]; by rewrite (formatOctal_snd f), (formatOctal_snd None). }
    by rewrite E.
Qed.

(** Go strings and the type flag are bytes. *)
Definition hdrBytes (hdr : Header) : Prop :=
  bytes_ok (h_Name hdr) /\ is_byte (h_Typeflag hdr) /\ bytes_ok (h_Linkname hdr) /\
  bytes_ok (h_Uname hdr) /\ bytes_ok (h_Gname hdr).

Definition fillBlk (hdr : Header) : block :=
  setF USTAR.DevMinor (numV 8 (h_Devminor hdr)) (setF USTAR.DevMajor (numV 8 (h_Devmajor hdr))
  (setF USTAR.GroupName (strV 32 (h_Gname hdr)) (setF USTAR.UserName (strV 32 (h_Uname hdr))
  (setF V7.LinkName (strV 100 (h_Linkname hdr)) (setF V7.TypeFlag [h_Typeflag hdr]
  (setF V7.ModTime (numV 12 (headerModTime hdr)) (setF V7.Size (numV 12 (h_Size hdr))
  (setF V7.GID (numV 8 (h_Gid hdr)) (setF V7.UID (numV 8 (h_Uid hdr)) (setF V7.Mode (octV 8 (h_Mode hdr))
  (setF V7.Name (strV 100 (h_Name hdr)) zeroBlock))))))))))).

Definition fillPax (hdr : Header) : paxMap :=
  strPax 32 (h_Gname hdr) paxGname (strPax 32 (h_Uname hdr) paxUname
  (strPax 100 (h_Linkname hdr) paxLinkpath (strPax 100 (h_Name hdr) paxPath ∅))).

Definition fillErr (hdr : Header) : formatter :=
  numF 8 (h_Devminor hdr) (numF 8 (h_Devmajor hdr) (numF 12 (headerModTime hdr) (numF 12 (h_Size hdr)
  (numF 8 (h_Gid hdr) (numF 8 (h_Uid hdr) (octF 8 (h_Mode hdr) None)))))).

Definition fillBin (hdr : Header) : bool :=
  needsBin 8 (h_Uid hdr) || needsBin 8 (h_Gid hdr) || needsBin 12 (h_Size hdr) ||
  needsBin 12 (headerModTime hdr) || needsBin 8 (h_Devmajor hdr) || needsBin 8 (h_Devminor hdr).

(** Fields of a nest of assignments. *)
Ltac field_val := rewrite ?getF_setF_eq by (field_side); rewrite ?getF_setF_ne by (field_side)
with field_side := first [ done | reflexivity | apply setF_ok; field_side
  | apply strV_ok; assumption | apply octV_ok | apply numV_ok | apply zeroBlock_ok
  | constructor; [assumption | constructor] | assumption ].

Lemma fillHeader_eq hdr bin :
  hdrBytes hdr -> fillHeader false bin hdr = mkHdrState (fillBlk hdr) (fillPax hdr) (fillErr hdr) (bin || fillBin hdr).
Proof.
  intros (Hn & Ht & Hl & Hu & Hg); unfold fillHeader; cbn [usePrefix andb].
  repeat first
    [ rewrite putString_eq by first [assumption | discriminate | (repeat field_val; by apply getF_zeroBlock)]
    | rewrite putOctal_eq by (repeat field_val; by apply getF_zeroBlock)
    | rewrite putNumeric_eq by (repeat field_val; by apply getF_zeroBlock)
    | progress unfold putByte; cbn [hs_blk hs_pax hs_f hs_bin] ].
  unfold fillBlk, fillPax, fillErr, fillBin; cbn [f_size V7.Name V7.Mode V7.UID V7.GID V7.Size V7.ModTime V7.LinkName
    USTAR.UserName USTAR.GroupName USTAR.DevMajor USTAR.DevMinor].
  by rewrite <- !orb_assoc.
Qed.
