(* ===== verification/TarArchive.v ===== *)
(** * Archives: what tar/writer.go writes, tar/reader.go reads

    Headers, extended headers and whole archives written to a buffer are
    read back from any reader over the same bytes. *)
From stdpp Require Import sorting.
From S2P Require Import Prelude GoInt GoString GoTime GoIO GoPath TarStrconv TarFormat TarCommon TarSparse.
From S2P Require Import TarReader TarPax TarStream TarWriter TarFill.
Open Scope go_scope.

(** ** Numbers *)
Lemma needsBin_octal n x : (2 <= n)%nat -> 0 <= x -> needsBin n x = false -> x < 8 ^ (Z.of_nat n - 1).
Proof.
  unfold needsBin; intros Hn Hx H; apply negb_false_iff, Z.ltb_lt in H; rewrite FormatInt_nonneg in H by done.
  destruct (Z.lt_ge_cases x (8 ^ (Z.of_nat n - 1))) as [|Hge]; [done|].
  apply FormatUint_len_lower in Hge; lia.
Qed.

(** A field of [n] bytes holds 56 bits when it has 8, an [int64] when it has 12. *)
Definition numFits (n : nat) (x : Z) : Prop := (n = 8%nat /\ 0 <= x < 2 ^ 56) \/ (n = 12%nat /\ 0 <= x < 2 ^ 63).

Lemma numFits_base256 n x : numFits n x -> fitsInBase256 (Z.of_nat n) x = true.
Proof.
  intros [[-> Hx] | [-> Hx]]; [|done].
  change (fitsInBase256 (Z.of_nat 8) x) with ((-72057594037927936 <=? x) && (x <? 72057594037927936)).
  apply andb_true_iff; split; [apply Z.leb_le | apply Z.ltb_lt]; lia.
Qed.

Lemma numV_parse p n x : numFits n x -> parseNumeric p (numV n x) = (p, x).
Proof.
  intros Hx; pose proof (numFits_base256 n x Hx) as Hf; unfold numV, binV, octV.
  assert (L : len (replicate n 0) = Z.of_nat n) by (unfold len; by rewrite length_replicate).
  destruct (needsBin n x) eqn:Hb.
  - apply parseNumeric_formatNumeric; [unfold in_int64; destruct Hx as [[_ ?] | [_ ?]]; lia | by rewrite L].
  - assert (Hoct : x < 8 ^ (Z.of_nat n - 1))
      by (apply needsBin_octal; [destruct Hx as [[-> _] | [-> _]]; lia | destruct Hx as [[_ ?] | [_ ?]]; lia | done]).
    apply parseNumeric_formatOctal; rewrite ?L, ?length_replicate; destruct Hx as [[-> Hx] | [-> Hx]]; try lia.
Qed.

Lemma numF_fits n x f : numFits n x -> numF n x f = f.
Proof.
  intros Hx; pose proof (numFits_base256 n x Hx) as Hf; unfold numF, octF.
  assert (L : len (replicate n 0) = Z.of_nat n) by (unfold len; by rewrite length_replicate).
  destruct (needsBin n x) eqn:Hb.
  - unfold formatNumeric; by rewrite L, Hf.
  - assert (Hoct : x < 8 ^ (Z.of_nat n - 1))
      by (apply needsBin_octal; [destruct Hx as [[-> _] | [-> _]]; lia | destruct Hx as [[_ ?] | [_ ?]]; lia | done]).
    apply parseOctal_formatOctal; [exact None | | destruct Hx as [[_ ?] | [_ ?]]; lia | rewrite length_replicate; destruct Hx as [[-> _] | [-> _]]; lia].
    rewrite L; split; [destruct Hx as [[_ ?] | [_ ?]]; lia|]; eapply Z.lt_le_trans; [exact Hoct|].
    apply Z.pow_le_mono_r; lia.
Qed.

(** The mode field: seven octal digits and a NUL. *)
Lemma octV_parse p x : 0 <= x < 8 ^ 7 -> parseNumeric p (octV 8 x) = (p, x).
Proof.
  intros Hx; apply parseNumeric_formatOctal; [split; [lia|] | |]; [|lia | simpl; lia].
  eapply Z.lt_trans; [apply Hx | vm_compute; reflexivity].
Qed.

Lemma octF_fits x f : 0 <= x < 8 ^ 7 -> octF 8 x f = f.
Proof.
  intros Hx; apply parseOctal_formatOctal; [exact None | | lia | simpl; lia].
  split; [lia|]; eapply Z.lt_trans; [apply Hx | vm_compute; reflexivity].
Qed.

(** The modification time always fits eleven octal digits. *)
Lemma headerModTime_range hdr : 0 <= headerModTime hdr < 2 ^ 33.
Proof.
  unfold headerModTime, Before, After, minTime, maxTime; destruct (h_ModTime hdr) as [sec nsec loc]; cbn.
  destruct (negb _ && negb _) eqn:E; [|lia]; apply andb_true_iff in E as [E1 E2].
  unfold Before in E2; cbn in E2; unfold unixToInternal in *.
  rewrite int64_id in E1 by (unfold in_int64; lia); rewrite int64_id in E2 by (unfold in_int64; lia).
  assert (Hs : 62135596800 <= sec <= 2 ^ 33 - 1 + 62135596800).
  { revert E1 E2; repeat destruct (Z.ltb_spec _ _); repeat destruct (Z.eqb_spec _ _); cbn; try done; lia. }
  unfold toUnix; cbn; unfold unixToInternal; rewrite int64_id by (unfold in_int64; lia); lia.
Qed.

Lemma headerModTime_fits hdr : numFits 12 (headerModTime hdr).
Proof. right; split; [done|]; pose proof (headerModTime_range hdr); lia. Qed.

(** ** Header blocks *)
Definition readStr (n : nat) (s : bytes) : bytes := parseString (strV n s).

Lemma readStr_plain n s : needsPax n s = false -> 0 ∉ s -> readStr n s = s.
Proof.
  unfold needsPax; intros [H1%Z.ltb_ge H2%negb_false_iff]%orb_false_iff Hn; unfold readStr, strV.
  rewrite (toASCII_ascii s H2), take_ge by (unfold len in H1; lia).
  apply parseString_formatString; [done..|]; rewrite length_replicate; unfold len in H1; lia.
Qed.

Definition isDev (hdr : Header) : bool := (h_Typeflag hdr =? TypeChar) || (h_Typeflag hdr =? TypeBlock).

(** What the block of a header alone tells the reader. *)
Definition readBack (hdr : Header) : Header :=
  mkHeader (readStr 100 (h_Name hdr)) (h_Mode hdr) (h_Uid hdr) (h_Gid hdr) (h_Size hdr)
    (Unix (headerModTime hdr) 0) (h_Typeflag hdr) (readStr 100 (h_Linkname hdr))
    (readStr 32 (h_Uname hdr)) (readStr 32 (h_Gname hdr))
    (if isDev hdr then h_Devmajor hdr else 0) (if isDev hdr then h_Devminor hdr else 0)
    zeroTime zeroTime None.

(** The numbers of a header that its fields can hold. *)
Definition numbersOk (hdr : Header) : Prop :=
  0 <= h_Mode hdr < 8 ^ 7 /\ 0 <= h_Uid hdr < 2 ^ 56 /\ 0 <= h_Gid hdr < 2 ^ 56 /\
  0 <= h_Size hdr < 2 ^ 63 /\ 0 <= h_Devmajor hdr < 2 ^ 56 /\ 0 <= h_Devminor hdr < 2 ^ 56.

Lemma fillErr_ok hdr : numbersOk hdr -> fillErr hdr = None.
Proof.
  intros (H1 & H2 & H3 & H4 & H5 & H6); unfold fillErr; rewrite octF_fits by done.
  rewrite !numF_fits; try done; try (left; done); try (right; done); apply headerModTime_fits.
Qed.

Lemma fillBlk_ok hdr : hdrBytes hdr -> block_ok (fillBlk hdr).
Proof. intros (? & ? & ? & ? & ?); unfold fillBlk; repeat (apply setF_ok; [|field_side..]); apply zeroBlock_ok. Qed.

(** The fields of the filled block. *)
Lemma fillBlk_fields hdr :
  hdrBytes hdr ->
  getF V7.Name (fillBlk hdr) = strV 100 (h_Name hdr) /\ getF V7.Mode (fillBlk hdr) = octV 8 (h_Mode hdr) /\
  getF V7.UID (fillBlk hdr) = numV 8 (h_Uid hdr) /\ getF V7.GID (fillBlk hdr) = numV 8 (h_Gid hdr) /\
  getF V7.Size (fillBlk hdr) = numV 12 (h_Size hdr) /\ getF V7.ModTime (fillBlk hdr) = numV 12 (headerModTime hdr) /\
  getF V7.TypeFlag (fillBlk hdr) = [h_Typeflag hdr] /\ getF V7.LinkName (fillBlk hdr) = strV 100 (h_Linkname hdr) /\
  getF USTAR.UserName (fillBlk hdr) = strV 32 (h_Uname hdr) /\ getF USTAR.GroupName (fillBlk hdr) = strV 32 (h_Gname hdr) /\
  getF USTAR.DevMajor (fillBlk hdr) = numV 8 (h_Devmajor hdr) /\ getF USTAR.DevMinor (fillBlk hdr) = numV 8 (h_Devminor hdr) /\
  (forall f, in_block f = true -> disjointF f (Field 0 345) = true -> getF f (fillBlk hdr) = replicate (f_size f) 0).
Proof.
  intros (? & ? & ? & ? & ?); unfold fillBlk.
  repeat (split; [repeat field_val; done|]).
  intros f Hin Hd.
  assert (D : forall o n, (o + n <= 345)%nat -> disjointF f (Field o n) = true).
  { intros o n Ho; unfold disjointF in *; cbn [f_off f_size] in *; apply orb_true_iff in Hd as [Hd%Nat.leb_le | Hd%Nat.leb_le];
      apply orb_true_iff; [left | right]; apply Nat.leb_le; lia. }
  rewrite !getF_setF_ne by first [field_side | apply D; cbn; lia]; by apply getF_zeroBlock.
Qed.

Lemma GetFormat_zeroBlock : GetFormat zeroBlock = formatUnknown.
Proof. vm_compute; reflexivity. Qed.

(** Times and prefixes of zero bytes. *)
Lemma tryParseTime_zeros : tryParseTime (replicate 12 0) = zeroTime.
Proof. vm_compute; reflexivity. Qed.

Lemma parseString_zeros n : parseString (replicate n 0) = [].
Proof. by destruct n. Qed.

(** The fields after the V7 ones, in the formats the writer uses. *)
Lemma unpackExt_written (bin : bool) blk hdr :
  getF USTAR.Prefix blk = replicate 155 0 \/ bin = true ->
  getF GNU.AccessTime blk = replicate 12 0 -> getF GNU.ChangeTime blk = replicate 12 0 ->
  unpackExt None (if bin then formatGNU else formatUSTAR) blk hdr =
    let hdr1 := set_Gname (parseString (getF USTAR.GroupName blk)) (set_Uname (parseString (getF USTAR.UserName blk)) hdr) in
    let '(p, hdr2) :=
      if isDev hdr then
        let '(p, major) := parseNumeric None (getF USTAR.DevMajor blk) in
        let '(p, minor) := parseNumeric p (getF USTAR.DevMinor blk) in (p, setDev major minor hdr1)
      else (None, hdr1) in
    (p, if bin then set_ChangeTime zeroTime (set_AccessTime zeroTime hdr2) else hdr2).
Proof.
  intros HP HA HC; unfold unpackExt; rewrite HA, HC, tryParseTime_zeros; cbv zeta.
  change (h_Typeflag (set_Gname (parseString (getF USTAR.GroupName blk))
    (set_Uname (parseString (getF USTAR.UserName blk)) hdr))) with (h_Typeflag hdr).
  fold (isDev hdr); destruct (if isDev hdr then _ else _) as [p hdr2]; destruct bin.
  - change (formatGNU =? formatUSTAR) with false; change (formatGNU =? formatSTAR) with false.
    change (formatGNU =? formatGNU) with true; reflexivity.
  - change (formatUSTAR =? formatUSTAR) with true; destruct HP as [-> | ?]; [|done].
    rewrite parseString_zeros; reflexivity.
Qed.

Lemma unpackV7_written hdr blk :
  numbersOk hdr ->
  getF V7.Name blk = strV 100 (h_Name hdr) -> getF V7.Mode blk = octV 8 (h_Mode hdr) ->
  getF V7.UID blk = numV 8 (h_Uid hdr) -> getF V7.GID blk = numV 8 (h_Gid hdr) ->
  getF V7.Size blk = numV 12 (h_Size hdr) -> getF V7.ModTime blk = numV 12 (headerModTime hdr) ->
  getF V7.TypeFlag blk = [h_Typeflag hdr] -> getF V7.LinkName blk = strV 100 (h_Linkname hdr) ->
  unpackV7 None blk = (None, mkHeader (readStr 100 (h_Name hdr)) (h_Mode hdr) (h_Uid hdr) (h_Gid hdr) (h_Size hdr)
    (Unix (headerModTime hdr) 0) (h_Typeflag hdr) (readStr 100 (h_Linkname hdr)) [] [] 0 0 zeroTime zeroTime None).
Proof.
  intros (N1 & N2 & N3 & N4 & _ & _) F1 F2 F3 F4 F5 F6 F7 F8; unfold unpackV7; rewrite F1, F2, F3, F4, F5, F6, F7, F8.
  rewrite octV_parse by done; rewrite (numV_parse _ 8 (h_Uid hdr)), (numV_parse _ 8 (h_Gid hdr)) by (left; done).
  rewrite (numV_parse _ 12 (h_Size hdr)) by (right; done); rewrite numV_parse by apply headerModTime_fits.
  unfold goint; rewrite !int64_id by (unfold in_int64; lia); reflexivity.
Qed.

(** A written header block is not a zero block, and unpacks to what the
    fields hold, in the USTAR and in the GNU format. *)
Lemma unpackHeader_fill hdr (bin : bool) blk :
  hdrBytes hdr -> numbersOk hdr ->
  SetFormat (fillBlk hdr) (if bin then formatGNU else formatUSTAR) = Ok blk ->
  block_ok blk /\ blk <> zeroBlock /\ unpackHeader blk = Ok (readBack hdr).
Proof.
  intros Hb HN E; pose proof (fillBlk_ok hdr Hb) as Hok.
  set (fmt := if bin then formatGNU else formatUSTAR) in *.
  assert (Hfmt : fmt ∈ [formatGNU; formatSTAR; formatUSTAR; formatPAX])
    by (unfold fmt; destruct bin; apply (bool_decide_eq_true_1 _); vm_compute; reflexivity).
  assert (Hv : valid_format fmt) by (unfold valid_format; rewrite elem_of_cons; by right).
  destruct (fillBlk_fields hdr Hb) as (F1 & F2 & F3 & F4 & F5 & F6 & F7 & F8 & F9 & F10 & F11 & F12 & FZ).
  destruct (SetFormat_format (fillBlk hdr) fmt Hok Hfmt) as (b' & E' & Hok' & Hget); rewrite E in E'; injection E' as <-.
  assert (Htr : getF STAR.Trailer (fillBlk hdr) = replicate 4 0) by (by apply FZ).
  rewrite Htr, bool_decide_eq_false_2 in Hget by done.
  assert (Hg : GetFormat blk = fmt) by (rewrite Hget; unfold fmt; by destruct bin).
  assert (P : forall f, disjointF f (Field 257 8) = true -> disjointF f STAR.Trailer = true -> disjointF f V7.Chksum = true ->
    getF f blk = getF f (fillBlk hdr)) by (intros f; by apply (SetFormat_fields (fillBlk hdr) fmt)).
  split; [done|]; split.
  { intros ->; rewrite GetFormat_zeroBlock in Hg; unfold fmt in Hg; by destruct bin. }
  unfold unpackHeader; rewrite Hg.
  replace (fmt =? formatUnknown) with false by (unfold fmt; by destruct bin).
  replace (formatV7 <? fmt) with true by (unfold fmt; by destruct bin).
  rewrite (unpackV7_written hdr) by (done || (rewrite P by done; done)).
  unfold fmt; rewrite unpackExt_written; [|left; rewrite P by done; by apply FZ | rewrite P by done; by apply FZ | rewrite P by done; by apply FZ].
  rewrite !(P USTAR.UserName), !(P USTAR.GroupName), !(P USTAR.DevMajor), !(P USTAR.DevMinor), F9, F10, F11, F12 by done.
  destruct HN as (_ & _ & _ & _ & N5 & N6).
  rewrite (numV_parse _ 8 (h_Devmajor hdr)), (numV_parse _ 8 (h_Devminor hdr)) by (left; done).
  unfold readBack; change (isDev (mkHeader _ _ _ _ _ _ (h_Typeflag hdr) _ _ _ _ _ _ _ _)) with (isDev hdr).
  by destruct (isDev hdr), bin.
Qed.

(** ** Extended headers *)

(** Records the reader accepts: no equals sign in the key, a value, and no
    keyword of the sparse format 0.0. *)
Definition paxOk (pax : TarWriter.paxMap) : Prop :=
  forall k v, pax !! k = Some v -> recordOk (k, v) /\ plainKey (k, v) /\ 0 < len v.

Lemma paxBody_records (keys : list bytes) (pax : TarWriter.paxMap) :
  paxBody keys pax = encodeRecords ((fun k => (k, default [] (pax !! k))) <$> merge_sort bytes_le keys).
Proof.
  unfold paxBody; induction (merge_sort bytes_le keys) as [|k l IH]; [done|].
  cbn [fmap list_fmap encodeRecords]; rewrite <- IH; reflexivity.
Qed.

Lemma paxRecords_perm (keys : list bytes) (pax : TarWriter.paxMap) :
  keys ≡ₚ (map_to_list pax).*1 ->
  (fun k => (k, default [] (pax !! k))) <$> merge_sort bytes_le keys ≡ₚ map_to_list pax.
Proof.
  intros Hk; rewrite merge_sort_Permutation, Hk, <- list_fmap_compose.
  assert (E : (fun k => (k, default [] (pax !! k))) ∘ fst <$> map_to_list pax = map_to_list pax); [|by rewrite E].
  rewrite <- (list_fmap_id (map_to_list pax)) at 2; apply Forall_fmap_ext_1, Forall_forall.
  intros [k v] Hin%elem_of_map_to_list; cbn; by rewrite Hin.
Qed.

(** The body of an extended header is parsed to the map it was made from. *)
Lemma paxBody_parse (keys : list bytes) (pax : TarWriter.paxMap) :
  keys ≡ₚ (map_to_list pax).*1 -> paxOk pax -> parsePAXBuf (paxBody keys pax) = Ok pax.
Proof.
  intros Hk Hok; rewrite paxBody_records.
  set (kvs := (fun k => (k, default [] (pax !! k))) <$> merge_sort bytes_le keys).
  assert (Hp : kvs ≡ₚ map_to_list pax) by (by apply paxRecords_perm).
  assert (Hall : Forall (fun kv => recordOk kv /\ plainKey kv /\ 0 < len kv.2) kvs).
  { rewrite Hp; apply Forall_forall; intros [k v] Hin%elem_of_map_to_list; cbn; by apply Hok. }
  assert (Hnd : NoDup kvs.*1) by (rewrite Hp; apply NoDup_fst_map_to_list).
  rewrite parsePAXBuf_records.
  - rewrite foldl_putRecord, (right_id_L ∅ (∪)); [|done|by eapply Forall_impl; [exact Hall | cbn; tauto]].
    f_equal; rewrite <- (list_to_map_to_list pax); by apply list_to_map_proper.
  - eapply Forall_impl; [exact Hall | cbn; tauto].
  - eapply Forall_impl; [exact Hall | cbn; tauto].
Qed.

(** The map of extended headers of [hdr]. *)
Definition fullPax (hdr : Header) : TarWriter.paxMap := addXattrs hdr (fillPax hdr).

Lemma addXattrs_list (l : list (bytes * bytes)) (m : TarWriter.paxMap) k :
  NoDup l.*1 ->
  foldr (fun '(k, v) m => <[paxXattr ++ k := v]> m) m l !! (paxXattr ++ k) =
    match (list_to_map l : TarWriter.paxMap) !! k with Some v => Some v | None => m !! (paxXattr ++ k) end.
Proof.
  induction l as [|[k' v'] l IH]; intros Hnd; [done|]; cbn [foldr list_to_map fmap list_fmap fst] in *.
  apply NoDup_cons in Hnd as [_ Hnd]; destruct (decide (k' = k)) as [->|Hne].
  - by rewrite !lookup_insert_eq.
  - rewrite !lookup_insert_ne; [by apply IH | done|]; intros E; by apply app_inv_head in E.
Qed.

Lemma addXattrs_xattr hdr m k :
  addXattrs hdr m !! (paxXattr ++ k) = match xattr hdr k with Some v => Some v | None => m !! (paxXattr ++ k) end.
Proof.
  unfold addXattrs, xattr; rewrite addXattrs_list by apply NoDup_fst_map_to_list.
  by rewrite list_to_map_to_list.
Qed.

Lemma addXattrs_other hdr m k : (forall x, k <> paxXattr ++ x) -> addXattrs hdr m !! k = m !! k.
Proof.
  intros Hk; unfold addXattrs; induction (map_to_list _) as [|[k' v'] l IH]; [done|]; cbn [foldr].
  rewrite lookup_insert_ne; [done|]; intros E; by apply (Hk k').
Qed.

Lemma addXattrs_inv hdr m k v :
  addXattrs hdr m !! k = Some v -> m !! k = Some v \/ exists x, k = paxXattr ++ x /\ xattr hdr x = Some v.
Proof.
  destruct (HasPrefix k paxXattr) eqn:Hp.
  - apply HasPrefix_split in Hp; set (x := drop (length paxXattr) k) in *; rewrite Hp, addXattrs_xattr.
    destruct (xattr hdr x) eqn:E; [|by left]; intros [= ->]; right; by exists x.
  - rewrite addXattrs_other; [by left|]; intros x ->; unfold HasPrefix in Hp.
    by rewrite take_app_length, bool_decide_eq_true_2 in Hp.
Qed.

(** ** Headers that survive *)

(** A string: bytes, without a NUL unless it goes to an extended header. *)
Definition strOk (n : nat) (s : bytes) : Prop :=
  bytes_ok s /\ (needsPax n s = false -> 0 ∉ s) /\ len s < 2 ^ 60.

Record headerOk (hdr : Header) : Prop := {
  ho_numbers : numbersOk hdr;
  ho_name : strOk 100 (h_Name hdr);
  ho_link : strOk 100 (h_Linkname hdr);
  ho_uname : strOk 32 (h_Uname hdr);
  ho_gname : strOk 32 (h_Gname hdr);
  ho_flag : is_byte (h_Typeflag hdr);
  ho_meta : h_Typeflag hdr ∉ [TypeXHeader; TypeGNULongName; TypeGNULongLink; TypeGNUSparse];
  ho_xattrs : forall k v, xattr hdr k = Some v -> (61 ∉ k) /\ 0 < len v /\ len k + len v < 2 ^ 60
}.

(** What is read back: the times the format does not store are zero. *)
Definition normHdr (hdr : Header) : Header :=
  mkHeader (h_Name hdr) (h_Mode hdr) (h_Uid hdr) (h_Gid hdr) (h_Size hdr) (Unix (headerModTime hdr) 0)
    (h_Typeflag hdr) (h_Linkname hdr) (h_Uname hdr) (h_Gname hdr)
    (if isDev hdr then h_Devmajor hdr else 0) (if isDev hdr then h_Devminor hdr else 0)
    zeroTime zeroTime (h_Xattrs hdr).

(** Headers that are equal but for a nil map of attributes being an empty one. *)
#[export] Instance hdrEquiv : Equiv Header :=
  fun h1 h2 => set_Xattrs None h1 = set_Xattrs None h2 /\ forall k, xattr h1 k = xattr h2 k.
#[export] Instance hdrEquiv_equivalence : Equivalence (≡@{Header}).
Proof.
  split; [done | intros h1 h2 [? ?]; split; [done|]; intros k; auto | intros h1 h2 h3 [? ?] [? ?]; split; [congruence|]].
  intros k; congruence.
Qed.
#[export] Instance xattr_proper : Proper ((≡) ==> (=) ==> (=)) xattr.
Proof. intros h1 h2 [_ H] k ? <-; apply H. Qed.
#[export] Instance h_Name_proper : Proper ((≡) ==> (=)) h_Name.
Proof. intros h1 h2 [H _]; exact (f_equal h_Name H). Qed.
#[export] Instance h_Size_proper : Proper ((≡) ==> (=)) h_Size.
Proof. intros h1 h2 [H _]; exact (f_equal h_Size H). Qed.
#[export] Instance h_Typeflag_proper : Proper ((≡) ==> (=)) h_Typeflag.
Proof. intros h1 h2 [H _]; exact (f_equal h_Typeflag H). Qed.

Lemma hdrBytes_ok hdr : headerOk hdr -> hdrBytes hdr.
Proof. intros [_ [] [] [] [] ? _ _]; by split_and!. Qed.

(** ** The extended headers of a header *)
Lemma strPax_lookup (n : nat) (s : bytes) (k : bytes) (m : TarWriter.paxMap) (k' : bytes) :
  strPax n s k m !! k' = if decide (k = k') then (if needsPax n s then Some s else m !! k') else m !! k'.
Proof.
  unfold strPax; destruct (needsPax n s), (decide (k = k')) as [->|]; try done.
  - apply lookup_insert_eq.
  - by apply lookup_insert_ne.
Qed.

Lemma fillPax_inv hdr (k v : bytes) :
  fillPax hdr !! k = Some v ->
  (k, v) ∈ [(paxGname, h_Gname hdr); (paxUname, h_Uname hdr); (paxLinkpath, h_Linkname hdr); (paxPath, h_Name hdr)] /\
  exists n, (n, v) ∈ [(32%nat, h_Gname hdr); (32%nat, h_Uname hdr); (100%nat, h_Linkname hdr); (100%nat, h_Name hdr)] /\
    needsPax n v = true.
Proof.
  unfold fillPax; rewrite !strPax_lookup, lookup_empty.
  repeat match goal with |- context [decide (?a = k)] => destruct (decide (a = k)) as [<-|] end;
    intros Hl; repeat match type of Hl with context [needsPax ?n ?s] => destruct (needsPax n s) eqn:? end;
    simplify_eq; (split; [set_solver | eexists; split; [|eassumption]; set_solver]).
Qed.

Lemma fillPax_lookup hdr :
  fillPax hdr !! paxPath = (if needsPax 100 (h_Name hdr) then Some (h_Name hdr) else None) /\
  fillPax hdr !! paxLinkpath = (if needsPax 100 (h_Linkname hdr) then Some (h_Linkname hdr) else None) /\
  fillPax hdr !! paxUname = (if needsPax 32 (h_Uname hdr) then Some (h_Uname hdr) else None) /\
  fillPax hdr !! paxGname = (if needsPax 32 (h_Gname hdr) then Some (h_Gname hdr) else None).
Proof. unfold fillPax; rewrite !strPax_lookup, !lookup_empty; repeat split. Qed.

Lemma needsPax_nonempty n s : needsPax n s = true -> 0 < len s.
Proof. destruct s as [|c s]; [unfold needsPax; destruct (Z.ltb_spec (Z.of_nat n) (len (@nil Z))); cbn in *; [lia | done] | rewrite len_cons; pose proof (len_nonneg s); lia]. Qed.

(** A keyword of the source. *)
Definition keywords : list bytes :=
  [paxGname; paxUname; paxLinkpath; paxPath; paxUid; paxGid; paxSize; paxAtime; paxMtime; paxCtime;
   paxGNUSparseOffset; paxGNUSparseNumBytes; paxGNUSparseMajor; paxGNUSparseMinor; paxGNUSparseName;
   paxGNUSparseMap; paxGNUSparseSize; paxGNUSparseRealSize].

Lemma keyword_not_xattr (k x : bytes) : k ∈ keywords -> k <> paxXattr ++ x.
Proof.
  intros Hk ->; assert (A : forallb (fun k => negb (bool_decide (take 4 k = str "SCHI"))) keywords = true) by (vm_compute; reflexivity).
  rewrite forallb_forall in A; specialize (A (paxXattr ++ x)); rewrite <- list_elem_of_In in A; specialize (A Hk).
  cbv beta in A; rewrite take_app_le in A by (vm_compute; lia).
  vm_compute in A; discriminate.
Qed.

Lemma fullPax_keyword hdr (k : bytes) : k ∈ keywords -> fullPax hdr !! k = fillPax hdr !! k.
Proof. intros Hk; apply addXattrs_other; intros x; by apply keyword_not_xattr. Qed.

Lemma fullPax_xattr hdr (k : bytes) : fullPax hdr !! (paxXattr ++ k) = xattr hdr k.
Proof.
  unfold fullPax; rewrite addXattrs_xattr; destruct (xattr hdr k); [done|].
  destruct (fillPax hdr !! (paxXattr ++ k)) eqn:E; [exfalso|done].
  apply fillPax_inv in E as [E _].
  refine (keyword_not_xattr (paxXattr ++ k) k _ eq_refl); unfold keywords; set_solver.
Qed.

Lemma str_ne_by_check (a b : bytes) : bool_decide (a = b) = false -> a <> b.
Proof. intros H E; by rewrite bool_decide_eq_true_2 in H. Qed.

(** The keywords the writer does not use. *)
Lemma fullPax_unused hdr (k : bytes) :
  k ∈ keywords -> k ∉ [paxGname; paxUname; paxLinkpath; paxPath] -> fullPax hdr !! k = None.
Proof.
  intros Hk Hn; rewrite fullPax_keyword by done; destruct (fillPax hdr !! k) eqn:E; [exfalso|done].
  apply fillPax_inv in E as [E _]; set_solver.
Qed.

Lemma fullPax_ok hdr : headerOk hdr -> paxOk (fullPax hdr).
Proof.
  intros Hok k v Hk; apply addXattrs_inv in Hk as [Hk | (x & -> & Hx)].
  - apply fillPax_inv in Hk as [Hkv (n & Hnv & Hneed)]; apply needsPax_nonempty in Hneed.
    assert (Hv : len v < 2 ^ 60).
    { destruct Hok as [_ [_ [_ ?]] [_ [_ ?]] [_ [_ ?]] [_ [_ ?]] _ _ _].
      rewrite !elem_of_cons, elem_of_nil in Hkv; destruct_or!; simplify_eq; done. }
    assert (Hkk : k ∈ [paxGname; paxUname; paxLinkpath; paxPath]) by set_solver.
    assert (C : forallb (fun k => bool_decide (61 ∉ k) && (len k <? 100) && (0 <=? len k) && bool_decide (k <> paxGNUSparseOffset) &&
      bool_decide (k <> paxGNUSparseNumBytes)) [paxGname; paxUname; paxLinkpath; paxPath] = true) by (vm_compute; reflexivity).
    rewrite forallb_forall in C; specialize (C k (proj1 (list_elem_of_In _ _) Hkk)).
    repeat (apply andb_true_iff in C as [C ?%bool_decide_eq_true_1] || apply andb_true_iff in C as [C ?]).
    apply bool_decide_eq_true_1 in C.
    split; [split; cbn; [done|lia] | split; [split; done | done]].
  - destruct (ho_xattrs hdr Hok x v Hx) as (H1 & H2 & H3).
    split; [split; cbn [fst snd]; [|rewrite len_app; change (len paxXattr) with 13; pose proof (len_nonneg x); lia]|split; [|done]].
    + assert (61 ∉ paxXattr) by (apply (bool_decide_eq_true_1 _); vm_compute; reflexivity).
      rewrite elem_of_app; tauto.
    + split; cbn [fst]; intros E; symmetry in E; revert E; apply keyword_not_xattr; unfold keywords; set_solver.
Qed.

Lemma mergeLoop_total_merged m h :
  (forall k v, m !! k = Some v -> keywordOk k v) -> exists h', mergePAX h m = Ok h' /\ headerMerged m h h'.
Proof.
  intros Hk; unfold mergePAX.
  destruct (proj1 (mergeLoop_ok (map_to_list m) h)) as [h' E].
  { apply Forall_forall; intros [k v] Hin%elem_of_map_to_list; by apply Hk. }
  exists h'; split; [done|]; rewrite <- (list_to_map_to_list m) at 1.
  apply mergeLoop_merged; [apply NoDup_fst_map_to_list | done].
Qed.

(** A string field after merging: the field, or the extended header. *)
Lemma readStr_merged (n : nat) (s : bytes) :
  strOk n s -> default (readStr n s) (if needsPax n s then Some s else None) = s.
Proof. intros (_ & Hn & _); destruct (needsPax n s) eqn:E; [done|]; cbn; apply readStr_plain; auto. Qed.

Lemma merge_readBack hdr :
  headerOk hdr -> exists h', mergePAX (readBack hdr) (fullPax hdr) = Ok h' /\ h' ≡ normHdr hdr.
Proof.
  intros Hok; destruct (mergeLoop_total_merged (fullPax hdr) (readBack hdr)) as (h' & E & Hm).
  { intros k v Hk; split; intros Hin; exfalso.
    - rewrite fullPax_unused in Hk; [done | unfold keywords; set_solver |].
      revert Hin; rewrite !elem_of_cons, elem_of_nil; intros Hin; destruct_or!; subst; try done;
        apply (bool_decide_eq_true_1 _); vm_compute; reflexivity.
    - rewrite fullPax_unused in Hk; [done | unfold keywords; set_solver |].
      revert Hin; rewrite !elem_of_cons, elem_of_nil; intros Hin; destruct_or!; subst; try done;
        apply (bool_decide_eq_true_1 _); vm_compute; reflexivity. }
  exists h'; split; [done|]; destruct Hm as [M1 M2 M3 M4 M5 M6 M7 M8 M9 M10 M11 M12].
  destruct (fillPax_lookup hdr) as (L1 & L2 & L3 & L4).
  rewrite fullPax_keyword, L1 in M1 by (unfold keywords; set_solver).
  rewrite fullPax_keyword, L2 in M2 by (unfold keywords; set_solver).
  rewrite fullPax_keyword, L3 in M3 by (unfold keywords; set_solver).
  rewrite fullPax_keyword, L4 in M4 by (unfold keywords; set_solver).
  assert (U : forall k, k ∈ [paxUid; paxGid; paxSize; paxAtime; paxMtime; paxCtime] -> fullPax hdr !! k = None).
  { intros k Hk; apply fullPax_unused; [unfold keywords; set_solver|].
    revert Hk; rewrite !elem_of_cons, elem_of_nil; intros Hk; destruct_or!; subst; try done;
      apply (bool_decide_eq_true_1 _); vm_compute; reflexivity. }
  rewrite U in M5, M6, M7, M8, M9, M10 by set_solver; cbn [readBack h_Name h_Linkname h_Uname h_Gname h_Mode h_Uid h_Gid
    h_Size h_ModTime h_Typeflag h_Devmajor h_Devminor h_AccessTime h_ChangeTime] in *.
  rewrite readStr_merged in M1, M2, M3, M4 by apply Hok; injection M12 as R1 R2 R3 R4.
  split.
  - destruct h'; unfold set_Xattrs, normHdr; cbn in *; by subst.
  - intros k; rewrite M11, fullPax_xattr; change (xattr (normHdr hdr) k) with (xattr hdr k).
    destruct (xattr hdr k); [done | apply lookup_empty].
Qed.

Lemma fullPax_no_sparse hdr : sparseFormatOf (fullPax hdr) = None.
Proof.
  unfold sparseFormatOf.
  assert (U : forall k, k ∈ [paxGNUSparseMajor; paxGNUSparseMinor; paxGNUSparseName; paxGNUSparseMap; paxGNUSparseSize] ->
    fullPax hdr !! k = None).
  { intros k Hk; apply fullPax_unused; [unfold keywords; set_solver|].
    revert Hk; rewrite !elem_of_cons, elem_of_nil; intros Hk; destruct_or!; subst; try done;
      apply (bool_decide_eq_true_1 _); vm_compute; reflexivity. }
  rewrite !U by set_solver; reflexivity.
Qed.

(** ** The bytes of an entry *)

(** Padding to the next block. *)
Definition padOf (n : Z) : Z := (- n) mod 512.
Definition padding (n : Z) : bytes := replicate (Z.to_nat (padOf n)) 0.

Lemma padOf_range n : 0 <= padOf n < 512.
Proof. unfold padOf; apply Z.mod_pos_bound; lia. Qed.

Lemma padOf_reader n : Z.land (- n) (blockSize - 1) = padOf n.
Proof. change (blockSize - 1) with (Z.ones 9); by rewrite Z.land_ones by lia. Qed.

Lemma padOf_writer n : 0 <= n -> Z.rem (blockSize - Z.rem n blockSize) blockSize = padOf n.
Proof.
  intros Hn; change blockSize with 512; unfold padOf.
  pose proof (Z.mod_pos_bound n 512 ltac:(lia)); pose proof (Z.div_mod n 512 ltac:(lia)).
  rewrite (Z.rem_mod_nonneg n) by lia; rewrite Z.rem_mod_nonneg by lia.
  replace (512 - n mod 512) with (- n + (1 + n / 512) * 512) by lia; by rewrite Z.mod_add.
Qed.

Lemma len_padding n : len (padding n) = padOf n.
Proof. unfold padding, len; rewrite length_replicate; pose proof (padOf_range n); lia. Qed.

Definition hdrBlock (bin : bool) (hdr : Header) : block :=
  match SetFormat (fillBlk hdr) (if bin then formatGNU else formatUSTAR) with Ok b => b | _ => [] end.

Definition bodyOf (hdr : Header) : bytes := paxBody ((map_to_list (fullPax hdr)).*1) (fullPax hdr).
Definition extOf (hdr : Header) : Header := paxExtHeader hdr (bodyOf hdr).

(** The flag [usedBinary] after the fields of a header, and after all of
    [WriteHeader]. *)
Definition binMain (bin : bool) (hdr : Header) : bool := bin || fillBin hdr.
Definition binNext (bin : bool) (hdr : Header) : bool :=
  if bool_decide (fullPax hdr = ∅) then binMain bin hdr else binMain (binMain bin hdr) (extOf hdr).

(** What [WriteHeader] writes after the padding. *)
Definition headerBytes (bin : bool) (hdr : Header) : bytes :=
  (if bool_decide (fullPax hdr = ∅) then []
   else hdrBlock (binMain (binMain bin hdr) (extOf hdr)) (extOf hdr) ++ bodyOf hdr ++ padding (len (bodyOf hdr))) ++
  hdrBlock (binMain bin hdr) hdr.

(** Entries that survive: the data has the announced size. *)
Record entryOk (e : Header * bytes) : Prop := {
  eo_header : headerOk e.1;
  eo_size : len e.2 = h_Size e.1;
  eo_meta : isHeaderOnlyType (h_Typeflag e.1) = true -> h_Size e.1 = 0;
  eo_bound : h_Size e.1 < 2 ^ 63 - 512;
  eo_body : len (bodyOf e.1) < 2 ^ 63 - 512
}.

(** The meta file's header is plain: its name is ASCII and short. *)
Lemma toASCII_below s : bytes_ok s -> Forall (fun c => c < 0x80) (toASCII s).
Proof.
  intros Hs; rewrite toASCII_filter by done; apply Forall_forall; intros c [Hc _]%list_elem_of_filter; exact Hc.
Qed.

Lemma extName_ok hdr : bytes_ok (h_Name hdr) ->
  bytes_ok (h_Name (extOf hdr)) /\ needsPax 100 (h_Name (extOf hdr)) = false.
Proof.
  intros Hb; unfold extOf, paxExtHeader, PathSplit; cbn [set_Size set_Name h_Name].
  set (full := PathJoin _).
  assert (Hf : bytes_ok full).
  { apply PathJoin_forall; [unfold is_byte; lia | unfold is_byte, slash; lia|].
    constructor; [by apply slice_forall|]; constructor; [|constructor; [by apply slice_forall | constructor]].
    repeat constructor; vm_compute; discriminate. }
  rewrite slice_take; change (Z.to_nat nameSize) with 100%nat; change nameSize with 100.
  assert (Ht : (if 100 <? len (toASCII full) then take 100 (toASCII full) else toASCII full) = take 100 (toASCII full)).
  { destruct (Z.ltb_spec 100 (len (toASCII full))); [done|]; symmetry; apply take_ge; unfold len in *; lia. }
  rewrite Ht; split; [by apply Forall_take, toASCII_ok|].
  unfold needsPax; apply orb_false_iff; split.
  - apply Z.ltb_ge; unfold len; rewrite length_take; lia.
  - apply negb_false_iff, isASCII_spec; [by apply Forall_take, toASCII_ok | by apply Forall_take, toASCII_below].
Qed.

Lemma ext_plain hdr : headerOk hdr -> len (bodyOf hdr) < 2 ^ 63 ->
  hdrBytes (extOf hdr) /\ numbersOk (extOf hdr) /\ fillPax (extOf hdr) = ∅ /\ h_Typeflag (extOf hdr) = TypeXHeader /\
  h_Size (extOf hdr) = len (bodyOf hdr).
Proof.
  intros Hok Hl; destruct (extName_ok hdr) as [Hn Hp]; [apply Hok|].
  assert (F : h_Mode (extOf hdr) = 0 /\ h_Uid (extOf hdr) = 0 /\ h_Gid (extOf hdr) = 0 /\ h_Devmajor (extOf hdr) = 0 /\
    h_Devminor (extOf hdr) = 0 /\ h_Linkname (extOf hdr) = [] /\ h_Uname (extOf hdr) = [] /\ h_Gname (extOf hdr) = [] /\
    h_Typeflag (extOf hdr) = TypeXHeader /\ h_Size (extOf hdr) = len (bodyOf hdr)).
  { unfold extOf, paxExtHeader; destruct (PathSplit (h_Name hdr)); by cbn. }
  destruct F as (E1 & E2 & E3 & E4 & E5 & E6 & E7 & E8 & E9 & E10); pose proof (len_nonneg (bodyOf hdr)).
  split; [|split; [|split; [|done]]].
  - unfold hdrBytes; rewrite E6, E7, E8, E9; split; [done|]; split; [unfold is_byte, TypeXHeader; lia|]; repeat split; constructor.
  - unfold numbersOk; rewrite E1, E2, E3, E4, E5, E10; lia.
  - unfold fillPax, strPax; rewrite E6, E7, E8, Hp; reflexivity.
Qed.
