(* ===== verification/TarRoundtrip.v ===== *)
(** * What the archive writer writes, the archive reader reads

    The writer's methods on a sink, the reader's on a stream, and the two
    clients that write and read a whole archive. *)
From stdpp Require Import sorting.
From S2P Require Import Prelude GoInt GoString GoTime GoIO GoPath TarStrconv TarFormat TarCommon TarSparse.
From S2P Require Import TarReader TarPax TarStream TarWriter TarFill TarArchive.
Open Scope go_scope.

(** ** Two clients *)

(** Writes every entry and closes the archive; stops at the first error. *)
Section WriteAll.
Context {W : Type} `{IoWriter W}.

Definition writeEntry (fuel : nat) (e : Header * bytes) : M (Writer W) (option error) :=
  let! err := WriteHeader fuel e.1 in
  match err with
  | Some _ => ret err
  | None => let! (_, err) := Write e.2 in ret err
  end.

Fixpoint writeArchive (fuel : nat) (es : list (Header * bytes)) : M (Writer W) (option error) :=
  match es with
  | [] => Close fuel
  | e :: es =>
      let! err := writeEntry fuel e in
      match err with Some _ => ret err | None => writeArchive fuel es end
  end.
End WriteAll.

(** Reads every entry with its data. *)
Section ReadAll.
Context {S : Type} `{IoReader S}.

Definition readEntry (fuel : nat) : M (Reader S) (Header * bytes) :=
  let! hdr := Next fuel in
  let! (data, err) := ReadAll Read fuel in
  match err with Some e => throw e | None => ret (hdr, data) end.

Fixpoint readArchive (fuel n : nat) : M (Reader S) (list (Header * bytes)) :=
  match n with
  | O => lift OutOfFuel
  | Datatypes.S n =>
      let! res := attempt (readEntry fuel) in
      match res with
      | inr e => if bool_decide (e = EOF) then ret [] else throw e
      | inl e => let! es := readArchive fuel n in ret (e :: es)
      end
  end.
End ReadAll.

(** ** The two header buffers

    [writePAXHeader] fills [tw.paxHdrBuff], and leaves the header that the
    caller is about to write in [tw.hdrBuff]. *)
Section Buffers.
Context {W : Type} `{IoWriter W}.
Variable fuel : nat.
Variable blk : block.
Let sameBuf (tw : Writer W) : Prop := tw_hdrBuff tw = blk.

Lemma sameBuf_upd f : (forall tw, tw_hdrBuff (f tw) = tw_hdrBuff tw) -> keeps sameBuf (upd f).
Proof. intros Hf tw Htw; unfold sameBuf, upd; cbn [snd]; by rewrite Hf. Qed.

Lemma sameBuf_writeW b : keeps sameBuf (writeW b).
Proof. intros tw Htw; unfold writeW; by destruct (io_write (tw_w tw) b) as [[n e] w']. Qed.
#[local] Hint Resolve sameBuf_writeW : core.
#[local] Hint Extern 1 (keeps sameBuf (upd _)) => (apply sameBuf_upd; intros; reflexivity) : core.

Ltac buf := repeat first
  [ solve [auto with arkive] | progress cbv zeta | apply keeps_bind; [|intros]
  | match goal with |- keeps _ (match ?x with _ => _ end) => destruct x end ].

Lemma sameBuf_Flush : keeps sameBuf (Flush fuel).
Proof.
  assert (L : forall n, keeps sameBuf (flushLoop fuel n)).
  { clear; induction fuel as [|f IH]; intros n; cbn [flushLoop]; buf. }
  unfold Flush; buf.
Qed.

Lemma sameBuf_Write b : keeps sameBuf (Write b).
Proof. unfold Write; buf. Qed.
#[local] Hint Resolve sameBuf_Flush sameBuf_Write : core.

Lemma sameBuf_writePAXHeader hdr pax : keeps sameBuf (writePAXHeader fuel hdr pax).
Proof. unfold writePAXHeader, writeHeaderNoPax, writeHeaderWith, writeBlock; buf. Qed.
End Buffers.

(** ** The writer on a sink *)
Section WriteSink.
Context {W : Type} `{IoSink W}.
Variable fuel : nat.
Hypothesis Hfuel : (2 <= fuel)%nat.

(** The writer after [n] missing bytes of an entry, then [p] of padding. *)
Record writing (bin : bool) (n p : Z) (o : bytes) (tw : Writer W) : Prop := {
  wr_err : tw_err tw = None;
  wr_open : tw_closed tw = false;
  wr_pax : tw_preferPax tw = false;
  wr_bin : tw_usedBinary tw = bin;
  wr_nb : tw_nb tw = n;
  wr_pad : tw_pad tw = p;
  wr_padr : 0 <= p < 512;
  wr_out : out tw = o
}.

Lemma NewWriter_writing w : writing false 0 0 (io_out w) (NewWriter w).
Proof. by split. Qed.

Lemma Flush_writing bin p o tw :
  writing bin 0 p o tw ->
  exists tw', Flush fuel tw = (Ok None, tw') /\ writing bin 0 0 (o ++ replicate (Z.to_nat p) 0) tw'.
Proof.
  intros [He Ho Hx Hb Hn Hp Hr Hout]; destruct (Flush_sink fuel tw He Hn ltac:(lia) Hfuel) as (w' & E & Hw).
  exists (setTw w' None 0 0 tw); split; [done|]; split; try done; unfold out; cbn; by rewrite Hw, Hout, Hp.
Qed.

Lemma Write_writing bin n p o (b : bytes) tw :
  writing bin n p o tw -> len b = n ->
  exists tw', Write b tw = (Ok (n, None), tw') /\ writing bin 0 p (o ++ b) tw'.
Proof using Type.
  clear Hfuel; intros [He Ho Hx Hb Hn Hp Hr Hout] Hl; pose proof (len_nonneg b).
  destruct (Write_sink b tw Ho ltac:(lia)) as (w' & E & Hw).
  rewrite Hn, Hl, Z.ltb_irrefl, Z.min_id, Z.sub_diag in E; eexists; split; [exact E|].
  split; try done; unfold out; cbn; rewrite Hw, Hout, Hn, take_ge; [done|]; unfold len in *; lia.
Qed.

Lemma hdrBlock_eq (bin : bool) hdr blk :
  SetFormat (fillBlk hdr) (if bin then formatGNU else formatUSTAR) = Ok blk -> hdrBlock bin hdr = blk.
Proof. unfold hdrBlock; intros E; by rewrite E. Qed.

Lemma fill_writing bin n p o hdr tw :
  writing bin n p o tw -> hdrBytes hdr ->
  fillHeader (tw_preferPax tw) (tw_usedBinary tw) hdr =
    mkHdrState (fillBlk hdr) (fillPax hdr) (fillErr hdr) (binMain bin hdr).
Proof. intros [_ _ -> -> _ _ _ _] Hby; by apply fillHeader_eq. Qed.

(** The block of a header whose fields need no extended header. *)
Lemma writeHeaderNoPax_writing bin p o hdr tw :
  writing bin 0 p o tw -> hdrBytes hdr -> numbersOk hdr -> fillPax hdr = ∅ ->
  exists tw', writeHeaderNoPax fuel hdr tw = (Ok None, tw') /\
    writing (binMain bin hdr) (h_Size hdr) (padOf (h_Size hdr))
      (o ++ replicate (Z.to_nat p) 0 ++ hdrBlock (binMain bin hdr) hdr) tw'.
Proof.
  intros Hw Hby Hnum Hpax; pose proof Hw as [He Ho Hx Hb Hn Hp Hr Hout]; unfold writeHeaderNoPax.
  destruct (writeHeaderWith_sink (fun _ _ => lift OutOfFuel) fuel hdr false tw _ _ _ _ Ho He Hn ltac:(lia) Hfuel
    (fill_writing _ _ _ _ hdr tw Hw Hby)) as (blk & w' & Eb & Hw' & E).
  remember (setHeaderBuff false blk (setUsedBinary (binMain bin hdr) (setTw w' None 0 0 tw))) as tw2 eqn:Etw2.
  rewrite (E tw2 (fillPax hdr)) by done; clear E; rewrite fillErr_ok, bool_decide_eq_true_2 by done.
  destruct (writeBlock_sink false hdr tw2) as (w'' & E' & Hw''); rewrite E'; eexists; split; [reflexivity|].
  split; rewrite ?Etw2; try done; [apply padOf_writer; apply Hnum | apply padOf_range |].
  unfold out at 1; cbn [tw_w setTw]; rewrite Hw'', Etw2; unfold out at 1; cbn [tw_w setHeaderBuff setUsedBinary setTw headerBuff tw_paxHdrBuff].
  by rewrite Hw', Hout, Hp, (hdrBlock_eq _ hdr blk Eb), <- app_assoc.
Qed.

(** The meta file of the extended headers. *)
Lemma writePAXHeader_writing bin hdr tw o :
  writing bin 0 0 o tw -> headerOk hdr -> len (bodyOf hdr) < 2 ^ 63 ->
  exists tw', writePAXHeader fuel hdr (fullPax hdr) tw = (Ok None, tw') /\
    writing (binMain bin (extOf hdr)) 0 0
      (o ++ hdrBlock (binMain bin (extOf hdr)) (extOf hdr) ++ bodyOf hdr ++ padding (len (bodyOf hdr))) tw'.
Proof.
  intros Hw Hok Hl; destruct (ext_plain hdr Hok Hl) as (H1 & H2 & H3 & _ & Hs).
  destruct (writeHeaderNoPax_writing bin 0 o (extOf hdr) tw Hw H1 H2 H3) as (tw1 & E1 & Hw1).
  unfold writePAXHeader; fold (bodyOf hdr) (extOf hdr); unfold bind at 1; rewrite E1; cbn match.
  rewrite Hs in Hw1; destruct (Write_writing _ _ _ _ (bodyOf hdr) tw1 Hw1 eq_refl) as (tw2 & E2 & Hw2).
  unfold bind at 1; rewrite E2; cbn match.
  destruct (Flush_writing _ _ _ tw2 Hw2) as (tw3 & E3 & Hw3); rewrite E3; exists tw3; split; [done|].
  unfold padding; change (replicate (Z.to_nat 0) 0) with (@nil Z) in Hw3; by rewrite <- !app_assoc in Hw3.
Qed.

Lemma setUsed_writing bin bin' blk allow o tw w' :
  writing bin 0 (tw_pad tw) o tw -> io_out w' = o ++ replicate (Z.to_nat (tw_pad tw)) 0 ->
  writing bin' 0 0 (o ++ replicate (Z.to_nat (tw_pad tw)) 0)
    (setHeaderBuff allow blk (setUsedBinary bin' (setTw w' None 0 0 tw))).
Proof. intros [He Ho Hx Hb Hn Hp Hr Hout] Hw; by split; destruct allow. Qed.

Lemma WriteHeader_writing bin p o hdr tw :
  writing bin 0 p o tw -> headerOk hdr -> len (bodyOf hdr) < 2 ^ 63 ->
  exists tw', WriteHeader fuel hdr tw = (Ok None, tw') /\
    writing (binNext bin hdr) (h_Size hdr) (padOf (h_Size hdr))
      (o ++ replicate (Z.to_nat p) 0 ++ headerBytes bin hdr) tw'.
Proof.
  intros Hw Hok Hl; pose proof Hw as [He Ho Hx Hb Hn Hp Hr Hout]; pose proof (hdrBytes_ok hdr Hok) as Hby.
  unfold WriteHeader, headerBytes, binNext.
  destruct (writeHeaderWith_sink (writePAXHeader fuel) fuel hdr true tw _ _ _ _ Ho He Hn ltac:(lia) Hfuel
    (fill_writing _ _ _ _ hdr tw Hw Hby)) as (blk & w' & Eb & Hw' & E).
  remember (setHeaderBuff true blk (setUsedBinary (binMain bin hdr) (setTw w' None 0 0 tw))) as tw2 eqn:Etw2.
  rewrite (E tw2 (fullPax hdr)) by done; clear E; rewrite fillErr_ok by apply Hok.
  assert (Hw2 : writing (binMain bin hdr) 0 0 (o ++ replicate (Z.to_nat p) 0) tw2).
  { rewrite Etw2, <- Hp; apply (setUsed_writing bin); [by rewrite Hp | by rewrite Hw', Hout]. }
  assert (Hblk : headerBuff true tw2 = hdrBlock (binMain bin hdr) hdr) by (by rewrite (hdrBlock_eq _ hdr blk Eb), Etw2).
  assert (Hb2 : tw_hdrBuff tw2 = blk) by (by rewrite Etw2); clear Etw2.
  assert (Last : forall tw3 bin3 o3, writing bin3 0 0 o3 tw3 -> tw_hdrBuff tw3 = blk ->
    exists tw', writeBlock true hdr tw3 = (Ok None, tw') /\
      writing bin3 (h_Size hdr) (padOf (h_Size hdr)) (o3 ++ hdrBlock (binMain bin hdr) hdr) tw').
  { intros tw3 bin3 o3 [He3 Ho3 Hx3 Hb3 Hn3 Hp3 Hr3 Hout3] Hbuf.
    destruct (writeBlock_sink true hdr tw3) as (w3 & E3 & Hw3); rewrite E3; eexists; split; [reflexivity|].
    split; try done; [apply padOf_writer; apply (ho_numbers hdr Hok) | apply padOf_range |].
    unfold out; cbn [tw_w setTw headerBuff] in *; by rewrite Hw3, Hout3, Hbuf, (hdrBlock_eq _ hdr blk Eb). }
  case_bool_decide as Hpax.
  - destruct (Last tw2 _ _ Hw2 Hb2) as (tw' & E & Hw''); exists tw'; split; [exact E|].
    by rewrite app_nil_l, app_assoc.
  - cbn [negb]; destruct (writePAXHeader_writing _ hdr tw2 _ Hw2 Hok Hl) as (tw3 & E3 & Hw3); rewrite E3.
    pose proof (sameBuf_writePAXHeader fuel blk hdr (fullPax hdr) tw2 Hb2) as Hbuf; rewrite E3 in Hbuf.
    destruct (Last tw3 _ _ Hw3 Hbuf) as (tw' & E & Hw''); exists tw'; split; [exact E|].
    by rewrite <- !app_assoc in *.
Qed.
End WriteSink.

(** ** The reader on a stream *)
Section ReadStream.
Context {S : Type} `{IoStream S}.
Variable fuel : nat.

(** The reader between two headers: what is left of the last entry with its
    padding, then the bytes [o]. *)
Record between (o : bytes) (tr : Reader S) : Prop := {
  bt_err : tr_err tr = None;
  bt_blk : length (tr_blk tr) = 512%nat;
  bt_num : exists n, trNumBytes tr = Ok n /\ 0 <= n /\ 0 <= tr_pad tr /\ n + tr_pad tr < 2 ^ 63 /\
             exists skip, rest tr = skip ++ o /\ len skip = n + tr_pad tr
}.

(** The reader in an entry with data [d], then padding, then the bytes [o]. *)
Record inside (d o : bytes) (tr : Reader S) : Prop := {
  in_err : tr_err tr = None;
  in_blk : length (tr_blk tr) = 512%nat;
  in_curr : tr_curr tr = Some (regFileReader (len d));
  in_pad : tr_pad tr = padOf (len d);
  in_rest : rest tr = d ++ padding (len d) ++ o
}.

(** The reader at the end of the data of an entry, which had [n] bytes. *)
Record drained (n : Z) (o : bytes) (tr : Reader S) : Prop := {
  dr_err : tr_err tr = None;
  dr_blk : length (tr_blk tr) = 512%nat;
  dr_curr : tr_curr tr = Some (regFileReader 0);
  dr_pad : tr_pad tr = padOf n;
  dr_rest : rest tr = padding n ++ o
}.

Lemma drained_between n o tr : drained n o tr -> between o tr.
Proof.
  intros [He Hb Hc Hp Hr]; split; [done..|]; exists 0; unfold trNumBytes; rewrite Hc, Hp.
  pose proof (padOf_range n); split; [done|]; do 3 (split; [lia|]); exists (padding n); by rewrite len_padding.
Qed.

Lemma NewReader_between s : between (io_rest s) (NewReader s).
Proof.
  split; [done | apply length_replicate|]; exists 0; split; [done|]; do 2 (split; [cbn; lia|]); split; [cbn; lia|].
  by exists [].
Qed.

Lemma between_length o tr : between o tr -> (length o <= length (rest tr))%nat.
Proof. intros [_ _ (n & _ & _ & _ & _ & skip & -> & _)]; rewrite length_app; lia. Qed.

(** Past the padding. *)
Lemma skipUnread_between o tr :
  between o tr -> (length (rest tr) < fuel)%nat ->
  exists s', skipUnread fuel tr = (Ok tt, setPad 0 (setCurr None (withR s' tr))) /\ io_rest s' = o.
Proof.
  intros [He Hb (n & Hn & Hn0 & Hp & Hov & skip & Hr & Hl)] Hf.
  destruct (skipUnread_spec fuel tr n Hn Hn0 Hp Hov Hf) as (r & s' & E & Hcase).
  pose proof (len_nonneg o); rewrite Hr, len_app, (proj2 (Z.leb_le _ _)) in Hcase by lia.
  destruct Hcase as [-> Hd]; exists s'; split; [done|].
  rewrite Hd, <- Hl; apply drop_app_length'; unfold len; lia.
Qed.

(** One block. *)
Lemma readBlk_block (blk o : bytes) tr :
  rest tr = blk ++ o -> length blk = 512%nat -> length (tr_blk tr) = 512%nat -> (512 <= fuel)%nat ->
  exists s', readBlk fuel tr = (Ok None, setBlk blk (withR s' tr)) /\ io_rest s' = o.
Proof.
  intros Hr Hl Hb Hf; unfold readBlk, bind at 1, onR; pose proof (len_nonneg o).
  destruct (ReadFull_enough ioRead _ fuel 512 (blk ++ o) (tr_r tr) Hr) as (s' & E & Hs');
    [rewrite len_app; unfold len in *; lia | lia|].
  rewrite take_app_length' in E by (rewrite Hl; lia); rewrite drop_app_length' in Hs' by (rewrite Hl; lia).
  change blockSize with 512; rewrite E; cbn match; exists s'; split; [|done].
  unfold bind, modify, ret, withR, setBlk; cbn [tr_r tr_pad tr_curr tr_blk tr_err].
  unfold splice; rewrite take_0, drop_ge by lia; by rewrite app_nil_l, app_nil_r.
Qed.

(** A header block. *)
Lemma readHeader_block (blk o : bytes) hdr tr :
  rest tr = blk ++ o -> block_ok blk -> blk <> zeroBlock -> unpackHeader blk = Ok hdr ->
  length (tr_blk tr) = 512%nat -> (512 <= fuel)%nat ->
  exists s', readHeader fuel tr = (Ok hdr, setBlk blk (withR s' tr)) /\ io_rest s' = o.
Proof.
  intros Hr [Hl _] Hz Hu Hb Hf; destruct (readBlk_block blk o tr Hr Hl Hb Hf) as (s' & E & Hs').
  exists s'; split; [|done]; unfold readHeader, bind at 1; rewrite E; cbn match; unfold bind, get.
  cbn [tr_blk setBlk]; rewrite bool_decide_eq_false_2 by done; unfold lift; by rewrite Hu.
Qed.

(** The two zero blocks at the end of an archive. *)
Lemma readHeader_end (o : bytes) tr :
  rest tr = zeroBlock ++ zeroBlock ++ o -> length (tr_blk tr) = 512%nat -> (512 <= fuel)%nat ->
  exists tr', readHeader fuel tr = (Err EOF, tr').
Proof.
  intros Hr Hb Hf; destruct (readBlk_block zeroBlock (zeroBlock ++ o) tr Hr (length_replicate _ _) Hb Hf) as (s' & E & Hs').
  unfold readHeader, bind at 1; rewrite E; cbn match; unfold bind at 1, get.
  cbn [tr_blk setBlk]; rewrite bool_decide_eq_true_2 by done.
  set (tr1 := setBlk zeroBlock (withR s' tr)).
  destruct (readBlk_block zeroBlock o tr1 Hs' (length_replicate _ _) (length_replicate _ _) Hf) as (s'' & E' & Hs'').
  unfold bind at 1; rewrite E'; cbn match; unfold bind, get.
  cbn [tr_blk setBlk]; rewrite bool_decide_eq_true_2 by done; eexists; reflexivity.
Qed.

(** The data of the current entry. *)
Lemma ReadAll_inside (d o : bytes) tr :
  inside d o tr -> (length d < fuel)%nat ->
  exists tr', ReadAll Read fuel tr = (Ok (d, None), tr') /\ drained (len d) o tr'.
Proof.
  intros [He Hb Hc Hp Hr] Hf.
  assert (TCEq (tr_err tr) None) by (by rewrite He).
  destruct (ReadAll_spec Read (entryInv tr (padding (len d) ++ o)) fuel d tr) as (tr' & E & Hr' & Htr'); [split; [done|] | done|].
  { rewrite <- Hc; by destruct tr. }
  exists tr'; split; [done|]; rewrite Htr'; by split.
Qed.

(** The bytes of data that [handleRegularFile] expects. *)
Definition dataSize (hdr : Header) : Z := if isHeaderOnlyType (h_Typeflag hdr) then 0 else h_Size hdr.

Lemma handleRegularFile_inside hdr (d o : bytes) tr :
  dataSize hdr = len d -> tr_err tr = None -> length (tr_blk tr) = 512%nat -> rest tr = d ++ padding (len d) ++ o ->
  exists tr', handleRegularFile hdr tr = (Ok tt, tr') /\ inside d o tr'.
Proof.
  intros Hd He Hb Hr; unfold handleRegularFile; fold (dataSize hdr); rewrite Hd, (proj2 (Z.ltb_ge _ _)) by apply len_nonneg.
  eexists; split; [reflexivity|]; split; try done; apply padOf_reader.
Qed.

(** The start of a round of the loop of [next]. *)
Lemma openEntry (blk d o : bytes) hdr tr :
  between (blk ++ d ++ padding (len d) ++ o) tr -> (length (rest tr) + 512 < fuel)%nat ->
  block_ok blk -> blk <> zeroBlock -> unpackHeader blk = Ok hdr -> dataSize hdr = len d ->
  exists tr', inside d o tr' /\ forall A (k : Header -> M (Reader S) A),
    (do! skipUnread fuel; let! hdr := readHeader fuel in do! handleRegularFile hdr; k hdr) tr = k hdr tr'.
Proof.
  intros Hbt Hf Hok Hz Hu Hd; destruct (skipUnread_between _ tr Hbt ltac:(lia)) as (s1 & E1 & Hs1).
  set (tr1 := setPad 0 (setCurr None (withR s1 tr))) in *.
  destruct (readHeader_block blk _ hdr tr1 Hs1 Hok Hz Hu (bt_blk _ _ Hbt) ltac:(lia)) as (s2 & E2 & Hs2).
  destruct (handleRegularFile_inside hdr d o (setBlk blk (withR s2 tr1)) Hd) as (tr3 & E3 & Hin);
    [apply Hbt | apply Hok | done |].
  exists tr3; split; [done|]; intros A k; unfold bind; by rewrite E1, E2, E3.
Qed.

Lemma handleSparseFile_none hdr ext :
  h_Typeflag hdr <> TypeGNUSparse -> sparseFormatOf ext = None ->
  forall tr : Reader S, handleSparseFile fuel hdr ext tr = (Ok hdr, tr).
Proof.
  intros Ht Hs tr; unfold handleSparseFile; rewrite (proj2 (Z.eqb_neq _ _)) by done.
  unfold checkForGNUSparsePAXHeaders; rewrite Hs; reflexivity.
Qed.

(** The block of an entry, after the extended headers [ext] of its meta files. *)
Lemma nextLoop_entry n ext (blk d o : bytes) hdr hdr' tr :
  between (blk ++ d ++ padding (len d) ++ o) tr -> (length (rest tr) + 512 < fuel)%nat ->
  block_ok blk -> blk <> zeroBlock -> unpackHeader blk = Ok hdr -> dataSize hdr = len d ->
  h_Typeflag hdr ∉ [TypeXHeader; TypeGNULongName; TypeGNULongLink; TypeGNUSparse] ->
  mergePAX hdr ext = Ok hdr' -> h_Typeflag hdr' = h_Typeflag hdr -> dataSize hdr' = len d -> sparseFormatOf ext = None ->
  exists tr', nextLoop fuel (Datatypes.S n) ext tr = (Ok hdr', tr') /\ inside d o tr'.
Proof.
  intros Hbt Hf Hok Hz Hu Hd Ht Hm Ht' Hd' Hs; cbn [nextLoop].
  edestruct openEntry as (tr1 & Hin & ->); [eassumption..|].
  rewrite !not_elem_of_cons in Ht; destruct Ht as (T1 & T2 & T3 & T4 & _).
  apply Z.eqb_neq in T1, T2, T3; rewrite T1, T2, T3; cbn [orb].
  unfold bind at 1, lift; rewrite Hm.
  destruct (handleRegularFile_inside hdr' d o tr1 Hd') as (tr2 & E2 & Hin2); [apply Hin..|].
  unfold bind; rewrite E2, handleSparseFile_none by congruence; by exists tr2.
Qed.

(** A meta file of extended headers: the loop goes on with its map. *)
Lemma nextLoop_pax n ext ext' (blk body o : bytes) hdr tr :
  between (blk ++ body ++ padding (len body) ++ o) tr -> (length (rest tr) + 512 < fuel)%nat ->
  block_ok blk -> blk <> zeroBlock -> unpackHeader blk = Ok hdr -> h_Typeflag hdr = TypeXHeader ->
  h_Size hdr = len body -> parsePAXBuf body = Ok ext' ->
  exists tr', nextLoop fuel (Datatypes.S n) ext tr = nextLoop fuel n ext' tr' /\ between o tr' /\
    (length (rest tr') <= length (rest tr))%nat.
Proof.
  intros Hbt Hf Hok Hz Hu Ht Hsz Hp; cbn [nextLoop]; pose proof Hbt as [_ _ (m & _ & _ & _ & _ & skip & Hr & _)].
  assert (L : (length body + length (padding (len body)) + length o <= length (rest tr))%nat)
    by (rewrite Hr, !length_app; lia).
  edestruct openEntry as (tr1 & Hin & ->); [eassumption..| unfold dataSize; by rewrite Ht |].
  rewrite Ht, Z.eqb_refl.
  destruct (ReadAll_inside body o tr1 Hin ltac:(lia)) as (tr2 & E2 & Hdr).
  unfold bind at 1, parsePAX, bind at 1; rewrite E2; cbn match; unfold lift; rewrite Hp; cbn match.
  exists tr2; split; [done|]; split; [by eapply drained_between|].
  rewrite (dr_rest _ _ _ Hdr), length_app; lia.
Qed.
End ReadStream.

(** ** Whole archives *)

(** The bytes of an archive, from the flag [usedBinary] on. *)
Fixpoint archiveBytes (bin : bool) (es : list (Header * bytes)) : bytes :=
  match es with
  | [] => zeroBlock ++ zeroBlock
  | e :: es => headerBytes bin e.1 ++ e.2 ++ padding (len e.2) ++ archiveBytes (binNext bin e.1) es
  end.

Section WriteArchive.
Context {W : Type} `{IoSink W}.
Variable fuel : nat.
Hypothesis Hfuel : (2 <= fuel)%nat.

Lemma Close_writing bin p o tw :
  writing bin 0 p o tw ->
  exists tw', Close fuel tw = (Ok None, tw') /\ out tw' = o ++ replicate (Z.to_nat p) 0 ++ zeroBlock ++ zeroBlock.
Proof.
  intros Hw; destruct (Flush_writing fuel Hfuel bin p o tw Hw) as (tw1 & E1 & Hw1); destruct Hw as [He Ho _ _ _ _ _ _].
  unfold Close, bind at 1, get; rewrite He, Ho, bool_decide_eq_false_2 by (intros ?; done); cbn [orb].
  unfold bind at 1; rewrite E1; unfold bind at 1, upd at 1, bind at 1; cbn [tw_err]; rewrite (wr_err _ _ _ _ _ Hw1).
  set (tw2 := mkWriter _ _ _ _ true _ _ _ _); cbn [writeTrailer].
  destruct (writeW_sink zeroBlock tw2) as (w3 & E3 & Hw3).
  unfold bind at 1, bind at 1; rewrite E3; cbn match; unfold bind at 1, upd at 1; unfold bind at 1.
  set (tw4 := setTwErr None _); destruct (writeW_sink zeroBlock tw4) as (w5 & E5 & Hw5).
  rewrite E5; cbn match; unfold bind, upd, ret, get; eexists; split; [reflexivity|].
  unfold out in *; cbn [tw_w setTwErr setTw]; rewrite Hw5; unfold tw4; cbn [tw_w setTwErr setTw]; rewrite Hw3.
  pose proof (wr_out _ _ _ _ _ Hw1) as Ho1; unfold out in Ho1.
  unfold tw2; cbn [tw_w]; by rewrite Ho1, <- !app_assoc.
Qed.

Lemma writeEntry_writing bin p o e tw :
  writing bin 0 p o tw -> entryOk e ->
  exists tw', writeEntry fuel e tw = (Ok None, tw') /\
    writing (binNext bin e.1) 0 (padOf (len e.2)) (o ++ replicate (Z.to_nat p) 0 ++ headerBytes bin e.1 ++ e.2) tw'.
Proof.
  intros Hw [Hok Hs _ _ Hl]; destruct (WriteHeader_writing fuel Hfuel bin p o e.1 tw Hw Hok ltac:(lia)) as (tw1 & E1 & Hw1).
  destruct (Write_writing _ _ _ _ e.2 tw1 Hw1 Hs) as (tw2 & E2 & Hw2).
  exists tw2; split; [unfold writeEntry, bind; by rewrite E1, E2|]; rewrite Hs; by rewrite <- !app_assoc in Hw2.
Qed.

Lemma writeArchive_writing es bin p o tw :
  writing bin 0 p o tw -> Forall entryOk es ->
  exists tw', writeArchive fuel es tw = (Ok None, tw') /\ out tw' = o ++ replicate (Z.to_nat p) 0 ++ archiveBytes bin es.
Proof.
  intros Hw Hes; revert bin p o tw Hw; induction Hes as [|e es He _ IH]; intros bin p o tw Hw; cbn [writeArchive archiveBytes].
  - by apply (Close_writing bin).
  - destruct (writeEntry_writing bin p o e tw Hw He) as (tw1 & E1 & Hw1).
    destruct (IH _ _ _ tw1 Hw1) as (tw2 & E2 & Ho2); exists tw2; unfold bind; rewrite E1; split; [done|].
    rewrite Ho2, <- !app_assoc; unfold padding; done.
Qed.
End WriteArchive.

Section ReadArchive.
Context {S : Type} `{IoStream S}.
Variable fuel : nat.

(** [Next] where [next] succeeds. *)
Lemma Next_next hdr (d o : bytes) tr tr' :
  tr_err tr = None -> next fuel tr = (Ok hdr, tr') -> inside d o tr' ->
  exists tr'', Next fuel tr = (Ok hdr, tr'') /\ inside d o tr''.
Proof.
  intros He E [H1 H2 H3 H4 H5]; unfold Next, bind at 1, get; rewrite He; unfold bind at 1, attempt; rewrite E.
  eexists; split; [reflexivity|]; by split.
Qed.

Lemma hdrBlock_ok (bin : bool) hdr :
  hdrBytes hdr -> numbersOk hdr ->
  block_ok (hdrBlock bin hdr) /\ hdrBlock bin hdr <> zeroBlock /\ unpackHeader (hdrBlock bin hdr) = Ok (readBack hdr).
Proof.
  intros Hb Hn; destruct (SetFormat_total (fillBlk hdr) bin) as [blk E].
  rewrite (hdrBlock_eq bin hdr blk E); by apply (unpackHeader_fill hdr bin).
Qed.

Lemma dataSize_entry e : entryOk e -> dataSize e.1 = len e.2.
Proof. intros [_ Hs Hm _ _]; unfold dataSize; rewrite Hs; destruct (isHeaderOnlyType _); [symmetry; auto | done]. Qed.

Lemma Next_entry bin e (o : bytes) tr :
  between (headerBytes bin e.1 ++ e.2 ++ padding (len e.2) ++ o) tr -> (length (rest tr) + 512 < fuel)%nat -> entryOk e ->
  exists hdr tr', Next fuel tr = (Ok hdr, tr') /\ hdr ≡ normHdr e.1 /\ inside e.2 o tr'.
Proof.
  intros Hbt Hf He; pose proof He as [Hok Hs Hm Hbd Hl]; pose proof (dataSize_entry e He) as Hd.
  destruct (merge_readBack e.1 Hok) as (hdr & Em & Heq).
  assert (N : exists tr', next fuel tr = (Ok hdr, tr') /\ inside e.2 o tr').
  { unfold next; destruct fuel as [|[|f]] eqn:Ef; [lia..|]; rewrite <- Ef in *.
    destruct (hdrBlock_ok (binMain bin e.1) e.1) as (B1 & B2 & B3); [by apply hdrBytes_ok | apply Hok |].
    assert (Main : forall n ext tr1, between (hdrBlock (binMain bin e.1) e.1 ++ e.2 ++ padding (len e.2) ++ o) tr1 ->
      (length (rest tr1) + 512 < fuel)%nat -> ext = fullPax e.1 ->
      exists tr', nextLoop fuel (Datatypes.S n) ext tr1 = (Ok hdr, tr') /\ inside e.2 o tr').
    { intros n ext tr1 Hbt1 Hf1 ->; eapply nextLoop_entry; try eassumption.
      - apply Hok.
      - by rewrite Heq.
      - unfold dataSize; rewrite !Heq; exact Hd.
      - apply fullPax_no_sparse. }
    replace (nextLoop fuel fuel) with (nextLoop fuel (Datatypes.S (Datatypes.S f))) by (by rewrite <- Ef).
    revert Hbt; unfold headerBytes; case_bool_decide as Hpax; intros Hbt; [by apply Main|].
    rewrite <- !app_assoc in Hbt; destruct (ext_plain e.1 Hok ltac:(lia)) as (X1 & X2 & _ & X4 & X5).
    destruct (hdrBlock_ok (binMain (binMain bin e.1) (extOf e.1)) (extOf e.1) X1 X2) as (Y1 & Y2 & Y3).
    edestruct nextLoop_pax as (tr1 & -> & Hbt1 & Hl1); try eassumption; [by cbn; rewrite X4..| |].
    - apply paxBody_parse; [done | by apply fullPax_ok].
    - apply Main; [exact Hbt1 | lia | done]. }
  destruct N as (tr1 & E1 & Hin1).
  destruct (Next_next hdr _ _ tr tr1 (bt_err _ _ Hbt) E1 Hin1) as (tr2 & E2 & Hin2); by exists hdr, tr2.
Qed.

(** The end of the archive. *)
Lemma Next_end (o : bytes) tr :
  between (zeroBlock ++ zeroBlock ++ o) tr -> (length (rest tr) + 512 < fuel)%nat ->
  exists tr', Next fuel tr = (Err EOF, tr').
Proof.
  intros Hbt Hf; destruct (skipUnread_between fuel _ tr Hbt ltac:(lia)) as (s1 & E1 & Hs1).
  set (tr1 := setPad 0 (setCurr None (withR s1 tr))) in *.
  destruct (readHeader_end fuel o tr1 Hs1 (bt_blk _ _ Hbt) ltac:(lia)) as (tr2 & E2).
  unfold Next, bind at 1, get; rewrite (bt_err _ _ Hbt); unfold bind at 1, attempt, next.
  destruct fuel as [|f] eqn:Ef; [lia|]; rewrite <- Ef in *.
  replace (nextLoop fuel fuel) with (nextLoop fuel (Datatypes.S f)) by (by rewrite <- Ef); cbn [nextLoop].
  unfold bind at 1; rewrite E1; unfold bind at 1; rewrite E2; eexists; reflexivity.
Qed.

(** What is read back from an entry. *)
Definition entryRead (e r : Header * bytes) : Prop := r.1 ≡ normHdr e.1 /\ r.2 = e.2.

Lemma readArchive_between es n bin (o : bytes) tr :
  between (archiveBytes bin es ++ o) tr -> (length (rest tr) + 512 < fuel)%nat -> Forall entryOk es -> (length es < n)%nat ->
  exists rs tr', readArchive fuel n tr = (Ok rs, tr') /\ Forall2 entryRead es rs.
Proof.
  intros Hbt Hf Hes; revert n bin tr Hbt Hf; induction Hes as [|e es He _ IH]; intros n bin tr Hbt Hf Hn;
    (destruct n as [|n]; [cbn in Hn; lia|]); cbn [archiveBytes] in Hbt; rewrite <- !app_assoc in Hbt; cbn [readArchive].
  - destruct (Next_end o tr Hbt Hf) as (tr1 & E1); unfold bind at 1, attempt, readEntry, bind at 1; rewrite E1.
    rewrite bool_decide_eq_true_2 by done; exists [], tr1; split; [done | constructor].
  - destruct (Next_entry bin e _ tr Hbt Hf He) as (hdr & tr1 & E1 & Hh & Hin).
    pose proof (between_length _ tr Hbt) as L; rewrite !length_app in L; pose proof (in_rest _ _ _ Hin) as R1.
    assert (Lr : (length (rest tr1) <= length (rest tr))%nat) by (rewrite R1, !length_app; lia).
    assert (Ld : (length e.2 < fuel)%nat) by lia.
    destruct (ReadAll_inside fuel e.2 _ tr1 Hin Ld) as (tr2 & E2 & Hdr).
    pose proof (dr_rest _ _ _ Hdr) as R2; assert (Lr2 : (length (rest tr2) <= length (rest tr))%nat) by (rewrite R2, !length_app; lia).
    destruct (IH n _ tr2 (drained_between _ _ _ Hdr)) as (rs & tr3 & E3 & Hrs); [lia | cbn in Hn; lia |].
    exists ((hdr, e.2) :: rs), tr3; split; [|constructor; [by split | done]].
    unfold bind at 1, attempt, readEntry, bind at 1; rewrite E1; unfold bind at 1; rewrite E2; cbn match.
    cbn [ret]; unfold bind, ret; by rewrite E3.
Qed.
End ReadArchive.

(** ** Blocks of 512 bytes *)
Definition blocks (b : bytes) : Prop := len b mod 512 = 0.

Lemma blocks_app b1 b2 : blocks b1 -> blocks b2 -> blocks (b1 ++ b2).
Proof. unfold blocks; intros H1 H2; by rewrite len_app, Zplus_mod, H1, H2. Qed.

Lemma blocks_padded (b : bytes) : blocks (b ++ padding (len b)).
Proof. unfold blocks, padOf; rewrite len_app, len_padding; unfold padOf; by rewrite Zplus_mod_idemp_r, Z.add_opp_diag_r. Qed.

Lemma blocks_block b : block_ok b -> blocks b.
Proof. intros [Hl _]; unfold blocks, len; by rewrite Hl. Qed.

Lemma blocks_nil : blocks [].
Proof. done. Qed.
#[export] Hint Resolve blocks_app blocks_padded blocks_block blocks_nil : arkive.

Lemma archiveBytes_blocks es bin : Forall entryOk es -> blocks (archiveBytes bin es).
Proof.
  intros Hes; revert bin; induction Hes as [|e es [Hok _ _ _ Hl] _ IH]; intros bin; cbn [archiveBytes]; [done|].
  destruct (ext_plain e.1 Hok ltac:(lia)) as (X1 & X2 & _).
  rewrite (app_assoc e.2); apply blocks_app; [|auto with arkive]; unfold headerBytes.
  apply blocks_app; [|apply blocks_block, hdrBlock_ok; [by apply hdrBytes_ok | apply Hok]].
  destruct (bool_decide _); [done|]; apply blocks_app; [by apply blocks_block, hdrBlock_ok | auto with arkive].
Qed.

(** ** Claims *)

(** C1: an archive that the writer writes into any sink (each entry with a
    header the format can hold and with as much data as it announces) has a
    length that is a multiple of 512 and is read back, from any reader over
    the same bytes and however it splits them, as the same entries: every
    header field survives (extended headers and attributes included, times
    other than the modification time excepted) and so does all the data. *)
Theorem archive_roundtrip {W S} `{IoSink W} `{IoStream S} (es : list (Header * bytes)) (w : W) (s : S) (wfuel rfuel : nat) :
  Forall entryOk es -> (2 <= wfuel)%nat ->
  exists tw, writeArchive wfuel es (NewWriter w) = (Ok None, tw) /\
    (exists o, io_out (tw_w tw) = io_out w ++ o /\ len o mod 512 = 0) /\
    (io_out (tw_w tw) = io_out w ++ io_rest s -> (length (io_rest s) + 512 < rfuel)%nat -> (length es < rfuel)%nat ->
     exists rs tr, readArchive rfuel rfuel (NewReader s) = (Ok rs, tr) /\ Forall2 entryRead es rs).
Proof.
  intros Hes Hf; destruct (writeArchive_writing wfuel Hf es _ _ _ _ (NewWriter_writing w) Hes) as (tw & E & Ho).
  exists tw; split; [done|]; unfold out in Ho; change (io_out (tw_w tw) = io_out w ++ archiveBytes false es) in Ho; rewrite Ho; split.
  { eexists; split; [done|]; by apply archiveBytes_blocks. }
  intros Hr%app_inv_head Hrf Hn.
  apply (readArchive_between rfuel es rfuel false []); try done.
  rewrite app_nil_r; rewrite Hr; apply NewReader_between.
Qed.

(** A file with a long name that is not ASCII, and a directory with an attribute. *)
Definition demoEntries : list (Header * bytes) :=
  [(mkHeader (replicate 60 195 ++ replicate 60 97) 420 1000 1000 5 (Unix 1500000000 0) TypeReg [] (str "root") (str "root") 0 0
      zeroTime zeroTime None, str "hello");
   (mkHeader (str "dir/") 493 (2 ^ 40) 0 0 (Unix 0 0) TypeDir [] [] [] 0 0 zeroTime zeroTime
      (Some {[ str "user.k" := str "v" ]}), [])].

Lemma strOk_check n s :
  forallb (fun c => (0 <=? c) && (c <? 256)) s = true -> (needsPax n s || bool_decide (0 ∉ s)) = true ->
  (len s <? 2 ^ 60) = true -> strOk n s.
Proof.
  intros H1 H2 H3; split; [|split; [|by apply Z.ltb_lt]].
  - apply Forall_forall; intros c Hc; rewrite forallb_forall in H1; specialize (H1 c (proj1 (list_elem_of_In _ _) Hc)).
    apply andb_true_iff in H1 as [?%Z.leb_le ?%Z.ltb_lt]; by split.
  - intros E; rewrite E in H2; by apply bool_decide_eq_true_1 in H2.
Qed.

(** A test for [entryOk]. *)
Definition between0 (x b : Z) : bool := (0 <=? x) && (x <? b).
Definition strOkb (n : nat) (s : bytes) : bool :=
  forallb (fun c => (0 <=? c) && (c <? 256)) s && (needsPax n s || bool_decide (0 ∉ s)) && (len s <? 2 ^ 60).
Definition entryOkb (e : Header * bytes) : bool :=
  let h := e.1 in
  between0 (h_Mode h) (8 ^ 7) && between0 (h_Uid h) (2 ^ 56) && between0 (h_Gid h) (2 ^ 56) && between0 (h_Size h) (2 ^ 63 - 512) &&
  between0 (h_Devmajor h) (2 ^ 56) && between0 (h_Devminor h) (2 ^ 56) && strOkb 100 (h_Name h) && strOkb 100 (h_Linkname h) &&
  strOkb 32 (h_Uname h) && strOkb 32 (h_Gname h) && between0 (h_Typeflag h) 256 &&
  bool_decide (h_Typeflag h ∉ [TypeXHeader; TypeGNULongName; TypeGNULongLink; TypeGNUSparse]) &&
  forallb (fun kv => bool_decide (61 ∉ kv.1) && (0 <? len kv.2) && (len kv.1 + len kv.2 <? 2 ^ 60)) (map_to_list (default ∅ (h_Xattrs h))) &&
  (len e.2 =? h_Size h) && (negb (isHeaderOnlyType (h_Typeflag h)) || (h_Size h =? 0)) && (len (bodyOf h) <? 2 ^ 63 - 512).

Lemma between0_spec x b : between0 x b = true -> 0 <= x < b.
Proof. unfold between0; intros [?%Z.leb_le ?%Z.ltb_lt]%andb_true_iff; done. Qed.

Lemma strOkb_spec n s : strOkb n s = true -> strOk n s.
Proof. unfold strOkb; rewrite !andb_true_iff; intros [[? ?] ?]; by apply strOk_check. Qed.

Lemma entryOkb_spec e : entryOkb e = true -> entryOk e.
Proof.
  unfold entryOkb; cbv zeta; rewrite !andb_true_iff.
  intros [[[[[[[[[[[[[[[M1 M2] M3] M4] M5] M6] S1] S2] S3] S4] T1] T2] X] L] K] B].
  apply between0_spec in M1, M2, M3, M4, M5, M6, T1; apply strOkb_spec in S1, S2, S3, S4.
  apply Z.eqb_eq in L; apply Z.ltb_lt in B; apply bool_decide_eq_true_1 in T2.
  split; try done; [split; try done|by intros Ht; rewrite Ht in K; apply Z.eqb_eq in K | apply M4].
  - split; [done|]; split; [done|]; split; [done|]; split; [lia | done].
  - intros k v Hk; rewrite forallb_forall in X; specialize (X (k, v)); rewrite <- list_elem_of_In, elem_of_map_to_list in X.
    specialize (X Hk); apply andb_true_iff in X as [[X1%bool_decide_eq_true_1 X2%Z.ltb_lt]%andb_true_iff X3%Z.ltb_lt]; done.
Qed.

Lemma archive_roundtrip_witness :
  exists tw, writeArchive 2 demoEntries (NewWriter (mkBuffer [])) = (Ok None, tw) /\
    forall s, s = mkChunk (buf_data (tw_w tw)) 0 [6%nat; 0%nat; 200%nat] true ->
    exists rs tr, readArchive 6000 6000 (NewReader s) = (Ok rs, tr) /\ Forall2 entryRead demoEntries rs.
Proof.
  assert (He : Forall entryOk demoEntries)
    by (constructor; [|constructor; [|constructor]]; apply entryOkb_spec; vm_compute; reflexivity).
  set (b := buf_data (tw_w (writeArchive 2 demoEntries (NewWriter (mkBuffer []))).2)).
  assert (Hb : Nat.ltb (length b + 512) 6000 = true) by (vm_compute; reflexivity).
  destruct (archive_roundtrip demoEntries (mkBuffer []) (mkChunk b 0 [6%nat; 0%nat; 200%nat] true) 2 6000 He ltac:(lia))
    as (tw & E & _ & R).
  assert (Eb : buf_data (tw_w tw) = b) by (unfold b; by rewrite E).
  exists tw; split; [exact E|]; intros s ->; rewrite Eb; apply Nat.ltb_lt in Hb.
  apply R; [exact Eb | exact Hb | cbn; lia].
Defined.
