(* ===== verification/TarRefused.v ===== *)
(** * Checkpoints of a reader that has refused a sparse map

    What [Save] does after [Next] has met an entry of the old GNU sparse
    format, whether its map is accepted or not. *)
From S2P Require Import Prelude GoInt GoString GoTime GoIO GoPath TarStrconv TarFormat TarCommon TarSparse.
From S2P Require Import TarReader TarPax TarStream TarSaver TarArchive TarRoundtrip.
Open Scope go_scope.

(** A header block of the old GNU sparse format: the header it unpacks to,
    the size of the file and its map, which has no extension blocks. *)
Record sparseBlock (blk : block) (hdr : Header) (size : Z) (sp : list sparseEntry) : Prop := {
  sb_ok : block_ok blk;
  sb_header : unpackHeader blk = Ok hdr;
  sb_type : h_Typeflag hdr = TypeGNUSparse;
  sb_data : 0 <= h_Size hdr;
  sb_format : GetFormat blk = formatGNU;
  sb_size : parseNumeric None (getF GNU.RealSize blk) = (None, size);
  sb_int64 : size <= maxInt64;
  sb_entries : oldGNUEntries (getF GNU.Sparse blk) 0 (MaxEntries (getF GNU.Sparse blk)) = Ok sp;
  sb_extended : hd 0 (IsExtended (getF GNU.Sparse blk)) <= 0
}.

Section Refused.
Context {S : Type} `{IoStream S} (fuel : nat).

(** Reading the block up to the validation of its map. *)
Lemma nextLoop_sparse n (blk o : bytes) hdr size sp tr :
  sparseBlock blk hdr size sp -> between (blk ++ o) tr -> (length (rest tr) < fuel)%nat -> (512 <= fuel)%nat ->
  exists tr', tr_err tr' = None /\
    nextLoop fuel (Datatypes.S n) ∅ tr =
      (let '(c, err) := newSparseFileReader (regFileReader (h_Size hdr)) sp size in
       do! modify (setCurr (Some c));
       match err with None => ret (set_Size size hdr) | Some e => throw e end) tr'.
Proof.
  intros [Hok Hu Ht Hd Hg Hs Hi He Hx] Hb Hf H5.
  destruct (skipUnread_between fuel _ tr Hb Hf) as (s1 & E1 & Hs1).
  set (tr1 := setPad 0 (setCurr None (withR s1 tr))) in *.
  assert (Hz : blk <> zeroBlock) by (intros ->; clear -Hg; rewrite GetFormat_zeroBlock in Hg; discriminate Hg).
  destruct (readHeader_block fuel blk o hdr tr1 Hs1 Hok Hz Hu (bt_blk _ _ Hb) H5) as (s2 & E2 & Hs2).
  set (tr2 := setBlk blk (withR s2 tr1)) in *.
  set (tr3 := setCurr (Some (regFileReader (h_Size hdr))) (setPad (Z.land (- h_Size hdr) (blockSize - 1)) tr2)).
  assert (E3 : forall tr : Reader S, handleRegularFile hdr tr =
    (Ok tt, setCurr (Some (regFileReader (h_Size hdr))) (setPad (Z.land (- h_Size hdr) (blockSize - 1)) tr))).
  { intros tr0; unfold handleRegularFile; rewrite Ht; change (isHeaderOnlyType TypeGNUSparse) with false; cbn match.
    by rewrite (proj2 (Z.ltb_ge _ 0)) by lia. }
  exists tr3; split; [apply Hb|]; cbn [nextLoop].
  unfold bind at 1; rewrite E1; unfold bind at 1; rewrite E2; unfold bind at 1; rewrite E3; fold tr3; rewrite Ht; cbn [Z.eqb orb].
  change (TypeGNUSparse =? TypeXHeader) with false; change (TypeGNUSparse =? TypeGNULongName) with false;
    change (TypeGNUSparse =? TypeGNULongLink) with false; cbn [orb].
  unfold bind at 1, lift, mergePAX; rewrite map_to_list_empty; cbn [mergeLoop]; unfold bind at 1; rewrite E3.
  change (setCurr _ (setPad _ tr3)) with tr3.
  unfold handleSparseFile; rewrite Ht, Z.eqb_refl.
  assert (E4 : readOldGNUSparseMap fuel hdr tr3 = (Ok (set_Size size hdr, sp), tr3)).
  { unfold readOldGNUSparseMap, bind at 1, get; change (tr_blk tr3) with blk; rewrite Hg, Z.eqb_refl; cbn [negb]; rewrite Hs.
    destruct fuel as [|f]; [lia|]; cbn [readOldGNULoop]; unfold bind, lift; rewrite He.
    by rewrite (proj2 (Z.ltb_ge 0 _)) by lia. }
  unfold bind at 1; unfold bind at 1; rewrite E4; unfold ret at 1; cbn match; unfold bind at 1, get at 1.
  change (tr_curr tr3) with (Some (regFileReader (h_Size hdr))); done.
Qed.

End Refused.
(** C31: checkpoints after an entry of the old GNU sparse format. Wherever
    the saving reader stands between the entries of an archive, and whatever
    the header block and the map in it are (a map without extension blocks):
    when the fragments lie in the file in order, [Next] returns the header and
    [Save] succeeds; otherwise [Next] returns [ErrHeader], but leaves the nil
    pointer of the failed constructor as the current entry, and [Save] panics
    on it. *)
Theorem Save_after_sparse {S} `{IoStream S} fuel (sr : saverReader S) (blk o : bytes) hdr size sp :
  sparseBlock blk hdr size sp -> between (blk ++ o) sr -> (length (rest sr) < fuel)%nat -> (512 <= fuel)%nat ->
  exists res sr', Next fuel sr = (res, sr') /\
    (fragmentsIn 0 size sp -> res = Ok (set_Size size hdr) /\ exists c, Save sr' = Ok c) /\
    (~ fragmentsIn 0 size sp -> res = Err ErrHeader /\ Save sr' = Panic).
Proof.
  intros Hs Hb Hf H5; destruct fuel as [|n]; [lia|].
  destruct (nextLoop_sparse (Datatypes.S n) n blk o hdr size sp sr Hs Hb Hf H5) as (tr & He & E).
  unfold Next, bind at 1, get; rewrite (bt_err _ _ Hb); unfold bind, attempt, next; rewrite E.
  destruct (newSparseFileReader_spec (regFileReader (h_Size hdr)) sp size (sb_int64 _ _ _ _ Hs)) as [[Hi ->] | [Hi ->]];
    (eexists _, _; split; [reflexivity|]; split; intros Hx; [|try contradiction]).
  - split; [reflexivity | eexists; reflexivity].
  - contradiction.
  - split; reflexivity.
Qed.

(** ** The hypotheses can hold *)
(** An entry of the old GNU sparse format: the type flag, the fragments, real
    size 0. One without fragments, and one whose fragment of 5 bytes at
    offset 5 ends behind the file. *)
Definition sparseHeaderBlock (fragments : bytes) : block :=
  match SetFormat (setF (Field 386 24) fragments (setF V7.TypeFlag [83] zeroBlock)) formatGNU with Ok b => b | _ => [] end.
Definition goodSparseBlock : block := Eval vm_compute in sparseHeaderBlock [].
Definition badSparseBlock : block := Eval vm_compute in sparseHeaderBlock (str "00000000005" ++ [0] ++ str "00000000005" ++ [0]).
Definition headerOf (blk : block) : Header := match unpackHeader blk with Ok h => h | _ => newHeader end.

Lemma goodSparseBlock_ok : sparseBlock goodSparseBlock (headerOf goodSparseBlock) 0 [].
Proof.
  split; try (vm_compute; reflexivity); try (vm_compute; discriminate).
  split; [vm_compute; reflexivity|]; apply (bool_decide_eq_true_1 _); vm_compute; reflexivity.
Qed.

Lemma badSparseBlock_ok : sparseBlock badSparseBlock (headerOf badSparseBlock) 0 [mkSparse 5 5].
Proof.
  split; try (vm_compute; reflexivity); try (vm_compute; discriminate).
  split; [vm_compute; reflexivity|]; apply (bool_decide_eq_true_1 _); vm_compute; reflexivity.
Qed.

Lemma fresh_between (b : bytes) : between b (NewSaverReader (mkPipe b)).
Proof.
  split; [reflexivity | apply length_replicate |].
  exists 0; split; [reflexivity|]; split; [lia|]; split; [cbn; lia|]; split; [cbn; lia|]; by exists [].
Qed.

Lemma Save_after_sparse_witness :
  (exists h sr c, Next 600 (NewSaverReader (mkPipe goodSparseBlock)) = (Ok h, sr) /\ Save sr = Ok c) /\
  (exists sr, Next 600 (NewSaverReader (mkPipe badSparseBlock)) = (Err ErrHeader, sr) /\ Save sr = Panic).
Proof.
  split.
  - destruct (Save_after_sparse 600 (NewSaverReader (mkPipe goodSparseBlock)) goodSparseBlock [] (headerOf goodSparseBlock) 0 [] goodSparseBlock_ok) as (res & sr' & E & A & _).
    + rewrite app_nil_r; apply fresh_between.
    + apply Nat.ltb_lt; reflexivity.
    + apply Nat.leb_le; reflexivity.
    + destruct A as [-> [c Hc]]; [split; [lia | split; [constructor | intros i j ei ej _ Hi; by rewrite lookup_nil in Hi]] | exists (set_Size 0 (headerOf goodSparseBlock)), sr', c; exact (conj E Hc)].
  - destruct (Save_after_sparse 600 (NewSaverReader (mkPipe badSparseBlock)) badSparseBlock [] (headerOf badSparseBlock) 0 [mkSparse 5 5] badSparseBlock_ok) as (res & sr' & E & _ & R).
    + rewrite app_nil_r; apply fresh_between.
    + apply Nat.ltb_lt; reflexivity.
    + apply Nat.leb_le; reflexivity.
    + destruct R as [-> Hs]; [intros (_ & Hin & _); apply Forall_cons_1 in Hin as [Hin _]; cbn in Hin; lia | exists sr'; exact (conj E Hs)].
Defined.
