(* ===== verification/GoBufio.v ===== *)
(** * Go's io.ReaderAt, io.SectionReader and bufio, and hash/crc32

    The library code the zip package reads and writes through: a section of
    an [io.ReaderAt] as an [io.Reader], buffered readers and writers, and the
    CRC-32 checksum. *)
From S2P Require Import Prelude GoInt GoIO.
Open Scope go_scope.

(** ** io.ReaderAt *)

(** [ReadAt(p, off)] with [len(p) = n]; it does not change the source. *)
Class IoReaderAt (R : Type) := read_at : R -> Z -> Z -> bytes * option error.

(** A source that holds the bytes [ra_data] and reads without faults. A full
    read at the very end may report [io.EOF] or not, as documented. *)
Class ReaderAtData (R : Type) `{IoReaderAt R} := {
  ra_data : R -> bytes;
  read_at_full : forall r n off, 0 <= n -> 0 <= off -> off + n <= len (ra_data r) ->
    exists e, read_at r n off = (slice (ra_data r) off (off + n), e) /\ (e = None \/ e = Some EOF /\ off + n = len (ra_data r))
}.

(** [bytes.Reader]. *)
Record bytesReader := mkBytesReader { br_data : bytes }.
Definition bytesReadAt (r : bytesReader) (n off : Z) : bytes * option error :=
  if off <? 0 then ([], Some (ErrMsg "bytes.Reader.ReadAt: negative offset"))
  else if len (br_data r) <=? off then ([], Some EOF)
  else let bs := slice (br_data r) off (off + n) in (bs, if len bs <? n then Some EOF else None).
#[export] Instance bytesReader_IoReaderAt : IoReaderAt bytesReader := bytesReadAt.

Lemma len_slice {A} (l : list A) i j : 0 <= i -> i <= j -> j <= len l -> len (slice l i j) = j - i.
Proof. intros Hi Hj Hl; unfold slice, len in *; rewrite length_take, length_drop; lia. Qed.

#[export, refine] Instance bytesReader_data : ReaderAtData bytesReader := {| ra_data := br_data |}.
Proof.
  intros r n off Hn Ho Hl; cbv [read_at bytesReader_IoReaderAt]; unfold bytesReadAt.
  rewrite (proj2 (Z.ltb_ge off 0)) by lia; destruct (Z.leb_spec (len (br_data r)) off) as [Hle|Hlt].
  - assert (n = 0) as -> by lia; assert (off = len (br_data r)) as -> by lia; exists (Some EOF); split; [|right; split; [done | lia]].
    unfold slice; by rewrite Z.add_0_r, Z.sub_diag.
  - exists None; rewrite len_slice, (proj2 (Z.ltb_ge _ n)) by lia; split; [done | by left].
Defined.

(** ** io.SectionReader *)
Record sectionReader (R : Type) := mkSection { sec_r : R; sec_base : Z; sec_off : Z; sec_limit : Z }.
Arguments mkSection {R}.
Arguments sec_r {R}.
Arguments sec_base {R}.
Arguments sec_off {R}.
Arguments sec_limit {R}.

Definition NewSectionReader {R} (r : R) (off n : Z) : sectionReader R := mkSection r off off (int64 (off + n)).

(** [Seek(offset, io.SeekStart)]. *)
Definition sectionSeekStart {R} (s : sectionReader R) (offset : Z) : sectionReader R * option error :=
  let offset := int64 (offset + sec_base s) in
  if offset <? sec_base s then (s, Some (ErrMsg "Seek: invalid offset"))
  else (mkSection (sec_r s) (sec_base s) offset (sec_limit s), None).

Section SectionRead.
Context {R : Type} `{IoReaderAt R}.

Definition sectionRead (s : sectionReader R) (n : Z) : bytes * option error * sectionReader R :=
  if sec_limit s <=? sec_off s then ([], Some EOF, s)
  else
    let max := sec_limit s - sec_off s in
    let n := if max <? n then max else n in
    let '(bs, e) := read_at (sec_r s) n (sec_off s) in
    (bs, e, mkSection (sec_r s) (sec_base s) (sec_off s + len bs) (sec_limit s)).

#[export] Instance section_IoReader : IoReader (sectionReader R) := {| io_read := sectionRead; io_seek := None |}.
End SectionRead.

(** ** bufio.Reader *)
Definition bufioSize : Z := 4096.

Record bufioReader (S : Type) := mkBufioReader { bfr_rd : S; bfr_buf : bytes; bfr_err : option error }.
Arguments mkBufioReader {S}.
Arguments bfr_rd {S}.
Arguments bfr_buf {S}.
Arguments bfr_err {S}.

Definition NewBufioReader {S} (s : S) : bufioReader S := mkBufioReader s [] None.

Section BufioRead.
Context {S : Type} `{IoReader S}.

(** [Read]: from the buffer when it holds bytes; otherwise one read of the
    source, into the buffer or, when [p] is at least as large, past it. A
    pending error is reported once the buffer is empty. *)
Definition bufioRead (b : bufioReader S) (n : Z) : bytes * option error * bufioReader S :=
  if n =? 0 then
    match bfr_buf b with
    | [] => ([], bfr_err b, mkBufioReader (bfr_rd b) [] None)
    | _ => ([], None, b)
    end
  else
    match bfr_buf b with
    | [] =>
        match bfr_err b with
        | Some e => ([], Some e, mkBufioReader (bfr_rd b) [] None)
        | None =>
            if bufioSize <=? n then
              let '(bs, e, s) := io_read (bfr_rd b) n in (bs, e, mkBufioReader s [] None)
            else
              let '(bs, e, s) := io_read (bfr_rd b) bufioSize in
              match bs with
              | [] => ([], e, mkBufioReader s [] None)
              | _ => (take (Z.to_nat n) bs, None, mkBufioReader s (drop (Z.to_nat n) bs) e)
              end
        end
    | buf => (take (Z.to_nat n) buf, None, mkBufioReader (bfr_rd b) (drop (Z.to_nat n) buf) (bfr_err b))
    end.

#[export] Instance bufio_IoReader : IoReader (bufioReader S) := {| io_read := bufioRead; io_seek := None |}.
End BufioRead.

(** ** bufio.Writer *)
Record bufioWriter (W : Type) := mkBufioWriter { bfw_wr : W; bfw_buf : bytes; bfw_err : option error }.
Arguments mkBufioWriter {W}.
Arguments bfw_wr {W}.
Arguments bfw_buf {W}.
Arguments bfw_err {W}.

Definition NewBufioWriter {W} (w : W) : bufioWriter W := mkBufioWriter w [] None.

Section BufioWrite.
Context {W : Type} `{IoWriter W}.

Definition bufioFlush (b : bufioWriter W) : option error * bufioWriter W :=
  match bfw_err b with
  | Some e => (Some e, b)
  | None =>
      if len (bfw_buf b) =? 0 then (None, b)
      else
        let '(n, err, w) := io_write (bfw_wr b) (bfw_buf b) in
        let err := if (n <? len (bfw_buf b)) && bool_decide (err = None) then Some (ErrMsg "short write") else err in
        match err with
        | Some e => (Some e, mkBufioWriter w (drop (Z.to_nat n) (bfw_buf b)) (Some e))
        | None => (None, mkBufioWriter w [] None)
        end
  end.

(** The loop of [Write] while [p] does not fit the buffer. *)
Fixpoint bufioWriteLoop (fuel : nat) (p : bytes) (nn : Z) (b : bufioWriter W) : outcome (bytes * Z) * bufioWriter W :=
  if (bufioSize - len (bfw_buf b) <? len p) && bool_decide (bfw_err b = None) then
    match fuel with
    | O => (OutOfFuel, b)
    | Datatypes.S fuel =>
        if len (bfw_buf b) =? 0 then
          let '(n, err, w) := io_write (bfw_wr b) p in
          bufioWriteLoop fuel (drop (Z.to_nat n) p) (nn + n) (mkBufioWriter w [] err)
        else
          let n := Z.to_nat (bufioSize - len (bfw_buf b)) in
          let b := mkBufioWriter (bfw_wr b) (bfw_buf b ++ take n p) (bfw_err b) in
          let '(_, b) := bufioFlush b in
          bufioWriteLoop fuel (drop n p) (nn + Z.of_nat n) b
    end
  else (Ok (p, nn), b).

(** Two rounds fill the buffer and write the rest directly; a writer that
    keeps its contract never needs more than one more. *)
Definition bufioWrite (b : bufioWriter W) (p : bytes) : outcome (Z * option error) * bufioWriter W :=
  match bufioWriteLoop 3 p 0 b with
  | (Ok (p, nn), b) =>
      match bfw_err b with
      | Some e => (Ok (nn, Some e), b)
      | None => (Ok (nn + len p, None), mkBufioWriter (bfw_wr b) (bfw_buf b ++ p) None)
      end
  | (Err e, b) => (Err e, b)
  | (Panic, b) => (Panic, b)
  | (OutOfFuel, b) => (OutOfFuel, b)
  end.
End BufioWrite.

(** ** hash/crc32, the IEEE polynomial *)
Fixpoint crcBits (n : nat) (c : Z) : Z :=
  match n with
  | O => c
  | Datatypes.S n => crcBits n (if Z.odd c then Z.lxor (Z.shiftr c 1) 0xEDB88320 else Z.shiftr c 1)
  end.
Definition crcByte (c b : Z) : Z := Z.lxor (crcBits 8 (Z.land (Z.lxor c b) 0xFF)) (Z.shiftr c 8).

(** The running digest: [Write] and [Sum32]. *)
Definition crcUpdate (c : Z) (p : bytes) : Z := Z.lxor (foldl crcByte (Z.lxor c 0xFFFFFFFF) p) 0xFFFFFFFF.
Definition ChecksumIEEE (p : bytes) : Z := crcUpdate 0 p.

(** "123456789" has the check value of CRC-32. *)
Example crc_check : ChecksumIEEE [49; 50; 51; 52; 53; 54; 55; 56; 57] = 0xCBF43926.
Proof. vm_compute; reflexivity. Qed.

Lemma lxor_twice a b : Z.lxor (Z.lxor a b) b = a.
Proof. by rewrite Z.lxor_assoc, Z.lxor_nilpotent, Z.lxor_0_r. Qed.

Lemma crcUpdate_app c p q : crcUpdate c (p ++ q) = crcUpdate (crcUpdate c p) q.
Proof. unfold crcUpdate; by rewrite foldl_app, lxor_twice. Qed.

Lemma crcUpdate_nil c : crcUpdate c [] = c.
Proof. unfold crcUpdate; cbn [foldl]; apply lxor_twice. Qed.

(** ** Specifications *)

(** A section delivers its bytes. *)
Section SectionSpec.
Context {R : Type} `{ReaderAtData R}.

Definition sectionInv (out : bytes) (s : sectionReader R) : Prop :=
  0 <= sec_off s <= sec_limit s /\ sec_limit s <= len (ra_data (sec_r s)) /\ out = slice (ra_data (sec_r s)) (sec_off s) (sec_limit s).

Lemma slice_split {A} (l : list A) i j k : 0 <= i -> i <= j -> j <= k -> k <= len l -> slice l i k = slice l i j ++ slice l j k.
Proof.
  intros Hi Hj Hk Hl; unfold slice, len in *.
  rewrite <- (take_drop (Z.to_nat (j - i)) (drop (Z.to_nat i) l)) at 1.
  rewrite take_app, take_take, drop_drop, length_take, length_drop; f_equal; [f_equal; lia|].
  f_equal; [lia | f_equal; lia].
Qed.

Lemma slice_nil {A} (l : list A) i j : j <= i -> slice l i j = [].
Proof. intros Hj; unfold slice; by replace (Z.to_nat (j - i)) with 0%nat by lia. Qed.

#[export] Instance section_ReadsTo : ReadsTo ioRead sectionInv.
Proof.
  intros out s n [[Ho Hl] [Hd ->]] Hn; unfold ioRead; cbn [io_read section_IoReader]; unfold sectionRead.
  destruct (Z.leb_spec (sec_limit s) (sec_off s)) as [Hle|Hlt].
  - exists [], (Some EOF), s; rewrite slice_nil by done; split; [done|]; split; [rewrite len_nil; lia|]; right.
    split; [done|]; split; [done|]; unfold sectionInv; rewrite slice_nil by done; done.
  - set (k := if sec_limit s - sec_off s <? n then sec_limit s - sec_off s else n).
    assert (Hk : 0 < k <= n /\ sec_off s + k <= sec_limit s)
      by (unfold k; destruct (Z.ltb_spec (sec_limit s - sec_off s) n); lia).
    destruct (read_at_full (sec_r s) k (sec_off s)) as (e & -> & He); [lia..|].
    set (bs := slice _ _ (sec_off s + k)); assert (Lb : len bs = k) by (unfold bs; rewrite len_slice; lia).
    exists bs, e; eexists; split; [reflexivity|]; split; [lia|]; rewrite Lb.
    destruct He as [-> | [-> He]]; [left | right]; (split; [done|]).
    + split; [intros E; rewrite E in Lb; unfold len in Lb; cbn in Lb; lia|].
      exists (slice (ra_data (sec_r s)) (sec_off s + k) (sec_limit s)); split; [apply slice_split; lia|].
      unfold sectionInv; cbn [sec_off sec_limit sec_r]; split; [lia|]; split; [done | done].
    + assert (sec_off s + k = sec_limit s) by lia; split; [unfold bs; by f_equal|].
      unfold sectionInv; cbn [sec_off sec_limit sec_r]; rewrite slice_nil by lia; split; [lia | done].
Qed.
End SectionSpec.

(** A buffered reader delivers the bytes of its source. *)
Section BufioSpec.
Context {S : Type} `{IoReader S} (Inv : bytes -> S -> Prop) `{!ReadsTo ioRead Inv}.

Definition bufioInv (out : bytes) (b : bufioReader S) : Prop :=
  exists out', out = bfr_buf b ++ out' /\ Inv out' (bfr_rd b) /\ (bfr_err b = None \/ bfr_err b = Some EOF /\ out' = []).

Lemma ioRead_step out s n :
  Inv out s -> 0 < n ->
  exists bs e s', io_read s n = (bs, e, s') /\ len bs <= n /\
    ((e = None /\ bs <> [] /\ exists out', out = bs ++ out' /\ Inv out' s') \/ (e = Some EOF /\ out = bs /\ Inv [] s')).
Proof.
  intros Hs Hn; destruct (reads_step out s n Hs Hn) as (bs & e & s' & E & Hl & Hc); unfold ioRead in E.
  destruct (io_read s n) as [[bs0 e0] s0]; injection E as -> -> ->; by exists bs, e, s'.
Qed.

Lemma take_nonempty {A} n (l : list A) : (0 < n)%nat -> l <> [] -> take n l <> [].
Proof. intros Hn Hl; destruct n; [lia|]; by destruct l. Qed.

#[export] Instance bufio_ReadsTo : ReadsTo ioRead bufioInv.
Proof.
  intros out b n (out' & -> & Hs & He) Hn; unfold ioRead; cbn [io_read bufio_IoReader]; unfold bufioRead.
  rewrite (proj2 (Z.eqb_neq n 0)) by lia.
  assert (Buf : forall (bs : bytes) o e s, bs <> [] -> Inv o s -> (e = None \/ e = Some EOF /\ o = []) ->
    len (take (Z.to_nat n) bs) <= n /\ take (Z.to_nat n) bs <> [] /\
    exists o', bs ++ o = take (Z.to_nat n) bs ++ o' /\ bufioInv o' (mkBufioReader s (drop (Z.to_nat n) bs) e)).
  { intros bs o e s Hb Hi Ho; split; [unfold len; rewrite length_take; lia|]; split; [apply take_nonempty; [lia | done]|].
    exists (drop (Z.to_nat n) bs ++ o); split; [by rewrite app_assoc, take_drop | by exists o]. }
  destruct (bfr_buf b) as [|c buf] eqn:Eb.
  - destruct (bfr_err b) as [e|] eqn:Ee.
    + destruct He as [|[He ->]]; [done|]; injection He as ->; exists [], (Some EOF); eexists; split; [reflexivity|].
      split; [rewrite len_nil; lia|]; right; split; [done|]; split; [done|]; exists []; cbn; auto.
    + destruct (Z.leb_spec bufioSize n).
      * destruct (ioRead_step out' (bfr_rd b) n Hs Hn) as (bs & e & s' & -> & Hl & Hc).
        exists bs, e; eexists; split; [reflexivity|]; split; [done|].
        destruct Hc as [(-> & Hb & o & -> & Hi) | (-> & -> & Hi)]; [left | right]; (split; [done|]); (split; [done|]).
        -- exists o; split; [done|]; exists o; cbn; auto.
        -- exists []; cbn; auto.
      * destruct (ioRead_step out' (bfr_rd b) bufioSize Hs ltac:(reflexivity)) as (bs & e & s' & -> & Hl & Hc).
        destruct Hc as [(-> & Hb & o & -> & Hi) | (-> & -> & Hi)].
        -- destruct bs as [|c bs]; [done|]; destruct (Buf (c :: bs) o None s' Hb Hi (or_introl eq_refl)) as (B1 & B2 & o' & B3 & B4).
           do 3 eexists; split; [reflexivity|]; split; [exact B1|]; left; split; [done|]; split; [exact B2|]; by exists o'.
        -- destruct bs as [|c bs].
           ++ do 3 eexists; split; [reflexivity|]; split; [rewrite len_nil; lia|]; right; split; [done|]; split; [done|].
              exists []; cbn; auto.
           ++ destruct (Buf (c :: bs) [] (Some EOF) s' ltac:(done) Hi ltac:(by right)) as (B1 & B2 & o' & B3 & B4).
              do 3 eexists; split; [reflexivity|]; split; [exact B1|]; left; split; [done|]; split; [exact B2|].
              exists o'; split; [by rewrite app_nil_r in B3 | done].
  - destruct (Buf (c :: buf) out' (bfr_err b) (bfr_rd b) ltac:(done) Hs He) as (B1 & B2 & o' & B3 & B4).
    do 3 eexists; split; [reflexivity|]; split; [exact B1|]; left; split; [done|]; split; [exact B2|]; by exists o'.
Qed.
End BufioSpec.

(** A buffered writer over a sink stores everything, in order. *)
Section BufioSink.
Context {W : Type} `{IoSink W}.

(** The bytes accepted so far: those of the sink and those in the buffer. *)
Definition bufioOut (b : bufioWriter W) : bytes := io_out (bfw_wr b) ++ bfw_buf b.
Definition bufioOk (b : bufioWriter W) : Prop := bfw_err b = None /\ len (bfw_buf b) <= bufioSize.

Lemma bufioFlush_sink b :
  bufioOk b -> exists w', bufioFlush b = (None, mkBufioWriter w' [] None) /\ io_out w' = bufioOut b.
Proof.
  intros [He Hl]; unfold bufioFlush, bufioOut; rewrite He.
  destruct (Z.eqb_spec (len (bfw_buf b)) 0) as [E%len_nil_inv|].
  - exists (bfw_wr b); rewrite E, app_nil_r; destruct b as [w buf err]; cbn in *; by subst.
  - destruct (io_write_sink (bfw_wr b) (bfw_buf b)) as (w' & -> & Ho); rewrite Z.ltb_irrefl; cbn [andb]; by exists w'.
Qed.

Lemma bufioOk_empty (w : W) : bufioOk (mkBufioWriter w [] None).
Proof. split; [done | vm_compute; discriminate]. Qed.

Lemma fits_empty (w : W) (q : bytes) e : len q <= bufioSize -> len q <= bufioSize - len (bfw_buf (mkBufioWriter w [] e)).
Proof. cbn [bfw_buf]; rewrite (@len_nil Z); lia. Qed.

Lemma bufioWrite_sink b p :
  bufioOk b -> exists b', bufioWrite b p = (Ok (len p, None), b') /\ bufioOk b' /\ bufioOut b' = bufioOut b ++ p.
Proof.
  intros Hok; pose proof Hok as [He Hl]; unfold bufioWrite.
  assert (L : forall fuel p nn b, bufioOk b -> len p <= bufioSize - len (bfw_buf b) -> bufioWriteLoop fuel p nn b = (Ok (p, nn), b)).
  { intros [|f] q nn c [Hc _] Hq; cbn [bufioWriteLoop]; rewrite (proj2 (Z.ltb_ge _ _)) by lia; done. }
  assert (G : exists q nn b1, bufioWriteLoop 3 p 0 b = (Ok (q, nn), b1) /\ bufioOk b1 /\ len q <= bufioSize - len (bfw_buf b1) /\
    nn + len q = len p /\ bufioOut b1 ++ q = bufioOut b ++ p).
  { destruct (Z.le_gt_cases (len p) (bufioSize - len (bfw_buf b))) as [Hp|Hp].
    { exists p, 0, b; rewrite L by done; auto with lia. }
    assert (Direct : forall f q nn w, bufioSize < len q ->
      exists b1, bufioWriteLoop (Datatypes.S f) q nn (mkBufioWriter w [] None) = (Ok ([], nn + len q), b1) /\ bufioOk b1 /\
        bfw_buf b1 = [] /\ bufioOut b1 = io_out w ++ q).
    { intros f q nn w Hq; cbn [bufioWriteLoop bfw_buf bfw_err bfw_wr]; rewrite (@len_nil Z), (proj2 (Z.ltb_lt _ _)) by lia.
      rewrite bool_decide_eq_true_2 by done; cbn [andb]; rewrite Z.eqb_refl.
      destruct (io_write_sink w q) as (w' & -> & Ho).
      rewrite (drop_ge q) by (unfold len; lia); exists (mkBufioWriter w' [] None).
      pose proof (bufioOk_empty w') as O1.
      rewrite L by (done || (apply fits_empty; rewrite (@len_nil Z); done)).
      split; [done|]; split; [exact O1|]; split; [done|].
      unfold bufioOut; cbn; by rewrite app_nil_r. }
    destruct (Z.eqb_spec (len (bfw_buf b)) 0) as [E%len_nil_inv|Hne].
    - destruct b as [w buf err]; cbn [bfw_wr bfw_buf bfw_err] in *; subst; rewrite (@len_nil Z), Z.sub_0_r in Hp.
      destruct (Direct 2%nat p 0 w ltac:(lia)) as (b1 & -> & Ob & Eb & Hb); exists [], (0 + len p), b1; rewrite Eb, (@len_nil Z).
      split; [done|]; split; [done|]; split; [unfold bufioSize; lia|]; split; [lia|].
      rewrite app_nil_r, Hb; unfold bufioOut; cbn [bfw_wr bfw_buf]; by rewrite app_nil_r.
    - set (k := Z.to_nat (bufioSize - len (bfw_buf b))).
      set (b0 := mkBufioWriter (bfw_wr b) (bfw_buf b ++ take k p) None).
      assert (O0 : bufioOk b0) by (split; cbn; [done|]; unfold len in *; rewrite length_app, length_take; lia).
      destruct (bufioFlush_sink b0 O0) as (w1 & F & Ho).
      assert (S3 : bufioWriteLoop 3 p 0 b = bufioWriteLoop 2 (drop k p) (Z.of_nat k) (mkBufioWriter w1 [] None)).
      { assert (Fill : forall f, bufioWriteLoop (Datatypes.S f) p 0 b =
          let '(_, b) := bufioFlush b0 in bufioWriteLoop f (drop k p) (0 + Z.of_nat k) b); [|by rewrite Fill, F].
        intros f; cbn [bufioWriteLoop]; rewrite He, (proj2 (Z.ltb_lt _ _)), bool_decide_eq_true_2 by (lia || done); cbn [andb].
        by rewrite (proj2 (Z.eqb_neq _ _)) by done. }
      rewrite S3; assert (Ek : Z.of_nat k + len (drop k p) = len p) by (unfold len; rewrite length_drop; unfold len in *; lia).
      assert (Eo : io_out w1 ++ drop k p = bufioOut b ++ p).
      { rewrite Ho; unfold bufioOut, b0; cbn; by rewrite <- !app_assoc, take_drop. }
      destruct (Z.le_gt_cases (len (drop k p)) bufioSize) as [Hd|Hd].
      + exists (drop k p), (Z.of_nat k), (mkBufioWriter w1 [] None).
        pose proof (bufioOk_empty w1) as O1.
        rewrite L by (done || (apply fits_empty; lia)); split; [done|]; split; [done|]; split; [apply fits_empty; lia|].
        split; [done|]; unfold bufioOut at 1; cbn; by rewrite app_nil_r.
      + destruct (Direct 1%nat (drop k p) (Z.of_nat k) w1 ltac:(lia)) as (b1 & -> & Ob & Eb & Hb).
        exists [], (Z.of_nat k + len (drop k p)), b1; rewrite Eb, (@len_nil Z).
        split; [done|]; split; [done|]; split; [unfold bufioSize; lia|]; split; [lia|]; by rewrite Hb, app_nil_r. }
  destruct G as (q & nn & b1 & -> & [He1 Hl1] & Hq & Hn & Ho); rewrite He1.
  eexists; split; [by rewrite Hn|]; split; [split; cbn; [done | rewrite len_app; lia]|].
  unfold bufioOut in *; cbn; by rewrite app_assoc.
Qed.
End BufioSink.
