(* ===== verification/ZipStruct.v ===== *)
(** * zip/struct.go: file headers, file modes and MS-DOS times *)
From S2P Require Import Prelude GoInt GoString GoTime GoDate GoPath.
Open Scope go_scope.

(** ** Constants *)
Definition Store : Z := 0.
Definition Deflate : Z := 8.
Definition LZMA : Z := 14.

Definition fileHeaderSignature : Z := 0x04034b50.
Definition directoryHeaderSignature : Z := 0x02014b50.
Definition directoryEndSignature : Z := 0x06054b50.
Definition directory64LocSignature : Z := 0x07064b50.
Definition directory64EndSignature : Z := 0x06064b50.
Definition dataDescriptorSignature : Z := 0x08074b50.
Definition fileHeaderLen : Z := 30.
Definition directoryHeaderLen : Z := 46.
Definition directoryEndLen : Z := 22.
Definition dataDescriptorLen : Z := 16.
Definition dataDescriptor64Len : Z := 24.
Definition directory64LocLen : Z := 20.
Definition directory64EndLen : Z := 56.

Definition creatorFAT : Z := 0.
Definition creatorUnix : Z := 3.
Definition creatorNTFS : Z := 11.
Definition creatorVFAT : Z := 14.
Definition creatorMacOSX : Z := 19.

Definition zipVersion20 : Z := 20.
Definition zipVersion45 : Z := 45.

Definition uint16max : Z := 2 ^ 16 - 1.
Definition uint32max : Z := 2 ^ 32 - 1.

Definition zip64ExtraID : Z := 0x0001.
Definition ntfsExtraID : Z := 0x000a.
Definition unixExtraID : Z := 0x000d.
Definition extTimeExtraID : Z := 0x5455.
Definition infoZipUnixExtraID : Z := 0x5855.

(** The errors of zip/reader.go that several files use. *)
Definition ErrFormat : error := ErrMsg "zip: not a valid zip file".
Definition ErrAlgorithm : error := ErrMsg "zip: unsupported compression algorithm".
Definition ErrChecksum : error := ErrMsg "zip: checksum error".

Record FileHeader := mkFileHeader {
  fh_Name : bytes;
  fh_Comment : bytes;
  fh_NonUTF8 : bool;
  fh_CreatorVersion : Z;
  fh_ReaderVersion : Z;
  fh_Flags : Z;
  fh_Method : Z;
  fh_Modified : Time;
  fh_ModifiedTime : Z;
  fh_ModifiedDate : Z;
  fh_CRC32 : Z;
  fh_CompressedSize : Z;
  fh_UncompressedSize : Z;
  fh_CompressedSize64 : Z;
  fh_UncompressedSize64 : Z;
  fh_Extra : bytes;
  fh_ExternalAttrs : Z
}.

#[export] Instance FileHeader_eq_dec : EqDecision FileHeader.
Proof. solve_decision. Defined.

(** [new(FileHeader)]. *)
Definition newFileHeader : FileHeader :=
  mkFileHeader [] [] false 0 0 0 0 zeroTime 0 0 0 0 0 0 0 [] 0.

(** ** MS-DOS times *)
Definition timeZone (offset : Z) : Location :=
  let minOffset := - 12 * hour in
  let maxOffset := 14 * hour in
  let offsetAlias := 15 * minute in
  let offset := Round offset offsetAlias in
  let offset := if (offset <? minOffset) || (maxOffset <? offset) then 0 else offset in
  FixedZone (Z.quot offset second).

Definition msDosTimeToTime (dosDate dosTime : Z) : Time :=
  DateUTC (uint16 (Z.shiftr dosDate 9 + 1980)) (Z.land (Z.shiftr dosDate 5) 0xf) (Z.land dosDate 0x1f)
    (Z.shiftr dosTime 11) (Z.land (Z.shiftr dosTime 5) 0x3f) (uint16 (Z.land dosTime 0x1f * 2)).

Section Zones.
Variable localOffset : Z -> Z.

(** The date and the time, in this order. *)
Definition timeToMsDosTime (t : Time) : Z * Z :=
  (uint16 (Day localOffset t + Z.shiftl (Month localOffset t) 5 + Z.shiftl (Year localOffset t - 1980) 9),
   uint16 (Second localOffset t / 2 + Z.shiftl (Minute localOffset t) 5 + Z.shiftl (Hour localOffset t) 11)).

Definition ModTime (h : FileHeader) : Time := msDosTimeToTime (fh_ModifiedDate h) (fh_ModifiedTime h).

(** [h.Modified], [h.ModifiedDate] and [h.ModifiedTime] are assigned. *)
Definition setModified (t : Time) (d tm : Z) (h : FileHeader) : FileHeader :=
  mkFileHeader (fh_Name h) (fh_Comment h) (fh_NonUTF8 h) (fh_CreatorVersion h) (fh_ReaderVersion h) (fh_Flags h) (fh_Method h)
    t tm d (fh_CRC32 h) (fh_CompressedSize h) (fh_UncompressedSize h) (fh_CompressedSize64 h) (fh_UncompressedSize64 h)
    (fh_Extra h) (fh_ExternalAttrs h).

Definition SetModTime (t : Time) (h : FileHeader) : FileHeader :=
  let t := toUTC t in
  let '(d, tm) := timeToMsDosTime t in
  setModified t d tm h.
End Zones.

(** ** File modes *)
Definition s_IFMT : Z := 0xf000.
Definition s_IFSOCK : Z := 0xc000.
Definition s_IFLNK : Z := 0xa000.
Definition s_IFREG : Z := 0x8000.
Definition s_IFBLK : Z := 0x6000.
Definition s_IFDIR : Z := 0x4000.
Definition s_IFCHR : Z := 0x2000.
Definition s_IFIFO : Z := 0x1000.
Definition s_ISUID : Z := 0x800.
Definition s_ISGID : Z := 0x400.
Definition s_ISVTX : Z := 0x200.
Definition msdosDir : Z := 0x10.
Definition msdosReadOnly : Z := 0x01.

(** [if cond { m |= bit }]. *)
Definition orIf (cond : bool) (bit m : Z) : Z := if cond then Z.lor m bit else m.

Definition msdosModeToFileMode (m : Z) : Z :=
  let mode := if hasBit m msdosDir then Z.lor ModeDir 511 else 438 in
  if hasBit m msdosReadOnly then Z.ldiff mode 146 else mode.

Definition fileModeToUnixMode (mode : Z) : Z :=
  let ty := Z.land mode ModeType in
  let m :=
    if ty =? ModeDir then s_IFDIR
    else if ty =? ModeSymlink then s_IFLNK
    else if ty =? ModeNamedPipe then s_IFIFO
    else if ty =? ModeSocket then s_IFSOCK
    else if ty =? ModeDevice then if hasBit mode ModeCharDevice then s_IFCHR else s_IFBLK
    else s_IFREG in
  let m := orIf (hasBit mode ModeSetuid) s_ISUID m in
  let m := orIf (hasBit mode ModeSetgid) s_ISGID m in
  let m := orIf (hasBit mode ModeSticky) s_ISVTX m in
  Z.lor m (Z.land mode 511).

Definition unixModeToFileMode (m : Z) : Z :=
  let mode := Z.land m 511 in
  let ty := Z.land m s_IFMT in
  let mode :=
    if ty =? s_IFBLK then Z.lor mode ModeDevice
    else if ty =? s_IFCHR then Z.lor mode (Z.lor ModeDevice ModeCharDevice)
    else if ty =? s_IFDIR then Z.lor mode ModeDir
    else if ty =? s_IFIFO then Z.lor mode ModeNamedPipe
    else if ty =? s_IFLNK then Z.lor mode ModeSymlink
    else if ty =? s_IFREG then mode
    else if ty =? s_IFSOCK then Z.lor mode ModeSocket
    else mode in
  let mode := orIf (hasBit m s_ISGID) ModeSetgid mode in
  let mode := orIf (hasBit m s_ISUID) ModeSetuid mode in
  orIf (hasBit m s_ISVTX) ModeSticky mode.

Definition Mode (h : FileHeader) : Z :=
  let v := Z.shiftr (fh_CreatorVersion h) 8 in
  let mode :=
    if (v =? creatorUnix) || (v =? creatorMacOSX) then unixModeToFileMode (Z.shiftr (fh_ExternalAttrs h) 16)
    else if (v =? creatorNTFS) || (v =? creatorVFAT) || (v =? creatorFAT) then msdosModeToFileMode (fh_ExternalAttrs h)
    else 0 in
  orIf (bool_decide (last (fh_Name h) = Some slash)) ModeDir mode.

Definition SetMode (mode : Z) (h : FileHeader) : FileHeader :=
  let attrs := uint32 (Z.shiftl (fileModeToUnixMode mode) 16) in
  let attrs := orIf (hasBit mode ModeDir) msdosDir attrs in
  let attrs := orIf (negb (hasBit mode 128)) msdosReadOnly attrs in
  mkFileHeader (fh_Name h) (fh_Comment h) (fh_NonUTF8 h)
    (Z.lor (Z.land (fh_CreatorVersion h) 0xff) (Z.shiftl creatorUnix 8)) (fh_ReaderVersion h) (fh_Flags h) (fh_Method h)
    (fh_Modified h) (fh_ModifiedTime h) (fh_ModifiedDate h) (fh_CRC32 h) (fh_CompressedSize h) (fh_UncompressedSize h)
    (fh_CompressedSize64 h) (fh_UncompressedSize64 h) (fh_Extra h) attrs.

Definition isZip64 (h : FileHeader) : bool :=
  (uint32max <=? fh_CompressedSize64 h) || (uint32max <=? fh_UncompressedSize64 h).

(** ** os.FileInfo *)
Record FileInfo := mkFileInfo { fi_Name : bytes; fi_Size : Z; fi_Mode : Z; fi_ModTime : Time; fi_IsDir : bool }.

(** [h.FileInfo()] and its methods. *)
Definition fileInfoSize (h : FileHeader) : Z :=
  if 0 <? fh_UncompressedSize64 h then int64 (fh_UncompressedSize64 h) else fh_UncompressedSize h.
Definition headerFileInfo (h : FileHeader) : FileInfo :=
  mkFileInfo (Base (fh_Name h)) (fileInfoSize h) (Mode h) (ModTime h) (ModeIsDir (Mode h)).

Definition FileInfoHeader (localOffset : Z -> Z) (fi : FileInfo) : FileHeader :=
  let size := uint64 (fi_Size fi) in
  let fh := mkFileHeader (fi_Name fi) [] false 0 0 0 0 zeroTime 0 0 0 0 0 0 size [] 0 in
  let fh := SetMode (fi_Mode fi) (SetModTime localOffset (fi_ModTime fi) fh) in
  let small := if uint32max <? fh_UncompressedSize64 fh then uint32max else uint32 (fh_UncompressedSize64 fh) in
  mkFileHeader (fh_Name fh) (fh_Comment fh) (fh_NonUTF8 fh) (fh_CreatorVersion fh) (fh_ReaderVersion fh) (fh_Flags fh)
    (fh_Method fh) (fh_Modified fh) (fh_ModifiedTime fh) (fh_ModifiedDate fh) (fh_CRC32 fh) (fh_CompressedSize fh) small
    (fh_CompressedSize64 fh) (fh_UncompressedSize64 fh) (fh_Extra fh) (fh_ExternalAttrs fh).

(** The end-of-directory record. *)
Record directoryEnd := mkDirectoryEnd {
  diskNbr : Z;
  dirDiskNbr : Z;
  dirRecordsThisDisk : Z;
  directoryRecords : Z;
  directorySize : Z;
  directoryOffset : Z;
  commentLen : Z;
  comment : bytes;
  startSkipLen : Z
}.

(** A [*File] of a reader: its header, [zipsize] and [headerOffset]. Its
    [zip] and [zipr] are the reader itself, an argument of the methods. *)
Record File := mkFile { f_hdr : FileHeader; f_zipsize : Z; f_headerOffset : Z }.

Definition hasDataDescriptor (f : File) : bool := hasBit (fh_Flags (f_hdr f)) 0x8.

Definition setName (n : bytes) (h : FileHeader) : FileHeader :=
  mkFileHeader n (fh_Comment h) (fh_NonUTF8 h) (fh_CreatorVersion h) (fh_ReaderVersion h) (fh_Flags h) (fh_Method h)
    (fh_Modified h) (fh_ModifiedTime h) (fh_ModifiedDate h) (fh_CRC32 h) (fh_CompressedSize h) (fh_UncompressedSize h)
    (fh_CompressedSize64 h) (fh_UncompressedSize64 h) (fh_Extra h) (fh_ExternalAttrs h).
