(* ===== verification/ZipNames.v ===== *)
(** * zip: the encoding of file names

    [detectUTF8] (zip/writer.go) and [normalizeNameEncoding]
    (zip/normalize_name_encoding.go). The charset detector and the two
    decoders are third-party code: parameters of the section. *)
From S2P Require Import Prelude GoInt GoString GoTime GoPath ZipStruct.
Open Scope go_scope.

(** [valid] and [require]. *)
Fixpoint detectLoop (rs : list (Z * nat)) (require : bool) : bool * bool :=
  match rs with
  | [] => (true, require)
  | (r, size) :: rs =>
      if (r <? 0x20) || (0x7d <? r) || (r =? 0x5c) then
        if negb (ValidRune r) || ((r =? RuneError) && (size =? 1)%nat) then (false, false)
        else detectLoop rs true
      else detectLoop rs require
  end.
Definition detectUTF8 (s : bytes) : bool * bool := detectLoop (runes s) false.

Definition nameEncodingSampleSize : Z := 4096.

Section Normalize.
(** [chardet]'s [DetectBest] (charset and confidence, or an error) and the
    [Decoder.String] of the two encodings. *)
Variable DetectBest : bytes -> option (bytes * Z).
Variables CodePage437 ShiftJIS : bytes -> option bytes.

Definition undecoded (f : File) : bool := fh_NonUTF8 (f_hdr f) && negb (ValidString (fh_Name (f_hdr f))).

(** The sample: names that are not UTF-8, up to the first that goes past the size. *)
Fixpoint sampleNames (fs : list File) (buf : bytes) (hasNonUtf8 : bool) : bytes * bool :=
  match fs with
  | [] => (buf, hasNonUtf8)
  | f :: fs =>
      if undecoded f then
        let buf := buf ++ fh_Name (f_hdr f) ++ [32] in
        if nameEncodingSampleSize <? len buf then (buf, true) else sampleNames fs buf true
      else sampleNames fs buf hasNonUtf8
  end.

Definition decoderOf (buf : bytes) : bytes -> option bytes :=
  match DetectBest buf with
  | Some (charset, confidence) => if (70 <? confidence) && bool_decide (charset = str "Shift_JIS") then ShiftJIS else CodePage437
  | None => CodePage437
  end.

Definition decodeName (decode : bytes -> option bytes) (f : File) : File :=
  if fh_NonUTF8 (f_hdr f) then
    match decode (fh_Name (f_hdr f)) with
    | Some n => mkFile (setName n (f_hdr f)) (f_zipsize f) (f_headerOffset f)
    | None => f
    end
  else f.

Definition normalizeNameEncoding (fs : list File) : list File :=
  let '(buf, hasNonUtf8) := sampleNames fs [] false in
  if hasNonUtf8 then decodeName (decoderOf buf) <$> fs else fs.
End Normalize.

(** ** What the detector reports *)
Definition oddRune (r : Z) : bool := (r <? 0x20) || (0x7d <? r) || (r =? 0x5c).

Lemma lor_land63 a b : Z.land a 63 = 0 -> Z.lor a (Z.land b 63) = a + Z.land b 63.
Proof.
  intros Ha; rewrite <- Z.add_lor_land; assert (Z.land a (Z.land b 63) = 0) as ->; [|lia].
  by rewrite (Z.land_comm b), Z.land_assoc, Ha.
Qed.

(** The last byte of a sequence fills the low six bits. *)
Lemma last6 a b P :
  Z.land a 63 = 0 -> (forall i, 0 <= i < 64 -> P (a + i)) -> P (Z.lor a (Z.land b 63)).
Proof.
  intros Ha HP; rewrite lor_land63 by done; apply HP.
  change 63 with (Z.ones 6); rewrite Z.land_ones by lia; apply Z.mod_pos_bound; lia.
Qed.

Lemma ValidRune_block a : Z.land a 63 = 0 -> ValidRune a = true -> forall i, 0 <= i < 64 -> ValidRune (a + i) = true.
Proof.
  intros Ha Hv i Hi; change 63 with (Z.ones 6) in Ha; rewrite Z.land_ones in Ha by lia.
  revert Hv; unfold ValidRune; rewrite !orb_true_iff, !andb_true_iff, !Z.leb_le, !Z.ltb_lt.
  pose proof (Z.div_mod a (2 ^ 6) ltac:(lia)) as E; rewrite Ha in E; clear Ha; change (2 ^ 6) with 64 in *.
  set (q := a / 64) in *; clearbody q; lia.
Qed.

Lemma lastRune a b : Z.land a 63 = 0 -> ValidRune a = true -> ValidRune (Z.lor a (Z.land b 63)) = true.
Proof. intros Ha Hv; apply (last6 _ _ (fun r => ValidRune r = true)); [done|]; by apply ValidRune_block. Qed.

(** The leading bytes give a valid rune with the low bits clear. *)
Definition leadOk (n : nat) (f : Z -> Z -> Z) (los : list Z) : bool :=
  forallb (fun b0 => forallb (fun b1 =>
    match utf8_first b0 with
    | Some (m, lo, hi) => negb (m =? n)%nat || negb (in_range lo hi b1) || ((Z.land (f b0 b1) 63 =? 0) && ValidRune (f b0 b1))
    | None => true end) (seqZ 0x80 64)) los.

Lemma leadOk_spec n f lo0 (k : Z) b0 b1 lo hi :
  leadOk n f (seqZ lo0 k) = true -> lo0 <= b0 < lo0 + k -> utf8_first b0 = Some (n, lo, hi) -> in_range lo hi b1 = true ->
  Z.land (f b0 b1) 63 = 0 /\ ValidRune (f b0 b1) = true.
Proof.
  intros H Hb0 Hf Hr; destruct (utf8_first_inv _ _ _ _ Hf) as (? & ? & _); apply in_range_spec in Hr as Hr'.
  unfold leadOk in H; apply (range_forallb _ _ _ b0) in H; [|done]; cbv beta in H.
  apply (range_forallb _ _ _ b1) in H; [|lia]; cbv beta in H; rewrite Hf, Nat.eqb_refl, Hr in H; cbn [negb orb] in H.
  by apply andb_true_iff in H as [?%Z.eqb_eq ?].
Qed.

Lemma rune2_valid b0 b1 lo hi : utf8_first b0 = Some (2%nat, lo, hi) -> in_range lo hi b1 = true -> ValidRune (rune2 b0 b1) = true.
Proof.
  intros Hf Hr; destruct (utf8_first_inv _ _ _ _ Hf) as (_ & _ & Hb).
  assert (E : leadOk 2 (fun b0 _ => Z.shiftl (Z.land b0 0x1F) 6) (seqZ 0xC2 30) = true) by (vm_compute; reflexivity).
  destruct (leadOk_spec _ _ _ _ b0 b1 lo hi E ltac:(lia) Hf Hr); by apply lastRune.
Qed.

Lemma rune3_valid b0 b1 b2 lo hi : utf8_first b0 = Some (3%nat, lo, hi) -> in_range lo hi b1 = true -> ValidRune (rune3 b0 b1 b2) = true.
Proof.
  intros Hf Hr; destruct (utf8_first_inv _ _ _ _ Hf) as (_ & _ & Hb).
  assert (E : leadOk 3 (fun b0 b1 => Z.lor (Z.shiftl (Z.land b0 0x0F) 12) (Z.shiftl (Z.land b1 0x3F) 6)) (seqZ 0xE0 16) = true)
    by (vm_compute; reflexivity).
  destruct (leadOk_spec _ _ _ _ b0 b1 lo hi E ltac:(lia) Hf Hr); by apply lastRune.
Qed.

Lemma rune4_valid b0 b1 b2 b3 lo hi :
  utf8_first b0 = Some (4%nat, lo, hi) -> in_range lo hi b1 = true -> in_range 0x80 0xBF b2 = true -> ValidRune (rune4 b0 b1 b2 b3) = true.
Proof.
  intros Hf Hr Hb2%in_range_spec; destruct (utf8_first_inv _ _ _ _ Hf) as (_ & _ & Hb).
  assert (E : forallb (fun b2 => leadOk 4 (fun b0 b1 => Z.lor (Z.lor (Z.shiftl (Z.land b0 0x07) 18) (Z.shiftl (Z.land b1 0x3F) 12))
    (Z.shiftl (Z.land b2 0x3F) 6)) (seqZ 0xF0 5)) (seqZ 0x80 64) = true) by (vm_compute; reflexivity).
  apply (range_forallb _ _ _ b2) in E; [|lia]; cbv beta in E.
  destruct (leadOk_spec _ _ _ _ b0 b1 lo hi E ltac:(lia) Hf Hr); unfold rune4; rewrite Z.lor_assoc; by apply lastRune.
Qed.

Lemma DecodeRune_valid s : bytes_ok s -> ValidRune (DecodeRune s).1 = true.
Proof.
  intros Hs; destruct s as [|b0 s1]; [done|]; apply Forall_cons in Hs as [Hb Hs]; unfold is_byte in Hb; cbn [DecodeRune].
  destruct (Z.ltb_spec b0 0x80).
  { cbn [fst]; unfold ValidRune; by rewrite (proj2 (Z.leb_le 0 b0)), (proj2 (Z.ltb_lt b0 _)) by lia. }
  destruct (utf8_first b0) as [[[n lo] hi]|] eqn:Hf; [|done].
  destruct n as [|[|[|[|[|n]]]]]; destruct s1 as [|b1 [|b2 [|b3 s1]]]; try done;
    repeat match goal with |- context [if ?c then _ else _] => destruct c eqn:? end; try done;
    repeat match goal with H : (_ && _) = true |- _ => apply andb_true_iff in H as [? ?] end; cbn [fst];
    eauto using rune2_valid, rune3_valid, rune4_valid.
Qed.

Lemma runes_valid s : bytes_ok s -> Forall (fun p => ValidRune p.1 = true) (runes s).
Proof.
  unfold runes; generalize (length s); intros f; revert s; induction f as [|f IH]; intros s Hs; cbn [runes_fuel]; [done|].
  destruct s as [|b0 s]; [done|]; pose proof (DecodeRune_valid _ Hs) as Hv.
  destruct (DecodeRune (b0 :: s)) as [r w]; constructor; [done | apply IH, Forall_drop, Hs].
Qed.

Lemma detectLoop_spec rs req :
  Forall (fun p => ValidRune p.1 = true) rs ->
  detectLoop rs req =
    if forallb (fun '(r, w) => negb ((r =? RuneError) && (w =? 1)%nat)) rs
    then (true, req || existsb (fun p => oddRune p.1) rs) else (false, false).
Proof.
  intros Hv; revert req; induction Hv as [|[r w] rs Hr _ IH]; intros req; cbn [detectLoop forallb existsb fst].
  { by rewrite orb_false_r. }
  fold (oddRune r); cbn [fst] in Hr; rewrite Hr; cbn [negb orb].
  destruct (oddRune r) eqn:Ho; cbn [orb].
  - destruct ((r =? RuneError) && (w =? 1)%nat); cbn [negb andb]; [done|]; rewrite IH, orb_true_r.
    by destruct (forallb _ rs).
  - assert ((r =? RuneError) = false) as ->; [|by cbn [andb negb]; rewrite IH].
    apply Z.eqb_neq; intros ->; by revert Ho; vm_compute.
Qed.

Lemma bytes_ok_check s : forallb (fun c => (0 <=? c) && (c <? 256)) s = true -> bytes_ok s.
Proof.
  intros Hs; apply Forall_forall; intros c Hc; rewrite forallb_forall in Hs; specialize (Hs c (proj1 (list_elem_of_In _ _) Hc)).
  by apply andb_true_iff in Hs as [?%Z.leb_le ?%Z.ltb_lt].
Qed.

(** C35: [detectUTF8] calls a string valid exactly when [utf8.ValidString]
    does, and then requires UTF-8 exactly when some rune is a control
    character, a backslash or beyond the closing brace. *)
Theorem detectUTF8_spec s :
  bytes_ok s ->
  detectUTF8 s = (ValidString s, ValidString s && existsb (fun p => oddRune p.1) (runes s)).
Proof.
  intros Hs; unfold detectUTF8, ValidString; rewrite detectLoop_spec by by apply runes_valid.
  by destruct (forallb _ (runes s)).
Qed.

Lemma detectUTF8_spec_witness :
  detectUTF8 [0xC3; 0xA9] = (true, true) /\ detectUTF8 [0xC3] = (false, false) /\ detectUTF8 (str "a/b") = (true, false).
Proof. split; [|split]; (rewrite detectUTF8_spec; [vm_compute; reflexivity | apply bytes_ok_check; vm_compute; reflexivity]). Defined.

(** Nothing to decode, nothing changed. *)
Lemma normalize_none db cp sj fs : Forall (fun f => undecoded f = false) fs -> normalizeNameEncoding db cp sj fs = fs.
Proof.
  intros Hf; unfold normalizeNameEncoding; assert (forall buf, sampleNames fs buf false = (buf, false)) as ->; [|done].
  induction Hf as [|f fs H _ IH]; intros buf; cbn [sampleNames]; [done | by rewrite H].
Qed.
