(* ===== verification/ZipTimes.v ===== *)
(** * MS-DOS times, time zones and file modes: what zip/struct.go promises *)
From S2P Require Import Prelude GoInt GoString GoTime GoDate GoPath ZipStruct.
Open Scope go_scope.

(** ** Bit fields *)

(** Three fields packed at bits 0, [a] and [b]. *)
Definition packed (a b x y z : Z) : Z := x + Z.shiftl y a + Z.shiftl z b.

Lemma packed_fields a b n x y z :
  0 <= a <= b -> b <= n -> 0 <= x < 2 ^ a -> 0 <= y < 2 ^ (b - a) -> 0 <= z < 2 ^ (n - b) ->
  Z.land (packed a b x y z) (Z.ones a) = x /\
  Z.land (Z.shiftr (packed a b x y z) a) (Z.ones (b - a)) = y /\
  Z.shiftr (packed a b x y z) b = z /\ 0 <= packed a b x y z < 2 ^ n.
Proof.
  intros Ha Hb Hx Hy Hz; unfold packed.
  rewrite !Z.land_ones, !Z.shiftr_div_pow2, !Z.shiftl_mul_pow2 by lia.
  assert (E : 2 ^ b = 2 ^ a * 2 ^ (b - a)) by (rewrite <- Z.pow_add_r by lia; f_equal; lia).
  assert (N : 2 ^ n = 2 ^ b * 2 ^ (n - b)) by (rewrite <- Z.pow_add_r by lia; f_equal; lia).
  set (A := 2 ^ a) in *; set (B := 2 ^ (b - a)) in *; set (C := 2 ^ (n - b)) in *.
  assert (0 < A) by (apply Z.pow_pos_nonneg; lia); assert (0 < B) by (apply Z.pow_pos_nonneg; lia).
  rewrite E in *; replace (x + y * A + z * (A * B)) with ((y + z * B) * A + x) by ring.
  assert (D : ((y + z * B) * A + x) / A = y + z * B) by (symmetry; apply (Z.div_unique _ A _ x); lia).
  split; [symmetry; apply (Z.mod_unique _ A (y + z * B)); lia|]; split; [|split].
  - rewrite D; symmetry; apply (Z.mod_unique _ B z); lia.
  - rewrite <- Z.div_div, D by lia; symmetry; apply (Z.div_unique _ B _ y); lia.
  - rewrite N; nia.
Qed.

Lemma packed_date x y z :
  0 <= x < 32 -> 0 <= y < 16 -> 0 <= z < 128 ->
  let n := x + Z.shiftl y 5 + Z.shiftl z 9 in
  0 <= n < 2 ^ 16 /\ Z.land n 0x1f = x /\ Z.land (Z.shiftr n 5) 0xf = y /\ Z.shiftr n 9 = z.
Proof. intros Hx Hy Hz n; destruct (packed_fields 5 9 16 x y z) as (H1 & H2 & H3 & H4); try (cbn; lia); done. Qed.

Lemma packed_time x y z :
  0 <= x < 32 -> 0 <= y < 64 -> 0 <= z < 32 ->
  let n := x + Z.shiftl y 5 + Z.shiftl z 11 in
  0 <= n < 2 ^ 16 /\ Z.land n 0x1f = x /\ Z.land (Z.shiftr n 5) 0x3f = y /\ Z.shiftr n 11 = z.
Proof. intros Hx Hy Hz n; destruct (packed_fields 5 11 16 x y z) as (H1 & H2 & H3 & H4); try (cbn; lia); done. Qed.

Lemma uint16_small x : 0 <= x < 2 ^ 16 -> uint16 x = x.
Proof. apply wrapu_id. Qed.

(** Packing and unpacking the fields. *)
Lemma msDosTimeToTime_packed y m d h mi s :
  1980 <= y <= 2107 -> 0 <= m < 16 -> 0 <= d < 32 -> 0 <= h < 32 -> 0 <= mi < 64 -> 0 <= s < 32 ->
  msDosTimeToTime (uint16 (d + Z.shiftl m 5 + Z.shiftl (y - 1980) 9)) (uint16 (s + Z.shiftl mi 5 + Z.shiftl h 11)) =
    DateUTC y m d h mi (s * 2).
Proof.
  intros Hy Hm Hd Hh Hmi Hs.
  destruct (packed_date d m (y - 1980)) as (D & D1 & D2 & D3); [lia..|].
  destruct (packed_time s mi h) as (T & T1 & T2 & T3); [lia..|].
  unfold msDosTimeToTime; rewrite (uint16_small _ D), (uint16_small _ T), D1, D2, D3, T1, T2, T3.
  rewrite !uint16_small by lia; f_equal; lia.
Qed.

(** ** MS-DOS times *)
Section Zones.
Variable localOffset : Z -> Z.
Abbreviation wall := (wall localOffset).

Definition dosYear (t : Time) : Prop := 1980 <= Year localOffset t <= 2107.

Lemma monthLen_31 leap m : 1 <= m <= 12 -> monthLen leap m <= 31.
Proof.
  intros Hm; assert (A : allFrom 12 1 (fun m => monthLen leap m <=? 31) = true) by (destruct leap; vm_compute; reflexivity).
  apply Z.leb_le, (allFrom_spec _ _ _ A); lia.
Qed.

(** The fields of the wall clock are in range. *)
Lemma wall_fields t :
  dosYear t ->
  0 <= Day localOffset t < 32 /\ 0 <= Month localOffset t < 16 /\ 0 <= Year localOffset t - 1980 < 128 /\
  0 <= Second localOffset t / 2 < 32 /\ 0 <= Minute localOffset t < 64 /\ 0 <= Hour localOffset t < 32.
Proof.
  intros Hy; pose proof (daysOf_dateOf (wall t / 86400)) as H; unfold dosYear, Year, Month, Day in *.
  destruct (dateOf _) as [[y m] d]; cbn [fst snd] in *; destruct H as (_ & Hm & Hd).
  rewrite daysIn_monthLen in Hd; pose proof (monthLen_31 (isLeap y) m Hm).
  unfold Second, Minute, Hour.
  pose proof (Z.mod_pos_bound (wall t) 60 ltac:(lia)); pose proof (Z.mod_pos_bound (wall t) 3600 ltac:(lia)).
  pose proof (Z.mod_pos_bound (wall t) 86400 ltac:(lia)).
  repeat split; try lia; try (apply Z.div_pos; lia); apply Z.div_lt_upper_bound; lia.
Qed.

Lemma msDosTime_packed t :
  dosYear t ->
  let '(d, tm) := timeToMsDosTime localOffset t in
  msDosTimeToTime d tm = mkTime (wall t - wall t mod 2) 0 UTC.
Proof.
  intros Hy; pose proof (wall_fields t Hy) as (H1 & H2 & H3 & H4 & H5 & H6).
  unfold timeToMsDosTime; rewrite msDosTimeToTime_packed by (unfold dosYear in Hy; lia).
  assert (Hs : Second localOffset t / 2 * 2 = Second localOffset t - wall t mod 2).
  { unfold Second; pose proof (Z.div_mod (wall t mod 60) 2 ltac:(lia)).
    assert ((wall t mod 60) mod 2 = wall t mod 2) by (apply Z.mod_mod_divide; by exists 30); lia. }
  rewrite Hs; clear - Hy; pose proof (DateUTC_wall (wall t)) as W; unfold Year, Month, Day, Hour, Minute, Second in *.
  destruct (dateOf _) as [[y m] d]; cbn [fst snd] in *; unfold DateUTC in *; cbn [t_sec] in W; f_equal; lia.
Qed.
End Zones.

(** A date and a time that MS-DOS allows. *)
Definition dosValid (d tm : Z) : Prop :=
  let m := Z.land (Z.shiftr d 5) 0xf in
  0 <= d < 2 ^ 16 /\ 0 <= tm < 2 ^ 16 /\ 1 <= m <= 12 /\ 1 <= Z.land d 0x1f <= daysIn m (Z.shiftr d 9 + 1980) /\
  Z.shiftr tm 11 < 24 /\ Z.land (Z.shiftr tm 5) 0x3f < 60 /\ Z.land tm 0x1f < 30.

(** Splitting a number into its fields and packing them again. *)
Lemma packed_split a b n x :
  0 <= a <= b -> b <= n -> 0 <= x < 2 ^ n ->
  packed a b (Z.land x (Z.ones a)) (Z.land (Z.shiftr x a) (Z.ones (b - a))) (Z.shiftr x b) = x /\
  0 <= Z.land x (Z.ones a) < 2 ^ a /\ 0 <= Z.land (Z.shiftr x a) (Z.ones (b - a)) < 2 ^ (b - a) /\ 0 <= Z.shiftr x b < 2 ^ (n - b).
Proof.
  intros Ha Hb Hx; unfold packed; rewrite !Z.land_ones, !Z.shiftr_div_pow2, !Z.shiftl_mul_pow2 by lia.
  assert (E : 2 ^ b = 2 ^ a * 2 ^ (b - a)) by (rewrite <- Z.pow_add_r by lia; f_equal; lia).
  assert (N : 2 ^ n = 2 ^ b * 2 ^ (n - b)) by (rewrite <- Z.pow_add_r by lia; f_equal; lia).
  set (A := 2 ^ a) in *; set (B := 2 ^ (b - a)) in *; set (C := 2 ^ (n - b)) in *.
  assert (0 < A) by (apply Z.pow_pos_nonneg; lia); assert (0 < B) by (apply Z.pow_pos_nonneg; lia).
  rewrite N, E in *; rewrite <- (Z.div_div x A B) by lia; set (q := x / A).
  pose proof (Z.div_mod x A ltac:(lia)); pose proof (Z.div_mod q B ltac:(lia)); fold q in H1.
  split; [nia|]; split; [apply Z.mod_pos_bound; lia|]; split; [apply Z.mod_pos_bound; lia|].
  assert (0 <= q) by (apply Z.div_pos; lia); assert (q < B * C) by (apply Z.div_lt_upper_bound; lia).
  split; [apply Z.div_pos; lia | apply Z.div_lt_upper_bound; lia].
Qed.

Lemma split_date x :
  0 <= x < 2 ^ 16 ->
  let d := Z.land x 0x1f in let m := Z.land (Z.shiftr x 5) 0xf in let y := Z.shiftr x 9 in
  d + Z.shiftl m 5 + Z.shiftl y 9 = x /\ 0 <= d < 32 /\ 0 <= m < 16 /\ 0 <= y < 128.
Proof. intros Hx; exact (packed_split 5 9 16 x ltac:(lia) ltac:(lia) Hx). Qed.

Lemma split_time x :
  0 <= x < 2 ^ 16 ->
  let s := Z.land x 0x1f in let mi := Z.land (Z.shiftr x 5) 0x3f in let h := Z.shiftr x 11 in
  s + Z.shiftl mi 5 + Z.shiftl h 11 = x /\ 0 <= s < 32 /\ 0 <= mi < 64 /\ 0 <= h < 32.
Proof. intros Hx; exact (packed_split 5 11 16 x ltac:(lia) ltac:(lia) Hx). Qed.

(** The clock of a time of day. *)
Lemma clock h mi s days :
  0 <= h < 24 -> 0 <= mi < 60 -> 0 <= s < 60 ->
  let sec := days * 86400 + h * 3600 + mi * 60 + s in
  sec / 86400 = days /\ sec mod 86400 / 3600 = h /\ sec mod 3600 / 60 = mi /\ sec mod 60 = s.
Proof.
  intros Hh Hmi Hs sec.
  assert (E1 : sec mod 86400 = h * 3600 + mi * 60 + s) by (symmetry; apply (Z.mod_unique _ _ days); unfold sec; lia).
  assert (E2 : sec mod 3600 = mi * 60 + s) by (symmetry; apply (Z.mod_unique _ _ (days * 24 + h)); unfold sec; lia).
  rewrite E1, E2; repeat split.
  - symmetry; apply (Z.div_unique _ _ _ (h * 3600 + mi * 60 + s)); unfold sec; lia.
  - symmetry; apply (Z.div_unique _ _ _ (mi * 60 + s)); lia.
  - symmetry; apply (Z.div_unique _ _ _ s); lia.
  - symmetry; apply (Z.mod_unique _ _ (days * 1440 + h * 60 + mi)); unfold sec; lia.
Qed.

Lemma msDosTime_inverse localOffset d tm :
  dosValid d tm -> timeToMsDosTime localOffset (msDosTimeToTime d tm) = (d, tm).
Proof.
  intros (Hd & Ht & Hm & Hday & Hh & Hmi & Hs).
  destruct (split_date d Hd) as (D & D1 & D2 & D3); destruct (split_time tm Ht) as (T & T1 & T2 & T3); cbv zeta in *.
  set (day := Z.land d 0x1f) in *; set (m := Z.land (Z.shiftr d 5) 0xf) in *; set (y := Z.shiftr d 9) in *.
  set (s := Z.land tm 0x1f) in *; set (mi := Z.land (Z.shiftr tm 5) 0x3f) in *; set (h := Z.shiftr tm 11) in *.
  assert (E : msDosTimeToTime d tm = DateUTC (y + 1980) m day h mi (s * 2)).
  { unfold msDosTimeToTime; fold day m y s mi h; by rewrite !uint16_small by lia. }
  rewrite E; unfold timeToMsDosTime, Day, Month, Year, Hour, Minute, Second, wall; unfold DateUTC; cbn [t_sec t_loc zoneOffset].
  rewrite Z.add_0_r; destruct (clock h mi (s * 2) (daysOf (y + 1980) m day)) as (C1 & C2 & C3 & C4); [lia..|]; cbv zeta in *.
  rewrite C1, C2, C3, C4, dateOf_daysOf by lia; cbn [fst snd].
  rewrite Z.div_mul by lia; replace (y + 1980 - 1980) with y by lia; rewrite D, T, !uint16_small by lia; done.
Qed.

(** C33: MS-DOS times. A time whose year (in its own zone) is 1980 to 2107 is
    stored as its wall clock to the lower two seconds, and every date and
    time of day that MS-DOS allows is stored unchanged. *)
Theorem msDosTime_roundtrip localOffset :
  (forall t, dosYear localOffset t ->
     msDosTimeToTime (timeToMsDosTime localOffset t).1 (timeToMsDosTime localOffset t).2 =
       mkTime (wall localOffset t - wall localOffset t mod 2) 0 UTC) /\
  (forall d tm, dosValid d tm -> timeToMsDosTime localOffset (msDosTimeToTime d tm) = (d, tm)).
Proof.
  split; [|intros d tm; apply msDosTime_inverse].
  intros t Ht; pose proof (msDosTime_packed localOffset t Ht) as H; by destruct (timeToMsDosTime localOffset t).
Qed.

(** ** Time zones *)

(** An offset that the reader can recover: a multiple of a quarter of an hour. *)
Definition zoneOk (o : Z) : Prop := o mod 900 = 0 /\ -43200 <= o <= 50400.

Lemma Round_near o r :
  o mod 900 = 0 -> -43200 <= o <= 50400 -> 0 <= r <= 2 -> Round ((o - r) * second) (15 * minute) = o * second.
Proof.
  intros Ho Hr Hs; unfold Round, minute, second.
  change (15 * (60 * 1000000000)) with 900000000000.
  assert (exists k, o = 900 * k) as [k ->] by (exists (o / 900); rewrite (Z.div_mod o 900) at 1 by lia; lia).
  cbn [Z.leb Z.compare].
  destruct (Z.ltb_spec ((900 * k - r) * 1000000000) 0).
  - assert (E : Z.rem ((900 * k - r) * 1000000000) 900000000000 = - (r * 1000000000)).
    { replace ((900 * k - r) * 1000000000) with (- ((r - 900 * k) * 1000000000)) by lia; rewrite Z.rem_opp_l by lia.
      f_equal; symmetry; apply (Z.rem_unique _ _ (- k)); lia. }
    assert (Er : - Z.rem ((900 * k - r) * 1000000000) 900000000000 = r * 1000000000) by lia.
    rewrite Er, (proj2 (Z.ltb_lt _ _)) by lia; lia.
  - destruct (Z.eq_dec r 0) as [->|].
    + assert (E : Z.rem ((900 * k - 0) * 1000000000) 900000000000 = 0) by (symmetry; apply (Z.rem_unique _ _ k); lia).
      rewrite E, (proj2 (Z.ltb_lt (0 + 0) _)) by lia; lia.
    + assert (E : Z.rem ((900 * k - r) * 1000000000) 900000000000 = 900000000000 - r * 1000000000)
        by (symmetry; apply (Z.rem_unique _ _ (k - 1)); lia).
      rewrite E, (proj2 (Z.ltb_ge _ _)) by lia; rewrite int64_id by (unfold in_int64; lia).
      rewrite (proj2 (Z.ltb_lt _ _)) by lia; lia.
Qed.

(** The zone of a header's two times: [loc] is the wall clock in UTC to the
    lower two seconds, [u] the instant. *)
Lemma timeZone_recovers o (sec : Z) loc u :
  zoneOk o -> t_sec u = sec -> t_nsec u = 0 -> t_sec loc = sec + o - (sec + o) mod 2 -> t_nsec loc = 0 ->
  timeZone (Sub loc u) = FixedZone o.
Proof.
  intros [Ho Hr] Hs Hn Hl Hln; pose proof (Z.mod_pos_bound (sec + o) 2 ltac:(lia)).
  assert (E : Sub loc u = (o - (sec + o) mod 2) * second).
  { unfold Sub, minDuration, maxDuration, second; rewrite Hs, Hn, Hl, Hln; lia. }
  unfold timeZone; rewrite E, Round_near by lia; unfold hour, minute, second.
  rewrite (proj2 (Z.ltb_ge _ _)), (proj2 (Z.ltb_ge (14 * _) _)) by lia; cbn [orb].
  by rewrite Z.quot_mul.
Qed.

(** ** File modes *)
Definition modeTypes : list Z :=
  [0; ModeDir; ModeSymlink; ModeNamedPipe; ModeSocket; ModeDevice; Z.lor ModeDevice ModeCharDevice].
Definition modeBits : list Z :=
  b1 ← [0; ModeSetuid]; b2 ← [0; ModeSetgid]; b3 ← [0; ModeSticky]; [Z.lor b1 (Z.lor b2 b3)].

(** A file mode: one of the types, any of the three bits, permissions. *)
Definition validMode (mode : Z) : Prop :=
  exists ty sb perm, ty ∈ modeTypes /\ sb ∈ modeBits /\ 0 <= perm < 512 /\ mode = Z.lor (Z.lor ty sb) perm.

(** What a mode becomes: [fileModeToUnixMode] compares the type bits with
    [ModeDevice] alone, so a character device, which has two of them, is
    taken for a regular file. *)
Definition charDevice : Z := Z.lor ModeDevice ModeCharDevice.
Definition storedMode (mode : Z) : Z := if Z.land mode ModeType =? charDevice then Z.ldiff mode charDevice else mode.

(** Permissions do not disturb the other bits, nor these them. *)
Lemma land_high x perm b : 0 <= perm < 512 -> Z.land b 511 = 0 -> Z.land (Z.lor x perm) b = Z.land x b.
Proof.
  intros Hp Hb; rewrite Z.land_lor_distr_l.
  assert (E : perm = Z.land perm 511) by (change 511 with (Z.ones 9); rewrite Z.land_ones, Z.mod_small; lia).
  by rewrite E, <- Z.land_assoc, (Z.land_comm 511), Hb, Z.land_0_r, Z.lor_0_r.
Qed.

Lemma land_low x perm : 0 <= perm < 512 -> Z.land x 511 = 0 -> Z.land (Z.lor x perm) 511 = perm.
Proof.
  intros Hp Hx; rewrite Z.land_lor_distr_l, Hx, Z.lor_0_l; change 511 with (Z.ones 9).
  rewrite Z.land_ones, Z.mod_small; lia.
Qed.

Lemma fileModeToUnixMode_perm x perm :
  0 <= perm < 512 -> Z.land x 511 = 0 -> fileModeToUnixMode (Z.lor x perm) = Z.lor (fileModeToUnixMode x) perm.
Proof.
  intros Hp Hx; unfold fileModeToUnixMode, hasBit; rewrite !(land_high x perm) by done.
  by rewrite land_low, Hx, Z.lor_0_r.
Qed.

Lemma orIf_lor c bit m perm : orIf c bit (Z.lor m perm) = Z.lor (orIf c bit m) perm.
Proof. destruct c; cbn; [|done]; by rewrite <- !Z.lor_assoc, (Z.lor_comm perm). Qed.

Lemma unixModeToFileMode_perm m perm :
  0 <= perm < 512 -> Z.land m 511 = 0 -> unixModeToFileMode (Z.lor m perm) = Z.lor (unixModeToFileMode m) perm.
Proof.
  intros Hp Hm; unfold unixModeToFileMode, hasBit; rewrite !(land_high m perm) by done; rewrite land_low, Hm by done.
  cbv zeta; rewrite <- !orIf_lor; do 3 f_equal.
  repeat match goal with |- context [if ?b then _ else _] => destruct b end; rewrite ?Z.lor_0_l; try done; apply Z.lor_comm.
Qed.

Lemma storedMode_perm x perm : 0 <= perm < 512 -> storedMode (Z.lor x perm) = Z.lor (storedMode x) perm.
Proof.
  intros Hp; unfold storedMode; rewrite (land_high x perm ModeType) by done; destruct (_ =? _); [|done].
  rewrite Z.ldiff_land, Z.land_lor_distr_l, <- Z.ldiff_land; f_equal.
  assert (E : perm = Z.land perm 511) by (change 511 with (Z.ones 9); rewrite Z.land_ones, Z.mod_small; lia).
  rewrite E at 1; rewrite <- Z.land_assoc; by change (Z.land 511 (Z.lnot charDevice)) with 511.
Qed.

(** On the types and bits, by computation. *)
Definition modeRoundTrips (x : Z) : bool :=
  (Z.land x 511 =? 0) && (Z.land (fileModeToUnixMode x) 511 =? 0) && (unixModeToFileMode (fileModeToUnixMode x) =? storedMode x) &&
  (0 <=? fileModeToUnixMode x) && (fileModeToUnixMode x <? 2 ^ 16).

Lemma zipModeRoundTrips_all : forallb (fun ty => forallb (fun sb => modeRoundTrips (Z.lor ty sb)) modeBits) modeTypes = true.
Proof. vm_compute; reflexivity. Qed.

Lemma unixMode_inverse mode :
  validMode mode -> unixModeToFileMode (fileModeToUnixMode mode) = storedMode mode /\ 0 <= fileModeToUnixMode mode < 2 ^ 16.
Proof.
  intros (ty & sb & perm & Hty & Hsb & Hp & ->); pose proof zipModeRoundTrips_all as A.
  rewrite forallb_forall in A; apply list_elem_of_In, A in Hty.
  rewrite forallb_forall in Hty; apply list_elem_of_In, Hty in Hsb; set (x := Z.lor ty sb) in *.
  unfold modeRoundTrips in Hsb; rewrite !andb_true_iff in Hsb.
  destruct Hsb as [[[[H1%Z.eqb_eq H2%Z.eqb_eq] H3%Z.eqb_eq] H4%Z.leb_le] H5%Z.ltb_lt].
  rewrite fileModeToUnixMode_perm, unixModeToFileMode_perm, H3, storedMode_perm by done; split; [done|].
  pose proof (Z.lor_nonneg (fileModeToUnixMode x) perm); split; [lia|].
  assert (Hx : fileModeToUnixMode x = Z.land (fileModeToUnixMode x) (Z.ones 16)) by (rewrite Z.land_ones, Z.mod_small; lia).
  assert (Hq : perm = Z.land perm (Z.ones 16)) by (rewrite Z.land_ones, Z.mod_small; lia).
  rewrite Hx, Hq, <- Z.land_lor_distr_l, Z.land_ones by lia; apply Z.mod_pos_bound; lia.
Qed.

(** The MS-DOS attributes below do not reach the mode above. *)
Lemma attrs_high m a : 0 <= m < 2 ^ 16 -> 0 <= a < 2 ^ 16 -> Z.shiftr (Z.lor (uint32 (Z.shiftl m 16)) a) 16 = m.
Proof.
  intros Hm Ha; rewrite Z.shiftr_lor, (Z.shiftr_div_pow2 a), (Z.div_small a) by lia.
  unfold uint32; rewrite wrapu_id, Z.lor_0_r, Z.shiftr_shiftl_l by (unfold in_uint; rewrite ?Z.shiftl_mul_pow2; lia).
  by rewrite Z.sub_diag, Z.shiftl_0_r.
Qed.

Lemma attrs_low m b : 0 <= b < 2 ^ 16 -> Z.land (Z.shiftl m 16) b = 0.
Proof.
  intros Hb; assert (E : b = Z.land b (Z.ones 16)) by (rewrite Z.land_ones, Z.mod_small; lia).
  rewrite E, (Z.land_comm b), Z.land_assoc, Z.land_ones, Z.shiftl_mul_pow2, Z.mod_mul by lia; done.
Qed.

(** C34: zip file modes. After [SetMode] of a file mode of any type that
    Unix knows, with any permission, setuid, setgid and sticky bits, [Mode]
    returns it, with one exception: a character device comes back as a
    regular file with the same other bits. The MS-DOS attributes say whether
    it is a directory and read-only; a name that ends in a slash adds the
    directory bit. *)
Theorem SetMode_Mode mode h :
  validMode mode ->
  let dir := orIf (bool_decide (last (fh_Name h) = Some slash)) ModeDir in
  (Z.land mode ModeType <> charDevice -> Mode (SetMode mode h) = dir mode) /\
  (Z.land mode ModeType = charDevice -> Mode (SetMode mode h) = dir (Z.ldiff mode charDevice)) /\
  hasBit (fh_ExternalAttrs (SetMode mode h)) msdosDir = hasBit mode ModeDir /\
  hasBit (fh_ExternalAttrs (SetMode mode h)) msdosReadOnly = negb (hasBit mode 128).
Proof.
  intros Hv dir; destruct (unixMode_inverse mode Hv) as [Ei Hr].
  set (m := fileModeToUnixMode mode) in *.
  assert (Ea : fh_ExternalAttrs (SetMode mode h) =
    Z.lor (uint32 (Z.shiftl m 16)) (Z.lor (if hasBit mode ModeDir then 16 else 0) (if hasBit mode 128 then 0 else 1))).
  { unfold SetMode; cbn [fh_ExternalAttrs]; fold m; unfold orIf, msdosDir, msdosReadOnly.
    destruct (hasBit mode ModeDir), (hasBit mode 128); cbn [negb]; by rewrite ?Z.lor_0_r, ?Z.lor_0_l, <- ?Z.lor_assoc. }
  assert (Eu : uint32 (Z.shiftl m 16) = Z.shiftl m 16) by (apply wrapu_id; unfold in_uint; rewrite Z.shiftl_mul_pow2; lia).
  assert (Em : Mode (SetMode mode h) = dir (storedMode mode)).
  { unfold Mode; rewrite Ea; cbn [fh_CreatorVersion SetMode fh_Name].
    assert (Ev : Z.shiftr (Z.lor (Z.land (fh_CreatorVersion h) 0xff) (Z.shiftl creatorUnix 8)) 8 = creatorUnix).
    { rewrite Z.shiftr_lor; change 0xff with (Z.ones 8); rewrite Z.shiftr_land, (Z.shiftr_eq_0 (Z.ones 8)) by (vm_compute; reflexivity || done).
      by rewrite Z.land_0_r. }
    rewrite Ev; cbn [Z.eqb creatorUnix orb Pos.eqb]; rewrite attrs_high; [by rewrite Ei | done |].
    destruct (hasBit mode ModeDir), (hasBit mode 128); vm_compute; split; congruence. }
  split; [|split; [|split]].
  - intros Hn; rewrite Em; unfold storedMode; by rewrite (proj2 (Z.eqb_neq _ _) Hn).
  - intros Hc; rewrite Em; unfold storedMode; by rewrite Hc, Z.eqb_refl.
  - rewrite Ea, Eu; unfold hasBit at 1; rewrite Z.land_lor_distr_l.
    rewrite attrs_low by (vm_compute; split; congruence).
    destruct (hasBit mode ModeDir), (hasBit mode 128); reflexivity.
  - rewrite Ea, Eu; unfold hasBit at 1; rewrite Z.land_lor_distr_l.
    rewrite attrs_low by (vm_compute; split; congruence).
    destruct (hasBit mode ModeDir), (hasBit mode 128); reflexivity.
Qed.

Lemma SetMode_Mode_witness :
  Mode (SetMode (Z.lor ModeSocket 493) newFileHeader) = Z.lor ModeSocket 493 /\
  Mode (SetMode (Z.lor charDevice 438) newFileHeader) = 438.
Proof.
  split.
  - refine (proj1 (SetMode_Mode (Z.lor ModeSocket 493) newFileHeader _) _); [|vm_compute; discriminate].
    exists ModeSocket, 0, 493; split; [|split; [|split; [lia | reflexivity]]];
      apply (bool_decide_eq_true_1 _); vm_compute; reflexivity.
  - refine (proj1 (proj2 (SetMode_Mode (Z.lor charDevice 438) newFileHeader _)) _); [|vm_compute; reflexivity].
    exists charDevice, 0, 438; split; [|split; [|split; [lia | reflexivity]]];
      apply (bool_decide_eq_true_1 _); vm_compute; reflexivity.
Defined.
