(* ===== verification/ZipBuf.v ===== *)
(** * readBuf and writeBuf of the zip package

    A [readBuf] is the unread part of a byte slice, a [writeBuf] the part of
    a fixed slice that is still to be filled. Reading or writing past the end
    panics. *)
From S2P Require Import Prelude GoInt.
Open Scope go_scope.

(** ** Reading (zip/reader.go) *)

(** The methods [uint8], [uint16], [uint32] and [uint64], by their width. *)
Definition rdUint (n : nat) : M bytes Z :=
  fun b => if (length b <? n)%nat then (Panic, b) else (Ok (le_val (take n b)), drop n b).
Definition rdUint8 : M bytes Z := rdUint 1.
Definition rdUint16 : M bytes Z := rdUint 2.
Definition rdUint32 : M bytes Z := rdUint 4.
Definition rdUint64 : M bytes Z := rdUint 8.

(** [b.sub(n)] and [b = b[n:]], for an [n] the code has checked against the length. *)
Definition rdSub (n : Z) : M bytes bytes :=
  fun b => if (n <? 0) || (len b <? n) then (Panic, b) else (Ok (take (Z.to_nat n) b), drop (Z.to_nat n) b).
Definition rdSkip (n : Z) : M bytes unit := let! _ := rdSub n in ret tt.

(** ** Writing (zip/writer.go) *)

(** The bytes written and the rest of the slice. *)
Record writeBuf := mkWriteBuf { wb_done : bytes; wb_rest : bytes }.

Definition wrUint (n : nat) (v : Z) : M writeBuf unit :=
  fun b => if (length (wb_rest b) <? n)%nat then (Panic, b)
           else (Ok tt, mkWriteBuf (wb_done b ++ le_bytes n v) (drop n (wb_rest b))).
Definition wrUint8 : Z -> M writeBuf unit := wrUint 1.
Definition wrUint16 : Z -> M writeBuf unit := wrUint 2.
Definition wrUint32 : Z -> M writeBuf unit := wrUint 4.
Definition wrUint64 : Z -> M writeBuf unit := wrUint 8.

(** [b = b[n:]] leaves the bytes as they are. *)
Definition wrSkip (n : Z) : M writeBuf unit :=
  fun b => if len (wb_rest b) <? n then (Panic, b)
           else (Ok tt, mkWriteBuf (wb_done b ++ take (Z.to_nat n) (wb_rest b)) (drop (Z.to_nat n) (wb_rest b))).

(** The bytes of [make([]byte, n)] after a sequence of writes. *)
Definition fillBuf (n : Z) (m : M writeBuf unit) : outcome bytes :=
  match m (mkWriteBuf [] (replicate (Z.to_nat n) 0)) with
  | (Ok _, b) => Ok (wb_done b ++ wb_rest b)
  | (Err e, _) => Err e
  | (Panic, _) => Panic
  | (OutOfFuel, _) => OutOfFuel
  end.

(** ** Reading back *)
Lemma rdUint_le n v r : rdUint n (le_bytes n v ++ r) = (Ok (v mod 256 ^ Z.of_nat n), r).
Proof.
  unfold rdUint; rewrite length_app, length_le_bytes, (proj2 (Nat.ltb_ge _ _)) by lia.
  rewrite take_app_length', drop_app_length' by (symmetry; apply length_le_bytes).
  by rewrite le_val_le_bytes.
Qed.

Lemma rdUint8_le v r : rdUint8 (le_bytes 1 v ++ r) = (Ok (uint8 v), r).
Proof. apply (rdUint_le 1). Qed.
Lemma rdUint16_le v r : rdUint16 (le_bytes 2 v ++ r) = (Ok (uint16 v), r).
Proof. apply (rdUint_le 2). Qed.
Lemma rdUint32_le v r : rdUint32 (le_bytes 4 v ++ r) = (Ok (uint32 v), r).
Proof. apply (rdUint_le 4). Qed.
Lemma rdUint64_le v r : rdUint64 (le_bytes 8 v ++ r) = (Ok (uint64 v), r).
Proof. apply (rdUint_le 8). Qed.

Lemma rdSub_app (s r : bytes) n : len s = n -> rdSub n (s ++ r) = (Ok s, r).
Proof.
  intros Hn; unfold rdSub; pose proof (len_nonneg s); pose proof (len_nonneg r).
  rewrite len_app, (proj2 (Z.ltb_ge n 0)), (proj2 (Z.ltb_ge _ n)) by lia; cbn [orb].
  rewrite take_app_length', drop_app_length' by (unfold len in Hn; lia); done.
Qed.

Lemma rdSkip_app (s r : bytes) n : len s = n -> rdSkip n (s ++ r) = (Ok tt, r).
Proof. intros Hn; unfold rdSkip, bind; by rewrite rdSub_app. Qed.

(** A run of writes into a slice of zeros fills it with the encodings, in order. *)
Definition writes (m : M writeBuf unit) (s : bytes) : Prop :=
  forall d n, (length s <= n)%nat -> m (mkWriteBuf d (replicate n 0)) = (Ok tt, mkWriteBuf (d ++ s) (replicate (n - length s) 0)).

Lemma writes_uint n v : writes (wrUint n v) (le_bytes n v).
Proof.
  intros d k Hk; unfold wrUint; rewrite length_le_bytes in *; cbn [wb_rest wb_done]; rewrite length_replicate.
  by rewrite (proj2 (Nat.ltb_ge _ _)), drop_replicate by lia.
Qed.

Lemma writes_skip n : writes (wrSkip n) (replicate (Z.to_nat n) 0).
Proof.
  intros d k Hk; rewrite length_replicate in Hk; unfold wrSkip; cbn [wb_rest wb_done].
  rewrite (proj2 (Z.ltb_ge _ _)) by (unfold len; rewrite length_replicate; lia).
  by rewrite take_replicate, drop_replicate, length_replicate, Nat.min_l by lia.
Qed.

Lemma writes_seq m1 m2 s1 s2 : writes m1 s1 -> writes m2 s2 -> writes (do! m1; m2) (s1 ++ s2).
Proof.
  intros H1 H2 d n Hn; rewrite length_app in Hn; unfold bind; rewrite H1 by lia.
  rewrite H2 by lia; rewrite app_assoc, length_app; do 3 f_equal; lia.
Qed.

Lemma fillBuf_writes n m s : writes m s -> len s = n -> fillBuf n m = Ok s.
Proof.
  intros Hm Hn; unfold fillBuf; rewrite Hm by (unfold len in Hn; lia); cbn [wb_done wb_rest app].
  replace (Z.to_nat n - length s)%nat with 0%nat by (unfold len in Hn; lia); by rewrite app_nil_r.
Qed.
#[export] Hint Resolve writes_uint writes_skip writes_seq : arkive.

Lemma len_le_bytes n v : len (le_bytes n v) = Z.of_nat n.
Proof. unfold len; by rewrite length_le_bytes. Qed.

(** The encodings of a sequence of fields. *)
Fixpoint encFields (fs : list (nat * Z)) : bytes :=
  match fs with [] => [] | (n, v) :: fs => le_bytes n v ++ encFields fs end.

Lemma encFields_app fs1 fs2 : encFields (fs1 ++ fs2) = encFields fs1 ++ encFields fs2.
Proof. induction fs1 as [|[n v] fs1 IH]; [done|]; cbn [encFields app]; by rewrite IH, app_assoc. Qed.

Lemma length_encFields fs : length (encFields fs) = foldr (fun f n => f.1 + n)%nat 0%nat fs.
Proof. induction fs as [|[n v] fs IH]; [done|]; cbn [encFields foldr fst]; by rewrite length_app, length_le_bytes, IH. Qed.

Lemma bytes_ok_encFields fs : bytes_ok (encFields fs).
Proof. induction fs as [|[n v] fs IH]; [constructor|]; apply bytes_ok_app; split; [apply le_bytes_ok | done]. Qed.

(** Writing and reading fields. *)
Lemma writes_cons n v m fs : writes m (encFields fs) -> writes (do! wrUint n v; m) (encFields ((n, v) :: fs)).
Proof. intros Hm; apply writes_seq; [apply writes_uint | done]. Qed.
Lemma writes_last n v : writes (wrUint n v) (encFields [(n, v)]).
Proof. cbn [encFields]; rewrite app_nil_r; apply writes_uint. Qed.
Lemma writes_skip4 m fs : writes m (encFields fs) -> writes (do! wrSkip 4; m) (encFields ((4%nat, 0) :: fs)).
Proof. intros Hm; apply (writes_seq _ _ (le_bytes 4 0)); [exact (writes_skip 4) | done]. Qed.

Ltac fields := repeat first
  [ apply writes_skip4 | apply (writes_cons 1) | apply (writes_cons 2) | apply (writes_cons 4) | apply (writes_cons 8)
  | apply (writes_last 1) | apply (writes_last 2) | apply (writes_last 4) | apply (writes_last 8) ].

Lemma rd_field {A} n v fs r (f : Z -> M bytes A) :
  bind (rdUint n) f (encFields ((n, v) :: fs) ++ r) = f (v mod 256 ^ Z.of_nat n) (encFields fs ++ r).
Proof. cbn [encFields]; rewrite <- app_assoc; unfold bind; by rewrite rdUint_le. Qed.

Lemma rd_16 {A} v fs r (f : Z -> M bytes A) : bind rdUint16 f (encFields ((2%nat, v) :: fs) ++ r) = f (uint16 v) (encFields fs ++ r).
Proof. apply (rd_field 2). Qed.
Lemma rd_32 {A} v fs r (f : Z -> M bytes A) : bind rdUint32 f (encFields ((4%nat, v) :: fs) ++ r) = f (uint32 v) (encFields fs ++ r).
Proof. apply (rd_field 4). Qed.
Lemma rd_64 {A} v fs r (f : Z -> M bytes A) : bind rdUint64 f (encFields ((8%nat, v) :: fs) ++ r) = f (uint64 v) (encFields fs ++ r).
Proof. apply (rd_field 8). Qed.

(** Skipping [k] fields of [n] bytes altogether. *)
Lemma rd_skip {A} k fs n r (f : M bytes A) :
  Z.of_nat (foldr (fun f n => f.1 + n)%nat 0%nat (take k fs)) = n ->
  (do! rdSkip n; f) (encFields fs ++ r) = f (encFields (drop k fs) ++ r).
Proof.
  intros Hn; rewrite <- (take_drop k fs) at 1; rewrite encFields_app, <- app_assoc; unfold bind.
  rewrite rdSkip_app; [done|]; unfold len; by rewrite length_encFields.
Qed.

Lemma rd_get {A} (f : bytes -> M bytes A) b : bind get f b = f b b.
Proof. done. Qed.
