(* ===== verification/ZipReader.v ===== *)
(** * zip/reader.go: the directory of an archive

    The search for the end of the central directory, its zip64 variant, and
    the directory headers with their extra fields. The archive is any
    [io.ReaderAt]. *)
From S2P Require Import Prelude GoInt GoString GoTime GoDate GoIO GoPath GoBufio.
From S2P Require Import ZipStruct ZipNames ZipBuf.
Open Scope go_scope.

(** A parser run on a buffer of its own. *)
Definition rdRun {A} (m : M bytes A) (b : bytes) : outcome A := (m b).1.

(** ** The end of the central directory *)

Definition byteAt (b : bytes) (i : nat) : Z := nth i b 0.

(** [i], then [i-1] and so on down to 0. *)
Fixpoint findSigFrom (i : nat) (b : bytes) : Z :=
  let n := Z.lor (byteAt b (i + 20)) (Z.shiftl (byteAt b (i + 21)) 8) in
  if (byteAt b i =? 80) && (byteAt b (i + 1) =? 75) && (byteAt b (i + 2) =? 5) && (byteAt b (i + 3) =? 6)
     && (n + directoryEndLen + Z.of_nat i <=? len b)
  then Z.of_nat i
  else match i with O => -1 | S i => findSigFrom i b end.

Definition findSignatureInBlock (b : bytes) : Z :=
  if len b <? directoryEndLen then -1 else findSigFrom (length b - Z.to_nat directoryEndLen) b.

(** The record behind its signature, with the comment. *)
Definition parseDirectoryEnd : M bytes directoryEnd :=
  let! diskNbr := rdUint16 in
  let! dirDiskNbr := rdUint16 in
  let! dirRecordsThisDisk := rdUint16 in
  let! directoryRecords := rdUint16 in
  let! directorySize := rdUint32 in
  let! directoryOffset := rdUint32 in
  let! commentLen := rdUint16 in
  let! b := get in
  if len b <? commentLen then throw (ErrMsg "zip: invalid comment length")
  else ret (mkDirectoryEnd diskNbr dirDiskNbr dirRecordsThisDisk directoryRecords directorySize directoryOffset
              commentLen (take (Z.to_nat commentLen) b) 0).

(** The fields a zip64 record replaces. *)
Definition parseDirectory64End (d : directoryEnd) : M bytes directoryEnd :=
  let! sig := rdUint32 in
  if negb (sig =? directory64EndSignature) then throw ErrFormat
  else
    do! rdSkip 12;
    let! diskNbr := rdUint32 in
    let! dirDiskNbr := rdUint32 in
    let! dirRecordsThisDisk := rdUint64 in
    let! directoryRecords := rdUint64 in
    let! directorySize := rdUint64 in
    let! directoryOffset := rdUint64 in
    ret (mkDirectoryEnd diskNbr dirDiskNbr dirRecordsThisDisk directoryRecords directorySize directoryOffset
           (commentLen d) (comment d) (startSkipLen d)).

(** The locator: the offset of the record, or -1. *)
Definition parseLocator : M bytes Z :=
  let! sig := rdUint32 in
  if negb (sig =? directory64LocSignature) then ret (-1)
  else
    let! disk := rdUint32 in
    if negb (disk =? 0) then ret (-1)
    else
      let! p := rdUint64 in
      let! disks := rdUint32 in
      if negb (disks =? 1) then ret (-1) else ret (int64 p).

Section Directory.
Context {R : Type} `{IoReaderAt R}.

(** [ReadAt] into a buffer of zeros. *)
Definition readAtBuf (r : R) (n off : Z) : bytes * option error :=
  let '(bs, e) := read_at r n off in (bs ++ replicate (Z.to_nat (n - len bs)) 0, e).

Definition findDirectory64End (r : R) (directoryEndOffset : Z) : outcome Z :=
  let locOffset := directoryEndOffset - directory64LocLen in
  if locOffset <? 0 then Ok (-1)
  else
    let '(buf, err) := readAtBuf r directory64LocLen locOffset in
    match err with Some e => Err e | None => rdRun parseLocator buf end.

Definition readDirectory64End (r : R) (offset : Z) (d : directoryEnd) : outcome directoryEnd :=
  let '(buf, err) := readAtBuf r directory64EndLen offset in
  match err with Some e => Err e | None => rdRun (parseDirectory64End d) buf end.

(** Tries the zip64 record: the directory end it gives and its offset; an
    error only when the record is likely to be there. *)
Definition tryDirectory64 (r : R) (directoryEndOffset : Z) (d : directoryEnd) : outcome (directoryEnd * option Z) :=
  let probablyZip64 := (directoryRecords d =? 0xffff) || (directorySize d =? 0xffff) || (directoryOffset d =? 0xffffffff) in
  let fail e := if probablyZip64 then Err e else Ok (d, None) in
  match findDirectory64End r directoryEndOffset with
  | Ok p =>
      if 0 <=? p then
        match readDirectory64End r p d with
        | Ok d => Ok (d, Some p)
        | Err e => fail e
        | Panic => Panic
        | OutOfFuel => OutOfFuel
        end
      else Ok (d, None)
  | Err e => fail e
  | Panic => Panic
  | OutOfFuel => OutOfFuel
  end.

Definition setDirectoryOffset (off skip : Z) (d : directoryEnd) : directoryEnd :=
  mkDirectoryEnd (diskNbr d) (dirDiskNbr d) (dirRecordsThisDisk d) (directoryRecords d) (directorySize d) off
    (commentLen d) (comment d) skip.

(** Takes padding in front of the archive into account. *)
Definition adjustOffset (size : Z) (computedDirectoryOffset : Z) (d : directoryEnd) : directoryEnd :=
  if (0 <? computedDirectoryOffset) && (computedDirectoryOffset <? size) then
    if negb (computedDirectoryOffset =? int64 (directoryOffset d)) then
      setDirectoryOffset (uint64 computedDirectoryOffset) (uint64 (uint64 computedDirectoryOffset - directoryOffset d)) d
    else d
  else d.

Definition readDirectoryEnd (r : R) (size : Z) : outcome directoryEnd :=
  let bLen := if size <? 65 * 1024 then size else 65 * 1024 in
  if bLen <? 0 then Panic
  else
    let '(buf, err) := readAtBuf r bLen (size - bLen) in
    match (if bool_decide (err = Some EOF) then None else err) with
    | Some e => Err e
    | None =>
      let p := findSignatureInBlock buf in
      if p <? 0 then Err ErrFormat
      else
        let directoryEndOffset := size - bLen + p in
        let? d := rdRun parseDirectoryEnd (drop 4 (drop (Z.to_nat p) buf)) in
        let? (d, directory64EndOffset) := tryDirectory64 r directoryEndOffset d in
        let computedDirectoryOffset :=
          int64 (match directory64EndOffset with Some p => p | None => directoryEndOffset end - int64 (directorySize d)) in
        let d := adjustOffset size computedDirectoryOffset d in
        let o := int64 (directoryOffset d) in
        if (o <? 0) || (size <=? o) then Err ErrFormat else Ok d
    end.
End Directory.

(** ** Directory headers *)

(** What the loop over the extra fields updates. *)
Record extras := mkExtras {
  ex_needUSize : bool;
  ex_needCSize : bool;
  ex_needHeaderOffset : bool;
  ex_UncompressedSize64 : Z;
  ex_CompressedSize64 : Z;
  ex_headerOffset : Z;
  ex_modified : Time
}.

Definition setExModified (t : Time) (x : extras) : extras :=
  mkExtras (ex_needUSize x) (ex_needCSize x) (ex_needHeaderOffset x) (ex_UncompressedSize64 x) (ex_CompressedSize64 x)
    (ex_headerOffset x) t.

(** A 64-bit value of the zip64 field, when it is [need]ed. *)
Definition zip64Value (need : bool) (old : Z) : M bytes Z :=
  if need then
    let! fieldBuf := get in
    if len fieldBuf <? 8 then throw ErrFormat else rdUint64
  else ret old.

Definition zip64Field (x : extras) : M bytes extras :=
  let! u := zip64Value (ex_needUSize x) (ex_UncompressedSize64 x) in
  let! c := zip64Value (ex_needCSize x) (ex_CompressedSize64 x) in
  let! o := zip64Value (ex_needHeaderOffset x) (ex_headerOffset x) in
  ret (mkExtras false false false u c (if ex_needHeaderOffset x then int64 o else o) (ex_modified x)).

Definition ticksPerSecond : Z := 10000000.

(** The time of an NTFS attribute. *)
Definition ntfsTime (v : Z) : Time :=
  let ts := int64 v in
  let secs := Z.quot ts ticksPerSecond in
  let nsecs := 1000000000 / ticksPerSecond * Z.rem ts ticksPerSecond in
  Unix (int64 (toUnix (DateUTC 1601 1 1 0 0 0) + secs)) nsecs.

Fixpoint ntfsLoop (fuel : nat) (modified : Time) : M bytes Time :=
  let! fieldBuf := get in
  if len fieldBuf <? 4 then ret modified
  else match fuel with
       | O => lift OutOfFuel
       | S fuel =>
           let! attrTag := rdUint16 in
           let! attrSize := rdUint16 in
           let! fieldBuf := get in
           if len fieldBuf <? attrSize then ret modified
           else
             let! attrBuf := rdSub attrSize in
             if negb (attrTag =? 1) || negb (attrSize =? 24) then ntfsLoop fuel modified
             else
               let! ts := lift (rdRun rdUint64 attrBuf) in
               ntfsLoop fuel (ntfsTime ts)
       end.

(** The [switch] on the tag of a field; [continue] leaves [x] as it is. *)
Definition extraField (fieldTag : Z) (x : extras) : M bytes extras :=
  let! fieldBuf := get in
  if fieldTag =? zip64ExtraID then zip64Field x
  else if fieldTag =? ntfsExtraID then
    if len fieldBuf <? 4 then ret x
    else
      do! rdUint32;
      let! t := ntfsLoop (length fieldBuf) (ex_modified x) in
      ret (setExModified t x)
  else if (fieldTag =? unixExtraID) || (fieldTag =? infoZipUnixExtraID) then
    if len fieldBuf <? 8 then ret x
    else
      do! rdUint32;
      let! ts := rdUint32 in
      ret (setExModified (Unix ts 0) x)
  else if fieldTag =? extTimeExtraID then
    if len fieldBuf <? 5 then ret x
    else
      let! flags := rdUint8 in
      if Z.land flags 1 =? 0 then ret x
      else
        let! ts := rdUint32 in
        ret (setExModified (Unix ts 0) x)
  else ret x.

(** Every field takes at least four bytes. *)
Fixpoint parseExtras (fuel : nat) (x : extras) : M bytes extras :=
  let! extra := get in
  if len extra <? 4 then ret x
  else match fuel with
       | O => lift OutOfFuel
       | S fuel =>
           let! fieldTag := rdUint16 in
           let! fieldSize := rdUint16 in
           let! extra := get in
           if len extra <? fieldSize then ret x
           else
             let! fieldBuf := rdSub fieldSize in
             let! x := lift (rdRun (extraField fieldTag x) fieldBuf) in
             parseExtras fuel x
       end.

(** The flag [NonUTF8] of a name and a comment that were read. *)
Definition nonUTF8 (name comment : bytes) (flags : Z) : bool :=
  let '(utf8Valid1, utf8Require1) := detectUTF8 name in
  let '(utf8Valid2, utf8Require2) := detectUTF8 comment in
  if negb utf8Valid1 || negb utf8Valid2 then true
  else if negb utf8Require1 && negb utf8Require2 then false
  else Z.land flags 0x800 =? 0.

(** The modification time, from the extended and the MS-DOS timestamps. *)
Definition modifiedTime (modified : Time) (dosDate dosTime : Z) : Time :=
  let msdosModified := msDosTimeToTime dosDate dosTime in
  if IsZero modified then msdosModified
  else if negb (dosTime =? 0) || negb (dosDate =? 0) then InLoc (timeZone (Sub msdosModified modified)) modified
  else toUTC modified.

(** The fixed part of a header, and the three lengths. *)
Definition parseDirectoryHeader : M bytes (FileHeader * Z * (Z * Z * Z)) :=
  let! sig := rdUint32 in
  if negb (sig =? directoryHeaderSignature) then throw ErrFormat
  else
    let! CreatorVersion := rdUint16 in
    let! ReaderVersion := rdUint16 in
    let! Flags := rdUint16 in
    let! Method := rdUint16 in
    let! ModifiedTime := rdUint16 in
    let! ModifiedDate := rdUint16 in
    let! CRC32 := rdUint32 in
    let! CompressedSize := rdUint32 in
    let! UncompressedSize := rdUint32 in
    let! filenameLen := rdUint16 in
    let! extraLen := rdUint16 in
    let! commentLen := rdUint16 in
    do! rdSkip 4;
    let! ExternalAttrs := rdUint32 in
    let! headerOffset := rdUint32 in
    ret (mkFileHeader [] [] false CreatorVersion ReaderVersion Flags Method zeroTime ModifiedTime ModifiedDate CRC32
           CompressedSize UncompressedSize CompressedSize UncompressedSize [] ExternalAttrs,
         headerOffset, (filenameLen, extraLen, commentLen)).

(** The header with its name, extra fields and comment. *)
Definition finishHeader (size : Z) (h : FileHeader) (headerOffset : Z) (Name Extra Comment : bytes) : outcome File :=
  let needUSize := fh_UncompressedSize h =? uint32max in
  let needCSize := fh_CompressedSize h =? uint32max in
  let needHeaderOffset := headerOffset =? uint32max in
  let? x := rdRun (parseExtras (length Extra)
    (mkExtras needUSize needCSize needHeaderOffset (fh_UncompressedSize64 h) (fh_CompressedSize64 h) headerOffset zeroTime)) Extra in
  let h := mkFileHeader Name Comment (nonUTF8 Name Comment (fh_Flags h)) (fh_CreatorVersion h) (fh_ReaderVersion h) (fh_Flags h)
    (fh_Method h) (modifiedTime (ex_modified x) (fh_ModifiedDate h) (fh_ModifiedTime h)) (fh_ModifiedTime h) (fh_ModifiedDate h)
    (fh_CRC32 h) (fh_CompressedSize h) (fh_UncompressedSize h) (ex_CompressedSize64 x) (ex_UncompressedSize64 x) Extra
    (fh_ExternalAttrs h) in
  if ex_needCSize x || ex_needHeaderOffset x then Err ErrFormat
  else Ok (mkFile h size (ex_headerOffset x)).

Section ReadHeaders.
Context {T : Type} (rd : readMethod T).

(** [io.ReadFull], returning its error. *)
Definition readFull (fuel : nat) (n : Z) : M T bytes :=
  let! (bs, e) := ReadFull rd fuel n in
  match e with Some e => throw e | None => ret bs end.

Definition readDirectoryHeader (fuel : nat) (size : Z) : M T File :=
  let! buf := readFull fuel directoryHeaderLen in
  let! (h, headerOffset, (filenameLen, extraLen, commentLen)) := lift (rdRun parseDirectoryHeader buf) in
  let! d := readFull fuel (filenameLen + extraLen + commentLen) in
  lift (finishHeader size h headerOffset (slice d 0 filenameLen) (slice d filenameLen (filenameLen + extraLen))
    (slice d (filenameLen + extraLen) (len d))).

(** The loop of [init]: the files up to the first header that is not one,
    and the error that ended it. *)
Fixpoint readHeaders (fuel n : nat) (size startSkipLen : Z) : M T (list File * error) :=
  match n with
  | O => lift OutOfFuel
  | S n =>
      let! res := attempt (readDirectoryHeader fuel size) in
      match res with
      | inr err => if bool_decide (err = ErrFormat \/ err = ErrUnexpectedEOF) then ret ([], err) else throw err
      | inl f =>
          let f := mkFile (f_hdr f) (f_zipsize f) (int64 (f_headerOffset f + int64 startSkipLen)) in
          let! (fs, err) := readHeaders fuel n size startSkipLen in
          ret (f :: fs, err)
      end
  end.
End ReadHeaders.

(** ** Reader *)
Section Reader.
Context {R : Type} `{IoReaderAt R}.
Variable DetectBest : bytes -> option (bytes * Z).
Variables CodePage437 ShiftJIS : bytes -> option bytes.

(** The decompressors a caller registers are looked up by method; [D] is
    the type of the decompressor functions. *)
Record Reader (D : Type) := mkReader {
  r_r : R;
  r_File : list File;
  r_Comment : bytes;
  r_decompressors : gmap Z D
}.
Arguments mkReader {D}.
Arguments r_r {D}.
Arguments r_File {D}.
Arguments r_Comment {D}.
Arguments r_decompressors {D}.

(** [init] on a new reader. The fuel bounds the reads and the headers. *)
Definition NewReader {D} (fuel : nat) (r : R) (size : Z) : outcome (Reader D) :=
  let? dend := readDirectoryEnd r size in
  if uint64 size / fileHeaderLen <? directoryRecords dend then
    Err (ErrMsg "archive/zip: TOC declares impossible %d files in %d byte zip")
  else
    let '(rs, err) := sectionSeekStart (NewSectionReader r 0 size) (int64 (directoryOffset dend)) in
    match err with
    | Some e => Err e
    | None =>
        let? (files, err) := (readHeaders ioRead fuel fuel size (startSkipLen dend) (NewBufioReader rs)).1 in
        if negb (uint16 (len files) =? uint16 (directoryRecords dend)) then Err err
        else Ok (mkReader r (normalizeNameEncoding DetectBest CodePage437 ShiftJIS files) (comment dend) ∅)
    end.

Definition RegisterDecompressor {D} (method : Z) (dcomp : D) (z : Reader D) : Reader D :=
  mkReader (r_r z) (r_File z) (r_Comment z) (<[method := dcomp]> (r_decompressors z)).

(** The reader's own decompressors first, then those of the package. *)
Definition decompressor {D} (pkg : gmap Z D) (z : Reader D) (method : Z) : option D :=
  match r_decompressors z !! method with Some d => Some d | None => pkg !! method end.

(** ** Reading a file *)
Definition parseLocalHeader : M bytes Z :=
  let! sig := rdUint32 in
  if negb (sig =? fileHeaderSignature) then throw ErrFormat
  else
    do! rdSkip 22;
    let! filenameLen := rdUint16 in
    let! extraLen := rdUint16 in
    ret (fileHeaderLen + filenameLen + extraLen).

Definition findBodyOffset (r : R) (f : File) : outcome Z :=
  let '(buf, err) := readAtBuf r fileHeaderLen (f_headerOffset f) in
  match err with Some e => Err e | None => rdRun parseLocalHeader buf end.

Definition DataOffset (r : R) (f : File) : outcome Z :=
  let? bodyOffset := findBodyOffset r f in
  Ok (int64 (f_headerOffset f + bodyOffset)).
End Reader.
Arguments mkReader {R D}.
Arguments r_r {R D}.
Arguments r_File {R D}.
Arguments r_Comment {R D}.
Arguments r_decompressors {R D}.

Definition readDataDescriptor {T} (rd : readMethod T) (fuel : nat) (f : File) : M T unit :=
  let! sig := readFull rd fuel 4 in
  let! maybeSig := lift (rdRun rdUint32 sig) in
  let! buf :=
    (if negb (maybeSig =? dataDescriptorSignature)
     then let! rest := readFull rd fuel 8 in ret (sig ++ rest)
     else readFull rd fuel 12) in
  let! crc := lift (rdRun rdUint32 buf) in
  if negb (crc =? fh_CRC32 (f_hdr f)) then throw ErrChecksum else ret tt.
