(* ===== verification/ZipOpen.v ===== *)
(** * zip/reader.go: reading the contents of a file

    [File.Open] and the [checksumReader] it returns. A decompressor gives a
    [ReadCloser]: the section itself for stored files, a value of the type
    [X] for the decompressors that are not part of the package. *)
From S2P Require Import Prelude GoInt GoString GoTime GoIO GoBufio.
From S2P Require Import ZipStruct ZipBuf ZipReader.
Open Scope go_scope.

(** A [ReadCloser] that is not part of the package: its [Close]. *)
Class IoCloser (X : Type) := io_close : X -> option error * X.

Section Open.
Context {R X : Type} `{IoReaderAt R} `{IoReader X} `{IoCloser X}.

Inductive readCloser :=
  | NopCloser (s : sectionReader R)
  | Decomp (x : X).

Definition rcRead (rc : readCloser) (n : Z) : bytes * option error * readCloser :=
  match rc with
  | NopCloser s => let '(bs, e, s) := io_read s n in (bs, e, NopCloser s)
  | Decomp x => let '(bs, e, x) := io_read x n in (bs, e, Decomp x)
  end.

#[export] Instance rc_IoReader : IoReader readCloser := {| io_read := rcRead; io_seek := None |}.

Definition rcClose (rc : readCloser) : option error * readCloser :=
  match rc with
  | NopCloser _ => (None, rc)
  | Decomp x => let '(e, x) := io_close x in (e, Decomp x)
  end.

Definition Decompressor : Type := sectionReader R -> File -> readCloser.

Record checksumReader := mkChecksum {
  cs_rc : readCloser;
  cs_hash : Z;
  cs_nread : Z;
  cs_f : File;
  cs_desr : option (sectionReader R);
  cs_err : option error
}.

(** [r.err = err] and the return. *)
Definition csStick (bs : bytes) (err : error) (r : checksumReader) : outcome (bytes * option error) * checksumReader :=
  (Ok (bs, Some err), mkChecksum (cs_rc r) (cs_hash r) (cs_nread r) (cs_f r) (cs_desr r) (Some err)).

Definition csDesr (d : sectionReader R) (r : checksumReader) : checksumReader :=
  mkChecksum (cs_rc r) (cs_hash r) (cs_nread r) (cs_f r) (Some d) (cs_err r).

(** What an end-of-file of the contents becomes. *)
Definition csEOF (fuel : nat) (bs : bytes) : M checksumReader (bytes * option error) := fun r =>
  let crc := fh_CRC32 (f_hdr (cs_f r)) in
  match cs_desr r with
  | Some d =>
      match readDataDescriptor ioRead fuel (cs_f r) d with
      | (Ok _, d) => csStick bs (if cs_hash r =? crc then EOF else ErrChecksum) (csDesr d r)
      | (Err e, d) => csStick bs (if bool_decide (e = EOF) then ErrUnexpectedEOF else e) (csDesr d r)
      | (Panic, d) => (Panic, csDesr d r)
      | (OutOfFuel, d) => (OutOfFuel, csDesr d r)
      end
  | None => csStick bs (if negb (crc =? 0) && negb (cs_hash r =? crc) then ErrChecksum else EOF) r
  end.

Definition checksumRead (fuel : nat) : readMethod checksumReader := fun n r =>
  match cs_err r with
  | Some e => (Ok ([], Some e), r)
  | None =>
      let '(bs, err, rc) := io_read (cs_rc r) n in
      let r := mkChecksum rc (crcUpdate (cs_hash r) bs) (uint64 (cs_nread r + len bs)) (cs_f r) (cs_desr r) None in
      match err with
      | None => (Ok (bs, None), r)
      | Some err =>
          if bool_decide (err = EOF) then
            if negb (cs_nread r =? fh_UncompressedSize64 (f_hdr (cs_f r))) then (Ok ([], Some ErrUnexpectedEOF), r)
            else csEOF fuel bs r
          else csStick bs err r
      end
  end.

Definition checksumClose (r : checksumReader) : option error * checksumReader :=
  let '(e, rc) := rcClose (cs_rc r) in
  (e, mkChecksum rc (cs_hash r) (cs_nread r) (cs_f r) (cs_desr r) (cs_err r)).

Definition FileOpen (pkg : gmap Z Decompressor) (z : Reader (R := R) Decompressor) (f : File) : outcome checksumReader :=
  let? bodyOffset := findBodyOffset (r_r z) f in
  let size := int64 (fh_CompressedSize64 (f_hdr f)) in
  let r := NewSectionReader (r_r z) (int64 (f_headerOffset f + bodyOffset)) size in
  match decompressor pkg z (fh_Method (f_hdr f)) with
  | None => Err ErrAlgorithm
  | Some dcomp =>
      let desr := if hasDataDescriptor f
                  then Some (NewSectionReader (r_r z) (int64 (int64 (f_headerOffset f + bodyOffset) + size)) dataDescriptorLen)
                  else None in
      Ok (mkChecksum (dcomp r f) 0 0 f desr None)
  end.

(** ** An end-of-file means that the contents were checked *)

(** The checksum of a file, or no statement when the header has none. *)
Definition contentsOk (f : File) (desr : bool) (data : bytes) : Prop :=
  uint64 (len data) = fh_UncompressedSize64 (f_hdr f) /\
  (ChecksumIEEE data = fh_CRC32 (f_hdr f) \/ fh_CRC32 (f_hdr f) = 0 /\ desr = false).

(** The state of a reader that has delivered [acc] without an error. *)
Definition csInv (f : File) (desr : bool) (acc : bytes) (r : checksumReader) : Prop :=
  cs_f r = f /\ bool_decide (cs_desr r = None) = negb desr /\ cs_err r = None /\
  cs_hash r = ChecksumIEEE acc /\ cs_nread r = uint64 (len acc).
Lemma csEOF_ok f desr fuel acc bs r r' :
  csInv f desr (acc ++ bs) r -> cs_nread r = fh_UncompressedSize64 (f_hdr f) ->
  csEOF fuel bs r = (Ok (bs, Some EOF), r') -> contentsOk f desr (acc ++ bs).
Proof.
  intros (Hf & Hd & He & Hh & Hn) Hs E; rewrite Hn in Hs; split; [done|]; unfold csEOF in E; rewrite Hf, Hh in E.
  destruct (cs_desr r) as [d|]; cbn in Hd.
  - destruct (readDataDescriptor _ _ _ _) as [[]d']; try discriminate.
    + destruct (Z.eqb_spec (ChecksumIEEE (acc ++ bs)) (fh_CRC32 (f_hdr f))); [by left | discriminate].
    + destruct (bool_decide (e = EOF)) eqn:B; injection E as E _; [discriminate|]; rewrite E in B; by rewrite bool_decide_eq_true_2 in B.
  - destruct (Z.eqb_spec (fh_CRC32 (f_hdr f)) 0) as [E0|]; [right; split; [done|]; by destruct desr|].
    destruct (Z.eqb_spec (ChecksumIEEE (acc ++ bs)) (fh_CRC32 (f_hdr f))); [by left | discriminate].
Qed.

Lemma csEOF_err fuel bs r : forall v e r', csEOF fuel bs r = (Ok (v, e), r') -> v = bs /\ e <> None.
Proof.
  intros v e r'; unfold csEOF, csStick; destruct (cs_desr r) as [d|].
  - destruct (readDataDescriptor _ _ _ _) as [[]d']; intros E; try discriminate; by injection E as <- <- _.
  - intros E; by injection E as <- <- _.
Qed.

Lemma checksumRead_step f desr fuel acc n r :
  csInv f desr acc r ->
  forall bs e r', checksumRead fuel n r = (Ok (bs, e), r') ->
  (e = None -> csInv f desr (acc ++ bs) r') /\ (e = Some EOF -> contentsOk f desr (acc ++ bs)).
Proof.
  intros (Hf & Hd & He & Hh & Hn) bs e r' E; unfold checksumRead in E; rewrite He in E.
  destruct (io_read (cs_rc r) n) as [[bs0 e0] rc].
  set (r1 := mkChecksum rc (crcUpdate (cs_hash r) bs0) (uint64 (cs_nread r + len bs0)) (cs_f r) (cs_desr r) None) in *.
  assert (I1 : csInv f desr (acc ++ bs0) r1).
  { split_and!; try done; cbn [cs_hash cs_nread r1].
    - rewrite Hh; unfold ChecksumIEEE; by rewrite crcUpdate_app.
    - rewrite Hn, len_app; unfold uint64, wrapu; by rewrite Zplus_mod_idemp_l. }
  destruct e0 as [err|]; [|injection E as <- <- <-; split; [done | discriminate]].
  case_bool_decide; [|injection E as <- <- <-; split; [discriminate | intros [= ->]; done]].
  destruct (Z.eqb_spec (cs_nread r1) (fh_UncompressedSize64 (f_hdr (cs_f r1)))) as [En|]; cbn [negb] in E.
  - destruct (csEOF_err _ _ _ _ _ _ E) as [-> Hne]; split; [done|]; intros ->.
    eapply csEOF_ok; [exact I1 | rewrite En; cbn [cs_f r1]; by rewrite Hf | exact E].
  - injection E as <- <- <-; split; discriminate.
Qed.

Lemma readAll_checked f desr fuel k acc cap r data r' :
  csInv f desr acc r -> readAllLoop (checksumRead fuel) k acc cap r = (Ok (data, None), r') -> contentsOk f desr data.
Proof.
  revert acc cap r; induction k as [|k IH]; intros acc cap r Hi E; cbn [readAllLoop] in E; [discriminate|].
  unfold bind in E; destruct (checksumRead fuel _ r) as [[[bs e]| | |] r1] eqn:E1; try discriminate.
  destruct (checksumRead_step _ _ _ _ _ _ Hi _ _ _ E1) as [S1 S2].
  destruct e as [err|]; [|exact (IH _ _ _ (S1 eq_refl) E)].
  destruct err; try discriminate; injection E as <- _; by apply S2.
Qed.

Lemma FileOpen_csInv pkg z f r : FileOpen pkg z f = Ok r -> csInv f (hasDataDescriptor f) [] r.
Proof.
  unfold FileOpen; destruct (findBodyOffset _ _) as [off| | |]; try discriminate; cbn [obind].
  destruct (decompressor _ _ _) as [dcomp|]; [|discriminate]; intros [= <-].
  split_and!; try done; cbn [cs_desr]; by destruct (hasDataDescriptor f).
Qed.
End Open.
Arguments readCloser : clear implicits.
Arguments checksumReader : clear implicits.
Arguments Decompressor : clear implicits.

(** ** Claims *)

(** C8: whatever the archive and the decompressor do, reading a file to its
    end without an error means that the data has the announced size and the
    announced checksum; only a header without a checksum and without a data
    descriptor goes unchecked. *)
Theorem contents_checked {R X} `{IoReaderAt R} `{IoReader X} (pkg : gmap Z (Decompressor R X))
    (z : Reader (R := R) (Decompressor R X)) (f : File) (fuel k : nat) r data r' :
  FileOpen pkg z f = Ok r -> ReadAll (checksumRead fuel) k r = (Ok (data, None), r') ->
  contentsOk f (hasDataDescriptor f) data.
Proof. intros Ho; apply readAll_checked, FileOpen_csInv with (1 := Ho). Qed.

(** A file that is not compressed, in an archive of its own. *)
Definition demoFile : File :=
  mkFile (mkFileHeader (str "a") [] false 0 20 0 Store zeroTime 0 0 (ChecksumIEEE (str "hi")) 2 2 2 2 [] 0) 33 0.
Definition demoArchive : bytesReader :=
  mkBytesReader (le_bytes 4 fileHeaderSignature ++ replicate 22 0 ++ le_bytes 2 1 ++ le_bytes 2 0 ++ str "ahi").
(** No decompressor but that of stored files. *)
Definition storeOnly : gmap Z (Decompressor bytesReader bytesReader) := {[ Store := fun s _ => NopCloser s ]}.

#[local] Instance demo_IoReader : IoReader bytesReader := {| io_read := fun r _ => ([], Some EOF, r); io_seek := None |}.

Lemma contents_checked_witness : contentsOk demoFile false (str "hi").
Proof.
  assert (C : match FileOpen storeOnly (mkReader demoArchive [demoFile] [] ∅) demoFile with
              | Ok r => (ReadAll (checksumRead 10) 10 r).1 = Ok (str "hi", None) | _ => False end) by (vm_compute; reflexivity).
  destruct (FileOpen storeOnly (mkReader demoArchive [demoFile] [] ∅) demoFile) as [r|e| |] eqn:E; try (exfalso; exact C).
  destruct (ReadAll (checksumRead 10) 10 r) as [o r'] eqn:E2; cbn [fst] in C; rewrite C in E2.
  exact (contents_checked _ _ _ _ _ _ _ _ E E2).
Defined.
