(* ===== verification/ZipFile.v ===== *)
(** * zip/reader.go: archives in files

    [OpenReader] and [ReadCloser]. The operating system is an instance of
    [FileSystem]: a state with operations on open files. *)
From S2P Require Import Prelude GoInt GoIO GoBufio ZipStruct ZipNames ZipReader.
Open Scope go_scope.

(** [os.Open], and [Stat] (the size) and [Close] of the file it gives. *)
Class FileSystem (FS F : Type) := {
  os_open : bytes -> FS -> (F + error) * FS;
  os_size : F -> FS -> (Z + error) * FS;
  os_close : F -> FS -> option error * FS
}.

Record ReadCloser (F D : Type) := mkReadCloser { rc_f : F; rc_Reader : Reader (R := F) D }.
Arguments mkReadCloser {F D}.
Arguments rc_f {F D}.
Arguments rc_Reader {F D}.

Section Files.
Context {FS F : Type} `{FileSystem FS F} `{IoReaderAt F}.
Variable DetectBest : bytes -> option (bytes * Z).
Variables CodePage437 ShiftJIS : bytes -> option bytes.

(** [f.Close()] in front of an error: its own error is ignored. *)
Definition closing {A} (f : F) (o : outcome A) : M FS A := fun fs => (o, (os_close f fs).2).

Definition OpenReader {D} (fuel : nat) (name : bytes) : M FS (ReadCloser F D) := fun fs =>
  match os_open name fs with
  | (inr err, fs) => (Err err, fs)
  | (inl f, fs) =>
      match os_size f fs with
      | (inr err, fs) => closing f (Err err) fs
      | (inl size, fs) =>
          match NewReader DetectBest CodePage437 ShiftJIS fuel f size with
          | Ok r => (Ok (mkReadCloser f r), fs)
          | Err err => closing f (Err err) fs
          | Panic => (Panic, fs)
          | OutOfFuel => (OutOfFuel, fs)
          end
      end
  end.

Definition Close {D} (rc : ReadCloser F D) : M FS (option error) := fun fs => let '(err, fs) := os_close (rc_f rc) fs in (Ok err, fs).
End Files.

(** What the operating system keeps: the files that are open. *)
Class FileSystemOk (FS F : Type) `{FileSystem FS F} := {
  os_files : FS -> list F;
  os_open_ok : forall name fs, match os_open name fs with
    | (inl f, fs') => os_files fs' ≡ₚ f :: os_files fs
    | (inr _, fs') => os_files fs' = os_files fs
    end;
  os_size_ok : forall f fs, os_files (os_size f fs).2 = os_files fs;
  os_close_ok : forall f fs rest, os_files fs ≡ₚ f :: rest -> os_files (os_close f fs).2 ≡ₚ rest
}.

(** [OpenReader] leaves a file open exactly when it returns a reader on it,
    and [Close] closes that file. *)
Lemma OpenReader_files {FS F D} `{FileSystemOk FS F} `{IoReaderAt F} db cp sj fuel name (fs : FS) :
  match OpenReader (F := F) (D := D) db cp sj fuel name fs with
  | (Ok rc, fs') => os_files fs' ≡ₚ rc_f rc :: os_files fs /\ os_files (Close rc fs').2 ≡ₚ os_files fs
  | (Err _, fs') => os_files fs' ≡ₚ os_files fs
  | _ => True
  end.
Proof.
  unfold OpenReader, closing; pose proof (os_open_ok name fs) as Ho; destruct (os_open name fs) as [[f|e] fs1]; [|by rewrite Ho].
  pose proof (os_size_ok f fs1) as Hs; destruct (os_size f fs1) as [[size|e] fs2]; cbn [snd] in Hs; rewrite <- Hs in Ho; [|by apply os_close_ok].
  destruct (NewReader _ _ _ _ _ _) as [r|e| |]; [|by apply os_close_ok|done|done].
  split; [done|]; cbn [rc_f]; pose proof (os_close_ok f fs2 _ Ho) as Hc; unfold Close; cbn [rc_f]; by destruct (os_close f fs2).
Qed.

(** A file system in memory, in which a file has its name as contents. *)
#[local] Instance bytesReader_eq_dec : EqDecision bytesReader.
Proof. solve_decision. Defined.
Fixpoint removeOne (f : bytesReader) (fs : list bytesReader) : list bytesReader :=
  match fs with
  | [] => []
  | g :: fs => if decide (f = g) then fs else g :: removeOne f fs
  end.
#[local] Instance memory_FileSystem : FileSystem (list bytesReader) bytesReader := {|
  os_open := fun name fs => if len name =? 0 then (inr (ErrIO 2), fs) else (inl (mkBytesReader name), mkBytesReader name :: fs);
  os_size := fun f fs => (inl (len (br_data f)), fs);
  os_close := fun f fs => (None, removeOne f fs)
|}.

Lemma removeOne_perm f fs : f ∈ fs -> fs ≡ₚ f :: removeOne f fs.
Proof.
  induction fs as [|g fs IH]; [by intros ?%elem_of_nil|]; cbn [removeOne]; destruct (decide (f = g)) as [<-|N]; [done|].
  intros [?|Hf]%elem_of_cons; [done|]; rewrite (IH Hf) at 1; constructor.
Qed.

#[local] Instance memory_FileSystemOk : FileSystemOk (list bytesReader) bytesReader.
Proof.
  unshelve econstructor; [exact id | | |].
  - intros name fs; cbn; by destruct (len name =? 0).
  - done.
  - intros f fs rest Hp; cbn; unfold id in *; apply (inj (cons f)); rewrite <- Hp; symmetry; apply removeOne_perm; rewrite Hp; by left.
Defined.

(** A file that is no archive is closed again. *)
Example OpenReader_closes :
  (OpenReader (F := bytesReader) (D := unit) (fun _ => None) Some Some 100 (str "not an archive") []).2 = [].
Proof. vm_compute; reflexivity. Qed.
