(* ===== verification/ZipSafety.v ===== *)
(** * zip.NewReader on any archive

    Whatever the bytes are, and however [ReadAt] fails, opening an archive
    ends with a reader or an error. *)
From S2P Require Import Prelude GoInt GoString GoTime GoIO GoBufio.
From S2P Require Import ZipStruct ZipNames ZipBuf ZipReader.
Open Scope go_scope.

(** The documented contract of [io.ReaderAt]. *)
Class IoReaderAtOk (R : Type) `{IoReaderAt R} : Prop :=
  read_at_ok : forall r n off bs e, 0 <= n -> read_at r n off = (bs, e) -> len bs <= n /\ (len bs < n -> e <> None).

#[export] Instance bytesReader_ok : IoReaderAtOk bytesReader.
Proof.
  intros r n off bs e Hn; cbv [read_at bytesReader_IoReaderAt]; unfold bytesReadAt.
  destruct (Z.ltb_spec off 0); [intros [= <- <-]; rewrite (@len_nil Z); split; [lia | done]|].
  destruct (Z.leb_spec (len (br_data r)) off); intros [= <- <-]; [rewrite (@len_nil Z); split; [lia | done]|].
  split; [unfold slice, len; rewrite length_take; lia|]; intros ?; by rewrite (proj2 (Z.ltb_lt _ _)).
Qed.

Lemma bytes_ok_bytesReader data n off : bytes_ok data -> bytes_ok (read_at (mkBytesReader data) n off).1.
Proof.
  intros Hd; cbv [read_at bytesReader_IoReaderAt]; unfold bytesReadAt; destruct (off <? 0); [constructor|].
  destruct (_ <=? _); [constructor | apply Forall_take, Forall_drop, Hd].
Qed.

(** ** Parsers of a [readBuf] *)

(** A call that returns. *)
Definition returns {A} (o : outcome A) : Prop := match o with Ok _ | Err _ => True | Panic | OutOfFuel => False end.

(** A parser that needs at most [k] bytes. *)
Definition needs {A} (k : nat) (m : M bytes A) : Prop := forall b, (k <= length b)%nat -> returns (m b).1.

Lemma needs_uint {A} n k (f : Z -> M bytes A) :
  (n <= k)%nat -> (forall v, needs (k - n) (f v)) -> needs k (bind (rdUint n) f).
Proof.
  intros Hn Hf b Hb; unfold bind, rdUint; rewrite (proj2 (Nat.ltb_ge _ _)) by lia.
  apply Hf; rewrite length_drop; lia.
Qed.

Lemma needs_skip {A} n k (f : M bytes A) : 0 <= n -> (Z.to_nat n <= k)%nat -> needs (k - Z.to_nat n) f -> needs k (do! rdSkip n; f).
Proof.
  intros H0 Hn Hf b Hb; unfold rdSkip, rdSub, bind; rewrite (proj2 (Z.ltb_ge n 0)), (proj2 (Z.ltb_ge _ n)) by (unfold len; lia).
  cbn; apply Hf; rewrite length_drop; lia.
Qed.

Lemma needs_get {A} k (f : bytes -> M bytes A) : (forall b, needs k (f b)) -> needs k (bind get f).
Proof. intros Hf b Hb; by apply (Hf b b). Qed.

Lemma needs_ret {A} k (a : A) : needs k (ret a).
Proof. done. Qed.
Lemma needs_throw {A} k e : needs (A := A) k (throw e).
Proof. done. Qed.
Lemma needs_uint_last n k : (n <= k)%nat -> needs k (rdUint n).
Proof. intros Hn b Hb; unfold rdUint; by rewrite (proj2 (Nat.ltb_ge _ _)) by lia. Qed.

Ltac needs := repeat lazymatch goal with
  | |- needs _ (ret _) => exact (needs_ret _ _)
  | |- needs _ (throw _) => exact (needs_throw _ _)
  | |- needs _ (bind get _) => apply needs_get; intros ?
  | |- needs _ (bind (rdSkip _) _) => apply needs_skip; [done | vm_compute; lia |]
  | |- needs _ (bind rdUint8 _) => apply (needs_uint 1); [cbn; lia|]; intros ?; cbn [Nat.sub]
  | |- needs _ (bind rdUint16 _) => apply (needs_uint 2); [cbn; lia|]; intros ?; cbn [Nat.sub]
  | |- needs _ (bind rdUint32 _) => apply (needs_uint 4); [cbn; lia|]; intros ?; cbn [Nat.sub]
  | |- needs _ (bind rdUint64 _) => apply (needs_uint 8); [cbn; lia|]; intros ?; cbn [Nat.sub]
  | |- needs _ (if _ then _ else _) => case_match
  end.

Lemma parseDirectoryEnd_needs : needs 18 parseDirectoryEnd.
Proof. unfold parseDirectoryEnd; needs. Qed.
Lemma parseDirectory64End_needs d : needs 56 (parseDirectory64End d).
Proof. unfold parseDirectory64End; needs. Qed.
Lemma parseLocator_needs : needs 20 parseLocator.
Proof. unfold parseLocator; needs. Qed.
Lemma parseDirectoryHeader_needs : needs 46 parseDirectoryHeader.
Proof. unfold parseDirectoryHeader; needs. Qed.
Lemma parseLocalHeader_needs : needs 30 parseLocalHeader.
Proof. unfold parseLocalHeader; needs. Qed.

(** ** Extra fields *)
Lemma needs0_bind {A B} (m : M bytes A) (f : A -> M bytes B) : needs 0 m -> (forall a, needs 0 (f a)) -> needs 0 (bind m f).
Proof.
  intros Hm Hf b _; specialize (Hm b (Nat.le_0_l _)); unfold bind; destruct (m b) as [[a|e| |] b']; cbn in *; try done.
  apply Hf; lia.
Qed.

(** A parser behind a test of the length. *)
Lemma needs0_guard {A} n (f g : bytes -> M bytes A) :
  (forall b, needs 0 (f b)) -> (forall b, needs (Z.to_nat n) (g b)) ->
  needs 0 (let! b := get in if len b <? n then f b else g b).
Proof.
  intros Hf Hg b _; unfold bind, get; destruct (Z.ltb_spec (len b) n); [apply Hf; lia | apply Hg; unfold len in *; lia].
Qed.

Lemma zip64Value_needs need old : needs 0 (zip64Value need old).
Proof.
  unfold zip64Value; destruct need; [|apply needs_ret].
  apply (needs0_guard 8); intros b; [apply needs_throw | by apply (needs_uint_last 8)].
Qed.

Lemma zip64Field_needs x : needs 0 (zip64Field x).
Proof. unfold zip64Field; repeat (apply needs0_bind; [apply zip64Value_needs | intros ?]); apply needs_ret. Qed.

(** The fields of a list are taken off one by one: [fuel] bounds their number. *)
Lemma rdTagSize {A} (f : Z -> Z -> bytes -> M bytes A) b :
  4 <= len b -> exists t s, (let! t := rdUint16 in let! s := rdUint16 in let! r := get in f t s r) b = f t s (drop 4 b) (drop 4 b) /\ (bytes_ok b -> 0 <= s).
Proof.
  intros Hb; unfold len in Hb; unfold bind, rdUint16, rdUint, get.
  rewrite (proj2 (Nat.ltb_ge (length b) 2)), (proj2 (Nat.ltb_ge (length (drop 2 b)) 2)) by (rewrite ?length_drop; lia).
  rewrite drop_drop; do 2 eexists; split; [reflexivity|].
  intros Hok; apply le_val_range; apply Forall_take, Forall_drop, Hok.
Qed.

Lemma get_if {A} (c : bytes -> bool) (f g : bytes -> M bytes A) b :
  (let! r := get in if c r then f r else g r) b = if c b then f b b else g b b.
Proof. unfold bind, get; by destruct (c b). Qed.

Lemma rdSub_step {A} (f : bytes -> M bytes A) n b :
  0 <= n -> n <= len b -> (let! s := rdSub n in f s) b = f (take (Z.to_nat n) b) (drop (Z.to_nat n) b).
Proof. intros Hn Hb; unfold bind, rdSub; by rewrite (proj2 (Z.ltb_ge n 0)), (proj2 (Z.ltb_ge _ n)) by lia. Qed.

Lemma ntfsLoop_returns fuel modified b : bytes_ok b -> (length b <= fuel)%nat -> returns (ntfsLoop fuel modified b).1.
Proof.
  revert modified b; induction fuel as [|fuel IH]; intros modified b Hb Hf; cbn [ntfsLoop]; rewrite get_if;
    destruct (Z.ltb_spec (len b) 4) as [|Hl]; try done; [unfold len in Hl; lia|].
  edestruct (rdTagSize (fun t s r => if len r <? s then ret modified else
    let! attrBuf := rdSub s in
    if negb (t =? 1) || negb (s =? 24) then ntfsLoop fuel modified
    else let! ts := lift (rdRun rdUint64 attrBuf) in ntfsLoop fuel (ntfsTime ts)) b Hl) as (t & s & E & Hs).
  cbv beta in E; rewrite E; clear E; specialize (Hs Hb).
  destruct (Z.ltb_spec (len (drop 4 b)) s) as [|Hls]; [done|]; rewrite rdSub_step by lia.
  assert (Hr : bytes_ok (drop (Z.to_nat s) (drop 4 b))) by (apply Forall_drop, Forall_drop, Hb).
  assert (Hlr : (length (drop (Z.to_nat s) (drop 4 b)) <= fuel)%nat) by (unfold len in *; rewrite !length_drop in *; lia).
  destruct (Z.eqb_spec s 24) as [->|]; [|by rewrite orb_true_r; apply IH].
  destruct (t =? 1); cbn [negb orb]; [|by apply IH].
  unfold bind, lift, rdRun, rdUint64, rdUint; rewrite (proj2 (Nat.ltb_ge _ _)) by (rewrite length_take; unfold len in *; lia).
  by apply IH.
Qed.

Lemma extraField_returns t x b : bytes_ok b -> returns (extraField t x b).1.
Proof.
  intros Hb; unfold extraField, bind at 1, get at 1.
  assert (N : forall (m : M bytes extras), needs 0 m -> returns (m b).1) by (intros m Hm; apply Hm; lia).
  destruct (t =? zip64ExtraID); [apply N, zip64Field_needs|].
  destruct (t =? ntfsExtraID).
  { destruct (Z.ltb_spec (len b) 4); [done|]; unfold bind at 1, rdUint32, rdUint.
    rewrite (proj2 (Nat.ltb_ge _ _)) by (unfold len in *; lia).
    pose proof (ntfsLoop_returns (length b) (ex_modified x) (drop 4 b)) as L; unfold bind.
    destruct (ntfsLoop _ _ _) as [[]?]; apply L; try apply Forall_drop; try done; rewrite length_drop; lia. }
  destruct ((t =? unixExtraID) || (t =? infoZipUnixExtraID)).
  { destruct (Z.ltb_spec (len b) 8); [done|]; assert (8 <= length b)%nat by (unfold len in *; lia).
    match goal with |- returns (?m b).1 => assert (Hn : needs 8 m) by needs; by apply Hn end. }
  destruct (t =? extTimeExtraID); [|done].
  destruct (Z.ltb_spec (len b) 5); [done|]; assert (5 <= length b)%nat by (unfold len in *; lia).
  match goal with |- returns (?m b).1 => assert (Hn : needs 5 m) by needs; by apply Hn end.
Qed.

Lemma parseExtras_returns fuel x b : bytes_ok b -> (length b <= fuel)%nat -> returns (parseExtras fuel x b).1.
Proof.
  revert x b; induction fuel as [|fuel IH]; intros x b Hb Hf; cbn [parseExtras]; rewrite get_if;
    destruct (Z.ltb_spec (len b) 4) as [|Hl]; try done; [unfold len in Hl; lia|].
  edestruct (rdTagSize (fun t s r => if len r <? s then ret x else
    let! fieldBuf := rdSub s in
    let! x := lift (rdRun (extraField t x) fieldBuf) in parseExtras fuel x) b Hl) as (t & s & E & Hs).
  cbv beta in E; rewrite E; clear E; specialize (Hs Hb).
  destruct (Z.ltb_spec (len (drop 4 b)) s) as [|Hls]; [done|]; rewrite rdSub_step by lia.
  pose proof (extraField_returns t x (take (Z.to_nat s) (drop 4 b)) ltac:(apply Forall_take, Forall_drop, Hb)) as Hx.
  unfold bind, lift, rdRun; destruct (extraField _ _ _) as [[x'|e| |] b']; try done; cbn [fst].
  apply IH; [apply Forall_drop, Forall_drop, Hb | unfold len in *; rewrite !length_drop in *; lia].
Qed.

Lemma finishHeader_returns size h off n ex c : bytes_ok ex -> returns (finishHeader size h off n ex c).
Proof.
  intros Hb; unfold finishHeader, rdRun.
  match goal with |- context [parseExtras ?f ?x ex] => pose proof (parseExtras_returns f x ex Hb ltac:(lia)) as P; destruct (parseExtras f x ex) as [[x'|e| |] b'] end;
    try done; cbn [obind fst]; by destruct (_ || _).
Qed.

(** Lengths that are read are not negative. *)
Lemma rdUint_nonneg {A} n (f : Z -> M bytes A) b a :
  bytes_ok b -> (bind (rdUint n) f b).1 = Ok a -> exists v b', 0 <= v /\ bytes_ok b' /\ (f v b').1 = Ok a.
Proof.
  intros Hb; unfold bind, rdUint; destruct (_ <? _)%nat; [done|]; intros E.
  do 2 eexists; split; [apply le_val_range, Forall_take, Hb|]; split; [apply Forall_drop, Hb | exact E].
Qed.

Lemma rdSkip_nonneg {A} n (f : M bytes A) b a :
  bytes_ok b -> ((do! rdSkip n; f) b).1 = Ok a -> exists b', bytes_ok b' /\ (f b').1 = Ok a.
Proof.
  intros Hb; unfold rdSkip, rdSub, bind; destruct (_ || _); [done|]; intros E; eexists; split; [apply Forall_drop, Hb | exact E].
Qed.

Lemma parseDirectoryHeader_lens b h off n1 n2 n3 :
  bytes_ok b -> (parseDirectoryHeader b).1 = Ok (h, off, (n1, n2, n3)) -> 0 <= n1 /\ 0 <= n2 /\ 0 <= n3.
Proof.
  intros Hb; unfold parseDirectoryHeader; intros E; apply rdUint_nonneg in E as (sig & b1 & _ & Hb1 & E); [|done].
  destruct (negb _); [done|]; clear b Hb.
  repeat match type of E with (bind rdUint16 _ ?b).1 = _ =>
    let v := fresh "v" in let b' := fresh "b" in let Hv := fresh "Hv" in let Hb := fresh "Hb" in
    apply rdUint_nonneg in E as (v & b' & Hv & Hb & E); [|assumption]
  | (bind rdUint32 _ ?b).1 = _ =>
    let v := fresh "v" in let b' := fresh "b" in let Hv := fresh "Hv" in let Hb := fresh "Hb" in
    apply rdUint_nonneg in E as (v & b' & Hv & Hb & E); [|assumption]
  | ((do! rdSkip _; _) ?b).1 = _ =>
    let b' := fresh "b" in let Hb := fresh "Hb" in apply rdSkip_nonneg in E as (b' & Hb & E); [|assumption] end.
  by injection E as _ _ <- <- <-.
Qed.

(** ** The directory end *)
Lemma findSigFrom_range i b : -1 <= findSigFrom i b <= Z.of_nat i.
Proof. induction i as [|i IH]; cbn [findSigFrom]; destruct (_ && _); lia. Qed.

Lemma findSignatureInBlock_range b : -1 <= findSignatureInBlock b /\ (0 <= findSignatureInBlock b -> findSignatureInBlock b + directoryEndLen <= len b).
Proof.
  unfold findSignatureInBlock; destruct (Z.ltb_spec (len b) directoryEndLen); [lia|].
  pose proof (findSigFrom_range (length b - Z.to_nat directoryEndLen) b); unfold directoryEndLen, len in *; lia.
Qed.

Section Safety.
Context {R : Type} `{IoReaderAtOk R}.
(** The archive, a sequence of bytes. *)
Variable r : R.
Hypothesis Hbytes : forall n off, bytes_ok (read_at r n off).1.

Lemma readAtBuf_length n off buf e : 0 <= n -> readAtBuf r n off = (buf, e) -> len buf = n /\ bytes_ok buf.
Proof.
  intros Hn; pose proof (Hbytes n off) as Hb; unfold readAtBuf; destruct (read_at r n off) as [bs e'] eqn:E; intros [= <- <-].
  destruct (read_at_ok _ _ _ _ _ Hn E) as [Hl _]; split.
  - rewrite len_app; unfold len at 2; rewrite length_replicate; lia.
  - apply bytes_ok_app; split; [exact Hb | by apply bytes_ok_replicate].
Qed.

Lemma findDirectory64End_returns off : returns (findDirectory64End r off).
Proof.
  unfold findDirectory64End; destruct (_ <? 0); [done|]; destruct (readAtBuf _ _ _) as [buf [e|]] eqn:E; [done|].
  apply readAtBuf_length in E as [E _]; [|done]; apply parseLocator_needs; unfold len, directory64LocLen in E; lia.
Qed.

Lemma readDirectory64End_returns off d : returns (readDirectory64End r off d).
Proof.
  unfold readDirectory64End; destruct (readAtBuf _ _ _) as [buf [e|]] eqn:E; [done|].
  apply readAtBuf_length in E as [E _]; [|done]; apply parseDirectory64End_needs; unfold len, directory64EndLen in E; lia.
Qed.

Lemma tryDirectory64_returns off d : returns (tryDirectory64 r off d).
Proof.
  unfold tryDirectory64; pose proof (findDirectory64End_returns off) as F.
  destruct (findDirectory64End r off) as [p|e| |]; try done; [|by destruct (_ || _)].
  destruct (0 <=? p); [|done]; pose proof (readDirectory64End_returns p d) as G.
  destruct (readDirectory64End r p d); try done; by destruct (_ || _).
Qed.

Lemma readDirectoryEnd_returns size : 0 <= size -> returns (readDirectoryEnd r size).
Proof.
  intros Hs; unfold readDirectoryEnd.
  set (bLen := if size <? 65 * 1024 then size else 65 * 1024).
  assert (0 <= bLen) by (unfold bLen; destruct (Z.ltb_spec size (65 * 1024)); lia).
  rewrite (proj2 (Z.ltb_ge bLen 0)) by done.
  destruct (readAtBuf r bLen (size - bLen)) as [buf err] eqn:E; apply readAtBuf_length in E as [E _]; [|done].
  destruct (if bool_decide (err = Some EOF) then None else err); [done|].
  destruct (findSignatureInBlock_range buf) as [_ Hp]; destruct (Z.ltb_spec (findSignatureInBlock buf) 0) as [|Hp0]; [done|].
  specialize (Hp Hp0); unfold directoryEndLen in Hp.
  assert (N : returns (rdRun parseDirectoryEnd (drop 4 (drop (Z.to_nat (findSignatureInBlock buf)) buf)))).
  { apply parseDirectoryEnd_needs; rewrite !length_drop; unfold len in *; lia. }
  destruct (rdRun parseDirectoryEnd _) as [d| | |]; try done; cbn [obind].
  pose proof (tryDirectory64_returns (size - bLen + findSignatureInBlock buf) d) as T.
  destruct (tryDirectory64 _ _ _) as [[d' o]| | |]; try done; cbn [obind]; by destruct (_ || _).
Qed.

(** ** The headers *)

(** A buffered reader of a section of the archive, and the bytes it can still deliver. *)
Definition dirReader : Type := bufioReader (sectionReader R).
Definition dirOk (b : dirReader) : Prop := sec_r (bfr_rd b) = r /\ bytes_ok (bfr_buf b).
Definition dirLeft (b : dirReader) : nat := (length (bfr_buf b) + Z.to_nat (sec_limit (bfr_rd b) - sec_off (bfr_rd b)))%nat.

Lemma sectionRead_ok (s : sectionReader R) n bs e s' :
  sec_r s = r -> 0 < n -> sectionRead s n = (bs, e, s') ->
  sec_r s' = r /\ bytes_ok bs /\ len bs <= n /\ (e = None -> bs <> []) /\
  (Z.to_nat (sec_limit s' - sec_off s') + length bs <= Z.to_nat (sec_limit s - sec_off s))%nat.
Proof.
  intros Hr Hn; unfold sectionRead; destruct (Z.leb_spec (sec_limit s) (sec_off s)) as [|Hl].
  { intros [= <- <- <-]; split_and!; try done; [constructor | rewrite (@len_nil Z); lia | cbn; lia]. }
  set (k := if sec_limit s - sec_off s <? n then sec_limit s - sec_off s else n).
  assert (Hk : 0 < k <= n /\ k <= sec_limit s - sec_off s) by (unfold k; destruct (Z.ltb_spec (sec_limit s - sec_off s) n); lia).
  pose proof (Hbytes k (sec_off s)) as Hb; destruct (read_at (sec_r s) k (sec_off s)) as [bs0 e0] eqn:E; intros [= <- <- <-].
  rewrite Hr in E; rewrite E in Hb; destruct (read_at_ok r k (sec_off s) bs0 e0 ltac:(lia) E) as [Hl1 Hl2]; cbn [sec_r sec_limit sec_off].
  split_and!; try done; [lia | | unfold len in *; lia].
  intros -> ->; apply Hl2; [rewrite (@len_nil Z); lia | done].
Qed.

Ltac fin := solve [done | constructor | unfold len in *; cbn [length] in *; lia
                  | intros _; split; [cbn [length] in *; lia | auto; done]].

#[local] Instance dir_ReadsOk : ReadsOk True (ioRead (S := dirReader)) dirOk dirLeft.
Proof.
  intros b n [Hr Hb] Hn; unfold ioRead; cbn [io_read bufio_IoReader]; unfold bufioRead, dirOk, dirLeft.
  rewrite (proj2 (Z.eqb_neq n 0)) by lia.
  assert (Buf : forall (bs : bytes), bs <> [] -> bytes_ok bs ->
    take (Z.to_nat n) bs <> [] /\ len (take (Z.to_nat n) bs) <= n /\ bytes_ok (drop (Z.to_nat n) bs) /\
    (length (drop (Z.to_nat n) bs) + length (take (Z.to_nat n) bs) = length bs)%nat).
  { intros bs Hne Hok; split_and!; [apply take_nonempty; [lia | done] | unfold len; rewrite length_take; lia | by apply Forall_drop |].
    rewrite length_drop, length_take; lia. }
  destruct (bfr_buf b) as [|c buf] eqn:Eb.
  - destruct (bfr_err b) as [e|].
    + do 3 eexists; split; [reflexivity|]; cbn [bfr_rd bfr_buf]; split_and!; fin.
    + destruct (bufioSize <=? n).
      * destruct (io_read (bfr_rd b) n) as [[bs e] s'] eqn:E; destruct (sectionRead_ok _ _ _ _ _ Hr Hn E) as (S1 & S2 & S3 & S4 & S5).
        do 3 eexists; split; [reflexivity|]; cbn [bfr_rd bfr_buf]; split_and!; fin.
      * destruct (io_read (bfr_rd b) bufioSize) as [[bs e] s'] eqn:E.
        destruct (sectionRead_ok (bfr_rd b) bufioSize bs e s' Hr ltac:(reflexivity) E) as (S1 & S2 & S3 & S4 & S5).
        destruct bs as [|c bs]; [do 3 eexists; split; [reflexivity|]; cbn [bfr_rd bfr_buf]; split_and!; fin|].
        destruct (Buf (c :: bs) ltac:(done) S2) as (B1 & B2 & B3 & B4).
        do 3 eexists; split; [reflexivity|]; cbn [bfr_rd bfr_buf] in *; split_and!; fin.
  - destruct (Buf (c :: buf) ltac:(done) Hb) as (B1 & B2 & B3 & B4).
    do 3 eexists; split; [reflexivity|]; cbn [bfr_rd bfr_buf] in *; split_and!; fin.
Qed.

(** The bytes that the reads deliver. *)
Lemma bufioRead_bytes b n : dirOk b -> 0 < n -> match ioRead (S := dirReader) n b with (Ok (bs, _), _) => bytes_ok bs | _ => True end.
Proof.
  intros [Hr Hb] Hn; unfold ioRead; cbn [io_read bufio_IoReader]; unfold bufioRead; rewrite (proj2 (Z.eqb_neq n 0)) by lia.
  destruct (bfr_buf b) as [|c buf]; [|by apply Forall_take].
  destruct (bfr_err b); [constructor|].
  destruct (bufioSize <=? n).
  - destruct (io_read (bfr_rd b) n) as [[bs e] s'] eqn:E; by destruct (sectionRead_ok _ _ _ _ _ Hr Hn E) as (_ & ? & _).
  - destruct (io_read (bfr_rd b) bufioSize) as [[bs e] s'] eqn:E.
    destruct (sectionRead_ok (bfr_rd b) bufioSize bs e s' Hr ltac:(reflexivity) E) as (_ & ? & _).
    destruct bs; [constructor | by apply Forall_take].
Qed.

Lemma readFullLoop_bytes fuel n acc b :
  dirOk b -> bytes_ok acc -> match readFullLoop (ioRead (S := dirReader)) fuel n acc b with (Ok (bs, _), _) => bytes_ok bs | _ => True end.
Proof.
  revert n acc b; induction fuel as [|f IH]; intros n acc b Hb Ha; cbn [readFullLoop]; destruct (Z.leb_spec n 0); try done.
  pose proof (bufioRead_bytes b n Hb ltac:(lia)) as B; destruct (reads_ok b n Hb ltac:(lia)) as (bs & e & b' & E & Hb' & _).
  unfold bind; rewrite E in *; assert (bytes_ok (acc ++ bs)) by by apply bytes_ok_app.
  destruct e as [e|]; [done | by apply IH].
Qed.

Lemma readFull_dir fuel n b :
  dirOk b -> 0 <= n -> (dirLeft b < fuel)%nat ->
  wp (readFull ioRead fuel n)
     (fun o b' => returns o /\ dirOk b' /\ (dirLeft b' <= dirLeft b)%nat /\
        match o with Ok bs => len bs = n /\ bytes_ok bs /\ (dirLeft b' + length bs <= dirLeft b)%nat | _ => True end) b.
Proof.
  intros Hb Hn Hf; pose proof (ReadFull_ok True ioRead dirOk dirLeft fuel n b Hb Hn) as W.
  pose proof (readFullLoop_bytes fuel n [] b Hb ltac:(constructor)) as B; fold (ReadFull (ioRead (S := dirReader)) fuel n b) in B.
  unfold wp, readFull, bind in *; destruct (ReadFull _ _ _ _) as [[[bs e]| | |] b']; cbn in W; destruct W as [[Hb' W] Wn]; try done.
  - specialize (W I); destruct e as [e|]; cbn; split_and!; try done; lia.
  - specialize (W I); lia.
Qed.

Lemma readDirectoryHeader_dir fuel size b :
  dirOk b -> (dirLeft b < fuel)%nat ->
  wp (readDirectoryHeader ioRead fuel size)
     (fun o b' => returns o /\ dirOk b' /\ (dirLeft b' <= dirLeft b)%nat /\
        match o with Ok f => (dirLeft b' + 46 <= dirLeft b)%nat | _ => True end) b.
Proof.
  intros Hb Hf; unfold readDirectoryHeader; eapply wp_seq; [by apply (readFull_dir fuel directoryHeaderLen)|].
  intros o b1 (Ho & Hb1 & Hd1 & Hl1); destruct o as [buf|e| |]; try done; destruct Hl1 as (L1 & Ok1 & D1).
  unfold wp, bind, onOk, lift; unfold directoryHeaderLen, len in L1.
  pose proof (parseDirectoryHeader_needs buf ltac:(lia)) as P.
  assert (Q : forall h off a b c, rdRun parseDirectoryHeader buf = Ok (h, off, (a, b, c)) -> 0 <= a /\ 0 <= b /\ 0 <= c).
  { clear -Ok1; intros h off a0 b0 c0; unfold rdRun. apply parseDirectoryHeader_lens; done. }
  fold (rdRun parseDirectoryHeader buf) in P; destruct (rdRun parseDirectoryHeader buf) as [[[h off] [[n1 n2] n3]]|e| |]; try done.
  destruct (Q _ _ _ _ _ eq_refl) as (Q1 & Q2 & Q3).
  pose proof (readFull_dir fuel (n1 + n2 + n3) b1 Hb1 ltac:(lia) ltac:(lia)) as W; unfold wp in W.
  destruct (readFull _ _ _ _) as [o b2]; cbn in W; destruct W as (Ho2 & Hb2 & Hd2 & Hl2); destruct o as [d|e| |]; try done;
    cbn [fst snd]; [|split_and!; try done; lia].
  destruct Hl2 as (_ & Okd & D2); match goal with |- context [finishHeader ?a ?b ?c ?d ?e ?f] =>
    pose proof (finishHeader_returns a b c d e f) as Fr; destruct (finishHeader a b c d e f) end;
    cbn [fst snd]; (split_and!; try done; try lia); apply Fr; apply Forall_take, Forall_drop, Okd.
Qed.

Lemma readHeaders_dir fuel n size skip b :
  dirOk b -> (dirLeft b < fuel)%nat -> (dirLeft b < n)%nat ->
  wp (readHeaders ioRead fuel n size skip)
     (fun o b' => returns o /\ match o with Ok (fs, _) => (46 * length fs <= dirLeft b)%nat | _ => True end) b.
Proof.
  revert b; induction n as [|n IH]; intros b Hb Hf Hn; [lia|]; cbn [readHeaders].
  pose proof (readDirectoryHeader_dir fuel size b Hb Hf) as W; apply wp_bind; unfold wp at 1, attempt; unfold wp in W.
  destruct (readDirectoryHeader _ _ _ _) as [o b1]; cbn in W; destruct W as (Ho & Hb1 & Hd1 & Hl1); destruct o as [f|e| |]; try done;
    cbn [fst snd onOk].
  - specialize (IH b1 Hb1 ltac:(lia) ltac:(lia)); apply wp_bind; unfold wp in *.
    destruct (readHeaders _ _ _ _ _ _) as [[[fs err]| | |] b2]; cbn [fst snd onOk] in IH |- *; destruct IH as [? IH]; (split; [done|]); try done.
    cbn [ret fst length]; lia.
  - destruct (bool_decide _); (split; [done|]); cbn; lia.
Qed.

Lemma readDirectoryEnd_offset size d : readDirectoryEnd r size = Ok d -> 0 <= int64 (directoryOffset d) < size.
Proof.
  unfold readDirectoryEnd; destruct (_ <? 0); [done|]; destruct (readAtBuf _ _ _) as [buf err]; destruct (if bool_decide (err = Some EOF) then None else err); [done|].
  destruct (_ <? 0); [done|]; destruct (rdRun _ _) as [d0| | |]; try done; cbn [obind].
  destruct (tryDirectory64 _ _ _) as [[d1 o]| | |]; try done; cbn [obind]; cbv zeta.
  match goal with |- context [adjustOffset ?a ?b ?c] => generalize (adjustOffset a b c) as d2 end; intros d2.
  destruct (Z.ltb_spec (int64 (directoryOffset d2)) 0); [done|]; destruct (Z.leb_spec size (int64 (directoryOffset d2))); [done|].
  intros [= <-]; lia.
Qed.
End Safety.

(** ** Claims *)

(** C5: on any archive, of whatever bytes and with whatever errors of
    [ReadAt], [NewReader] returns a reader or an error: it does not panic,
    it ends after at most as many steps as the archive has bytes, and it
    never lists more files than there is room for headers. *)
Theorem NewReader_total {R D} `{IoReaderAtOk R} db cp sj (r : R) (size : Z) (fuel : nat) :
  (forall n off, bytes_ok (read_at r n off).1) -> 0 <= size < 2 ^ 63 -> size < Z.of_nat fuel ->
  match NewReader (D := D) db cp sj fuel r size with
  | Ok z => directoryHeaderLen * len (r_File z) <= size
  | Err _ => True
  | Panic | OutOfFuel => False
  end.
Proof.
  intros Hb Hs Hf; unfold NewReader; pose proof (readDirectoryEnd_returns r Hb size ltac:(lia)) as E.
  destruct (readDirectoryEnd r size) as [d| | |] eqn:Ed; try done; cbn [obind]; apply readDirectoryEnd_offset in Ed.
  destruct (_ <? _); [done|]; unfold sectionSeekStart, NewSectionReader; cbn [sec_base sec_r sec_limit].
  rewrite Z.add_0_r, Z.add_0_l, (int64_id (int64 _)), (int64_id size) by (unfold in_int64 in *; lia).
  rewrite (proj2 (Z.ltb_ge _ 0)) by lia.
  set (b := NewBufioReader _); assert (Ok1 : dirOk r b) by (split; [done | constructor]).
  assert (L : dirLeft b = Z.to_nat (size - int64 (directoryOffset d))) by done.
  pose proof (readHeaders_dir r Hb fuel fuel size (startSkipLen d) b Ok1 ltac:(lia) ltac:(lia)) as W; unfold wp in W.
  destruct (readHeaders _ _ _ _ _ _) as [[[fs err]|e| |] b']; cbn in W; destruct W as [W Wl]; try done; cbn [fst obind].
  destruct (negb _); [done|]; cbn [r_File]; unfold directoryHeaderLen.
  assert (len (normalizeNameEncoding db cp sj fs) = len fs) as ->; [|unfold len; lia].
  unfold normalizeNameEncoding; destruct (sampleNames _ _ _) as [? []]; [apply len_fmap | done].
Qed.

Lemma NewReader_total_witness :
  match NewReader (D := unit) (fun _ => None) (fun _ => None) (fun _ => None) 23 (mkBytesReader (le_bytes 4 directoryEndSignature ++ replicate 18 0)) 22 with
  | Ok z => directoryHeaderLen * len (r_File z) <= 22
  | Err _ => True
  | Panic | OutOfFuel => False
  end.
Proof.
  apply NewReader_total; [|lia|lia].
  intros n off; apply bytes_ok_bytesReader; apply bytes_ok_app; split; [apply le_bytes_ok | by apply bytes_ok_replicate].
Defined.

