(* ===== verification/ZipRegister.v ===== *)
(** * zip/register.go: settings, registries and the pool of flate readers

    The registries are maps from method ids. The pool shares flate readers
    between files: the readers are objects of a store, a handle (a
    [pooledFlateReader]) refers to one of them until it is closed. *)
From S2P Require Import Prelude GoInt GoIO ZipStruct.
Open Scope go_scope.

(** ** Compression settings *)
Record FlateSettings := mkFlateSettings { fs_Level : Z; fs_BlockSize : Z; fs_Blocks : Z }.
Record CompressionSettings := mkCompressionSettings { cs_Flate : FlateSettings }.

Definition FlateValidate (fs : FlateSettings) : outcome unit :=
  if (fs_Level fs <? -2) || (9 <? fs_Level fs) then Err (ErrMsg "flate settings: level must be within [-2,9], was %d")
  else if fs_Blocks fs <=? 0 then Err (ErrMsg "flate settings: blocks must be equal or greater than 0")
  else if fs_BlockSize fs <=? 16384 then Err (ErrMsg "flate settings: block size must be equal or greater than 16384")
  else Ok tt.

Definition Validate (cs : CompressionSettings) : outcome unit := FlateValidate (cs_Flate cs).

(** [flate.DefaultCompression] is -1, [flate.BestCompression] 9. *)
Definition defaultCompressionSettings : CompressionSettings := mkCompressionSettings (mkFlateSettings (-1) (256 * 1024) 16).
Definition bestCompressionSettings : CompressionSettings := mkCompressionSettings (mkFlateSettings 9 (512 * 1024) 16).
Definition DefaultCompressionSettings : CompressionSettings := defaultCompressionSettings.
Definition BestCompressionSettings : CompressionSettings := bestCompressionSettings.

(** ** Registries *)

(** [LoadOrStore], and the panic on a duplicate. *)
Definition RegisterDecompressor {D} (method : Z) (dcomp : D) (decompressors : gmap Z D) : outcome (gmap Z D) :=
  match decompressors !! method with Some _ => Panic | None => Ok (<[method := dcomp]> decompressors) end.
Definition RegisterCompressor {C} (method : Z) (comp : C) (compressors : gmap Z C) : outcome (gmap Z C) :=
  match compressors !! method with Some _ => Panic | None => Ok (<[method := comp]> compressors) end.

(** The maps after [init]. *)
Definition initRegistry {D} (store deflate : D) : gmap Z D := <[Deflate := deflate]> (<[Store := store]> ∅).

(** ** The pool of flate readers *)

(** The flate package: [NewReader], [Reset], [Read] and [Close] on the
    readers of a source. *)
Class Flate (S F : Type) `{IoReader F} := {
  fl_new : S -> F;
  fl_reset : F -> S -> F;
  fl_close : F -> option error * F
}.

(** What the flate package documents of [Reset]: the reader is as good as
    new. Readers that cannot be told apart are related by [fl_sim]. *)
Class FlateOk (S F : Type) `{Flate S F} := {
  fl_sim : F -> F -> Prop;
  fl_sim_new : forall s, fl_sim (fl_new s) (fl_new s);
  fl_sim_reset : forall f s, fl_sim (fl_reset f s) (fl_new s);
  fl_sim_read : forall f g n, fl_sim f g ->
    (io_read f n).1 = (io_read g n).1 /\ fl_sim (io_read f n).2 (io_read g n).2;
  fl_sim_close : forall f g, fl_sim f g -> (fl_close f).1 = (fl_close g).1
}.

Definition errReadAfterClose : error := ErrMsg "Read after Close".

Section Pool.
Context {S F : Type} `{Flate S F}.

(** The readers, those in the pool, and the handles given out ([None]: closed). *)
Record poolState := mkPool {
  ps_readers : list F;
  ps_pool : list nat;
  ps_handles : list (option nat)
}.
Definition emptyPool : poolState := mkPool [] [] [].

(** [newFlateReader] when [flateReaderPool.Get] returns the [i]-th reader of
    the pool, and when it returns nil. *)
Definition newPooled (i : nat) (src : S) (st : poolState) : option poolState :=
  match ps_pool st !! i with
  | Some l => Some (mkPool (alter (fun f => fl_reset f src) l (ps_readers st)) (delete i (ps_pool st)) (ps_handles st ++ [Some l]))
  | None => None
  end.
Definition newFresh (src : S) (st : poolState) : poolState :=
  mkPool (ps_readers st ++ [fl_new src]) (ps_pool st) (ps_handles st ++ [Some (length (ps_readers st))]).

(** [Read] and [Close] of the handle [h]; [None] when there is no such handle. *)
Definition pooledRead (h : nat) (n : Z) (st : poolState) : option (bytes * option error * poolState) :=
  match ps_handles st !! h with
  | None => None
  | Some None => Some ([], Some errReadAfterClose, st)
  | Some (Some l) =>
      match ps_readers st !! l with
      | None => None
      | Some f => let '(bs, e, f) := io_read f n in Some (bs, e, mkPool (<[l := f]> (ps_readers st)) (ps_pool st) (ps_handles st))
      end
  end.
Definition pooledClose (h : nat) (st : poolState) : option (option error * poolState) :=
  match ps_handles st !! h with
  | None => None
  | Some None => Some (None, st)
  | Some (Some l) =>
      match ps_readers st !! l with
      | None => None
      | Some f => let '(e, f) := fl_close f in
                  Some (e, mkPool (<[l := f]> (ps_readers st)) (l :: ps_pool st) (<[h := None]> (ps_handles st)))
      end
  end.

(** Calls with their results. Every method holds the mutex of its handle,
    and the pool is safe for concurrent use: a run of several goroutines is
    an interleaving of these steps. *)
Inductive event :=
  | ENew (src : S)
  | ERead (h : nat) (n : Z) (bs : bytes) (e : option error)
  | EClose (h : nat) (e : option error).

Inductive step : poolState -> option event -> poolState -> Prop :=
  | step_pooled i src st st' : newPooled i src st = Some st' -> step st (Some (ENew src)) st'
  | step_fresh src st : step st (Some (ENew src)) (newFresh src st)
  | step_read h n bs e st st' : pooledRead h n st = Some (bs, e, st') -> step st (Some (ERead h n bs e)) st'
  | step_close h e st st' : pooledClose h st = Some (e, st') -> step st (Some (EClose h e)) st'
  (** The runtime may drop a pooled reader at any time. *)
  | step_drop i st : step st None (mkPool (ps_readers st) (delete i (ps_pool st)) (ps_handles st)).

Inductive run : poolState -> list event -> poolState -> Prop :=
  | run_nil st : run st [] st
  | run_step st o st1 tr st2 : step st o st1 -> run st1 tr st2 -> run st (option_list o ++ tr) st2.

(** ** What the callers are promised: a reader of their own *)
Definition specRead (h : nat) (n : Z) (own : list (option F)) : option (bytes * option error * list (option F)) :=
  match own !! h with
  | None => None
  | Some None => Some ([], Some errReadAfterClose, own)
  | Some (Some f) => let '(bs, e, f) := io_read f n in Some (bs, e, <[h := Some f]> own)
  end.
Definition specClose (h : nat) (own : list (option F)) : option (option error * list (option F)) :=
  match own !! h with
  | None => None
  | Some None => Some (None, own)
  | Some (Some f) => Some ((fl_close f).1, <[h := None]> own)
  end.

Inductive specRun : list (option F) -> list event -> list (option F) -> Prop :=
  | spec_nil own : specRun own [] own
  | spec_new src own tr own' : specRun (own ++ [Some (fl_new src)]) tr own' -> specRun own (ENew src :: tr) own'
  | spec_read h n bs e own own1 tr own' :
      specRead h n own = Some (bs, e, own1) -> specRun own1 tr own' -> specRun own (ERead h n bs e :: tr) own'
  | spec_close h e own own1 tr own' :
      specClose h own = Some (e, own1) -> specRun own1 tr own' -> specRun own (EClose h e :: tr) own'.
End Pool.

(** ** Every reader has one owner *)
Section PoolProofs.
Context {S F : Type} `{FlateOk S F}.

(** Deleting one element of a list. *)
Lemma elem_of_delete_list {A} i (l : list A) x : x ∈ delete i l -> x ∈ l.
Proof.
  rewrite delete_take_drop, elem_of_app; intros [Hx|Hx].
  - rewrite <- (take_drop i l), elem_of_app; by left.
  - rewrite <- (take_drop (Datatypes.S i) l), elem_of_app; by right.
Qed.

Lemma NoDup_app_middle {A} (l1 l2 : list A) x : NoDup (l1 ++ x :: l2) -> NoDup (l1 ++ l2).
Proof. rewrite <- Permutation_middle, NoDup_cons; by intros [_ ?]. Qed.

Lemma NoDup_middle_elem {A} (l1 l2 : list A) x y : NoDup (l1 ++ x :: l2) -> y ∈ l1 ++ l2 -> y ∈ l1 ++ x :: l2 /\ y <> x.
Proof.
  rewrite <- !Permutation_middle, NoDup_cons; intros [Hn _] Hy; split; [by right | by intros ->].
Qed.

Lemma NoDup_delete_list {A} i (l : list A) : NoDup l -> NoDup (delete i l).
Proof.
  destruct (l !! i) as [x|] eqn:E.
  - rewrite <- (take_drop_middle l i x E) at 1; rewrite delete_take_drop; apply NoDup_app_middle.
  - apply lookup_ge_None in E; rewrite delete_take_drop, take_ge, drop_ge, app_nil_r by lia; done.
Qed.

Record related (st : poolState (F := F)) (own : list (option F)) : Prop := {
  rel_length : length (ps_handles st) = length own;
  rel_closed : forall h, ps_handles st !! h = Some None -> own !! h = Some None;
  rel_open : forall h l, ps_handles st !! h = Some (Some l) ->
    exists f g, ps_readers st !! l = Some f /\ own !! h = Some (Some g) /\ fl_sim f g;
  rel_inj : forall h h' l, ps_handles st !! h = Some (Some l) -> ps_handles st !! h' = Some (Some l) -> h = h';
  rel_nodup : NoDup (ps_pool st);
  rel_pool : forall h l, ps_handles st !! h = Some (Some l) -> l ∉ ps_pool st;
  rel_exists : forall l, l ∈ ps_pool st -> is_Some (ps_readers st !! l)
}.

Lemma related_empty : related emptyPool [].
Proof. split; cbn; try done; [constructor | intros l Hl; by apply elem_of_nil in Hl]. Qed.

Lemma snoc_lookup {A} (l : list A) x h y : (l ++ [x]) !! h = Some y -> (l !! h = Some y) \/ (h = length l /\ y = x).
Proof.
  intros E; apply lookup_app_Some in E as [E|[E1 E2]]; [by left | right].
  apply list_lookup_singleton_Some in E2 as [E2 <-]; split; [lia | done].
Qed.

Lemma snoc_last {A} (l : list A) x n : n = length l -> (l ++ [x]) !! n = Some x.
Proof. intros ->; by rewrite lookup_app_r, Nat.sub_diag by lia. Qed.

(** A new handle on a reader that has no owner. *)
Lemma related_new st own l f readers pool src :
  related st own ->
  (forall l', l' <> l -> l' ∈ ps_pool st \/ (exists h, ps_handles st !! h = Some (Some l')) -> readers !! l' = ps_readers st !! l') ->
  (forall h, ps_handles st !! h <> Some (Some l)) -> readers !! l = Some f -> fl_sim f (fl_new src) ->
  NoDup pool -> (forall l', l' ∈ pool -> l' ∈ ps_pool st /\ l' <> l) ->
  related (mkPool readers pool (ps_handles st ++ [Some l])) (own ++ [Some (fl_new src)]).
Proof.
  intros [R1 R2 R3 R4 R5 R6 R7] Hr Hl Hf Hs Hn Hp; split; cbn [ps_handles ps_readers ps_pool].
  - rewrite !length_app; cbn; lia.
  - intros h [E|[_ E]]%snoc_lookup; [|done]; specialize (R2 h E); by apply lookup_app_l_Some.
  - intros h l' [E|[-> [= ->]]]%snoc_lookup.
    + destruct (R3 h l' E) as (f' & g & E1 & E2 & E3); exists f', g; rewrite Hr; [|intros ->; by eapply Hl | right; eauto].
      split; [done|]; split; [by apply lookup_app_l_Some | done].
    + exists f, (fl_new src); split; [done|]; split; [|done]; by apply snoc_last.
  - intros h h' l' [E|[-> [= ->]]]%snoc_lookup [E'|[-> E2]]%snoc_lookup; try done.
    + by eapply R4.
    + injection E2 as ->; by destruct (Hl h).
    + by destruct (Hl h').
  - done.
  - intros h l' [E|[-> [= ->]]]%snoc_lookup [E1 E2]%Hp; [by eapply R6 | done].
  - intros l' [E1 E2]%Hp; rewrite Hr; [by apply R7 | done | by left].
Qed.

Lemma related_read st own h n bs e st' :
  related st own -> pooledRead h n st = Some (bs, e, st') ->
  exists own', specRead h n own = Some (bs, e, own') /\ related st' own'.
Proof.
  intros Rl; pose proof Rl as [R1 R2 R3 R4 R5 R6 R7]; unfold pooledRead, specRead.
  destruct (ps_handles st !! h) as [[l|]|] eqn:E; [| |done].
  - destruct (R3 h l E) as (f & g & E1 & E2 & Es); rewrite E1, E2; pose proof (fl_sim_read f g n Es) as [S1 S2].
    destruct (io_read f n) as [[bs' e'] f']; destruct (io_read g n) as [[bs2 e2] g']; cbn [fst snd] in S1, S2; injection S1 as <- <-.
    intros [= <- <- <-]; eexists; split; [done|]; split; cbn [ps_handles ps_readers ps_pool].
    + by rewrite length_insert.
    + intros h' E'; rewrite list_lookup_insert_ne by (intros ->; congruence); by apply R2.
    + intros h' l' E'; destruct (decide (h = h')) as [<-|Hne].
      * assert (l' = l) as -> by congruence; exists f', g'; split; [apply list_lookup_insert_eq; by eapply lookup_lt_Some|].
        split; [apply list_lookup_insert_eq; by eapply lookup_lt_Some | done].
      * destruct (R3 h' l' E') as (f1 & g1 & ? & ? & ?); exists f1, g1.
        rewrite !list_lookup_insert_ne; [done | done | intros ->; apply Hne; by eapply R4].
    + done.
    + done.
    + done.
    + intros l' Hl'; destruct (decide (l = l')) as [<-|]; [by destruct (R6 h l) | rewrite list_lookup_insert_ne by done; by apply R7].
  - rewrite (R2 h E); intros [= <- <- <-]; by eexists.
Qed.

Lemma related_close st own h e st' :
  related st own -> pooledClose h st = Some (e, st') ->
  exists own', specClose h own = Some (e, own') /\ related st' own'.
Proof.
  intros Rl; pose proof Rl as [R1 R2 R3 R4 R5 R6 R7]; unfold pooledClose, specClose.
  destruct (ps_handles st !! h) as [[l|]|] eqn:E; [| |done].
  - destruct (R3 h l E) as (f & g & E1 & E2 & Es); rewrite E1, E2; rewrite <- (fl_sim_close f g Es).
    destruct (fl_close f) as [e' f']; intros [= <- <-]; eexists; split; [done|].
    assert (Hh : forall h' l', <[h:=None]> (ps_handles st) !! h' = Some (Some l') -> h' <> h /\ ps_handles st !! h' = Some (Some l')).
    { intros h' l' E'; destruct (decide (h = h')) as [<-|].
      - rewrite list_lookup_insert_eq in E' by (by eapply lookup_lt_Some); done.
      - by rewrite list_lookup_insert_ne in E' by done. }
    split; cbn [ps_handles ps_readers ps_pool].
    + by rewrite !length_insert.
    + intros h' E'; destruct (decide (h = h')) as [<-|].
      * apply list_lookup_insert_eq; by eapply lookup_lt_Some.
      * rewrite list_lookup_insert_ne in E' by done; rewrite list_lookup_insert_ne by done; by apply R2.
    + intros h' l' [Hne E']%Hh; destruct (R3 h' l' E') as (f1 & g1 & ? & ? & ?); exists f1, g1.
      rewrite !list_lookup_insert_ne; [done | congruence | intros ->; apply Hne; by eapply R4].
    + intros h1 h2 l' [_ E3]%Hh [_ E4]%Hh; by eapply R4.
    + constructor; [by eapply R6 | done].
    + intros h' l' [Hne E']%Hh [->|Hl]%elem_of_cons; [apply Hne; by eapply R4 | by eapply R6].
    + intros l' Hl'; destruct (decide (l = l')) as [<-|Hne]; [rewrite list_lookup_insert_eq by (by eapply lookup_lt_Some); done|].
      apply elem_of_cons in Hl' as [->|Hl']; [done | rewrite list_lookup_insert_ne by done; by apply R7].
  - rewrite (R2 h E); intros [= <- <-]; by eexists.
Qed.

Lemma related_step st own o st' :
  related st own -> step st o st' ->
  exists own', related st' own' /\ forall tr own2, specRun own' tr own2 -> specRun own (option_list o ++ tr) own2.
Proof.
  intros Rl Hs; pose proof Rl as [R1 R2 R3 R4 R5 R6 R7]; destruct Hs.
  - unfold newPooled in *; destruct (ps_pool st !! i) as [l|] eqn:El; [|done]; simplify_eq.
    assert (Hl : l ∈ ps_pool st) by (by eapply list_elem_of_lookup_2).
    destruct (R7 l Hl) as [f Ef]; exists (own ++ [Some (fl_new src)]); split; [|intros; by constructor].
    assert (Hp : ps_pool st = take i (ps_pool st) ++ l :: drop (Datatypes.S i) (ps_pool st)) by by rewrite take_drop_middle.
    apply (related_new st own l (fl_reset f src)); try done.
    + intros l' Hne _; by rewrite list_lookup_alter_ne.
    + intros h E; by apply (R6 h l).
    + by rewrite list_lookup_alter_eq, Ef.
    + apply fl_sim_reset.
    + rewrite Hp in R5; rewrite delete_take_drop; by apply NoDup_app_middle in R5.
    + intros l' Hd; rewrite delete_take_drop in Hd; rewrite Hp in R5; rewrite Hp; by apply NoDup_middle_elem.
  - exists (own ++ [Some (fl_new src)]); split; [|intros; by constructor].
    assert (Out : forall l', is_Some (ps_readers st !! l') -> l' <> length (ps_readers st)).
    { intros l' [x Hx%lookup_lt_Some] ->; lia. }
    apply (related_new st own (length (ps_readers st)) (fl_new src)); try done.
    + intros l' Hne Hl; apply lookup_app_l; destruct Hl as [Hl|[h Hl]].
      * destruct (R7 _ Hl) as [x Hx]; by eapply lookup_lt_Some.
      * destruct (R3 _ _ Hl) as (x & ? & Hx & _); by eapply lookup_lt_Some.
    + intros h E; destruct (R3 _ _ E) as (x & ? & Hx & _); by apply (Out _ (mk_is_Some _ _ Hx)).
    + by apply snoc_last.
    + apply fl_sim_new.
    + intros l' Hl; split; [done|]; by apply Out, R7.
  - destruct (related_read _ _ _ _ _ _ _ Rl H2) as (own' & E & Rl'); exists own'; split; [done|]; intros; by econstructor.
  - destruct (related_close _ _ _ _ _ Rl H2) as (own' & E & Rl'); exists own'; split; [done|]; intros; by econstructor.
  - exists own; split; [|done]; split; cbn [ps_handles ps_readers ps_pool]; try done.
    + by apply NoDup_delete_list.
    + intros h l Hh Hd; apply (R6 h l Hh); by eapply elem_of_delete_list.
    + intros l Hd; apply R7; by eapply elem_of_delete_list.
Qed.

Lemma related_run st own tr st' : related st own -> run st tr st' -> exists own', specRun own tr own'.
Proof.
  intros Rl Hr; revert own Rl; induction Hr as [st|st o st1 tr st2 Hs Hr IH]; intros own Rl; [exists own; constructor|].
  destruct (related_step _ _ _ _ Rl Hs) as (own1 & Rl1 & K); destruct (IH own1 Rl1) as [own2 E]; exists own2; by apply K.
Qed.
End PoolProofs.

(** ** Claims *)

(** C12: flate readers are pooled without being shared: whatever files are
    opened, read and closed, in whatever order and however often a file is
    closed, and whatever readers the pool hands out or drops, every call
    returns what it would return if each file had a new flate reader of its
    own; a closed file refuses to be read. *)
Theorem pool_refines {S F} `{FlateOk S F} tr st :
  run (S := S) (F := F) emptyPool tr st -> exists own, specRun [] tr own.
Proof. apply related_run, related_empty. Qed.

(** A flate reader for the witness: it copies, and forgets to clear a counter on [Reset]. *)
Record copier := mkCopier { cp_data : bytes; cp_resets : Z }.
#[local] Instance copier_IoReader : IoReader copier :=
  {| io_read := fun c n => match cp_data c with
                           | [] => ([], Some EOF, c)
                           | d => (take (Z.to_nat n) d, None, mkCopier (drop (Z.to_nat n) d) (cp_resets c)) end;
     io_seek := None |}.
#[local] Instance copier_Flate : Flate bytes copier :=
  {| fl_new := fun s => mkCopier s 0; fl_reset := fun c s => mkCopier s (cp_resets c + 1); fl_close := fun c => (None, c) |}.
#[local, refine] Instance copier_FlateOk : FlateOk bytes copier := {| fl_sim := fun f g => cp_data f = cp_data g |}.
Proof.
  - done.
  - done.
  - intros f g n E; cbn in E |- *; rewrite E; destruct (cp_data g) eqn:E2; cbn; rewrite ?E, ?E2; done.
  - done.
Defined.

(** Two files after each other, the first closed twice and then read again. *)
Definition demoTrace : list (event (S := bytes)) :=
  [ENew [1; 2]; ERead 0 1 [1] None; EClose 0 None; EClose 0 None; ENew [3]; ERead 1 5 [3] None; ERead 0 1 [] (Some errReadAfterClose)].

Lemma demoTrace_run : exists st, run (F := copier) emptyPool demoTrace st.
Proof.
  eexists; unfold demoTrace.
  eapply (run_step _ (Some _)); [apply step_fresh|]; cbn.
  eapply (run_step _ (Some _)); [by apply step_read|]; cbn.
  eapply (run_step _ (Some _)); [by apply step_close|]; cbn.
  eapply (run_step _ (Some _)); [by apply step_close|]; cbn.
  eapply (run_step _ (Some _)); [by apply (step_pooled 0)|]; cbn.
  eapply (run_step _ (Some _)); [by apply step_read|]; cbn.
  eapply (run_step _ (Some _)); [by apply step_read|]; cbn; apply run_nil.
Qed.

Lemma pool_refines_witness : exists own : list (option copier), specRun [] demoTrace own.
Proof. destruct demoTrace_run as [st Hr]; exact (pool_refines _ _ Hr). Defined.
