(* ===== verification/ZipWriter.v ===== *)
(** * zip/writer.go

    A [Writer] with the objects it refers to: the [*FileHeader]s of the
    caller live in a store, as the writer keeps the pointers in its directory
    and updates the headers when a file is closed; the [*fileWriter]s it
    returns live in another, as the caller may still use one after the next
    [CreateHeader]. A compressor that is not part of the package is a value
    of the type [K] that writes through the writer it is given. *)
From S2P Require Import Prelude GoInt GoString GoTime GoDate GoIO GoPath GoBufio.
From S2P Require Import ZipStruct ZipNames ZipBuf ZipRegister.
Open Scope go_scope.

(** ** countWriter and compressors *)
Definition writeMethod (U : Type) : Type := bytes -> M U (Z * option error).

Record countWriter (U : Type) := mkCount { ct_w : U; ct_count : Z }.
Arguments mkCount {U}.
Arguments ct_w {U}.
Arguments ct_count {U}.

Definition countWrite {U} (wr : writeMethod U) : writeMethod (countWriter U) := fun p c =>
  match wr p (ct_w c) with
  | (Ok (n, err), u) => (Ok (n, err), mkCount u (int64 (ct_count c + n)))
  | (Err e, u) => (Err e, mkCount u (ct_count c))
  | (Panic, u) => (Panic, mkCount u (ct_count c))
  | (OutOfFuel, u) => (OutOfFuel, mkCount u (ct_count c))
  end.

(** The [io.WriteCloser] of a compressor: it only reaches the underlying
    writer through its [Write] method. *)
Class Compressing (K : Type) := {
  comp_write : forall {U}, writeMethod U -> K -> bytes -> M U (Z * option error * K);
  comp_close : forall {U}, writeMethod U -> K -> M U (option error * K)
}.

Inductive writeCloser (K : Type) := nopCloser | External (k : K).
Arguments nopCloser {K}.
Arguments External {K}.

Definition Compressor (K : Type) : Type := forall U, writeMethod U -> CompressionSettings -> M U (writeCloser K + error).

(** The compressor of stored files. *)
Definition storeCompressor {K} : Compressor K := fun U wr s => ret (inl nopCloser).

Definition wcWrite {K} `{Compressing K} {U} (wr : writeMethod U) (c : writeCloser K) (p : bytes) : M U (Z * option error * writeCloser K) :=
  match c with
  | nopCloser => let! (n, err) := wr p in ret (n, err, nopCloser)
  | External k => let! (n, err, k) := comp_write wr k p in ret (n, err, External k)
  end.
Definition wcClose {K} `{Compressing K} {U} (wr : writeMethod U) (c : writeCloser K) : M U (option error * writeCloser K) :=
  match c with
  | nopCloser => ret (None, nopCloser)
  | External k => let! (err, k) := comp_close wr k in ret (err, External k)
  end.

(** ** Headers *)

(** [detectUTF8] and the flags. *)
Definition createFlags (h : FileHeader) : Z :=
  let flags := Z.lor (fh_Flags h) 0x8 in
  let '(utf8Valid1, utf8Require1) := detectUTF8 (fh_Name h) in
  let '(utf8Valid2, utf8Require2) := detectUTF8 (fh_Comment h) in
  if fh_NonUTF8 h then Z.ldiff flags 0x800
  else if (utf8Require1 || utf8Require2) && (utf8Valid1 && utf8Valid2) then Z.lor flags 0x800
  else flags.

(** The extended timestamp. *)
Definition extTimeField (t : Time) : outcome bytes :=
  fillBuf 9 (do! wrUint16 extTimeExtraID; do! wrUint16 5; do! wrUint8 1; wrUint32 (uint32 (toUnix t))).

Definition setExtra (extra : bytes) (h : FileHeader) : FileHeader :=
  mkFileHeader (fh_Name h) (fh_Comment h) (fh_NonUTF8 h) (fh_CreatorVersion h) (fh_ReaderVersion h) (fh_Flags h) (fh_Method h)
    (fh_Modified h) (fh_ModifiedTime h) (fh_ModifiedDate h) (fh_CRC32 h) (fh_CompressedSize h) (fh_UncompressedSize h)
    (fh_CompressedSize64 h) (fh_UncompressedSize64 h) extra (fh_ExternalAttrs h).

(** What [CreateHeader] does to the header. *)
Definition prepareHeader (localOffset : Z -> Z) (h : FileHeader) : outcome FileHeader :=
  let h := mkFileHeader (fh_Name h) (fh_Comment h) (fh_NonUTF8 h) (Z.lor (Z.land (fh_CreatorVersion h) 0xff00) zipVersion20)
    zipVersion20 (createFlags h) (fh_Method h) (fh_Modified h) (fh_ModifiedTime h) (fh_ModifiedDate h) (fh_CRC32 h)
    (fh_CompressedSize h) (fh_UncompressedSize h) (fh_CompressedSize64 h) (fh_UncompressedSize64 h) (fh_Extra h) (fh_ExternalAttrs h) in
  if IsZero (fh_Modified h) then Ok h
  else
    let '(d, tm) := timeToMsDosTime localOffset (fh_Modified h) in
    let? mbuf := extTimeField (fh_Modified h) in
    Ok (setExtra (fh_Extra h ++ mbuf) (setModified (fh_Modified h) d tm h)).

(** What [close] does to it: [crc], [csize] and [usize] are what was counted. *)
Definition finishSizes (crc csize usize : Z) (h : FileHeader) : FileHeader :=
  let mk reader c u :=
    mkFileHeader (fh_Name h) (fh_Comment h) (fh_NonUTF8 h) (fh_CreatorVersion h) reader (fh_Flags h) (fh_Method h)
      (fh_Modified h) (fh_ModifiedTime h) (fh_ModifiedDate h) crc c u csize usize (fh_Extra h) (fh_ExternalAttrs h) in
  if (uint32max <=? csize) || (uint32max <=? usize) then mk zipVersion45 uint32max uint32max
  else mk (fh_ReaderVersion h) (uint32 csize) (uint32 usize).

Definition dataDescriptor (h : FileHeader) : outcome bytes :=
  if isZip64 h then
    fillBuf dataDescriptor64Len (do! wrUint32 dataDescriptorSignature; do! wrUint32 (fh_CRC32 h);
      do! wrUint64 (fh_CompressedSize64 h); wrUint64 (fh_UncompressedSize64 h))
  else
    fillBuf dataDescriptorLen (do! wrUint32 dataDescriptorSignature; do! wrUint32 (fh_CRC32 h);
      do! wrUint32 (fh_CompressedSize h); wrUint32 (fh_UncompressedSize h)).

Definition errLongName : error := ErrMsg "zip: FileHeader.Name too long".
Definition errLongExtra : error := ErrMsg "zip: FileHeader.Extra too long".

(** The fixed part of a local header. *)
Definition localHeader (h : FileHeader) : outcome bytes :=
  fillBuf fileHeaderLen
    (do! wrUint32 fileHeaderSignature;
     do! wrUint16 (fh_ReaderVersion h);
     do! wrUint16 (fh_Flags h);
     do! wrUint16 (fh_Method h);
     do! wrUint16 (fh_ModifiedTime h);
     do! wrUint16 (fh_ModifiedDate h);
     do! wrUint32 0;
     do! wrUint32 0;
     do! wrUint32 0;
     do! wrUint16 (uint16 (len (fh_Name h)));
     wrUint16 (uint16 (len (fh_Extra h)))).

(** The zip64 extra field of a directory header. *)
Definition zip64Extra (h : FileHeader) (offset : Z) : outcome bytes :=
  fillBuf 28 (do! wrUint16 zip64ExtraID; do! wrUint16 24; do! wrUint64 (fh_UncompressedSize64 h);
    do! wrUint64 (fh_CompressedSize64 h); wrUint64 offset).

Definition needsZip64 (h : FileHeader) (offset : Z) : bool := isZip64 h || (uint32max <=? offset).

(** The header as [Close] leaves it: [h.Extra = append(h.Extra, buf[:]...)]. *)
Definition withZip64 (h : FileHeader) (offset : Z) : outcome FileHeader :=
  if needsZip64 h offset then let? buf := zip64Extra h offset in Ok (setExtra (fh_Extra h ++ buf) h) else Ok h.

(** The fixed part of a directory header, of a header with its final extra field. *)
Definition directoryHeader (h : FileHeader) (offset : Z) : outcome bytes :=
  fillBuf directoryHeaderLen
    (do! wrUint32 directoryHeaderSignature;
     do! wrUint16 (fh_CreatorVersion h);
     do! wrUint16 (fh_ReaderVersion h);
     do! wrUint16 (fh_Flags h);
     do! wrUint16 (fh_Method h);
     do! wrUint16 (fh_ModifiedTime h);
     do! wrUint16 (fh_ModifiedDate h);
     do! wrUint32 (fh_CRC32 h);
     do! wrUint32 (if needsZip64 h offset then uint32max else fh_CompressedSize h);
     do! wrUint32 (if needsZip64 h offset then uint32max else fh_UncompressedSize h);
     do! wrUint16 (uint16 (len (fh_Name h)));
     do! wrUint16 (uint16 (len (fh_Extra h)));
     do! wrUint16 (uint16 (len (fh_Comment h)));
     do! wrSkip 4;
     do! wrUint32 (fh_ExternalAttrs h);
     wrUint32 (if uint32max <? offset then uint32max else uint32 offset)).

(** The zip64 end record with its locator, and the end record. *)
Definition directory64End (records size offset dirEnd : Z) : outcome bytes :=
  fillBuf (directory64EndLen + directory64LocLen)
    (do! wrUint32 directory64EndSignature;
     do! wrUint64 (directory64EndLen - 12);
     do! wrUint16 zipVersion45;
     do! wrUint16 zipVersion45;
     do! wrUint32 0;
     do! wrUint32 0;
     do! wrUint64 records;
     do! wrUint64 records;
     do! wrUint64 size;
     do! wrUint64 offset;
     do! wrUint32 directory64LocSignature;
     do! wrUint32 0;
     do! wrUint64 (uint64 dirEnd);
     wrUint32 1).

Definition directoryEndRecord (records size offset commentLen : Z) : outcome bytes :=
  fillBuf directoryEndLen
    (do! wrUint32 directoryEndSignature;
     do! wrSkip 4;
     do! wrUint16 (uint16 records);
     do! wrUint16 (uint16 records);
     do! wrUint32 (uint32 size);
     do! wrUint32 (uint32 offset);
     wrUint16 (uint16 commentLen)).

(** ** Writer *)
Record fileWriter (K : Type) := mkFileWriter {
  fw_header : nat;
  fw_offset : Z;
  fw_rawCount : Z;
  fw_comp : writeCloser K;
  fw_compCount : Z;
  fw_crc32 : Z;
  fw_closed : bool
}.
Arguments mkFileWriter {K}.
Arguments fw_header {K}.
Arguments fw_offset {K}.
Arguments fw_rawCount {K}.
Arguments fw_comp {K}.
Arguments fw_compCount {K}.
Arguments fw_crc32 {K}.
Arguments fw_closed {K}.

(** The fields of the writer, then the two stores. [zw_dir] holds the
    pointers with the offsets, [zw_last] is a pointer too. *)
Record Writer (W K : Type) := mkWriter {
  zw_cw : countWriter (bufioWriter W);
  zw_dir : list (nat * Z);
  zw_last : option nat;
  zw_closed : bool;
  zw_compressors : gmap Z (Compressor K);
  zw_comment : bytes;
  zw_compressionSettings : CompressionSettings;
  zw_headers : list FileHeader;
  zw_files : list (fileWriter K)
}.
Arguments mkWriter {W K}.
Arguments zw_cw {W K}.
Arguments zw_dir {W K}.
Arguments zw_last {W K}.
Arguments zw_closed {W K}.
Arguments zw_compressors {W K}.
Arguments zw_comment {W K}.
Arguments zw_compressionSettings {W K}.
Arguments zw_headers {W K}.
Arguments zw_files {W K}.

Definition NewWriter {W K} (w : W) : Writer W K :=
  mkWriter (mkCount (NewBufioWriter w) 0) [] None false ∅ [] defaultCompressionSettings [] [].

(** Assignments to one field or one object. *)
Section Setters.
Context {W K : Type}.
Definition setCw cw (w : Writer W K) : Writer W K :=
  mkWriter cw (zw_dir w) (zw_last w) (zw_closed w) (zw_compressors w) (zw_comment w) (zw_compressionSettings w) (zw_headers w) (zw_files w).
Definition setDir dir (w : Writer W K) : Writer W K :=
  mkWriter (zw_cw w) dir (zw_last w) (zw_closed w) (zw_compressors w) (zw_comment w) (zw_compressionSettings w) (zw_headers w) (zw_files w).
Definition setLast last (w : Writer W K) : Writer W K :=
  mkWriter (zw_cw w) (zw_dir w) last (zw_closed w) (zw_compressors w) (zw_comment w) (zw_compressionSettings w) (zw_headers w) (zw_files w).
Definition setClosed c (w : Writer W K) : Writer W K :=
  mkWriter (zw_cw w) (zw_dir w) (zw_last w) c (zw_compressors w) (zw_comment w) (zw_compressionSettings w) (zw_headers w) (zw_files w).
Definition setHeaders hs (w : Writer W K) : Writer W K :=
  mkWriter (zw_cw w) (zw_dir w) (zw_last w) (zw_closed w) (zw_compressors w) (zw_comment w) (zw_compressionSettings w) hs (zw_files w).
Definition setFiles fs (w : Writer W K) : Writer W K :=
  mkWriter (zw_cw w) (zw_dir w) (zw_last w) (zw_closed w) (zw_compressors w) (zw_comment w) (zw_compressionSettings w) (zw_headers w) fs.

Definition modify (f : Writer W K -> Writer W K) : M (Writer W K) unit := fun w => (Ok tt, f w).
Definition setHeader (l : nat) (h : FileHeader) : M (Writer W K) unit := modify (fun w => setHeaders (<[l := h]> (zw_headers w)) w).
Definition setFile (l : nat) (fw : fileWriter K) : M (Writer W K) unit := modify (fun w => setFiles (<[l := fw]> (zw_files w)) w).

(** Following a pointer; nil panics. *)
Definition theHeader (l : nat) : M (Writer W K) FileHeader := fun w => (match zw_headers w !! l with Some h => Ok h | None => Panic end, w).
Definition theFile (l : nat) : M (Writer W K) (fileWriter K) := fun w => (match zw_files w !! l with Some f => Ok f | None => Panic end, w).

(** [&FileHeader{...}]. *)
Definition newHeader (h : FileHeader) : M (Writer W K) nat := fun w => (Ok (length (zw_headers w)), setHeaders (zw_headers w ++ [h]) w).
Definition newFile (f : fileWriter K) : M (Writer W K) nat := fun w => (Ok (length (zw_files w)), setFiles (zw_files w ++ [f]) w).
End Setters.

Section Methods.
Context {W K : Type} `{IoWriter W} `{Compressing K}.
Variable localOffset : Z -> Z.
(** The compressors of the package. *)
Variable pkg : gmap Z (Compressor K).

Definition bufWrite : writeMethod (bufioWriter W) := fun p b => bufioWrite b p.
Definition cwMethod : writeMethod (countWriter (bufioWriter W)) := countWrite bufWrite.

(** [w.cw.Write(p)], returning its error. *)
Definition cwWrite (p : bytes) : M (Writer W K) unit := fun w =>
  let '(o, cw) := cwMethod p (zw_cw w) in
  (match o with Ok (_, Some e) => Err e | Ok (_, None) => Ok tt | Err e => Err e | Panic => Panic | OutOfFuel => OutOfFuel end, setCw cw w).

(** A call of the compressor of a file: its writer [compCount] counts and
    passes everything on to [w.cw]. *)
Definition onComp {A} (m : M (countWriter (countWriter (bufioWriter W))) A) (compCount : Z) : M (Writer W K) (A * Z) := fun w =>
  let '(o, c) := m (mkCount (zw_cw w) compCount) in
  (match o with Ok a => Ok (a, ct_count c) | Err e => Err e | Panic => Panic | OutOfFuel => OutOfFuel end, setCw (ct_w c) w).

Definition setFw (raw : Z) (comp : writeCloser K) (compCount crc : Z) (closed : bool) (fw : fileWriter K) : fileWriter K :=
  mkFileWriter (fw_header fw) (fw_offset fw) raw comp compCount crc closed.

(** [fileWriter.Write] and [fileWriter.close]. *)
Definition fileWrite (fl : nat) (p : bytes) : M (Writer W K) (Z * option error) :=
  let! fw := theFile fl in
  if fw_closed fw then ret (0, Some (ErrMsg "zip: write to closed file"))
  else
    let! (n, err, comp, compCount) := onComp (wcWrite (countWrite cwMethod) (fw_comp fw) p) (fw_compCount fw) in
    do! setFile fl (setFw (int64 (fw_rawCount fw + n)) comp compCount (crcUpdate (fw_crc32 fw) p) false fw);
    ret (n, err).

Definition fileClose (fl : nat) : M (Writer W K) unit :=
  let! fw := theFile fl in
  if fw_closed fw then throw (ErrMsg "zip: file closed twice")
  else
    let! (err, comp, compCount) := onComp (wcClose (countWrite cwMethod) (fw_comp fw)) (fw_compCount fw) in
    do! setFile fl (setFw (fw_rawCount fw) comp compCount (fw_crc32 fw) true fw);
    match err with
    | Some e => throw e
    | None =>
        let! fh := theHeader (fw_header fw) in
        let fh := finishSizes (fw_crc32 fw) (uint64 compCount) (uint64 (fw_rawCount fw)) fh in
        do! setHeader (fw_header fw) fh;
        let! buf := lift (dataDescriptor fh) in
        cwWrite buf
    end.

(** [w.last != nil && !w.last.closed]. *)
Definition lastOpen : M (Writer W K) (option nat) :=
  let! w := get in
  match zw_last w with
  | None => ret None
  | Some l => let! fw := theFile l in ret (if fw_closed fw then None else Some l)
  end.

Definition writeHeader (h : FileHeader) : M (Writer W K) unit :=
  if 2 ^ 16 - 1 <? len (fh_Name h) then throw errLongName
  else if 2 ^ 16 - 1 <? len (fh_Extra h) then throw errLongExtra
  else
    let! buf := lift (localHeader h) in
    do! cwWrite buf;
    do! cwWrite (fh_Name h);
    cwWrite (fh_Extra h).

Definition compressor (w : Writer W K) (method : Z) : option (Compressor K) :=
  match zw_compressors w !! method with Some c => Some c | None => pkg !! method end.

(** [CreateHeader] on the header [l] points to. *)
Definition CreateHeader (l : nat) : M (Writer W K) nat :=
  let! open := lastOpen in
  do! (match open with Some fl => fileClose fl | None => ret tt end);
  let! w := get in
  if bool_decide (fst <$> last (zw_dir w) = Some l) then throw (ErrMsg "archive/zip: invalid duplicate FileHeader")
  else
    let! fh := theHeader l in
    let! fh := lift (prepareHeader localOffset fh) in
    do! setHeader l fh;
    match compressor w (fh_Method fh) with
    | None => throw ErrAlgorithm
    | Some comp =>
        let! (res, compCount) := onComp (comp _ (countWrite cwMethod) (zw_compressionSettings w)) 0 in
        match res with
        | inr err => throw err
        | inl c =>
            let! w := get in
            let offset := uint64 (ct_count (zw_cw w)) in
            do! modify (setDir (zw_dir w ++ [(l, offset)]));
            do! writeHeader fh;
            let! fl := newFile (mkFileWriter l offset 0 c compCount 0 false) in
            do! modify (setLast (Some fl));
            ret fl
        end
    end.

Definition Create (name : bytes) : M (Writer W K) nat :=
  let! l := newHeader (mkFileHeader name [] false 0 0 0 Deflate zeroTime 0 0 0 0 0 0 0 [] 0) in
  CreateHeader l.

(** The central directory. *)
Definition closeEntry (e : nat * Z) : M (Writer W K) unit :=
  let '(l, offset) := e in
  let! h := theHeader l in
  let! h := lift (withZip64 h offset) in
  do! setHeader l h;
  let! buf := lift (directoryHeader h offset) in
  do! cwWrite buf;
  do! cwWrite (fh_Name h);
  do! cwWrite (fh_Extra h);
  cwWrite (fh_Comment h).

Fixpoint closeEntries (dir : list (nat * Z)) : M (Writer W K) unit :=
  match dir with
  | [] => ret tt
  | e :: dir => do! closeEntry e; closeEntries dir
  end.

Definition Flush : M (Writer W K) unit := fun w =>
  let '(err, b) := bufioFlush (ct_w (zw_cw w)) in
  (match err with Some e => Err e | None => Ok tt end, setCw (mkCount b (ct_count (zw_cw w))) w).

(** The records behind the directory. *)
Definition closeEnd (records start dirEnd : Z) (comment : bytes) : M (Writer W K) unit :=
  let size := uint64 (dirEnd - start) in
  let offset := uint64 start in
  let zip64 := (uint16max <=? records) || (uint32max <=? size) || (uint32max <=? offset) in
  do! (if zip64 then let! buf := lift (directory64End records size offset dirEnd) in cwWrite buf else ret tt);
  let! buf := lift (if zip64 then directoryEndRecord uint16max uint32max uint32max (len comment)
                    else directoryEndRecord records size offset (len comment)) in
  do! cwWrite buf;
  do! cwWrite comment;
  Flush.

Definition Close : M (Writer W K) unit :=
  let! open := lastOpen in
  do! (match open with Some fl => do! fileClose fl; modify (setLast None) | None => ret tt end);
  let! w := get in
  if zw_closed w then throw (ErrMsg "zip: writer closed twice")
  else
    do! modify (setClosed true);
    let start := ct_count (zw_cw w) in
    do! closeEntries (zw_dir w);
    let! w := get in
    closeEnd (len (zw_dir w)) start (ct_count (zw_cw w)) (zw_comment w).

(** ** Settings *)
Definition SetOffset (n : Z) : M (Writer W K) unit := fun w =>
  if negb (ct_count (zw_cw w) =? 0) then (Panic, w) else (Ok tt, setCw (mkCount (ct_w (zw_cw w)) n) w).

Definition SetComment (c : bytes) : M (Writer W K) unit := fun w =>
  if uint16max <? len c then (Err (ErrMsg "zip: Writer.Comment too long"), w)
  else (Ok tt, mkWriter (zw_cw w) (zw_dir w) (zw_last w) (zw_closed w) (zw_compressors w) c (zw_compressionSettings w) (zw_headers w) (zw_files w)).

Definition GetCompressionSettings (w : Writer W K) : CompressionSettings := zw_compressionSettings w.

Definition SetCompressionSettings (s : CompressionSettings) : M (Writer W K) unit := fun w =>
  match Validate s with
  | Ok _ => (Ok tt, mkWriter (zw_cw w) (zw_dir w) (zw_last w) (zw_closed w) (zw_compressors w) (zw_comment w) s (zw_headers w) (zw_files w))
  | Err e => (Err e, w)
  | Panic => (Panic, w)
  | OutOfFuel => (OutOfFuel, w)
  end.

Definition RegisterCompressor (method : Z) (comp : Compressor K) (w : Writer W K) : Writer W K :=
  mkWriter (zw_cw w) (zw_dir w) (zw_last w) (zw_closed w) (<[method := comp]> (zw_compressors w)) (zw_comment w)
    (zw_compressionSettings w) (zw_headers w) (zw_files w).
End Methods.
