(* ===== verification/ZipArchive.v ===== *)
(** * The bytes of a zip archive

    What each record of the writer looks like, as a list of fields, and that
    the reader's parsers take it apart again. *)
From S2P Require Import Prelude GoInt GoString GoTime GoDate GoIO GoPath GoBufio.
From S2P Require Import ZipStruct ZipNames ZipBuf ZipReader ZipWriter.
Open Scope go_scope.

(** ** The records as fields *)
Definition localFields (h : FileHeader) : list (nat * Z) :=
  [(4%nat, fileHeaderSignature); (2%nat, fh_ReaderVersion h); (2%nat, fh_Flags h); (2%nat, fh_Method h); (2%nat, fh_ModifiedTime h);
   (2%nat, fh_ModifiedDate h); (4%nat, 0); (4%nat, 0); (4%nat, 0); (2%nat, uint16 (len (fh_Name h))); (2%nat, uint16 (len (fh_Extra h)))].

Definition descriptorFields (h : FileHeader) : list (nat * Z) :=
  if isZip64 h then [(4%nat, dataDescriptorSignature); (4%nat, fh_CRC32 h); (8%nat, fh_CompressedSize64 h); (8%nat, fh_UncompressedSize64 h)]
  else [(4%nat, dataDescriptorSignature); (4%nat, fh_CRC32 h); (4%nat, fh_CompressedSize h); (4%nat, fh_UncompressedSize h)].

Definition dirFields (h : FileHeader) (offset : Z) : list (nat * Z) :=
  [(4%nat, directoryHeaderSignature); (2%nat, fh_CreatorVersion h); (2%nat, fh_ReaderVersion h); (2%nat, fh_Flags h); (2%nat, fh_Method h);
   (2%nat, fh_ModifiedTime h); (2%nat, fh_ModifiedDate h); (4%nat, fh_CRC32 h);
   (4%nat, if needsZip64 h offset then uint32max else fh_CompressedSize h);
   (4%nat, if needsZip64 h offset then uint32max else fh_UncompressedSize h);
   (2%nat, uint16 (len (fh_Name h))); (2%nat, uint16 (len (fh_Extra h))); (2%nat, uint16 (len (fh_Comment h)));
   (4%nat, 0); (4%nat, fh_ExternalAttrs h); (4%nat, if uint32max <? offset then uint32max else uint32 offset)].

Definition zip64Fields (h : FileHeader) (offset : Z) : list (nat * Z) :=
  [(2%nat, zip64ExtraID); (2%nat, 24); (8%nat, fh_UncompressedSize64 h); (8%nat, fh_CompressedSize64 h); (8%nat, offset)].

Definition extTimeFields (t : Time) : list (nat * Z) := [(2%nat, extTimeExtraID); (2%nat, 5); (1%nat, 1); (4%nat, uint32 (toUnix t))].

Definition end64Fields (records size offset dirEnd : Z) : list (nat * Z) :=
  [(4%nat, directory64EndSignature); (8%nat, directory64EndLen - 12); (2%nat, zipVersion45); (2%nat, zipVersion45); (4%nat, 0); (4%nat, 0);
   (8%nat, records); (8%nat, records); (8%nat, size); (8%nat, offset)].
Definition locatorFields (dirEnd : Z) : list (nat * Z) :=
  [(4%nat, directory64LocSignature); (4%nat, 0); (8%nat, uint64 dirEnd); (4%nat, 1)].

Definition endFields (records size offset commentLen : Z) : list (nat * Z) :=
  [(4%nat, directoryEndSignature); (4%nat, 0); (2%nat, uint16 records); (2%nat, uint16 records); (4%nat, uint32 size); (4%nat, uint32 offset);
   (2%nat, uint16 commentLen)].

Lemma localHeader_eq h : localHeader h = Ok (encFields (localFields h)).
Proof. apply fillBuf_writes; [unfold localFields; fields | by unfold len; rewrite length_encFields]. Qed.

Lemma dataDescriptor_eq h : dataDescriptor h = Ok (encFields (descriptorFields h)).
Proof.
  unfold dataDescriptor, descriptorFields; destruct (isZip64 h);
    (apply fillBuf_writes; [fields | by unfold len; rewrite length_encFields]).
Qed.

Lemma directoryHeader_eq h offset : directoryHeader h offset = Ok (encFields (dirFields h offset)).
Proof. apply fillBuf_writes; [unfold dirFields; fields | by unfold len; rewrite length_encFields]. Qed.

Lemma zip64Extra_eq h offset : zip64Extra h offset = Ok (encFields (zip64Fields h offset)).
Proof. apply fillBuf_writes; [unfold zip64Fields; fields | by unfold len; rewrite length_encFields]. Qed.

Lemma extTimeField_eq t : extTimeField t = Ok (encFields (extTimeFields t)).
Proof. apply fillBuf_writes; [unfold extTimeFields; fields | by unfold len; rewrite length_encFields]. Qed.

Lemma directory64End_eq records size offset dirEnd :
  directory64End records size offset dirEnd = Ok (encFields (end64Fields records size offset dirEnd) ++ encFields (locatorFields dirEnd)).
Proof.
  rewrite <- encFields_app; apply fillBuf_writes; [unfold end64Fields, locatorFields; cbn [app]; fields | by unfold len; rewrite length_encFields].
Qed.

Lemma directoryEndRecord_eq records size offset commentLen :
  directoryEndRecord records size offset commentLen = Ok (encFields (endFields records size offset commentLen)).
Proof. apply fillBuf_writes; [unfold endFields; fields | by unfold len; rewrite length_encFields]. Qed.

(** ** Headers within their types *)
Record hdrTyped (h : FileHeader) : Prop := {
  ht_creator : in_uint 16 (fh_CreatorVersion h);
  ht_reader : in_uint 16 (fh_ReaderVersion h);
  ht_flags : in_uint 16 (fh_Flags h);
  ht_method : in_uint 16 (fh_Method h);
  ht_time : in_uint 16 (fh_ModifiedTime h);
  ht_date : in_uint 16 (fh_ModifiedDate h);
  ht_crc : in_uint 32 (fh_CRC32 h);
  ht_csize : in_uint 32 (fh_CompressedSize h);
  ht_usize : in_uint 32 (fh_UncompressedSize h);
  ht_csize64 : in_uint 64 (fh_CompressedSize64 h);
  ht_usize64 : in_uint 64 (fh_UncompressedSize64 h);
  ht_attrs : in_uint 32 (fh_ExternalAttrs h)
}.

(** ** Taking the records apart *)
Lemma uint16_twice x : uint16 (uint16 x) = uint16 x.
Proof. unfold uint16, wrapu; by rewrite Z.mod_mod by done. Qed.
Lemma uint32_twice x : uint32 (uint32 x) = uint32 x.
Proof. unfold uint32, wrapu; by rewrite Z.mod_mod by done. Qed.

Lemma uint16_in x : in_uint 16 x -> uint16 x = x.
Proof. apply (wrapu_id 16). Qed.
Lemma uint32_in x : in_uint 32 x -> uint32 x = x.
Proof. apply (wrapu_id 32). Qed.
Lemma uint64_in x : in_uint 64 x -> uint64 x = x.
Proof. apply (wrapu_id 64). Qed.

Lemma parseLocalHeader_local h :
  rdRun parseLocalHeader (encFields (localFields h)) = Ok (30 + uint16 (len (fh_Name h)) + uint16 (len (fh_Extra h))).
Proof.
  rewrite <- (app_nil_r (encFields _)); unfold rdRun, parseLocalHeader, localFields; rewrite rd_32; cbn [negb].
  change (uint32 fileHeaderSignature =? fileHeaderSignature) with true; cbn match; cbn [negb].
  rewrite (rd_skip 8) by done; cbn [drop].
  rewrite !rd_16; cbn [fst ret]; by rewrite !uint16_twice.
Qed.

Lemma in_uint32_if (c : bool) x y : in_uint 32 x -> in_uint 32 y -> in_uint 32 (if c then x else y).
Proof. by destruct c. Qed.

Lemma in_uint32max : in_uint 32 uint32max.
Proof. done. Qed.

(** The 32-bit fields of a directory header. *)
Definition csize32 (h : FileHeader) (offset : Z) : Z := if needsZip64 h offset then uint32max else fh_CompressedSize h.
Definition usize32 (h : FileHeader) (offset : Z) : Z := if needsZip64 h offset then uint32max else fh_UncompressedSize h.
Definition offset32 (offset : Z) : Z := if uint32max <? offset then uint32max else uint32 offset.

Lemma parseDirectoryHeader_dir h offset :
  hdrTyped h ->
  rdRun parseDirectoryHeader (encFields (dirFields h offset)) =
    Ok (mkFileHeader [] [] false (fh_CreatorVersion h) (fh_ReaderVersion h) (fh_Flags h) (fh_Method h) zeroTime (fh_ModifiedTime h)
          (fh_ModifiedDate h) (fh_CRC32 h) (csize32 h offset) (usize32 h offset) (csize32 h offset) (usize32 h offset) [] (fh_ExternalAttrs h),
        offset32 offset, (uint16 (len (fh_Name h)), uint16 (len (fh_Extra h)), uint16 (len (fh_Comment h)))).
Proof.
  intros [T1 T2 T3 T4 T5 T6 T7 T8 T9 T10 T11 T12]; rewrite <- (app_nil_r (encFields _)); unfold rdRun, parseDirectoryHeader, dirFields.
  rewrite rd_32; change (uint32 directoryHeaderSignature =? directoryHeaderSignature) with true; cbn [negb]; cbn match.
  rewrite !rd_16, !rd_32, !rd_16, (rd_skip 1) by done; cbn [drop]; rewrite !rd_32; cbn [fst ret].
  fold (csize32 h offset) (usize32 h offset) (offset32 offset).
  assert (in_uint 32 (csize32 h offset) /\ in_uint 32 (usize32 h offset) /\ in_uint 32 (offset32 offset)) as (C & U & O).
  { unfold csize32, usize32, offset32; split_and!; apply in_uint32_if; auto using in_uint32max; by apply (wrapu_range 32). }
  by rewrite !uint16_twice, !(uint16_in _ T1), !(uint16_in _ T2), !(uint16_in _ T3), !(uint16_in _ T4), !(uint16_in _ T5),
    !(uint16_in _ T6), !(uint32_in _ T7), !(uint32_in _ C), !(uint32_in _ U), !(uint32_in _ O), !(uint32_in _ T12).
Qed.

(** ** Extra fields *)

(** Well-formed extra fields: tags with their data. *)
Definition extraFields : Type := list (Z * bytes).
Fixpoint encExtra (xs : extraFields) : bytes :=
  match xs with
  | [] => []
  | (tag, d) :: xs => le_bytes 2 tag ++ le_bytes 2 (len d) ++ d ++ encExtra xs
  end.
Definition extraOk (xs : extraFields) : Prop := Forall (fun x => in_uint 16 x.1 /\ bytes_ok x.2 /\ len x.2 < 2 ^ 16) xs.

Lemma encExtra_app xs ys : encExtra (xs ++ ys) = encExtra xs ++ encExtra ys.
Proof. induction xs as [|[t d] xs IH]; [done|]; cbn [encExtra app]; by rewrite IH, !app_assoc. Qed.

Lemma encExtra_length xs : (length xs <= length (encExtra xs))%nat.
Proof. induction xs as [|[t d] xs IH]; [done|]; cbn [encExtra length]; rewrite !length_app, !length_le_bytes; lia. Qed.

Lemma encExtra_bytes xs : extraOk xs -> bytes_ok (encExtra xs).
Proof.
  induction 1 as [|[t d] xs (_ & Hd & _) _ IH]; [constructor|]; cbn [encExtra]; rewrite !bytes_ok_app; auto using le_bytes_ok.
Qed.

(** The reader goes through the fields in order. *)
Fixpoint foldFields (x : extras) (xs : extraFields) : outcome extras :=
  match xs with
  | [] => Ok x
  | (tag, d) :: xs => let? x := rdRun (extraField tag x) d in foldFields x xs
  end.

Lemma foldFields_app x xs ys : foldFields x (xs ++ ys) = (let? x := foldFields x xs in foldFields x ys).
Proof. revert x; induction xs as [|[t d] xs IH]; intros x; [done|]; cbn [foldFields app]; by destruct (rdRun _ _); cbn [obind]. Qed.

Lemma parseExtras_fold xs fuel x x' :
  extraOk xs -> (length xs <= fuel)%nat -> foldFields x xs = Ok x' -> rdRun (parseExtras fuel x) (encExtra xs) = Ok x'.
Proof.
  intros Hx; revert fuel x; induction Hx as [|[t d] xs (Ht & Hd & Hl) _ IH]; intros fuel x Hf E.
  - by destruct fuel; injection E as ->.
  - destruct fuel as [|fuel]; [cbn in Hf; lia|]; cbn [encExtra foldFields fst snd] in *; unfold rdRun in *; cbn [parseExtras].
    unfold bind at 1, get at 1; pose proof (len_nonneg d).
    rewrite (proj2 (Z.ltb_ge _ _)) by (rewrite !len_app, !len_le_bytes; pose proof (len_nonneg (encExtra xs)); lia).
    unfold bind at 1; rewrite rdUint16_le; unfold bind at 1; rewrite rdUint16_le; unfold bind at 1, get at 1.
    rewrite (uint16_in t), (uint16_in (len d)) by (done || (unfold in_uint; lia)).
    rewrite (proj2 (Z.ltb_ge _ _)) by (rewrite len_app; pose proof (len_nonneg (encExtra xs)); lia).
    unfold bind at 1; rewrite rdSub_app by done; unfold bind at 1, lift, rdRun.
    destruct (extraField t x d) as [[x1|e| |] ?]; try done; cbn [fst obind] in *; apply IH; [cbn in Hf; lia | done].
Qed.

(** Tags the reader looks at. *)
Definition knownTags : list Z := [zip64ExtraID; ntfsExtraID; unixExtraID; infoZipUnixExtraID; extTimeExtraID].

Lemma extraField_other t x d : t ∉ knownTags -> rdRun (extraField t x) d = Ok x.
Proof.
  intros Ht; unfold knownTags in Ht; rewrite !not_elem_of_cons in Ht; destruct Ht as (H1 & H2 & H3 & H4 & H5 & _).
  apply Z.eqb_neq in H1, H2, H3, H4, H5; unfold rdRun, extraField, bind, get; by rewrite H1, H2, H3, H4, H5.
Qed.

Lemma foldFields_other x xs : Forall (fun f => f.1 ∉ knownTags) xs -> foldFields x xs = Ok x.
Proof. induction 1 as [|[t d] xs Ht _ IH]; [done|]; cbn [foldFields]; by rewrite extraField_other. Qed.

(** The two fields of the writer. *)
Definition timeData (t : Time) : bytes := encFields [(1%nat, 1); (4%nat, uint32 (toUnix t))].
Definition zip64Data (h : FileHeader) (offset : Z) : bytes :=
  encFields [(8%nat, fh_UncompressedSize64 h); (8%nat, fh_CompressedSize64 h); (8%nat, offset)].

Lemma extTimeFields_extra t : encFields (extTimeFields t) = encExtra [(extTimeExtraID, timeData t)].
Proof. by cbn [encExtra]; rewrite app_nil_r. Qed.
Lemma zip64Fields_extra h offset : encFields (zip64Fields h offset) = encExtra [(zip64ExtraID, zip64Data h offset)].
Proof.
  cbn [encExtra]; rewrite app_nil_r; assert (len (zip64Data h offset) = 24) as ->; [|done].
  unfold zip64Data, len; by rewrite length_encFields.
Qed.

Lemma extraField_time x t : rdRun (extraField extTimeExtraID x) (timeData t) = Ok (setExModified (Unix (uint32 (toUnix t)) 0) x).
Proof.
  unfold rdRun, extraField, timeData; rewrite <- (app_nil_r (encFields _)), rd_get.
  change (extTimeExtraID =? zip64ExtraID) with false; change (extTimeExtraID =? ntfsExtraID) with false.
  change ((extTimeExtraID =? unixExtraID) || (extTimeExtraID =? infoZipUnixExtraID)) with false.
  change (extTimeExtraID =? extTimeExtraID) with true; cbn match.
  assert ((len (encFields [(1%nat, 1); (4%nat, uint32 (toUnix t))] ++ []) <? 5) = false) as ->
    by (rewrite app_nil_r; unfold len; by rewrite length_encFields).
  rewrite (rd_field 1); change (Z.land (1 mod 256 ^ Z.of_nat 1) 1 =? 0) with false; cbn match.
  rewrite rd_32; cbn [fst ret]; by rewrite uint32_twice.
Qed.

(** A value that may be missing. *)
Lemma zip64Value_field {A} need old v fs r (f : Z -> M bytes A) :
  bind (zip64Value need old) f (encFields ((8%nat, v) :: fs) ++ r) =
    if need then f (uint64 v) (encFields fs ++ r) else f old (encFields ((8%nat, v) :: fs) ++ r).
Proof.
  unfold zip64Value; destruct need; [|done]; unfold bind at 1; rewrite rd_get.
  rewrite (proj2 (Z.ltb_ge _ _)) by (unfold len; rewrite length_app, length_encFields; cbn; lia).
  pose proof (rd_64 v fs r f) as E; unfold bind in E; exact E.
Qed.

(** Both sizes are needed, the offset may be. *)
Lemma extraField_zip64 x h offset :
  ex_needUSize x = true -> ex_needCSize x = true -> 0 <= offset < 2 ^ 63 -> hdrTyped h ->
  rdRun (extraField zip64ExtraID x) (zip64Data h offset) =
    Ok (mkExtras false false false (fh_UncompressedSize64 h) (fh_CompressedSize64 h)
          (if ex_needHeaderOffset x then offset else ex_headerOffset x) (ex_modified x)).
Proof.
  intros Hu Hc Ho Ht; unfold rdRun, extraField, zip64Data; rewrite <- (app_nil_r (encFields _)), rd_get.
  change (zip64ExtraID =? zip64ExtraID) with true; cbn match; unfold zip64Field; rewrite Hu, Hc.
  rewrite zip64Value_field; cbn match; rewrite zip64Value_field; cbn match.
  rewrite (uint64_in (fh_UncompressedSize64 h)), (uint64_in (fh_CompressedSize64 h)) by apply Ht.
  rewrite zip64Value_field; destruct (ex_needHeaderOffset x); cbn [fst ret]; [|done].
  by rewrite (uint64_in offset), int64_id by (unfold in_uint, in_int64; lia).
Qed.

(** ** Entries

    An entry is its header as [CreateHeader] prepared it, with the extra
    fields the caller gave, its contents and the compressed contents. *)
Record entry := mkEntry { e_hdr : FileHeader; e_extra : extraFields; e_data : bytes; e_comp : bytes }.

(** The header once the file is closed, and with the field that [Close] adds. *)
Definition finalHdr (e : entry) : FileHeader :=
  finishSizes (ChecksumIEEE (e_data e)) (uint64 (len (e_comp e))) (uint64 (len (e_data e))) (e_hdr e).
Definition dirHdr (e : entry) (offset : Z) : FileHeader :=
  if needsZip64 (finalHdr e) offset then setExtra (fh_Extra (finalHdr e) ++ encFields (zip64Fields (finalHdr e) offset)) (finalHdr e)
  else finalHdr e.

(** The fields of the time, when the header has one. *)
Definition timeExtra (h : FileHeader) : extraFields :=
  if IsZero (fh_Modified h) then [] else [(extTimeExtraID, timeData (fh_Modified h))].
Definition zip64ExtraOf (e : entry) (offset : Z) : extraFields :=
  if needsZip64 (finalHdr e) offset then [(zip64ExtraID, zip64Data (finalHdr e) offset)] else [].

Record entryOk (e : entry) : Prop := {
  eo_extra : fh_Extra (e_hdr e) = encExtra (e_extra e ++ timeExtra (e_hdr e));
  eo_extraOk : extraOk (e_extra e);
  eo_tags : Forall (fun f => f.1 ∉ knownTags) (e_extra e);
  eo_typed : hdrTyped (e_hdr e);
  eo_name : bytes_ok (fh_Name (e_hdr e)) /\ len (fh_Name (e_hdr e)) < 2 ^ 16;
  eo_comment : bytes_ok (fh_Comment (e_hdr e)) /\ len (fh_Comment (e_hdr e)) < 2 ^ 16;
  eo_extraLen : len (fh_Extra (e_hdr e)) + 28 < 2 ^ 16;
  eo_flags : hasBit (fh_Flags (e_hdr e)) 0x8 = true;
  eo_sizes : len (e_data e) < 2 ^ 63 /\ len (e_comp e) < 2 ^ 63
}.

(** The bytes of an entry in front of the directory, and in it. *)
Definition entryBytes (e : entry) : bytes :=
  encFields (localFields (e_hdr e)) ++ fh_Name (e_hdr e) ++ fh_Extra (e_hdr e) ++ e_comp e ++ encFields (descriptorFields (finalHdr e)).
Definition dirBytes (e : entry) (offset : Z) : bytes :=
  let h := dirHdr e offset in encFields (dirFields h offset) ++ fh_Name h ++ fh_Extra h ++ fh_Comment h.

Lemma dirHdr_same e offset :
  fh_Name (dirHdr e offset) = fh_Name (e_hdr e) /\ fh_Comment (dirHdr e offset) = fh_Comment (e_hdr e) /\
  fh_Modified (dirHdr e offset) = fh_Modified (e_hdr e) /\ needsZip64 (dirHdr e offset) offset = needsZip64 (finalHdr e) offset.
Proof.
  unfold dirHdr; destruct (needsZip64 (finalHdr e) offset) eqn:E; [|rewrite E]; unfold finalHdr, finishSizes in *;
    destruct (_ || _); (split_and!; try done); by rewrite <- E.
Qed.

Lemma lxor_range x y : 0 <= x < 2 ^ 32 -> 0 <= y < 2 ^ 32 -> 0 <= Z.lxor x y < 2 ^ 32.
Proof.
  intros Hx Hy; assert (0 <= Z.lxor x y) by (rewrite Z.lxor_nonneg; lia); split; [done|].
  destruct (Z.eq_dec (Z.lxor x y) 0) as [->|]; [done|].
  apply Z.log2_lt_pow2; [lia|]; pose proof (Z.log2_lxor x y ltac:(lia) ltac:(lia)).
  assert (forall z, 0 <= z < 2 ^ 32 -> Z.log2 z < 32) as L.
  { intros z Hz; destruct (Z.eq_dec z 0) as [->|]; [done|]; apply Z.log2_lt_pow2; lia. }
  pose proof (L x Hx); pose proof (L y Hy); lia.
Qed.

Lemma shiftr_range x a b : 0 <= a -> 0 <= b -> 0 <= x < 2 ^ (a + b) -> 0 <= Z.shiftr x a < 2 ^ b.
Proof.
  intros Ha Hb Hx; rewrite Z.shiftr_div_pow2 by done; assert (0 < 2 ^ a) by (by apply Z.pow_pos_nonneg).
  split; [apply Z.div_pos; lia | apply Z.div_lt_upper_bound; [done|]; rewrite <- Z.pow_add_r by done; lia].
Qed.

Lemma crcByte_range c b : 0 <= c < 2 ^ 32 -> 0 <= crcByte c b < 2 ^ 32.
Proof.
  intros Hc; unfold crcByte; assert (B : forall n x, 0 <= x < 2 ^ 32 -> 0 <= crcBits n x < 2 ^ 32).
  { induction n as [|n IH]; intros x Hx; [done|]; cbn [crcBits]; apply IH.
    assert (0 <= Z.shiftr x 1 < 2 ^ 31) by (by apply (shiftr_range x 1 31)).
    destruct (Z.odd x); [|lia]; apply lxor_range; lia. }
  apply lxor_range; [|pose proof (shiftr_range c 8 24 ltac:(lia) ltac:(lia) Hc); lia].
  apply B; pose proof (land_le_r (Z.lxor c b) 255).
  destruct (Z.le_gt_cases 0 (Z.lxor c b)); [lia|].
  change 0xFF with (Z.ones 8); rewrite Z.land_ones by lia; pose proof (Z.mod_pos_bound (Z.lxor c b) (2 ^ 8)); lia.
Qed.

Lemma ChecksumIEEE_range p : in_uint 32 (ChecksumIEEE p).
Proof.
  unfold ChecksumIEEE, crcUpdate, in_uint; apply lxor_range; [|done].
  assert (G : forall c, 0 <= c < 2 ^ 32 -> 0 <= foldl crcByte c p < 2 ^ 32); [|by apply G].
  induction p as [|b p IH]; intros c Hc; [done|]; cbn [foldl]; by apply IH, crcByte_range.
Qed.

Lemma finalHdr_typed e : entryOk e -> hdrTyped (finalHdr e).
Proof.
  intros [_ _ _ [] _ _ _ _ [Hd Hc]]; pose proof (ChecksumIEEE_range (e_data e)) as C; pose proof (len_nonneg (e_data e)); pose proof (len_nonneg (e_comp e)).
  unfold finalHdr, finishSizes; destruct (_ || _); (split; try done; cbn; try (apply (wrapu_range 32); done); by apply (wrapu_range 64)).
Qed.

Lemma dirHdr_typed e offset : entryOk e -> hdrTyped (dirHdr e offset).
Proof.
  intros He; pose proof (finalHdr_typed e He) as [T1 T2 T3 T4 T5 T6 T7 T8 T9 T10 T11 T12]; unfold dirHdr; destruct (needsZip64 _ _); by split.
Qed.

(** The header that is read back from an entry at an offset. *)
Definition extTime (h : FileHeader) : Time := if IsZero (fh_Modified h) then zeroTime else Unix (uint32 (toUnix (fh_Modified h))) 0.

Definition readHdr (e : entry) (offset : Z) : FileHeader :=
  let h := dirHdr e offset in
  mkFileHeader (fh_Name h) (fh_Comment h) (nonUTF8 (fh_Name h) (fh_Comment h) (fh_Flags h)) (fh_CreatorVersion h) (fh_ReaderVersion h)
    (fh_Flags h) (fh_Method h) (modifiedTime (extTime h) (fh_ModifiedDate h) (fh_ModifiedTime h)) (fh_ModifiedTime h) (fh_ModifiedDate h)
    (fh_CRC32 h) (csize32 h offset) (usize32 h offset) (len (e_comp e)) (len (e_data e)) (fh_Extra h) (fh_ExternalAttrs h).

Lemma finalHdr_sizes e :
  entryOk e -> fh_CompressedSize64 (finalHdr e) = len (e_comp e) /\ fh_UncompressedSize64 (finalHdr e) = len (e_data e).
Proof.
  intros He; destruct (eo_sizes e He); pose proof (len_nonneg (e_data e)); pose proof (len_nonneg (e_comp e)).
  unfold finalHdr, finishSizes; rewrite !uint64_in by (unfold in_uint; lia); by destruct (_ || _).
Qed.

Lemma dirHdr_extra e offset :
  entryOk e -> fh_Extra (dirHdr e offset) = encExtra (e_extra e ++ timeExtra (e_hdr e) ++ zip64ExtraOf e offset).
Proof.
  intros He; unfold dirHdr, zip64ExtraOf; destruct (needsZip64 _ _).
  - cbn [setExtra fh_Extra]; rewrite zip64Fields_extra.
    assert (fh_Extra (finalHdr e) = fh_Extra (e_hdr e)) as -> by (unfold finalHdr, finishSizes; by destruct (_ || _)).
    by rewrite (eo_extra e He), <- encExtra_app, <- app_assoc.
  - assert (fh_Extra (finalHdr e) = fh_Extra (e_hdr e)) as -> by (unfold finalHdr, finishSizes; by destruct (_ || _)).
    by rewrite (eo_extra e He), app_nil_r.
Qed.

(** ** Reading the directory back *)
Lemma small_sizes h offset :
  hdrTyped h -> 0 <= offset < 2 ^ 63 -> needsZip64 h offset = false ->
  fh_CompressedSize64 h < uint32max /\ fh_UncompressedSize64 h < uint32max /\ offset < uint32max.
Proof. unfold needsZip64, isZip64; intros _ _ [[?%Z.leb_gt ?%Z.leb_gt]%orb_false_iff ?%Z.leb_gt]%orb_false_iff; done. Qed.

Lemma finalHdr_small e :
  entryOk e -> isZip64 (finalHdr e) = false -> fh_CompressedSize (finalHdr e) = len (e_comp e) /\ fh_UncompressedSize (finalHdr e) = len (e_data e).
Proof.
  intros He; destruct (eo_sizes e He); pose proof (len_nonneg (e_data e)); pose proof (len_nonneg (e_comp e)).
  unfold isZip64; destruct (finalHdr_sizes e He) as [-> ->]; unfold finalHdr, finishSizes; rewrite !uint64_in by (unfold in_uint; lia).
  intros E; rewrite E.
  apply orb_false_iff in E as [?%Z.leb_gt ?%Z.leb_gt]; unfold uint32max in *; cbn [fh_CompressedSize fh_UncompressedSize].
  rewrite !uint32_in; [done|..]; unfold in_uint; pose proof (len_nonneg (e_comp e)); pose proof (len_nonneg (e_data e)); lia.
Qed.

Lemma dirHdr_32 e offset :
  entryOk e -> 0 <= offset < 2 ^ 63 ->
  if needsZip64 (finalHdr e) offset
  then csize32 (dirHdr e offset) offset = uint32max /\ usize32 (dirHdr e offset) offset = uint32max
  else csize32 (dirHdr e offset) offset = len (e_comp e) /\ usize32 (dirHdr e offset) offset = len (e_data e) /\
       len (e_comp e) < uint32max /\ len (e_data e) < uint32max /\ offset < uint32max.
Proof.
  intros He Ho; unfold csize32, usize32; destruct (dirHdr_same e offset) as (_ & _ & _ & ->); unfold dirHdr.
  destruct (needsZip64 (finalHdr e) offset) eqn:E; [done|].
  destruct (small_sizes _ _ (finalHdr_typed e He) Ho E) as (L1 & L2 & L3); destruct (finalHdr_sizes e He) as [E1 E2].
  assert (isZip64 (finalHdr e) = false) as Z by (by unfold needsZip64 in E; apply orb_false_iff in E as [-> _]).
  destruct (finalHdr_small e He Z) as [-> ->]; rewrite E1, E2 in *; done.
Qed.

Lemma offset32_small offset : 0 <= offset < uint32max -> offset32 offset = offset.
Proof.
  intros Ho; unfold offset32; rewrite (proj2 (Z.ltb_ge _ _)) by lia; apply uint32_in; unfold in_uint, uint32max in *; lia.
Qed.
Lemma offset32_large offset : 0 <= offset -> (offset32 offset =? uint32max) = (uint32max <=? offset).
Proof.
  intros Ho; unfold offset32; destruct (Z.ltb_spec uint32max offset) as [|Hl].
  - by rewrite Z.eqb_refl, (proj2 (Z.leb_le _ _)) by lia.
  - rewrite uint32_in by (unfold in_uint, uint32max in *; lia).
    destruct (Z.eqb_spec offset uint32max), (Z.leb_spec uint32max offset); try done; lia.
Qed.

Lemma timeExtra_fold h u c o nu nc no :
  foldFields (mkExtras nu nc no u c o zeroTime) (timeExtra h) = Ok (mkExtras nu nc no u c o (extTime h)).
Proof. unfold timeExtra, extTime; destruct (IsZero _); [done|]; cbn [foldFields]; by rewrite extraField_time. Qed.

(** All the extra fields of an entry. *)
Lemma entry_extras e offset :
  entryOk e -> 0 <= offset < 2 ^ 63 ->
  let h := dirHdr e offset in
  exists x, foldFields (mkExtras (usize32 h offset =? uint32max) (csize32 h offset =? uint32max) (offset32 offset =? uint32max)
      (usize32 h offset) (csize32 h offset) (offset32 offset) zeroTime) (e_extra e ++ timeExtra (e_hdr e) ++ zip64ExtraOf e offset) = Ok x /\
    ex_needCSize x = false /\ ex_needHeaderOffset x = false /\ ex_UncompressedSize64 x = len (e_data e) /\
    ex_CompressedSize64 x = len (e_comp e) /\ ex_headerOffset x = offset /\ ex_modified x = extTime h.
Proof.
  intros He Ho h; pose proof (dirHdr_32 e offset He Ho) as D; fold h in D; unfold zip64ExtraOf.
  assert (Em : extTime h = extTime (e_hdr e)) by (unfold extTime, h; by destruct (dirHdr_same e offset) as (_ & _ & -> & _)).
  rewrite foldFields_app, foldFields_other by apply He; cbn [obind]; rewrite foldFields_app, timeExtra_fold; cbn [obind].
  pose proof (len_nonneg (e_comp e)); pose proof (len_nonneg (e_data e)); destruct (finalHdr_sizes e He) as [F1 F2].
  destruct (needsZip64 (finalHdr e) offset) eqn:E.
  - destruct D as [-> ->]; cbn [foldFields]; rewrite extraField_zip64 by (done || by apply finalHdr_typed).
    eexists; split; [done|]; cbn; rewrite F1, F2; split_and!; try done; rewrite offset32_large by lia.
    destruct (Z.leb_spec uint32max offset); [done | apply offset32_small; lia].
  - destruct D as (-> & -> & L1 & L2 & L3); cbn [foldFields].
    eexists; split; [done|]; cbn; rewrite offset32_small by lia; split_and!; try done; apply Z.eqb_neq; lia.
Qed.

Lemma extraOk_all e offset : entryOk e -> extraOk (e_extra e ++ timeExtra (e_hdr e) ++ zip64ExtraOf e offset).
Proof.
  intros He; unfold extraOk; rewrite !Forall_app; split; [apply He|]; split.
  - unfold timeExtra; destruct (IsZero _); constructor; [|constructor]; cbn [fst snd].
    split; [done|]; split; [apply bytes_ok_encFields|]; unfold timeData, len; by rewrite length_encFields.
  - unfold zip64ExtraOf; destruct (needsZip64 _ _); constructor; [|constructor]; cbn [fst snd].
    split; [done|]; split; [apply bytes_ok_encFields|]; unfold zip64Data, len; by rewrite length_encFields.
Qed.

Lemma finishHeader_entry e offset size :
  entryOk e -> 0 <= offset < 2 ^ 63 ->
  let h := dirHdr e offset in
  finishHeader size (mkFileHeader [] [] false (fh_CreatorVersion h) (fh_ReaderVersion h) (fh_Flags h) (fh_Method h) zeroTime
      (fh_ModifiedTime h) (fh_ModifiedDate h) (fh_CRC32 h) (csize32 h offset) (usize32 h offset) (csize32 h offset) (usize32 h offset) []
      (fh_ExternalAttrs h)) (offset32 offset) (fh_Name h) (fh_Extra h) (fh_Comment h) = Ok (mkFile (readHdr e offset) size offset).
Proof.
  intros He Ho h; destruct (entry_extras e offset He Ho) as (x & Hx & N1 & N2 & U & C & O & Mo); fold h in Hx, Mo.
  unfold finishHeader; cbn [fh_UncompressedSize fh_CompressedSize fh_UncompressedSize64 fh_CompressedSize64 fh_Flags fh_CreatorVersion
    fh_ReaderVersion fh_Method fh_ModifiedTime fh_ModifiedDate fh_CRC32 fh_ExternalAttrs].
  pose proof (dirHdr_extra e offset He) as Ee; fold h in Ee.
  rewrite Ee, (parseExtras_fold _ _ _ x) by (done || by apply extraOk_all || apply encExtra_length).
  cbn [obind]; rewrite N1, N2; cbn [orb]; rewrite U, C, O, Mo, <- Ee; done.
Qed.

Section ReadBack.
Context {T : Type} (rd : readMethod T) (Inv : bytes -> T -> Prop) `{!ReadsTo rd Inv}.

Lemma readFull_enough fuel (a b : bytes) n t :
  Inv (a ++ b) t -> len a = n -> (length a <= fuel)%nat -> exists t', readFull rd fuel n t = (Ok a, t') /\ Inv b t'.
Proof.
  intros Ht Hn Hf; pose proof (len_nonneg b); destruct (ReadFull_enough rd Inv fuel n (a ++ b) t Ht) as (t' & E & Ht').
  - rewrite len_app; lia.
  - unfold len in Hn; lia.
  - exists t'; unfold readFull, bind; rewrite E; unfold len in Hn.
    replace (Z.to_nat n) with (length a) in * by lia; rewrite take_app_length; by rewrite drop_app_length in Ht'.
Qed.

Lemma dirHdr_lens e offset :
  entryOk e -> let h := dirHdr e offset in
  uint16 (len (fh_Name h)) = len (fh_Name h) /\ uint16 (len (fh_Extra h)) = len (fh_Extra h) /\ uint16 (len (fh_Comment h)) = len (fh_Comment h).
Proof.
  intros He h; destruct (dirHdr_same e offset) as (E1 & E2 & _); fold h in E1, E2.
  assert (L : len (fh_Extra h) < 2 ^ 16).
  { pose proof (eo_extraLen e He) as L; unfold h, dirHdr.
    assert (Ef : fh_Extra (finalHdr e) = fh_Extra (e_hdr e)) by (unfold finalHdr, finishSizes; by destruct (_ || _)).
    destruct (needsZip64 _ _); cbn [setExtra fh_Extra]; rewrite ?len_app, Ef; [|lia].
    replace (len (encFields _)) with 28 by (unfold len; by rewrite length_encFields); lia. }
  pose proof (eo_name e He) as [_ N]; pose proof (eo_comment e He) as [_ C].
  pose proof (len_nonneg (fh_Name h)); pose proof (len_nonneg (fh_Extra h)); pose proof (len_nonneg (fh_Comment h)).
  rewrite !uint16_in; [done|..]; unfold in_uint; rewrite ?E1, ?E2 in *; lia.
Qed.

Lemma slice_at (a b c : bytes) i j : len a = i -> j = i + len b -> slice (a ++ b ++ c) i j = b.
Proof.
  intros Hi ->; unfold slice, len in *; rewrite drop_app_length' by lia.
  by rewrite take_app_length' by lia.
Qed.

Lemma slice_front (a b : bytes) : slice (a ++ b) 0 (len a) = a.
Proof. by apply (slice_at [] a b 0). Qed.
Lemma slice_back (a b : bytes) i : len a = i -> slice (a ++ b) i (len (a ++ b)) = b.
Proof. intros Hi; rewrite <- (app_nil_r b) at 1; apply slice_at; [done|]; rewrite len_app; lia. Qed.

Lemma readDirectoryHeader_entry e offset size fuel rest t :
  Inv (dirBytes e offset ++ rest) t -> entryOk e -> 0 <= offset < 2 ^ 63 -> (length (dirBytes e offset) <= fuel)%nat ->
  exists t', readDirectoryHeader rd fuel size t = (Ok (mkFile (readHdr e offset) size offset), t') /\ Inv rest t'.
Proof.
  intros Ht He Ho Hf; unfold dirBytes in *; set (h := dirHdr e offset) in *; rewrite <- !app_assoc in Ht; rewrite !length_app in Hf.
  destruct (readFull_enough fuel _ _ directoryHeaderLen t Ht) as (t1 & E1 & Ht1); [by unfold len; rewrite length_encFields | lia |].
  unfold readDirectoryHeader, bind at 1; rewrite E1; unfold bind at 1, lift at 1; rewrite parseDirectoryHeader_dir by by apply dirHdr_typed.
  pose proof (dirHdr_lens e offset He) as D; cbv zeta in D; fold h in D; destruct D as (-> & -> & ->); fold h.
  rewrite !app_assoc in Ht1; destruct (readFull_enough fuel _ _ (len (fh_Name h) + len (fh_Extra h) + len (fh_Comment h)) t1 Ht1) as (t2 & E2 & Ht2).
  { rewrite !len_app; lia. }
  { rewrite !length_app; lia. }
  exists t2; split; [|done]; unfold bind; rewrite E2; unfold lift; f_equal.
  rewrite <- app_assoc; pose proof (len_nonneg (fh_Name h)).
  rewrite slice_front, (slice_at (fh_Name h)), (app_assoc (fh_Name h)), slice_back by (rewrite ?len_app; done || lia).
  by apply finishHeader_entry.
Qed.
End ReadBack.
