(* ===== verification/ZipDirectory.v ===== *)
(** * Opening a zip archive

    The layout of a whole archive, possibly behind other data, and
    [NewReader] on it: the directory is found and every entry is listed. *)
From S2P Require Import Prelude GoInt GoString GoTime GoDate GoIO GoPath GoBufio.
From S2P Require Import ZipStruct ZipNames ZipBuf ZipReader ZipSafety ZipWriter ZipArchive.
Open Scope go_scope.

(** ** Layout *)

(** The entries with their offsets. *)
Fixpoint placed (off : Z) (es : list entry) : list (entry * Z) :=
  match es with
  | [] => []
  | e :: es => (e, off) :: placed (off + len (entryBytes e)) es
  end.

Definition body (es : list entry) : bytes := mjoin (entryBytes <$> es).
Definition directory (base : Z) (es : list entry) : bytes := mjoin ((fun '(e, o) => dirBytes e o) <$> placed base es).

(** Does the end record need the zip64 one? *)
Definition endZip64 (records size offset : Z) : bool := (uint16max <=? records) || (uint32max <=? size) || (uint32max <=? offset).

Definition endRecord (records size offset : Z) (comment : bytes) : bytes :=
  encFields (if endZip64 records size offset then endFields uint16max uint32max uint32max (len comment)
             else endFields records size offset (len comment)) ++ comment.
Definition end64 (records size offset : Z) : bytes :=
  if endZip64 records size offset
  then encFields (end64Fields records size offset (offset + size)) ++ encFields (locatorFields (offset + size)) else [].

Section Layout.
Variables (base : Z) (es : list entry) (cmt : bytes).

Definition dirStart : Z := base + len (body es).
Definition dirSize : Z := len (directory base es).

Definition endBytes : bytes := end64 (len es) dirSize dirStart ++ endRecord (len es) dirSize dirStart cmt.
Definition archiveBytes : bytes := body es ++ directory base es ++ endBytes.
End Layout.

Lemma body_cons e es : body (e :: es) = entryBytes e ++ body es.
Proof. done. Qed.

Lemma directory_cons off e es : directory off (e :: es) = dirBytes e off ++ directory (off + len (entryBytes e)) es.
Proof. done. Qed.

Lemma body_app es1 es2 : body (es1 ++ es2) = body es1 ++ body es2.
Proof. unfold body; by rewrite fmap_app, join_app. Qed.

Lemma placed_app off es1 es2 : placed off (es1 ++ es2) = placed off es1 ++ placed (off + len (body es1)) es2.
Proof.
  revert off; induction es1 as [|e es1 IH]; intros off; cbn [app placed].
  - unfold body; cbn; rewrite (@len_nil Z), Z.add_0_r; done.
  - by rewrite IH, body_cons, len_app, Z.add_assoc.
Qed.

Lemma placed_length off es : length (placed off es) = length es.
Proof. revert off; induction es as [|e es IH]; intros off; cbn; [done | by rewrite IH]. Qed.

(** Where the bytes of an entry are. *)
Lemma placed_at off es e o :
  (e, o) ∈ placed off es -> exists A B, body es = A ++ entryBytes e ++ B /\ o = off + len A.
Proof.
  revert off; induction es as [|e1 es IH]; intros off; cbn [placed]; [intros Hx; by apply elem_of_nil in Hx|].
  intros [[= -> ->]|Hx]%elem_of_cons.
  - exists [], (body es); split; [done | rewrite (@len_nil Z); lia].
  - destruct (IH _ Hx) as (A & B & E & ->); exists (entryBytes e1 ++ A), B; rewrite body_cons, E, !app_assoc, len_app; split; [done | lia].
Qed.

Lemma placed_in off es e o : (e, o) ∈ placed off es -> e ∈ es.
Proof.
  revert off; induction es as [|e1 es IH]; intros off; cbn [placed]; [intros Hx; by apply elem_of_nil in Hx|].
  intros [[= -> ->]|Hx]%elem_of_cons; [left | right; by eapply IH].
Qed.

Lemma len_encFields fs : len (encFields fs) = Z.of_nat (foldr (fun f n => f.1 + n)%nat 0%nat fs).
Proof. unfold len; by rewrite length_encFields. Qed.

Lemma len_dirBytes e o : directoryHeaderLen <= len (dirBytes e o).
Proof.
  unfold dirBytes; rewrite !len_app, len_encFields; unfold directoryHeaderLen.
  pose proof (len_nonneg (fh_Name (dirHdr e o))); pose proof (len_nonneg (fh_Extra (dirHdr e o))); pose proof (len_nonneg (fh_Comment (dirHdr e o))).
  cbn [foldr dirFields fst Nat.add]; lia.
Qed.

Lemma dirSize_count base es : directoryHeaderLen * len es <= dirSize base es.
Proof.
  unfold dirSize; revert base; induction es as [|e es IH]; intros base; [done|].
  rewrite directory_cons, len_app, len_cons; specialize (IH (base + len (entryBytes e))).
  pose proof (len_dirBytes e base); unfold directoryHeaderLen in *; lia.
Qed.

(** ** The list of files *)
Section Headers.
Context {T : Type} (rd : readMethod T) (Inv : bytes -> T -> Prop) `{!ReadsTo rd Inv}.

(** Bytes that are not a directory header end the list. *)
Definition notHeader (tl : bytes) : Prop := exists sig rest, tl = le_bytes 4 sig ++ rest /\ uint32 sig <> directoryHeaderSignature.

Lemma readDirectoryHeader_stop tl t fuel size :
  Inv tl t -> notHeader tl -> (length tl < fuel)%nat -> (46 <= fuel)%nat ->
  exists err t', readDirectoryHeader rd fuel size t = (Err err, t') /\ (err = ErrFormat \/ err = ErrUnexpectedEOF).
Proof.
  intros Ht (sig & rest & -> & Hs) Hf H46; unfold readDirectoryHeader, readFull, directoryHeaderLen.
  destruct (Z.le_gt_cases 46 (len (le_bytes 4 sig ++ rest))) as [Hl|Hl].
  - destruct (ReadFull_enough rd Inv fuel 46 _ t Ht Hl) as (t1 & E1 & Ht1); [lia|].
    unfold bind; rewrite E1; cbn match; unfold ret at 1, lift at 1.
    assert (P : rdRun parseDirectoryHeader (take (Z.to_nat 46) (le_bytes 4 sig ++ rest)) = Err ErrFormat).
    { rewrite take_app_ge by (rewrite length_le_bytes; lia); unfold rdRun, parseDirectoryHeader, bind; rewrite rdUint32_le.
      by rewrite (proj2 (Z.eqb_neq _ _)). }
    rewrite P; do 2 eexists; split; [done | by left].
  - destruct (ReadFull_short rd Inv fuel 46 _ t Ht ltac:(lia) Hf) as (t1 & E1 & Ht1); unfold bind; rewrite E1.
    rewrite (proj2 (Z.ltb_lt 0 _)) by (rewrite len_app, len_le_bytes; pose proof (len_nonneg rest); lia).
    do 2 eexists; split; [done | by right].
Qed.

Definition fileOf (size skip : Z) (eo : entry * Z) : File :=
  mkFile (readHdr eo.1 eo.2) size (int64 (eo.2 + int64 skip)).

Lemma readHeaders_entries es off n fuel size skip tl t :
  Inv (directory off es ++ tl) t -> Forall entryOk es -> notHeader tl -> 0 <= off -> off + len (body es) < 2 ^ 63 ->
  (length (directory off es ++ tl) < fuel)%nat -> (46 <= fuel)%nat -> (length es < n)%nat ->
  exists err t', readHeaders rd fuel n size skip t = (Ok (fileOf size skip <$> placed off es, err), t').
Proof.
  intros Ht Hes Htl; revert off n t Ht; induction Hes as [|e es He _ IH]; intros off n t Ht Ho Hb Hf H46 Hn;
    (destruct n as [|n]; [cbn in Hn; lia|]); cbn [readHeaders].
  - destruct (readDirectoryHeader_stop tl t fuel size Ht Htl Hf H46) as (err & t1 & E & He); unfold bind, attempt; rewrite E.
    rewrite bool_decide_eq_true_2 by done; by do 2 eexists.
  - rewrite directory_cons, <- app_assoc in Ht, Hf; rewrite length_app in Hf.
    assert (B : len (body (e :: es)) = len (entryBytes e) + len (body es)) by (by rewrite body_cons, len_app).
    pose proof (len_nonneg (entryBytes e)); pose proof (len_nonneg (body es)).
    destruct (readDirectoryHeader_entry rd Inv e off size fuel _ t Ht He) as (t1 & E1 & Ht1); [lia..|].
    destruct (IH _ n t1 Ht1) as (err & t2 & E2); [lia | lia | lia | lia | cbn in Hn; lia |].
    exists err, t2; unfold bind, attempt; rewrite E1, E2; done.
Qed.
End Headers.

(** ** Finding the end of the directory *)
Definition sigAt (b : bytes) (j : nat) : bool :=
  (byteAt b j =? 80) && (byteAt b (j + 1) =? 75) && (byteAt b (j + 2) =? 5) && (byteAt b (j + 3) =? 6).

(** No second signature in an end record and its comment. *)
Definition oneSig (b : bytes) : Prop := forall j, (0 < j)%nat -> sigAt b j = false.

Lemma byteAt_app (a b : bytes) j : byteAt (a ++ b) (length a + j) = byteAt b j.
Proof. unfold byteAt; by rewrite app_nth2_plus. Qed.

Lemma sigAt_app (a b : bytes) j : sigAt (a ++ b) (length a + j) = sigAt b j.
Proof. unfold sigAt; rewrite <- !Nat.add_assoc; by rewrite !byteAt_app. Qed.

Lemma findSigFrom_skip k i b : (forall j, (i < j <= i + k)%nat -> sigAt b j = false) -> findSigFrom (i + k) b = findSigFrom i b.
Proof.
  induction k as [|k IH]; intros Hj; [by rewrite Nat.add_0_r|]; rewrite Nat.add_succ_r; cbn [findSigFrom].
  specialize (Hj (S (i + k)) ltac:(lia)) as Hs; unfold sigAt in Hs; rewrite Hs; cbn [andb]; apply IH; intros j Hj'; apply Hj; lia.
Qed.

Lemma byteAt_field2 fs r v j :
  length (encFields fs) = j -> 0 <= v < 2 ^ 16 ->
  Z.lor (byteAt (encFields (fs ++ [(2%nat, v)]) ++ r) j) (Z.shiftl (byteAt (encFields (fs ++ [(2%nat, v)]) ++ r) (j + 1)) 8) = v.
Proof.
  intros <- Hv; rewrite encFields_app, <- app_assoc; cbn [encFields app le_bytes].
  rewrite <- (Nat.add_0_r (length (encFields fs))) at 1; rewrite !byteAt_app; cbn [byteAt nth].
  rewrite Z.lor_comm, (lor_disjoint_add _ _ 8) by (done || apply uint8_byte).
  rewrite !uint8_eq, shiftr8, Z.shiftl_mul_pow2 by lia; change (2 ^ 8) with 256.
  rewrite (Z.mod_small (v / 256)) by (split; [apply Z.div_pos; lia | apply Z.div_lt_upper_bound; lia]).
  pose proof (Z.div_mod v 256 ltac:(lia)); lia.
Qed.

Lemma findSignatureInBlock_end a records size offset (c : bytes) :
  len c < 2 ^ 16 -> oneSig (encFields (endFields records size offset (len c)) ++ c) ->
  findSignatureInBlock (a ++ encFields (endFields records size offset (len c)) ++ c) = len a.
Proof.
  intros Hc H1; set (b := encFields _ ++ c) in *; pose proof (len_nonneg c).
  assert (Lb : length b = (22 + length c)%nat) by (unfold b; rewrite length_app, length_encFields; done).
  unfold findSignatureInBlock, directoryEndLen; rewrite (proj2 (Z.ltb_ge _ _)) by (unfold len; rewrite length_app; lia).
  rewrite length_app, Lb; change (Z.to_nat 22) with 22%nat.
  replace (length a + (22 + length c) - 22)%nat with (length a + length c)%nat by lia.
  rewrite findSigFrom_skip.
  - assert (S : sigAt (a ++ b) (length a) = true) by (rewrite <- (Nat.add_0_r (length a)) at 1; by rewrite sigAt_app).
    assert (N : Z.lor (byteAt (a ++ b) (length a + 20)) (Z.shiftl (byteAt (a ++ b) (length a + 21)) 8) = len c).
    { rewrite !byteAt_app; unfold b, endFields.
      pose proof (byteAt_field2 [(4%nat, directoryEndSignature); (4%nat, 0); (2%nat, uint16 records); (2%nat, uint16 records); (4%nat, uint32 size);
        (4%nat, uint32 offset)] c (uint16 (len c)) 20 ltac:(by rewrite length_encFields)) as F.
      rewrite (uint16_in (len c)) in F |- * by (unfold in_uint; lia); apply F; lia. }
    unfold sigAt in S; destruct (length a) as [|k] eqn:Ea; cbn [findSigFrom]; rewrite N, S; cbn [andb];
      (rewrite (proj2 (Z.leb_le _ _)); [unfold len; rewrite Ea; done|]); unfold len, directoryEndLen in *; rewrite length_app, Lb; lia.
  - intros j Hj; replace j with (length a + (j - length a))%nat by lia; rewrite sigAt_app; apply H1; lia.
Qed.

Lemma parseDirectoryEnd_end records size offset (c : bytes) :
  len c < 2 ^ 16 ->
  rdRun parseDirectoryEnd (drop 4 (encFields (endFields records size offset (len c)) ++ c)) =
    Ok (mkDirectoryEnd 0 0 (uint16 records) (uint16 records) (uint32 size) (uint32 offset) (len c) c 0).
Proof.
  intros Hc; pose proof (len_nonneg c); unfold endFields.
  change (drop 4 (encFields ((4%nat, directoryEndSignature) :: ?fs) ++ c)) with (encFields fs ++ c).
  change (encFields ((4%nat, 0) :: ?fs)) with (encFields ((2%nat, 0) :: (2%nat, 0) :: fs)).
  unfold rdRun, parseDirectoryEnd; rewrite !rd_16, !rd_32, rd_16, rd_get; cbn [encFields app].
  rewrite !uint16_twice, !uint32_twice, uint16_in by (unfold in_uint; lia); rewrite Z.ltb_irrefl; cbn [fst ret].
  do 2 f_equal; apply take_ge; unfold len; lia.
Qed.

Lemma parseLocator_locator dirEnd : rdRun parseLocator (encFields (locatorFields dirEnd)) = Ok (int64 (uint64 dirEnd)).
Proof.
  rewrite <- (app_nil_r (encFields _)); unfold rdRun, parseLocator, locatorFields; rewrite rd_32.
  change (uint32 directory64LocSignature =? directory64LocSignature) with true; cbn [negb]; cbn match.
  rewrite rd_32; change (uint32 0 =? 0) with true; cbn [negb]; cbn match; rewrite rd_64, rd_32; change (uint32 1 =? 1) with true; cbn [negb]; cbn match.
  cbn [fst ret]; do 2 f_equal; unfold uint64, wrapu; by rewrite Z.mod_mod.
Qed.

Lemma parseDirectory64End_end records size offset dirEnd d :
  in_uint 64 records -> in_uint 64 size -> in_uint 64 offset ->
  rdRun (parseDirectory64End d) (encFields (end64Fields records size offset dirEnd)) =
    Ok (mkDirectoryEnd 0 0 records records size offset (commentLen d) (comment d) (startSkipLen d)).
Proof.
  intros H1 H2 H3; rewrite <- (app_nil_r (encFields _)); unfold rdRun, parseDirectory64End, end64Fields; rewrite rd_32.
  change (uint32 directory64EndSignature =? directory64EndSignature) with true; cbn [negb]; cbn match.
  rewrite (rd_skip 3) by done; cbn [drop]; rewrite !rd_32, !rd_64; cbn [fst ret]; by rewrite !uint64_in.
Qed.

(** A locator needs its signature. *)
Lemma parseLocator_none b : (4 <= length b)%nat -> le_val (take 4 b) <> directory64LocSignature -> rdRun parseLocator b = Ok (-1).
Proof.
  intros Hl Hs; unfold rdRun, parseLocator, bind, rdUint32, rdUint; rewrite (proj2 (Nat.ltb_ge _ _)) by lia.
  by rewrite (proj2 (Z.eqb_neq _ _)).
Qed.

(** ** NewReader on an archive behind other data *)
Section OpenArchive.
Context {R : Type} `{ReaderAtData R}.
Variables (r : R) (pre : bytes) (base : Z) (es : list entry) (cmt : bytes).

Definition front : bytes := pre ++ body es ++ directory base es.
Abbreviation records := (len es).
Abbreviation dsize := (dirSize base es).
Abbreviation dstart := (dirStart base es).
Abbreviation zip64 := (endZip64 records dsize dstart).
Abbreviation size := (len (ra_data r)).

(** The offsets are those in the file, or count from the archive's start.
    The last bytes in front of the end record are not those of a locator,
    and no other end record can be seen in the comment. *)
Record archiveOk : Prop := {
  ao_data : ra_data r = pre ++ archiveBytes base es cmt;
  ao_entries : Forall entryOk es;
  ao_base : base = len pre \/ base = 0 /\ zip64 = false;
  ao_size : size < 2 ^ 63;
  ao_comment : len cmt < 2 ^ 16;
  ao_oneSig : oneSig (endRecord records dsize dstart cmt);
  ao_noLocator : zip64 = false -> 20 <= len front -> le_val (take 4 (drop (length front - 20) front)) <> directory64LocSignature
}.
Hypothesis Hok : archiveOk.

Lemma archive_data : ra_data r = front ++ end64 records dsize dstart ++ endRecord records dsize dstart cmt.
Proof. rewrite (ao_data Hok); unfold archiveBytes, endBytes, front; by rewrite <- !app_assoc. Qed.

Lemma readAtBuf_full n off :
  0 <= n -> 0 <= off -> off + n <= size ->
  exists e, readAtBuf r n off = (slice (ra_data r) off (off + n), e) /\ (e = None \/ e = Some EOF /\ off + n = size).
Proof.
  intros Hn Ho Hs; destruct (read_at_full r n off Hn Ho Hs) as (e & E & He); exists e; split; [|done].
  unfold readAtBuf; rewrite E, len_slice by lia; replace (off + n - off) with n by lia; by rewrite Z.sub_diag, app_nil_r.
Qed.

Lemma len_endRecord : len (endRecord records dsize dstart cmt) = 22 + len cmt.
Proof. unfold endRecord; rewrite len_app; f_equal; rewrite len_encFields; by destruct zip64. Qed.

Lemma len_front : len front = len pre + len (body es) + dsize.
Proof. unfold front; rewrite !len_app; unfold dirSize; lia. Qed.

Lemma len_end64 : len (end64 records dsize dstart) = if zip64 then 76 else 0.
Proof. unfold end64; destruct zip64; [|done]; by rewrite len_app, !len_encFields. Qed.

Lemma base_range : 0 <= base <= len pre.
Proof. pose proof (len_nonneg pre); destruct (ao_base Hok) as [?|[? _]]; lia. Qed.

Lemma sizes : size = len front + (if zip64 then 76 else 0) + 22 + len cmt.
Proof. rewrite archive_data, !len_app, len_endRecord, len_end64; lia. Qed.

(** The last 65 kB hold the end record. *)
Lemma tail_data n : n <= size -> 22 + len cmt <= n -> exists a, slice (ra_data r) (size - n) size = a ++ endRecord records dsize dstart cmt /\ len a = n - 22 - len cmt.
Proof.
  intros Hn Hc; pose proof len_endRecord as L; set (E := endRecord records dsize dstart cmt) in *.
  exists (drop (Z.to_nat (size - n)) (front ++ end64 records dsize dstart)).
  assert (Es : size = len (front ++ end64 records dsize dstart) + (22 + len cmt)) by (rewrite archive_data, app_assoc, len_app; fold E; lia).
  split.
  - unfold slice; rewrite take_ge by (unfold len; rewrite length_drop; lia).
    assert (Hk : (Z.to_nat (size - n) <= length (front ++ end64 records dsize dstart))%nat) by (unfold len in *; lia).
    generalize dependent (Z.to_nat (size - n)); intros k Hk; rewrite archive_data, app_assoc; fold E; by apply drop_app_le.
  - unfold len in *; rewrite length_drop; lia.
Qed.

Definition dirEndOf (skip : Z) : directoryEnd -> Prop := fun d =>
  directoryOffset d = len pre + len (body es) /\ int64 (startSkipLen d) = len pre - base /\ directoryRecords d = records /\ comment d = cmt.

(** The directory's offset, with the padding in front taken into account. *)
Lemma adjustOffset_ok d0 c :
  c = len pre + len (body es) -> directoryOffset d0 = dstart -> startSkipLen d0 = 0 ->
  let d := adjustOffset size c d0 in
  directoryOffset d = c /\ int64 (startSkipLen d) = len pre - base /\ directoryRecords d = directoryRecords d0 /\ comment d = comment d0.
Proof.
  intros -> Ho Hs; pose proof base_range; pose proof sizes as Es; rewrite len_front in Es; pose proof (ao_size Hok).
  pose proof (len_nonneg pre); pose proof (len_nonneg (body es)); pose proof (len_nonneg cmt).
  assert (0 <= dsize) by (unfold dirSize; apply len_nonneg).
  assert (0 <= if zip64 then 76 else 0) by by destruct zip64.
  unfold adjustOffset; rewrite Ho; unfold dirStart; rewrite int64_id by (unfold in_int64; lia).
  rewrite (proj2 (Z.ltb_lt _ size)) by lia; rewrite andb_true_r.
  destruct (Z.ltb_spec 0 (len pre + len (body es))).
  - destruct (Z.eqb_spec (len pre + len (body es)) (base + len (body es))); cbn [negb].
    + rewrite Hs, Ho; unfold dirStart; change (int64 0) with 0; split_and!; done || lia.
    + unfold setDirectoryOffset; cbn [directoryOffset startSkipLen directoryRecords comment].
      assert (U : uint64 (len pre + len (body es)) = len pre + len (body es)) by (apply uint64_in; unfold in_uint; lia).
      rewrite U, int64_uint64 by (unfold in_int64; lia); split_and!; try done; lia.
  - rewrite Hs, Ho; unfold dirStart; change (int64 0) with 0; split_and!; done || lia.
Qed.

Lemma readAtBuf_inside n off :
  0 <= n -> 0 <= off -> off + n < size -> readAtBuf r n off = (slice (ra_data r) off (off + n), None).
Proof. intros Hn Ho Hs; destruct (readAtBuf_full n off Hn Ho ltac:(lia)) as (e & E & [-> | [_ ?]]); [done | lia]. Qed.

(** Without zip64 records: no locator. *)
Lemma tryDirectory64_none d0 : zip64 = false -> tryDirectory64 r (len front) d0 = Ok (d0, None).
Proof.
  intros Hz; unfold tryDirectory64, findDirectory64End, directory64LocLen; pose proof sizes as Es; rewrite Hz in Es.
  pose proof (len_nonneg cmt); destruct (Z.ltb_spec (len front - 20) 0); [done|].
  rewrite readAtBuf_inside by lia; replace (slice (ra_data r) (len front - 20) (len front - 20 + 20)) with (drop (length front - 20) front).
  - rewrite parseLocator_none; [done | rewrite length_drop; unfold len in *; lia | apply (ao_noLocator Hok); [done | lia]].
  - unfold slice; rewrite archive_data, drop_app_le by (unfold len; lia).
    rewrite take_app_length' by (rewrite length_drop; unfold len in *; lia); f_equal; unfold len in *; lia.
Qed.

(** With them: the record is found through the locator. *)
Lemma tryDirectory64_found d0 :
  zip64 = true -> startSkipLen d0 = 0 -> comment d0 = cmt ->
  exists d, tryDirectory64 r (len front + 76) d0 = Ok (d, Some (len front)) /\
    directoryRecords d = records /\ directorySize d = dsize /\ directoryOffset d = dstart /\ startSkipLen d = 0 /\ comment d = cmt.
Proof.
  intros Hz Hs Hc; pose proof sizes as Es; rewrite Hz in Es; pose proof (len_nonneg cmt); pose proof len_front as Lf.
  pose proof (len_nonneg pre); pose proof (len_nonneg (body es)); pose proof (ao_size Hok).
  assert (0 <= dsize) by (unfold dirSize; apply len_nonneg).
  assert (Eb : base = len pre) by (destruct (ao_base Hok) as [|[_ ?]]; congruence).
  assert (Ed : dstart + dsize = len front) by (unfold dirStart; lia).
  assert (Rr : len es < 2 ^ 64) by (pose proof (dirSize_count base es); unfold directoryHeaderLen in *; lia).
  pose proof archive_data as Da; unfold end64 in Da; rewrite Hz, Ed in Da.
  set (A := encFields (end64Fields records dsize dstart (len front))) in *; set (B := encFields (locatorFields (len front))) in *.
  assert (La : len A = 56) by (unfold A; by rewrite len_encFields); assert (Lb : len B = 20) by (unfold B; by rewrite len_encFields).
  unfold tryDirectory64, findDirectory64End, directory64LocLen; rewrite (proj2 (Z.ltb_ge _ 0)) by lia.
  rewrite readAtBuf_inside by lia.
  assert (SB : slice (ra_data r) (len front + 76 - 20) (len front + 76 - 20 + 20) = B).
  { rewrite Da, <- (app_assoc A), (app_assoc front); apply slice_at; rewrite ?len_app; lia. }
  rewrite SB; unfold B; rewrite parseLocator_locator, int64_uint64 by (unfold in_int64; lia); rewrite (proj2 (Z.leb_le _ _)) by lia.
  unfold readDirectory64End, directory64EndLen; rewrite readAtBuf_inside by lia.
  assert (SA : slice (ra_data r) (len front) (len front + 56) = A).
  { rewrite Da, <- (app_assoc A); apply slice_at; lia. }
  pose proof (len_nonneg es); rewrite SA; unfold A; rewrite parseDirectory64End_end by (unfold in_uint, dirStart in *; lia).
  eexists; split; [done|]; cbn; rewrite Hs, Hc; done.
Qed.

Lemma readDirectoryEnd_ok : exists d, readDirectoryEnd r size = Ok d /\
  directoryOffset d = len pre + len (body es) /\ int64 (startSkipLen d) = len pre - base /\ directoryRecords d = records /\ comment d = cmt.
Proof.
  pose proof sizes as Es; pose proof (len_nonneg cmt); pose proof (ao_comment Hok) as Hc; pose proof len_front as Lf.
  pose proof (len_nonneg pre); pose proof (len_nonneg (body es)); pose proof (ao_size Hok); pose proof base_range.
  assert (0 <= dsize) by (unfold dirSize; apply len_nonneg); assert (0 <= if zip64 then 76 else 0) by by destruct zip64.
  unfold readDirectoryEnd; set (bLen := if size <? 65 * 1024 then size else 65 * 1024).
  assert (HbL : 22 + len cmt <= bLen <= size) by (unfold bLen; destruct (Z.ltb_spec size (65 * 1024)); lia).
  rewrite (proj2 (Z.ltb_ge bLen 0)) by lia.
  destruct (readAtBuf_full bLen (size - bLen)) as (e & -> & He); [lia..|]; replace (size - bLen + bLen) with size by lia.
  assert ((if bool_decide (e = Some EOF) then None else e) = None) as -> by (destruct He as [-> | [-> _]]; done).
  destruct (tail_data bLen ltac:(lia) ltac:(lia)) as (a & -> & La).
  pose proof (ao_oneSig Hok) as Hsig; unfold endRecord in *; set (rec := if zip64 then endFields uint16max uint32max uint32max (len cmt) else endFields records dsize dstart (len cmt)) in *.
  assert (Hrec : exists rr ss oo, rec = endFields rr ss oo (len cmt) /\
    (zip64 = false -> uint16 rr = records /\ uint32 ss = dsize /\ uint32 oo = dstart)).
  { unfold rec; destruct zip64 eqn:Hz; [by do 3 eexists|]; do 3 eexists; split; [done|]; intros _; unfold endZip64 in Hz.
    apply orb_false_iff in Hz as [[Z1%Z.leb_gt Z2%Z.leb_gt]%orb_false_iff Z3%Z.leb_gt]; unfold uint16max, uint32max in *.
    pose proof (len_nonneg es); rewrite uint16_in, !uint32_in by (unfold in_uint, dirStart in *; lia); done. }
  destruct Hrec as (rr & ss & oo & Er & Hv); rewrite Er in *; rewrite findSignatureInBlock_end by done.
  pose proof (len_nonneg a); rewrite (proj2 (Z.ltb_ge (len a) 0)) by lia.
  assert (Da : drop (Z.to_nat (len a)) (a ++ encFields (endFields rr ss oo (len cmt)) ++ cmt) = encFields (endFields rr ss oo (len cmt)) ++ cmt)
    by (apply drop_app_length'; unfold len; lia).
  rewrite Da, parseDirectoryEnd_end by done; cbn [obind].
  set (d0 := mkDirectoryEnd _ _ _ _ _ _ _ _ _).
  destruct zip64 eqn:Hz.
  - replace (size - bLen + len a) with (len front + 76) by lia.
    destruct (tryDirectory64_found d0 Hz eq_refl eq_refl) as (d & -> & R1 & R2 & R3 & R4 & R5); cbn [obind]; rewrite R2.
    assert (Eb : base = len pre) by (destruct (ao_base Hok) as [|[_ ?]]; congruence).
    rewrite (int64_id dsize), (int64_id (len front - dsize)) by (unfold in_int64; lia).
    replace (len front - dsize) with (len pre + len (body es)) by lia.
    destruct (adjustOffset_ok d _ eq_refl R3 R4) as (A1 & A2 & A3 & A4); rewrite A1, int64_id by (unfold in_int64; lia).
    rewrite (proj2 (Z.ltb_ge _ 0)), (proj2 (Z.leb_gt size _)) by lia; cbn [orb]; eexists; split; [done|]; split_and!; congruence.
  - destruct (Hv eq_refl) as (V1 & V2 & V3); replace (size - bLen + len a) with (len front) by lia.
    rewrite tryDirectory64_none by done; cbn [obind]; change (directorySize d0) with (uint32 ss); rewrite V2.
    rewrite (int64_id dsize), (int64_id (len front - dsize)) by (unfold in_int64; lia).
    replace (len front - dsize) with (len pre + len (body es)) by lia.
    destruct (adjustOffset_ok d0 _ eq_refl V3 eq_refl) as (A1 & A2 & A3 & A4); rewrite A1, int64_id by (unfold in_int64; lia).
    rewrite (proj2 (Z.ltb_ge _ 0)), (proj2 (Z.leb_gt size _)) by lia; cbn [orb]; eexists; split; [done|]; split_and!; try done.
    rewrite A3; unfold d0; cbn; by rewrite V1.
Qed.

Lemma endBytes_notHeader : notHeader (end64 records dsize dstart ++ endRecord records dsize dstart cmt).
Proof.
  unfold end64, endRecord, notHeader; destruct zip64.
  - exists directory64EndSignature; eexists; split; [unfold end64Fields; cbn [encFields]; by rewrite <- !app_assoc | done].
  - exists directoryEndSignature; eexists; split; [unfold endFields; cbn [encFields app]; by rewrite <- !app_assoc | done].
Qed.

(** The files of the archive. *)
Definition archiveFiles : list File := (fun '(e, o) => mkFile (readHdr e o) size (o - base + len pre)) <$> placed base es.

Lemma NewReader_ok {D} db cp sj fuel :
  Forall (fun f => undecoded f = false) archiveFiles -> size < Z.of_nat fuel -> (46 <= fuel)%nat ->
  NewReader (D := D) db cp sj fuel r size = Ok (mkReader r archiveFiles cmt ∅).
Proof.
  intros Hn Hf H46; destruct readDirectoryEnd_ok as (d & E & D1 & D2 & D3 & D4).
  pose proof sizes as Es; pose proof (len_nonneg cmt); pose proof len_front as Lf; pose proof base_range.
  pose proof (len_nonneg pre); pose proof (len_nonneg (body es)); pose proof (ao_size Hok).
  pose proof (dirSize_count base es) as Dc; pose proof (len_nonneg es); unfold directoryHeaderLen in Dc.
  assert (0 <= if zip64 then 76 else 0) by by destruct zip64.
  unfold NewReader; rewrite E; cbn [obind]; rewrite D3, uint64_in by (unfold in_uint; lia).
  rewrite (proj2 (Z.ltb_ge _ _)) by (apply Z.div_le_lower_bound; unfold fileHeaderLen; lia).
  unfold sectionSeekStart, NewSectionReader; cbn [sec_base sec_r sec_limit]; rewrite D1, Z.add_0_r, Z.add_0_l.
  rewrite (int64_id (int64 _)), !int64_id by (unfold in_int64; rewrite ?int64_id; unfold in_int64; lia).
  rewrite (proj2 (Z.ltb_ge _ 0)) by lia.
  set (s := mkSection r 0 (len pre + len (body es)) size).
  assert (Is : sectionInv (directory base es ++ end64 records dsize dstart ++ endRecord records dsize dstart cmt) s).
  { split; [cbn; lia|]; split; [cbn; lia|]; cbn [sec_r sec_off sec_limit s]; unfold slice.
    rewrite take_ge by (unfold len; rewrite length_drop; unfold len in *; lia).
    rewrite archive_data; unfold front; rewrite (app_assoc pre), <- app_assoc; symmetry; apply drop_app_length'.
    rewrite length_app; unfold len; lia. }
  destruct (readHeaders_entries ioRead (bufioInv sectionInv) es base fuel fuel size (startSkipLen d) (end64 records dsize dstart ++ endRecord records dsize dstart cmt) (NewBufioReader s)) as (err & t' & Eh).
  - exists (directory base es ++ end64 records dsize dstart ++ endRecord records dsize dstart cmt); cbn; auto.
  - apply Hok.
  - apply endBytes_notHeader.
  - lia.
  - lia.
  - pose proof (len_endRecord) as L1; pose proof len_end64 as L2; unfold dirSize in *; unfold len in *; rewrite !length_app; lia.
  - done.
  - unfold len in *; lia.
  - rewrite Eh; cbn [obind fst].
    assert (Ef : fileOf size (startSkipLen d) <$> placed base es = archiveFiles).
    { unfold archiveFiles; apply list_fmap_ext; intros i [e o] Hi; unfold fileOf; cbn [fst snd]; rewrite D2; f_equal.
      apply list_elem_of_lookup_2, placed_at in Hi as (A & B & Eb & ->); pose proof (len_nonneg A); pose proof (len_nonneg (entryBytes e ++ B)).
      pose proof (f_equal len Eb) as Lb; rewrite len_app in Lb; rewrite int64_id by (unfold in_int64; lia); lia. }
    rewrite Ef; assert (len archiveFiles = records) as -> by (unfold archiveFiles, len; by rewrite length_fmap, placed_length).
    rewrite Z.eqb_refl; cbn [negb]; by rewrite normalize_none, D4.
Qed.
End OpenArchive.
