(* ===== verification/ZipContents.v ===== *)
(** * Reading the files of an archive

    [Open] on a file of an archive the writer has written, with a
    decompressor that undoes the compression: the contents are read to the
    end and the checksum agrees. *)
From S2P Require Import Prelude GoInt GoString GoTime GoDate GoIO GoPath GoBufio.
From S2P Require Import ZipStruct ZipNames ZipBuf ZipReader ZipOpen ZipSafety ZipWriter ZipArchive ZipDirectory.
Open Scope go_scope.

(** What a decompressor promises: on a section that holds compressed bytes
    it delivers the contents. [encodes z p] says that [z] is a compressed
    form of [p]. *)
Class DecompressorOk {R X} `{ReaderAtData R} `{IoReader X} (dcomp : Decompressor R X) (encodes : bytes -> bytes -> Prop) := {
  dec_inv : bytes -> readCloser R X -> Prop;
  dec_reads : ReadsTo ioRead dec_inv;
  dec_open : forall z p s f, encodes z p -> sectionInv z s -> dec_inv p (dcomp s f)
}.
#[export] Existing Instance dec_reads.

(** Stored files. *)
Definition storeDecompressor {R X} : Decompressor R X := fun s _ => NopCloser s.

Definition storeInv {R X} `{ReaderAtData R} (out : bytes) (rc : readCloser R X) : Prop :=
  exists s, rc = NopCloser s /\ sectionInv out s.

#[export] Instance store_DecompressorOk {R X} `{ReaderAtData R} `{IoReader X} :
  DecompressorOk (storeDecompressor (R := R) (X := X)) eq.
Proof.
  unshelve econstructor; [exact storeInv | |].
  - intros out rc n (s & -> & Hs) Hn; destruct (reads_step out s n Hs Hn) as (bs & e & s' & E & Hl & Hc).
    unfold ioRead in E |- *; cbn [io_read rc_IoReader rcRead]; destruct (io_read s n) as [[bs0 e0] s0]; injection E as -> -> ->.
    do 3 eexists; split; [reflexivity|]; split; [done|].
    destruct Hc as [(-> & Hb & out' & -> & Hs') | (-> & -> & Hs')]; [left | right]; (split; [done|]; split; [done|]).
    + exists out'; split; [done | by exists s'].
    + by exists s'.
  - intros z p s f <- Hs; by exists s.
Defined.

(** ** The data descriptor *)
Lemma readDataDescriptor_ok {T} (rd : readMethod T) (Inv : bytes -> T -> Prop) `{!ReadsTo rd Inv} fuel f (c : Z) (rest : bytes) t :
  Inv (encFields [(4%nat, dataDescriptorSignature); (4%nat, c)] ++ rest) t -> len rest = 8 -> (16 <= fuel)%nat -> uint32 c = fh_CRC32 (f_hdr f) ->
  exists t', readDataDescriptor rd fuel f t = (Ok tt, t').
Proof.
  intros Ht Hl Hf Hc; cbn [encFields] in Ht; rewrite app_nil_r, <- app_assoc in Ht.
  destruct (readFull_enough rd Inv fuel _ _ 4 t Ht) as (t1 & E1 & Ht1); [apply len_le_bytes | rewrite length_le_bytes; lia |].
  destruct (readFull_enough rd Inv fuel (le_bytes 4 c ++ rest) [] 12 t1) as (t2 & E2 & _).
  { by rewrite app_nil_r. }
  { rewrite len_app, len_le_bytes; lia. }
  { unfold len in Hl; rewrite length_app, length_le_bytes; lia. }
  exists t2; unfold readDataDescriptor, bind at 1; rewrite E1; unfold bind at 1, lift at 1, rdRun at 1.
  rewrite <- (app_nil_r (le_bytes 4 dataDescriptorSignature)), rdUint32_le; cbn [fst].
  change (negb (uint32 dataDescriptorSignature =? dataDescriptorSignature)) with false; cbn match; unfold bind; rewrite E2.
  unfold lift, rdRun; rewrite rdUint32_le; cbn [fst]; by rewrite Hc, Z.eqb_refl.
Qed.

(** ** A checked reader delivers the contents *)
Section Checked.
Context {R X : Type} `{ReaderAtData R} `{IoReader X} `{IoCloser X}.
Context (dcomp : Decompressor R X) (encodes : bytes -> bytes -> Prop) `{!DecompressorOk dcomp encodes}.
Variables (f : File) (data : bytes) (fuel : nat).
Hypothesis Hfuel : (16 <= fuel)%nat.
Hypothesis Hsize : uint64 (len data) = fh_UncompressedSize64 (f_hdr f).
Hypothesis Hcrc : ChecksumIEEE data = fh_CRC32 (f_hdr f).

(** The data descriptor, as far as it is looked at. *)
Definition descBytes (d : bytes) : Prop :=
  exists c rest, d = encFields [(4%nat, dataDescriptorSignature); (4%nat, c)] ++ rest /\ len rest = 8 /\ uint32 c = fh_CRC32 (f_hdr f).

Definition checkedInv (out : bytes) (r : checksumReader R X) : Prop :=
  (exists acc d desc, data = acc ++ out /\ dec_inv out (cs_rc r) /\ csInv f true acc r /\ cs_desr r = Some d /\ sectionInv desc d /\ descBytes desc) \/
  (out = [] /\ cs_err r = Some EOF).

#[export] Instance checked_ReadsTo : ReadsTo (checksumRead fuel) checkedInv.
Proof.
  intros out r n [(acc & d & desc & Hd & Hr & Hc & Hs & Hds & (c & rest & -> & Hl & Hcc)) | [-> He]] Hn; unfold checksumRead.
  - destruct Hc as (Cf & Cd & Ce & Ch & Cn); rewrite Ce.
    destruct (reads_step out (cs_rc r) n Hr Hn) as (bs & e & rc & E & Hl' & Hcase); unfold ioRead in E.
    destruct (io_read (cs_rc r) n) as [[bs0 e0] rc0]; injection E as -> -> ->.
    assert (Hash : crcUpdate (cs_hash r) bs = ChecksumIEEE (acc ++ bs)) by (rewrite Ch; unfold ChecksumIEEE; by rewrite crcUpdate_app).
    assert (Read : uint64 (cs_nread r + len bs) = uint64 (len (acc ++ bs)))
      by (rewrite Cn, len_app; unfold uint64, wrapu; by rewrite Zplus_mod_idemp_l).
    rewrite Hash, Read.
    destruct Hcase as [(-> & Hb & out' & -> & Hr') | (-> & -> & Hr')].
    + do 3 eexists; split; [reflexivity|]; split; [done|]; left; split; [done|]; split; [done|]; exists out'; split; [done|].
      left; exists (acc ++ bs), d; eexists; split; [by rewrite <- app_assoc|]; split; [done|]; split; [by split_and!|]; split; [done|]; split; [exact Hds|].
      by exists c, rest.
    + rewrite bool_decide_eq_true_2 by done; cbn [cs_nread cs_f]; rewrite <- Hd, Cf, Hsize, Z.eqb_refl; cbn [negb].
      unfold csEOF; cbn [cs_desr cs_f]; rewrite Hs.
      destruct (readDataDescriptor_ok ioRead sectionInv fuel f c rest d Hds Hl Hfuel Hcc) as (d' & ->).
      cbn [cs_hash cs_f]; rewrite Hcrc, Z.eqb_refl; do 3 eexists; split; [reflexivity|]; split; [done|]; right; split; [done|]; split; [done|].
      by right.
  - rewrite He; do 3 eexists; split; [reflexivity|]; split; [rewrite (@len_nil Z); lia|]; right; split; [done|]; split; [done|]; by right.
Qed.
End Checked.

(** ** Open on a file of the archive *)
Section OpenFile.
Context {R X : Type} `{ReaderAtData R} `{IoReader X} `{IoCloser X}.
Variables (r : R) (pre : bytes) (base : Z) (es : list entry) (cmt : bytes).
Hypothesis Hok : archiveOk r pre base es cmt.
Variables (e : entry) (o : Z).
Hypothesis Hin : (e, o) ∈ placed base es.

Definition fileAt : File := mkFile (readHdr e o) (len (ra_data r)) (o - base + len pre).

(** The bytes in front of the contents, the contents and the descriptor. *)
Definition localBytes : bytes := encFields (localFields (e_hdr e)) ++ fh_Name (e_hdr e) ++ fh_Extra (e_hdr e).

Lemma entry_layout : exists A B, ra_data r = A ++ localBytes ++ e_comp e ++ encFields (descriptorFields (finalHdr e)) ++ B /\
  len A = f_headerOffset fileAt /\ entryOk e /\ 0 < len B.
Proof.
  destruct (placed_at _ _ _ _ Hin) as (A & B & E & ->).
  exists (pre ++ A), (B ++ directory base es ++ endBytes base es cmt); split; [|split; [|split]].
  - rewrite (ao_data _ _ _ _ _ Hok); unfold archiveBytes, localBytes; rewrite E; unfold entryBytes; by rewrite <- !app_assoc.
  - cbn [fileAt f_headerOffset]; rewrite len_app; lia.
  - pose proof (ao_entries _ _ _ _ _ Hok) as Hes; rewrite Forall_forall in Hes; apply Hes; by eapply placed_in.
  - rewrite !len_app; unfold endBytes; rewrite len_app.
    pose proof (len_endRecord base es cmt); pose proof (len_nonneg cmt); pose proof (len_nonneg B).
    pose proof (len_nonneg (directory base es)); pose proof (len_nonneg (end64 (len es) (dirSize base es) (dirStart base es))); lia.
Qed.

Lemma len_localBytes : len localBytes = 30 + len (fh_Name (e_hdr e)) + len (fh_Extra (e_hdr e)).
Proof. unfold localBytes; rewrite !len_app, len_encFields; cbn [foldr localFields fst Nat.add]; lia. Qed.

Lemma findBodyOffset_ok : findBodyOffset r fileAt = Ok (len localBytes).
Proof.
  destruct entry_layout as (A & B & E & La & He & HB); unfold findBodyOffset, fileHeaderLen; rewrite <- La.
  pose proof (len_nonneg A); pose proof len_localBytes as Ll; pose proof (len_nonneg (fh_Name (e_hdr e))); pose proof (len_nonneg (fh_Extra (e_hdr e))).
  pose proof (len_nonneg (e_comp e)); pose proof (len_nonneg (encFields (descriptorFields (finalHdr e)))).
  assert (Lr : len (ra_data r) = len A + len localBytes + len (e_comp e) + len (encFields (descriptorFields (finalHdr e))) + len B)
    by (rewrite E, !len_app; lia).
  rewrite (readAtBuf_inside r) by lia.
  assert (S : slice (ra_data r) (len A) (len A + 30) = encFields (localFields (e_hdr e))).
  { rewrite E; unfold localBytes; rewrite <- !app_assoc; apply slice_at; [done | by rewrite len_encFields]. }
  rewrite S, parseLocalHeader_local, Ll; do 2 f_equal; [f_equal|]; apply uint16_in; unfold in_uint; pose proof (eo_name e He); pose proof (eo_extraLen e He); lia.
Qed.

Lemma section_at A (z B : bytes) : ra_data r = A ++ z ++ B -> len (ra_data r) < 2 ^ 63 -> sectionInv z (NewSectionReader r (len A) (len z)).
Proof.
  intros E Hs; pose proof (len_nonneg A); pose proof (len_nonneg z); pose proof (len_nonneg B).
  assert (Lr : len (ra_data r) = len A + len z + len B) by (rewrite E, !len_app; lia).
  unfold sectionInv, NewSectionReader; cbn [sec_off sec_limit sec_r]; rewrite int64_id by (unfold in_int64; lia).
  split; [lia|]; split; [lia|]; rewrite E; symmetry; by apply slice_at.
Qed.

Lemma descriptor_bytes : exists d d', encFields (descriptorFields (finalHdr e)) = d ++ d' /\ len d = 16 /\ descBytes fileAt d.
Proof.
  set (h := finalHdr e); assert (Hc : fh_CRC32 (f_hdr fileAt) = fh_CRC32 h) by (cbn; unfold dirHdr; by destruct (needsZip64 _ _)).
  assert (Hr : uint32 (fh_CRC32 h) = fh_CRC32 h).
  { apply uint32_in; unfold h, finalHdr, finishSizes; destruct (_ || _); apply ChecksumIEEE_range. }
  unfold descriptorFields, descBytes; destruct (isZip64 h).
  - exists (encFields [(4%nat, dataDescriptorSignature); (4%nat, fh_CRC32 h); (8%nat, fh_CompressedSize64 h)]), (encFields [(8%nat, fh_UncompressedSize64 h)]).
    split; [by rewrite <- encFields_app|]; split; [by rewrite len_encFields|].
    exists (fh_CRC32 h), (encFields [(8%nat, fh_CompressedSize64 h)]); rewrite Hc; split; [by rewrite <- encFields_app|]; split; [by rewrite len_encFields | done].
  - exists (encFields [(4%nat, dataDescriptorSignature); (4%nat, fh_CRC32 h); (4%nat, fh_CompressedSize h); (4%nat, fh_UncompressedSize h)]), [].
    split; [by rewrite app_nil_r|]; split; [by rewrite len_encFields|].
    exists (fh_CRC32 h), (encFields [(4%nat, fh_CompressedSize h); (4%nat, fh_UncompressedSize h)]); rewrite Hc.
    split; [by rewrite <- encFields_app|]; split; [by rewrite len_encFields | done].
Qed.

Context (dcomp : Decompressor R X) (encodes : bytes -> bytes -> Prop) `{!DecompressorOk dcomp encodes}.

Lemma FileOpen_ok pkg z :
  r_r z = r -> decompressor pkg z (fh_Method (e_hdr e)) = Some dcomp -> encodes (e_comp e) (e_data e) ->
  exists cs, FileOpen pkg z fileAt = Ok cs /\ checkedInv dcomp encodes fileAt (e_data e) (e_data e) cs.
Proof.
  intros Hr Hdc Henc; destruct entry_layout as (A & B & E & La & He & HB); destruct descriptor_bytes as (d & d' & Ed & Ld & Hd).
  pose proof (ao_size _ _ _ _ _ Hok) as Hs; pose proof (len_nonneg A); pose proof (len_nonneg localBytes); pose proof (len_nonneg (e_comp e)).
  pose proof (len_nonneg d'); pose proof (len_nonneg B); pose proof (eo_sizes e He) as [_ Hcl].
  assert (Lr : len (ra_data r) = len A + len localBytes + len (e_comp e) + len d + len d' + len B) by (rewrite E, Ed, !len_app; lia).
  assert (Em : fh_Method (f_hdr fileAt) = fh_Method (e_hdr e)).
  { cbn; unfold dirHdr, finalHdr, finishSizes; destruct (needsZip64 _ _), (_ || _); done. }
  assert (Ef : hasDataDescriptor fileAt = true).
  { unfold hasDataDescriptor; assert (fh_Flags (f_hdr fileAt) = fh_Flags (e_hdr e)) as ->; [|apply He].
    cbn; unfold dirHdr, finalHdr, finishSizes; destruct (needsZip64 _ _), (_ || _); done. }
  unfold FileOpen; rewrite Hr, findBodyOffset_ok, Em, Hdc, Ef, <- La; cbn [obind].
  assert (Ec : fh_CompressedSize64 (f_hdr fileAt) = len (e_comp e)) by done.
  rewrite Ec, (int64_id (len (e_comp e))), (int64_id (len A + len localBytes)) by (unfold in_int64; lia).
  rewrite int64_id by (unfold in_int64; lia).
  eexists; split; [done|]; left.
  exists [], (NewSectionReader r (len A + len localBytes + len (e_comp e)) dataDescriptorLen), d; split; [done|]; split_and!; try done.
  - apply (dec_open (dcomp := dcomp) (encodes := encodes) (e_comp e)); [done|]; cbn [cs_rc].
    rewrite <- (len_app A); apply (section_at _ _ (d ++ d' ++ B)); [|done].
    by rewrite E, Ed, <- !app_assoc.
  - unfold dataDescriptorLen; rewrite <- Ld, <- (len_app A), <- len_app; apply (section_at _ _ (d' ++ B)); [|done].
    by rewrite E, Ed, <- !app_assoc.
Qed.

(** The contents, to the end. *)
Lemma ReadAll_file pkg z fuel k :
  r_r z = r -> decompressor pkg z (fh_Method (e_hdr e)) = Some dcomp -> encodes (e_comp e) (e_data e) ->
  (16 <= fuel)%nat -> (length (e_data e) < k)%nat ->
  exists cs cs', FileOpen pkg z fileAt = Ok cs /\ ReadAll (checksumRead fuel) k cs = (Ok (e_data e, None), cs').
Proof.
  intros Hr Hdc Henc Hf Hk; destruct (FileOpen_ok pkg z Hr Hdc Henc) as (cs & E & Hi); exists cs.
  destruct entry_layout as (A & B & _ & _ & He & _).
  assert (Hsz : uint64 (len (e_data e)) = fh_UncompressedSize64 (f_hdr fileAt)).
  { change (uint64 (len (e_data e)) = len (e_data e)); apply uint64_in; pose proof (len_nonneg (e_data e)); destruct (eo_sizes e He); unfold in_uint; lia. }
  assert (Hcr : ChecksumIEEE (e_data e) = fh_CRC32 (f_hdr fileAt)).
  { cbn; unfold dirHdr, finalHdr, finishSizes; destruct (needsZip64 _ _), (_ || _); done. }
  pose proof (checked_ReadsTo dcomp encodes fileAt (e_data e) fuel Hf Hsz Hcr) as Hrt.
  destruct (ReadAll_spec (checksumRead fuel) _ k (e_data e) cs Hi Hk) as (cs' & E2 & _); by exists cs'.
Qed.
End OpenFile.
