(* ===== verification/ZipSink.v ===== *)
(** * The zip writer on a sink

    What each method of the writer appends, and what becomes of its
    directory and of the headers of the caller. *)
From S2P Require Import Prelude GoInt GoString GoTime GoDate GoIO GoPath GoBufio.
From S2P Require Import ZipStruct ZipNames ZipBuf ZipReader ZipRegister ZipWriter ZipArchive ZipDirectory.
Open Scope go_scope.

(** ** Sinks

    [good o u]: the state [u] is usable and the bytes written so far are
    [o]. A sink method accepts everything. *)
Class SinkMethod {U : Type} (wr : writeMethod U) (good : bytes -> U -> Prop) : Prop :=
  wr_sink : forall o u p, good o u -> exists u', wr p u = (Ok (len p, None), u') /\ good (o ++ p) u'.

Definition bufGood {W} `{IoSink W} (o : bytes) (b : bufioWriter W) : Prop := bufioOk b /\ bufioOut b = o.

#[export] Instance bufWrite_sink {W} `{IoSink W} : SinkMethod bufWrite bufGood.
Proof.
  intros o b p [Hb <-]; destruct (bufioWrite_sink b p Hb) as (b' & E & Hb' & Ho); by exists b'.
Qed.

(** A counter that started at [k]. *)
Definition countGood {U} (good : bytes -> U -> Prop) (k : Z) (o : bytes) (c : countWriter U) : Prop :=
  good o (ct_w c) /\ ct_count c = int64 (k + len o).

Lemma int64_add a b : int64 (int64 a + b) = int64 (a + b).
Proof.
  unfold int64, wraps; f_equal.
  replace ((a + 2 ^ (64 - 1)) mod 2 ^ 64 - 2 ^ (64 - 1) + b + 2 ^ (64 - 1)) with ((a + 2 ^ (64 - 1)) mod 2 ^ 64 + b) by lia.
  rewrite Zplus_mod_idemp_l; f_equal; lia.
Qed.

Lemma uint64_int64 a : uint64 (int64 a) = uint64 a.
Proof.
  unfold int64, uint64, wraps, wrapu; rewrite Zminus_mod_idemp_l; f_equal; lia.
Qed.

#[export] Instance countWrite_sink {U} (wr : writeMethod U) good `{!SinkMethod wr good} k : SinkMethod (countWrite wr) (countGood good k).
Proof.
  intros o c p [Hg Hc]; destruct (wr_sink o (ct_w c) p Hg) as (u' & E & Hg'); unfold countWrite; rewrite E.
  eexists; split; [done|]; split; [done|]; cbn [ct_count]; by rewrite Hc, int64_add, len_app, Z.add_assoc.
Qed.

(** ** What a compressor promises: with settings that [Validate] accepts, on
    a sink nothing fails, and what it has emitted when it is closed is a
    compressed form of what it was given. *)
Class CompressorOk {K} `{Compressing K} (comp : Compressor K) (encodes : bytes -> bytes -> Prop) := {
  ck_inv : writeCloser K -> bytes -> bytes -> Prop;
  ck_open : forall U (wr : writeMethod U) good (_ : SinkMethod wr good) s o u, Validate s = Ok tt -> good o u ->
    exists c, comp U wr s u = (Ok (inl c), u) /\ ck_inv c [] [];
  ck_write : forall U (wr : writeMethod U) good (_ : SinkMethod wr good) c plain z p o u, ck_inv c plain z -> good o u ->
    exists c' z' u', wcWrite wr c p u = (Ok (len p, None, c'), u') /\ good (o ++ z') u' /\ ck_inv c' (plain ++ p) (z ++ z');
  ck_close : forall U (wr : writeMethod U) good (_ : SinkMethod wr good) c plain z o u, ck_inv c plain z -> good o u ->
    exists c' z' u', wcClose wr c u = (Ok (None, c'), u') /\ good (o ++ z') u' /\ encodes (z ++ z') plain
}.

#[export] Instance store_CompressorOk {K} `{Compressing K} : CompressorOk storeCompressor eq.
Proof.
  unshelve econstructor; [exact (fun c plain z => c = nopCloser /\ plain = z) | | |].
  - intros U wr good Hw s o u _ Hg; by exists nopCloser.
  - intros U wr good Hw c plain z p o u [-> ->] Hg; destruct (wr_sink o u p Hg) as (u' & E & Hg').
    exists nopCloser, p, u'; unfold wcWrite, bind, ret; by rewrite E.
  - intros U wr good Hw c plain z o u [-> ->] Hg; exists nopCloser, [], u; by rewrite !app_nil_r.
Defined.

Lemma Forall2_impl' {A B} (P Q : A -> B -> Prop) l k :
  Forall2 P l k -> (forall x y, x ∈ l -> P x y -> Q x y) -> Forall2 Q l k.
Proof.
  induction 1 as [|x y l k Hxy _ IH]; intros HQ; constructor; [apply HQ; [by left | done]|].
  apply IH; intros x' y' Hx'; apply HQ; by right.
Qed.

(** ** The writer's own writes *)
Section Sink.
Context {W K : Type} `{IoSink W} `{Compressing K}.
Variable localOffset : Z -> Z.
Variable pkg : gmap Z (Compressor K).
(** The counter is [base] when the sink holds [pre]. *)
Variables (base : Z) (pre : bytes).

Definition cwGood (x : bytes) (w : Writer W K) : Prop := countGood bufGood (base - len pre) (pre ++ x) (zw_cw w).

Lemma cwWrite_sink x p w : cwGood x w -> exists cw, cwWrite p w = (Ok tt, setCw cw w) /\ cwGood (x ++ p) (setCw cw w).
Proof.
  intros Hw; destruct (wr_sink (wr := cwMethod) _ _ p Hw) as (cw & E & Hg); exists cw.
  unfold cwWrite; rewrite E; split; [done|]; unfold cwGood; cbn [zw_cw setCw]; by rewrite app_assoc.
Qed.

Lemma count_of x w : cwGood x w -> ct_count (zw_cw w) = int64 (base + len x).
Proof. intros [_ ->]; rewrite len_app; f_equal; lia. Qed.

Lemma setCw_twice c1 c2 (w : Writer W K) : setCw c2 (setCw c1 w) = setCw c2 w.
Proof. done. Qed.
Lemma setCw_self (w : Writer W K) : setCw (zw_cw w) w = w.
Proof. by destruct w. Qed.

(** Several writes in a row. *)
Lemma bind_ok {S A B} (m : M S A) (f : A -> M S B) s a s' : m s = (Ok a, s') -> bind m f s = f a s'.
Proof. unfold bind; by intros ->. Qed.

Lemma writeHeader_sink x h w :
  cwGood x w -> len (fh_Name h) < 2 ^ 16 -> len (fh_Extra h) < 2 ^ 16 ->
  exists cw, writeHeader h w = (Ok tt, setCw cw w) /\
    cwGood (x ++ encFields (localFields h) ++ fh_Name h ++ fh_Extra h) (setCw cw w).
Proof.
  intros Hw Hn He; unfold writeHeader; rewrite !(proj2 (Z.ltb_ge (2 ^ 16 - 1) _)) by lia.
  unfold bind at 1, lift; rewrite localHeader_eq.
  destruct (cwWrite_sink _ (encFields (localFields h)) w Hw) as (c1 & E1 & G1); rewrite (bind_ok _ _ _ _ _ E1).
  destruct (cwWrite_sink _ (fh_Name h) _ G1) as (c2 & E2 & G2); rewrite (bind_ok _ _ _ _ _ E2).
  destruct (cwWrite_sink _ (fh_Extra h) _ G2) as (c3 & E3 & G3); rewrite E3; exists c3; split; [done|].
  by rewrite <- !app_assoc in G3.
Qed.

(** ** States of the writer between calls *)
Variable codec : Z -> bytes -> bytes -> Prop.
Variable cmt : bytes.

(** The directory's entry of a file that has been closed. *)
Definition dirRel (w : Writer W K) (d : nat * Z) (p : entry * Z) : Prop :=
  zw_headers w !! d.1 = Some (finalHdr p.1) /\ d.2 = uint64 p.2.

Record common (x : bytes) (w : Writer W K) : Prop := {
  co_cw : cwGood x w;
  co_nodup : NoDup (fst <$> zw_dir w);
  co_open : zw_closed w = false;
  co_compressors : zw_compressors w = ∅;
  co_comment : zw_comment w = cmt;
  co_settings : Validate (zw_compressionSettings w) = Ok tt
}.

(** All files are closed. *)
Record settled (es : list entry) (w : Writer W K) : Prop := {
  se_common : common (body es) w;
  se_dir : Forall2 (dirRel w) (zw_dir w) (placed base es);
  se_last : match zw_last w with None => True | Some fl => exists fw, zw_files w !! fl = Some fw /\ fw_closed fw = true end
}.

(** The file [fl] is open: its header [h] is that of the pointer [l], it has
    taken [data] and emitted [z]. *)
Record opened (es : list entry) (h : FileHeader) (data z : bytes) (l fl : nat) (w : Writer W K) : Prop := {
  od_common : common (body es ++ (encFields (localFields h) ++ fh_Name h ++ fh_Extra h) ++ z) w;
  od_dir : exists dir, zw_dir w = dir ++ [(l, uint64 (base + len (body es)))] /\ Forall2 (dirRel w) dir (placed base es);
  od_header : zw_headers w !! l = Some h;
  od_last : zw_last w = Some fl;
  od_file : exists c comp (I : CompressorOk comp (codec (fh_Method h))),
    zw_files w !! fl = Some (mkFileWriter l (uint64 (base + len (body es))) (int64 (len data)) c (int64 (len z)) (ChecksumIEEE data) false) /\
    ck_inv (CompressorOk := I) c data z
}.

(** A call of the compressor. *)
Lemma onComp_sink {A} (m : M (countWriter (countWriter (bufioWriter W))) A) x z z' a w c2 :
  m (mkCount (zw_cw w) (int64 (len z))) = (Ok a, c2) ->
  countGood (countGood bufGood (base - len pre)) (- len (pre ++ x)) (pre ++ x ++ z ++ z') c2 ->
  onComp m (int64 (len z)) w = (Ok (a, int64 (len (z ++ z'))), setCw (ct_w c2) w) /\ cwGood (x ++ z ++ z') (setCw (ct_w c2) w).
Proof.
  intros E [Hg Hc]; unfold onComp; rewrite E; split; [|exact Hg].
  rewrite Hc, !len_app; do 4 f_equal; lia.
Qed.

Lemma compGood x z w : cwGood (x ++ z) w -> countGood (countGood bufGood (base - len pre)) (- len (pre ++ x)) (pre ++ x ++ z) (mkCount (zw_cw w) (int64 (len z))).
Proof. intros Hw; split; [exact Hw|]; cbn [ct_count]; rewrite !len_app; f_equal; lia. Qed.

Lemma common_upd x y w w' :
  common x w -> cwGood y w' -> fst <$> zw_dir w' = fst <$> zw_dir w -> zw_closed w' = zw_closed w -> zw_compressors w' = zw_compressors w ->
  zw_comment w' = zw_comment w -> zw_compressionSettings w' = zw_compressionSettings w -> common y w'.
Proof. intros [_ N ? ? ? ?] Hy Ed ? ? ? ?; split; [done | by rewrite Ed | congruence..]. Qed.

Lemma fileWrite_sink es h data z l fl p w :
  opened es h data z l fl w ->
  exists z' w', fileWrite fl p w = (Ok (len p, None), w') /\ opened es h (data ++ p) (z ++ z') l fl w' /\ zw_headers w' = zw_headers w.
Proof.
  intros [Hc Hd Hh Hl (c & comp & I & Hf & Hi)]; unfold fileWrite, theFile; unfold bind at 1; rewrite Hf; cbn [fw_closed fw_comp fw_compCount].
  pose proof (co_cw _ _ Hc) as Hw; rewrite app_assoc in Hw; set (X := body es ++ _) in Hw.
  destruct (ck_write _ (countWrite cwMethod) _ (countWrite_sink cwMethod _ _) c data z p _ _ Hi (compGood _ _ _ Hw)) as (c' & z' & u' & E & Hg & Hi').
  replace ((pre ++ X ++ z) ++ z') with (pre ++ X ++ z ++ z') in Hg by by rewrite <- !app_assoc.
  destruct (onComp_sink _ _ _ _ _ _ _ E Hg) as [E2 Hw2].
  exists z'; eexists; split; [by rewrite (bind_ok _ _ _ _ _ E2)|]; split; [|done].
  unfold X in Hw2; rewrite <- app_assoc in Hw2; cbn [fw_rawCount fw_crc32]; split.
  - eapply common_upd; [exact Hc | exact Hw2 | done..].
  - exact Hd.
  - exact Hh.
  - exact Hl.
  - exists c', comp, I; split; [|done]; cbn [zw_files setFiles setCw].
    rewrite list_lookup_insert_eq by (by eapply lookup_lt_Some); unfold setFw; cbn [fw_header fw_offset].
    rewrite int64_add, (len_app data); unfold ChecksumIEEE; by rewrite crcUpdate_app.
Qed.

(** The entry of a file that was open. *)
Lemma fileClose_sink es h data z xs l fl w :
  opened es h data z l fl w ->
  exists e w', fileClose fl w = (Ok tt, w') /\ settled (es ++ [e]) w' /\
    e_hdr e = h /\ e_extra e = xs /\ e_data e = data /\ codec (fh_Method h) (e_comp e) data /\
    zw_dir w' = zw_dir w /\ length (zw_headers w') = length (zw_headers w) /\ (forall l', l' <> l -> zw_headers w' !! l' = zw_headers w !! l').
Proof.
  intros [Hc (dir & Ed & Hd) Hh Hl (c & comp & I & Hf & Hi)]; unfold fileClose, theFile; unfold bind at 1; rewrite Hf; cbn [fw_closed fw_comp fw_compCount].
  pose proof (co_cw _ _ Hc) as Hw; rewrite app_assoc in Hw; set (X := body es ++ _) in Hw.
  destruct (ck_close _ (countWrite cwMethod) _ (countWrite_sink cwMethod _ _) c data z _ _ Hi (compGood _ _ _ Hw)) as (c' & z' & u' & E & Hg & Henc).
  replace ((pre ++ X ++ z) ++ z') with (pre ++ X ++ z ++ z') in Hg by by rewrite <- !app_assoc.
  destruct (onComp_sink _ _ _ _ _ _ _ E Hg) as [E2 Hw2]; rewrite (bind_ok _ _ _ _ _ E2); cbn [fw_rawCount fw_crc32 fw_header fw_offset].
  set (e := mkEntry h xs data (z ++ z')).
  assert (Fin : finishSizes (ChecksumIEEE data) (uint64 (int64 (len (z ++ z')))) (uint64 (int64 (len data))) h = finalHdr e) by by rewrite !uint64_int64.
  unfold bind at 1, setFile, modify; unfold bind at 1, theHeader; cbn [setFiles setCw zw_headers]; rewrite Hh, Fin.
  unfold bind at 1, setHeader, modify; unfold bind at 1, lift; rewrite dataDescriptor_eq.
  set (w1 := setHeaders _ _).
  assert (Hw3 : cwGood (X ++ z ++ z') w1) by exact Hw2.
  destruct (cwWrite_sink _ (encFields (descriptorFields (finalHdr e))) _ Hw3) as (cw & -> & Hw4).
  pose proof (co_nodup _ _ Hc) as Hnd; rewrite Ed, fmap_app, NoDup_app in Hnd; destruct Hnd as (Hn1 & Hn2 & _); cbn [fmap list_fmap fst] in Hn2.
  assert (Hne : forall l', l' ∈ fst <$> dir -> l' <> l) by (intros l' Hl' ->; apply (Hn2 _ Hl'); by left).
  exists e; eexists; split; [done|]; split; [|split_and!; try done].
  - split.
    + eapply common_upd; [exact Hc | | done..]; rewrite body_app; unfold body at 2; cbn [fmap list_fmap mjoin list_join]; rewrite app_nil_r.
      unfold X in Hw4; rewrite <- !app_assoc in Hw4; unfold entryBytes; cbn [e e_hdr e_comp]; by rewrite <- !app_assoc.
    + cbn [zw_dir setCw w1 setHeaders setFiles]; rewrite Ed, placed_app; apply Forall2_app.
      * eapply Forall2_impl'; [exact Hd|]; intros [l' o'] [e' p'] Hin [R1 R2]; split; [|done]; cbn [fst snd] in *.
        cbn [zw_headers setCw w1 setHeaders setFiles]; rewrite list_lookup_insert_ne; [done|]; symmetry; apply Hne.
        apply list_elem_of_fmap; by exists (l', o').
      * constructor; [|constructor]; split; [|done]; cbn [zw_headers setCw w1 setHeaders setFiles fst snd].
        apply list_lookup_insert_eq; by eapply lookup_lt_Some.
    + cbn [zw_last setCw w1 setHeaders setFiles zw_files]; rewrite Hl; eexists; split; [apply list_lookup_insert_eq; by eapply lookup_lt_Some | done].
  - cbn; by rewrite length_insert.
  - intros l' Hl'; cbn; by rewrite list_lookup_insert_ne.
Qed.

(** ** Between entries *)

(** What the caller wants in the archive: a header as [CreateHeader] leaves
    it, its extra fields and the contents. *)
Record plan := mkPlan { p_hdr : FileHeader; p_extra : extraFields; p_data : bytes }.

Definition carriesOut (p : plan) (e : entry) : Prop :=
  e_hdr e = p_hdr p /\ e_extra e = p_extra p /\ e_data e = p_data p /\ codec (fh_Method (p_hdr p)) (e_comp e) (p_data p).

(** The entries so far are written, the last one perhaps still open. *)
Definition ready (ps : list plan) (w : Writer W K) : Prop :=
  (exists es, Forall2 carriesOut ps es /\ settled es w) \/
  (exists ps' p es z l fl, ps = ps' ++ [p] /\ Forall2 carriesOut ps' es /\ opened es (p_hdr p) (p_data p) z l fl w).

(** The first lines of [CreateHeader] and [Close]. *)
Lemma lastOpen_settled es w : settled es w -> lastOpen w = (Ok None, w).
Proof.
  intros [_ _ Hl]; unfold lastOpen, bind, get; destruct (zw_last w) as [fl|]; [|done].
  destruct Hl as (fw & Hf & Hc); unfold theFile; by rewrite Hf, Hc.
Qed.

Lemma lastOpen_opened es h data z l fl w : opened es h data z l fl w -> lastOpen w = (Ok (Some fl), w).
Proof.
  intros [_ _ _ Hl (c & comp & I & Hf & _)]; unfold lastOpen, bind, get; rewrite Hl; unfold theFile; by rewrite Hf.
Qed.

Definition sameHeaders (w w' : Writer W K) : Prop :=
  zw_dir w' = zw_dir w /\ length (zw_headers w') = length (zw_headers w) /\
  (forall l, l ∉ (fst <$> zw_dir w) -> zw_headers w' !! l = zw_headers w !! l).

Lemma ready_close {A} ps w (after : M (Writer W K) unit) (k : M (Writer W K) A) :
  ready ps w -> (forall es w, settled es w -> exists w', after w = (Ok tt, w') /\ settled es w' /\ zw_headers w' = zw_headers w /\ zw_dir w' = zw_dir w) ->
  exists es w', Forall2 carriesOut ps es /\ settled es w' /\ sameHeaders w w' /\
    (let! open := lastOpen in do! (match open with Some fl => (do! fileClose fl; after) | None => ret tt end); k) w = k w'.
Proof.
  intros [(es & Hes & Hs) | (ps' & p & es & z & l & fl & -> & Hes & Ho)] Haft.
  - exists es, w; split; [done|]; split; [done|]; split; [by split_and!|].
    rewrite (bind_ok _ _ _ _ _ (lastOpen_settled _ _ Hs)); done.
  - destruct (fileClose_sink _ _ _ _ (p_extra p) _ _ _ Ho) as (e & w1 & E & Hs & E1 & E2 & E3 & E4 & Hdir & Hlen & Hoth).
    destruct (Haft _ _ Hs) as (w2 & Ea & Hs2 & Eh & Ed); exists (es ++ [e]), w2.
    split; [apply Forall2_app; [done|]; constructor; [by split_and! | constructor]|]; split; [done|]; split.
    { split; [by rewrite Ed|]; split; [by rewrite Eh|]; intros l' Hl'; rewrite Eh; apply Hoth; intros ->; apply Hl'.
      destruct Ho as [_ (dir & -> & _) _ _ _]; rewrite fmap_app; apply elem_of_app; right; by left. }
    rewrite (bind_ok _ _ _ _ _ (lastOpen_opened _ _ _ _ _ _ _ Ho)).
    assert (E5 : (do! fileClose fl; after) w = (Ok tt, w2)) by by rewrite (bind_ok _ _ _ _ _ E).
    by rewrite (bind_ok _ _ _ _ _ E5).
Qed.

Hypothesis pkgOk : forall m comp, pkg !! m = Some comp -> CompressorOk comp (codec m).

(** A header is added. *)
Lemma CreateHeader_sink ps w l h0 h comp :
  ready ps w -> zw_headers w !! l = Some h0 -> l ∉ fst <$> zw_dir w -> prepareHeader localOffset h0 = Ok h ->
  pkg !! fh_Method h = Some comp -> len (fh_Name h) < 2 ^ 16 -> len (fh_Extra h) < 2 ^ 16 ->
  exists fl w' es, CreateHeader localOffset pkg l w = (Ok fl, w') /\ Forall2 carriesOut ps es /\ opened es h [] [] l fl w' /\
    length (zw_headers w') = length (zw_headers w) /\ fst <$> zw_dir w' = (fst <$> zw_dir w) ++ [l].
Proof.
  intros Hr Hl Hfresh Hp Hcomp Hn He; unfold CreateHeader.
  match goal with |- context [bind lastOpen (fun open => bind _ (fun _ => ?k))] =>
    destruct (ready_close ps w (ret tt) k Hr) as (es & w1 & Hes & [Hc Hd Hls] & (Sd & Sl & Sh) & E) end.
  { intros es w1 Hs; by exists w1. }
  assert (E' : forall k : M (Writer W K) nat,
    (let! open := lastOpen in do! (match open with Some fl => fileClose fl | None => ret tt end); k) w =
    (let! open := lastOpen in do! (match open with Some fl => (do! fileClose fl; ret tt) | None => ret tt end); k) w).
  { intros k; unfold bind; destruct (lastOpen w) as [[[fl|]| | |] w0]; try done; by destruct (fileClose fl w0) as [[[]| | |] ?]. }
  rewrite E', E; clear E E'; unfold bind at 1, get at 1.
  rewrite bool_decide_eq_false_2.
  2: { rewrite Sd; intros Hlast; apply Hfresh; rewrite fmap_Some in Hlast; destruct Hlast as ([l' o'] & Hlast & ->).
       apply last_Some in Hlast as [dir ->]; rewrite fmap_app; apply elem_of_app; right; by left. }
  unfold bind at 1, theHeader; rewrite Sh, Hl by done; unfold bind at 1, lift at 1; rewrite Hp.
  unfold bind at 1, setHeader, modify at 1; unfold compressor; rewrite (co_compressors _ _ Hc), lookup_empty, Hcomp.
  set (w2 := setHeaders _ w1).
  pose proof (pkgOk _ _ Hcomp) as I; pose proof (co_cw _ _ Hc) as Hw.
  assert (Hw2 : cwGood (body es ++ []) w2) by (rewrite app_nil_r; exact Hw).
  destruct (ck_open (CompressorOk := I) _ (countWrite cwMethod) _ (countWrite_sink cwMethod _ _) (zw_compressionSettings w1) _ _ (co_settings _ _ Hc) (compGood _ [] _ Hw2))
    as (c & Eo & Hi).
  assert (E2 : onComp (comp _ (countWrite cwMethod) (zw_compressionSettings w1)) 0 w2 = (Ok (inl c, 0), w2)).
  { unfold onComp; change (mkCount (zw_cw w2) 0) with (mkCount (zw_cw w2) (int64 (len (@nil Z)))); rewrite Eo; cbn [ct_count ct_w]; done. }
  rewrite (bind_ok _ _ _ _ _ E2); unfold bind at 1, get at 1; unfold bind at 1, modify at 1.
  rewrite (count_of (body es)) by exact Hw; rewrite uint64_int64; set (w3 := setDir _ w2).
  assert (Hw3 : cwGood (body es) w3) by exact Hw.
  destruct (writeHeader_sink _ h _ Hw3 Hn He) as (cw & E3 & Hw4); rewrite (bind_ok _ _ _ _ _ E3).
  unfold bind at 1, newFile; unfold bind at 1, modify; do 3 eexists; split; [done|]; split; [exact Hes|]; split; [|split].
  - split.
    + split; try done; cbn [zw_dir setLast setFiles setCw w3 setDir w2 setHeaders].
      * rewrite app_nil_r; exact Hw4.
      * rewrite fmap_app; apply NoDup_app; split; [apply Hc|]; split; [|repeat constructor; by intros Hx%elem_of_nil].
        intros l' Hl' Hx; apply list_elem_of_singleton in Hx; cbn in Hx; subst l'; apply Hfresh; by rewrite <- Sd.
      * apply Hc.
      * apply Hc.
      * apply Hc.
      * apply Hc.
    + exists (zw_dir w1); split; [done|]; eapply Forall2_impl'; [exact Hd|]; intros [l' o'] [e' p'] Hin [R1 R2]; split; [|done]; cbn [fst snd] in *.
      cbn [zw_headers setLast setFiles setCw w3 setDir w2 setHeaders]; rewrite list_lookup_insert_ne; [done|].
      intros ->; apply Hfresh; rewrite <- Sd; apply list_elem_of_fmap; by exists (l', o').
    + cbn; apply list_lookup_insert_eq; rewrite Sl; by eapply lookup_lt_Some.
    + done.
    + exists c, comp, I; split; [|exact Hi]; cbn; by apply snoc_last.
  - cbn; by rewrite length_insert.
  - cbn; by rewrite fmap_app, Sd.
Qed.

(** ** Closing the archive *)

(** The directory with its offsets as they are stored. *)
Definition storedDirectory (ps : list (entry * Z)) : bytes := mjoin ((fun '(e, o) => dirBytes e (uint64 o)) <$> ps).

Definition stored (es : list entry) : bytes :=
  let dir := storedDirectory (placed base es) in
  let size := uint64 (len dir) in
  let offset := uint64 (base + len (body es)) in
  body es ++ dir ++ end64 (len es) size offset ++ endRecord (len es) size offset cmt.

Lemma closeEntry_sink x l e o w :
  cwGood x w -> zw_headers w !! l = Some (finalHdr e) ->
  exists w', closeEntry (l, o) w = (Ok tt, w') /\ cwGood (x ++ dirBytes e o) w' /\ zw_dir w' = zw_dir w /\ zw_comment w' = zw_comment w /\
    (forall l', l' <> l -> zw_headers w' !! l' = zw_headers w !! l').
Proof.
  intros Hw Hl; unfold closeEntry, theHeader; unfold bind at 1; rewrite Hl.
  assert (Hz : withZip64 (finalHdr e) o = Ok (dirHdr e o)) by (unfold withZip64, dirHdr; by rewrite zip64Extra_eq; destruct (needsZip64 _ _)).
  unfold bind at 1, lift at 1; rewrite Hz; unfold bind at 1, setHeader, modify; unfold bind at 1, lift; rewrite directoryHeader_eq.
  set (h := dirHdr e o); set (w1 := setHeaders _ w); assert (G0 : cwGood x w1) by exact Hw.
  destruct (cwWrite_sink _ (encFields (dirFields h o)) _ G0) as (c1 & E1 & G1); rewrite (bind_ok _ _ _ _ _ E1).
  destruct (cwWrite_sink _ (fh_Name h) _ G1) as (c2 & E2 & G2); rewrite (bind_ok _ _ _ _ _ E2).
  destruct (cwWrite_sink _ (fh_Extra h) _ G2) as (c3 & E3 & G3); rewrite (bind_ok _ _ _ _ _ E3).
  destruct (cwWrite_sink _ (fh_Comment h) _ G3) as (c4 & E4 & G4); rewrite E4.
  eexists; split; [done|]; split; [unfold dirBytes; fold h; by rewrite <- !app_assoc in G4|]; split; [done|]; split; [done|].
  intros l' Hne; cbn; by rewrite list_lookup_insert_ne.
Qed.

Lemma closeEntries_sink dir ps x w :
  cwGood x w -> Forall2 (dirRel w) dir ps -> NoDup (fst <$> dir) ->
  exists w', closeEntries dir w = (Ok tt, w') /\ cwGood (x ++ storedDirectory ps) w' /\ zw_dir w' = zw_dir w /\ zw_comment w' = zw_comment w.
Proof.
  revert ps x w; induction dir as [|[l o] dir IH]; intros ps x w Hw Hd Hn; cbn [closeEntries].
  - inversion Hd; subst; exists w; split; [done|]; split; [by rewrite app_nil_r | done].
  - apply Forall2_cons_inv_l in Hd as ([e o'] & ps' & [R1 R2] & Hd & ->); cbn [fst snd] in R1, R2; subst o.
    cbn [fmap list_fmap fst] in Hn; apply NoDup_cons in Hn as [Hl Hn].
    destruct (closeEntry_sink x l e (uint64 o') w Hw R1) as (w1 & E & Hw1 & Ed & Ec & Hh); rewrite (bind_ok _ _ _ _ _ E).
    destruct (IH ps' _ w1 Hw1) as (w2 & E2 & Hw2 & Ed2 & Ec2); [|done|].
    + eapply Forall2_impl'; [exact Hd|]; intros [l' q] [e' q'] Hin [Q1 Q2]; split; [|done]; cbn [fst snd] in *.
      rewrite Hh; [done|]; intros ->; apply Hl; apply list_elem_of_fmap; by exists (l, q).
    + exists w2; split; [done|]; split; [|split; congruence]; unfold storedDirectory in *; cbn [fmap list_fmap mjoin list_join].
      by rewrite app_assoc.
Qed.

Lemma uint64_sub a b : uint64 (int64 (a + b) - int64 a) = uint64 b.
Proof.
  unfold uint64, int64, wraps, wrapu; change (64 - 1) with 63.
  replace ((a + b + 2 ^ 63) mod 2 ^ 64 - 2 ^ 63 - ((a + 2 ^ 63) mod 2 ^ 64 - 2 ^ 63)) with ((a + b + 2 ^ 63) mod 2 ^ 64 - (a + 2 ^ 63) mod 2 ^ 64) by lia.
  rewrite <- Zminus_mod; f_equal; lia.
Qed.

Lemma uint64_add_mod a b : uint64 (uint64 a + uint64 b) = uint64 (a + b).
Proof. unfold uint64, wrapu; by rewrite <- Zplus_mod. Qed.

Lemma closeEnd_sink x w es :
  cwGood x w -> x = body es ++ storedDirectory (placed base es) ->
  exists w', closeEnd (len es) (int64 (base + len (body es))) (int64 (base + len x)) cmt w = (Ok tt, w') /\
    io_out (bfw_wr (ct_w (zw_cw w'))) = pre ++ stored es.
Proof.
  intros Hw ->; unfold closeEnd; set (dir := storedDirectory (placed base es)) in *.
  assert (Es : uint64 (int64 (base + len (body es ++ dir)) - int64 (base + len (body es))) = uint64 (len dir)).
  { rewrite len_app, Z.add_assoc; apply uint64_sub. }
  rewrite Es, uint64_int64; unfold stored; fold dir; set (size := uint64 (len dir)); set (offset := uint64 (base + len (body es))).
  fold (endZip64 (len es) size offset).
  assert (Ee : encFields (locatorFields (int64 (base + len (body es ++ dir)))) = encFields (locatorFields (offset + size))).
  { unfold locatorFields; rewrite uint64_int64; unfold offset, size; rewrite uint64_add_mod, len_app, Z.add_assoc; done. }
  assert (S1 : exists cw, (if endZip64 (len es) size offset
      then let! buf := lift (directory64End (len es) size offset (int64 (base + len (body es ++ dir)))) in cwWrite buf else ret tt) w = (Ok tt, setCw cw w) /\
    cwGood ((body es ++ dir) ++ end64 (len es) size offset) (setCw cw w)).
  { unfold end64; destruct (endZip64 _ _ _); [|exists (zw_cw w); rewrite setCw_self, app_nil_r; done].
    unfold bind, lift; rewrite directory64End_eq, Ee; apply (cwWrite_sink _ _ _ Hw). }
  destruct S1 as (c1 & E1 & G1); rewrite (bind_ok _ _ _ _ _ E1).
  assert (S2 : exists r, (if endZip64 (len es) size offset then directoryEndRecord uint16max uint32max uint32max (len cmt)
      else directoryEndRecord (len es) size offset (len cmt)) = Ok r /\ r ++ cmt = endRecord (len es) size offset cmt).
  { unfold endRecord; rewrite !directoryEndRecord_eq; destruct (endZip64 _ _ _); by eexists. }
  destruct S2 as (r & E2 & Er); unfold bind at 1, lift; rewrite E2.
  destruct (cwWrite_sink _ r _ G1) as (c2 & E3 & G2); rewrite (bind_ok _ _ _ _ _ E3).
  destruct (cwWrite_sink _ cmt _ G2) as (c3 & E4 & G3); rewrite (bind_ok _ _ _ _ _ E4); unfold Flush.
  destruct G3 as [[Hb Ho] _]; destruct (bufioFlush_sink _ Hb) as (wr & Ef & Eo); rewrite Ef.
  eexists; split; [done|]; cbn [zw_cw setCw ct_w bfw_wr]; rewrite Eo, Ho, <- Er; by rewrite <- !app_assoc.
Qed.

Lemma Close_sink ps w :
  ready ps w -> exists w' es, Close w = (Ok tt, w') /\ Forall2 carriesOut ps es /\ io_out (bfw_wr (ct_w (zw_cw w'))) = pre ++ stored es.
Proof.
  intros Hr; unfold Close.
  match goal with |- context [bind lastOpen (fun open => bind _ (fun _ => ?k))] =>
    destruct (ready_close ps w (modify (setLast None)) k Hr) as (es & w1 & Hes & [Hc Hd Hls] & _ & ->) end.
  { intros es w1 [Hc Hd Hls]; exists (setLast None w1); split; [done|]; split; [|done]; split; [|exact Hd | done].
    destruct Hc; by split. }
  unfold bind at 1, get at 1; rewrite (co_open _ _ Hc); unfold bind at 1, modify.
  pose proof (co_cw _ _ Hc) as Hw; rewrite (count_of _ _ Hw); set (w2 := setClosed true w1).
  destruct (closeEntries_sink (zw_dir w1) (placed base es) (body es) w2 Hw Hd (co_nodup _ _ Hc)) as (w3 & E3 & Hw3 & Ed & Ec).
  rewrite (bind_ok _ _ _ _ _ E3); unfold bind at 1, get at 1; rewrite Ed, Ec; cbn [zw_dir zw_comment setClosed w2].
  rewrite (co_comment _ _ Hc), (count_of _ _ Hw3).
  assert (len (zw_dir w1) = len es) as -> by (unfold len; rewrite (Forall2_length _ _ _ Hd); by rewrite placed_length).
  destruct (closeEnd_sink _ w3 es Hw3 eq_refl) as (w4 & E4 & Ho); exists w4, es; done.
Qed.
End Sink.
