(* ===== verification/ZipRoundtrip.v ===== *)
(** * What the zip writer writes, the zip reader reads

    A client that writes a whole archive, and the archive opened again: every
    file is listed with its header and its contents can be read. *)
From S2P Require Import Prelude GoInt GoString GoTime GoDate GoIO GoPath GoBufio.
From S2P Require Import ZipStruct ZipNames ZipTimes ZipBuf ZipReader ZipOpen ZipSafety ZipRegister ZipWriter ZipArchive ZipDirectory ZipContents ZipSink.
Open Scope go_scope.

(** ** A client *)
Section Client.
Context {W K : Type} `{IoWriter W} `{Compressing K}.
Variable localOffset : Z -> Z.
Variable pkg : gmap Z (Compressor K).

(** A header and the pieces its contents are written in. *)
Definition zipEntry : Type := FileHeader * list bytes.

Fixpoint writeChunks (fl : nat) (cs : list bytes) : M (Writer W K) unit :=
  match cs with
  | [] => ret tt
  | c :: cs =>
      let! (_, err) := fileWrite fl c in
      match err with Some e => throw e | None => writeChunks fl cs end
  end.

Definition writeZipEntry (e : zipEntry) : M (Writer W K) unit :=
  let! l := newHeader e.1 in
  let! fl := CreateHeader localOffset pkg l in
  writeChunks fl e.2.

Fixpoint writeZipEntries (es : list zipEntry) : M (Writer W K) unit :=
  match es with [] => ret tt | e :: es => do! writeZipEntry e; writeZipEntries es end.

(** The whole archive: [base] is the offset of its start, if it is to be set. *)
Definition writeZip (base : Z) (comment : bytes) (es : list zipEntry) : M (Writer W K) unit :=
  do! SetOffset base;
  do! SetComment comment;
  do! writeZipEntries es;
  Close.
End Client.

(** ** Headers the format can hold *)
Record headerOk (h : FileHeader) (xs : extraFields) : Prop := {
  ho_extra : fh_Extra h = encExtra xs;
  ho_extraOk : extraOk xs;
  ho_tags : Forall (fun f => f.1 ∉ knownTags) xs;
  ho_typed : hdrTyped h;
  ho_name : bytes_ok (fh_Name h) /\ len (fh_Name h) < 2 ^ 16;
  ho_utf8 : ValidString (fh_Name h) = true;
  ho_comment : bytes_ok (fh_Comment h) /\ len (fh_Comment h) < 2 ^ 16;
  ho_extraLen : len (fh_Extra h) + 37 < 2 ^ 16
}.

Section Prepared.
Variable localOffset : Z -> Z.

(** The header that [CreateHeader] leaves. *)
Definition prepared (h : FileHeader) : FileHeader :=
  let h1 := mkFileHeader (fh_Name h) (fh_Comment h) (fh_NonUTF8 h) (Z.lor (Z.land (fh_CreatorVersion h) 0xff00) zipVersion20)
    zipVersion20 (createFlags h) (fh_Method h) (fh_Modified h) (fh_ModifiedTime h) (fh_ModifiedDate h) (fh_CRC32 h)
    (fh_CompressedSize h) (fh_UncompressedSize h) (fh_CompressedSize64 h) (fh_UncompressedSize64 h) (fh_Extra h) (fh_ExternalAttrs h) in
  if IsZero (fh_Modified h) then h1
  else setExtra (fh_Extra h ++ encFields (extTimeFields (fh_Modified h)))
         (setModified (fh_Modified h) (timeToMsDosTime localOffset (fh_Modified h)).1 (timeToMsDosTime localOffset (fh_Modified h)).2 h1).

Lemma prepareHeader_eq h : prepareHeader localOffset h = Ok (prepared h).
Proof.
  unfold prepareHeader, prepared; cbn [fh_Modified fh_Extra]; destruct (IsZero _); [done|]; rewrite extTimeField_eq.
  by destruct (timeToMsDosTime _ _).
Qed.

Lemma lor_range n x y : 0 <= n -> in_uint n x -> in_uint n y -> in_uint n (Z.lor x y).
Proof.
  unfold in_uint; intros Hn Hx Hy; assert (0 <= Z.lor x y) by (apply Z.lor_nonneg; lia); split; [done|].
  destruct (Z.eq_dec (Z.lor x y) 0) as [->|]; [by apply Z.pow_pos_nonneg|].
  apply Z.log2_lt_pow2; [lia|]; rewrite Z.log2_lor by lia.
  assert (L : forall z, 0 <= z < 2 ^ n -> z <> 0 -> Z.log2 z < n) by (intros z ? ?; apply Z.log2_lt_pow2; lia).
  destruct (Z.eq_dec x 0) as [->|], (Z.eq_dec y 0) as [->|]; [done|..]; rewrite ?Z.log2_nonpos by lia.
  - rewrite Z.max_r by apply Z.log2_nonneg; apply L; lia.
  - rewrite Z.max_l by apply Z.log2_nonneg; apply L; lia.
  - apply Z.max_lub_lt; apply L; lia.
Qed.

Lemma land_range n x y : in_uint n x -> 0 <= y -> in_uint n (Z.land x y).
Proof. unfold in_uint; intros Hx Hy; rewrite Z.land_comm; pose proof (land_le_r y x ltac:(lia) ltac:(lia)); lia. Qed.

Lemma ldiff_range n x y : 0 <= n -> in_uint n x -> in_uint n (Z.ldiff x y).
Proof.
  unfold in_uint; intros Hn Hx; split; [apply Z.ldiff_nonneg; lia|].
  pose proof (Z.add_lor_land (Z.ldiff x y) (Z.land x y)) as E; rewrite Z.lor_ldiff_and in E.
  assert (0 <= Z.land x y) by (apply Z.land_nonneg; lia).
  assert (Z.land (Z.ldiff x y) (Z.land x y) = 0); [|lia].
  apply Z.bits_inj'; intros i Hi; rewrite !Z.land_spec, Z.ldiff_spec, Z.bits_0; by destruct (Z.testbit x i), (Z.testbit y i).
Qed.

Lemma createFlags_range h : in_uint 16 (fh_Flags h) -> in_uint 16 (createFlags h).
Proof.
  intros Hf; unfold createFlags; destruct (detectUTF8 _) as [v1 r1], (detectUTF8 _) as [v2 r2].
  destruct (fh_NonUTF8 h); [apply ldiff_range; [done|]|destruct (_ && _)]; repeat (apply lor_range; [done | | done]); done.
Qed.

Lemma createFlags_descriptor h : hasBit (createFlags h) 0x8 = true.
Proof.
  assert (B : forall m, Z.testbit m 3 = true -> hasBit m 0x8 = true).
  { intros m Hm; unfold hasBit; apply negb_true_iff, Z.eqb_neq; intros E.
    apply (f_equal (fun x => Z.testbit x 3)) in E; by rewrite Z.land_spec, Hm in E. }
  apply B; unfold createFlags; destruct (detectUTF8 _) as [v1 r1], (detectUTF8 _) as [v2 r2].
  destruct (fh_NonUTF8 h); [|destruct (_ && _)]; rewrite ?Z.ldiff_spec, ?Z.lor_spec; cbn; by rewrite ?orb_true_r.
Qed.

Lemma prepared_typed h : hdrTyped h -> hdrTyped (prepared h).
Proof.
  intros T; assert (C : in_uint 16 (Z.lor (Z.land (fh_CreatorVersion h) 0xff00) zipVersion20)).
  { apply lor_range; [done | apply land_range; [apply T | done] | done]. }
  pose proof (createFlags_range h (ht_flags h T)) as F; destruct T.
  unfold prepared, timeToMsDosTime; destruct (IsZero _); split; try done; by apply (wrapu_range 16).
Qed.

Lemma prepared_same h :
  fh_Name (prepared h) = fh_Name h /\ fh_Comment (prepared h) = fh_Comment h /\ fh_Method (prepared h) = fh_Method h /\
  fh_Modified (prepared h) = fh_Modified h /\ fh_Flags (prepared h) = createFlags h /\ fh_ExternalAttrs (prepared h) = fh_ExternalAttrs h.
Proof. unfold prepared; by destruct (IsZero _). Qed.

Lemma prepared_extra h xs :
  headerOk h xs -> fh_Extra (prepared h) = encExtra (xs ++ timeExtra (prepared h)) /\ len (fh_Extra (prepared h)) + 28 < 2 ^ 16.
Proof.
  intros Hh; pose proof (ho_extraLen _ _ Hh) as Hl; destruct (prepared_same h) as (_ & _ & _ & Em & _); unfold timeExtra; rewrite Em.
  unfold prepared; destruct (IsZero _); cbn [fh_Extra setExtra].
  - rewrite app_nil_r, (ho_extra _ _ Hh) in *; split; [done | lia].
  - rewrite encExtra_app, <- extTimeFields_extra, (ho_extra _ _ Hh) in *; split; [done|].
    rewrite len_app, len_encFields; cbn [foldr extTimeFields fst Nat.add]; lia.
Qed.

(** An entry of such a header. *)
Lemma prepared_entryOk h xs data comp :
  headerOk h xs -> len data < 2 ^ 63 -> len comp < 2 ^ 63 -> entryOk (mkEntry (prepared h) xs data comp).
Proof.
  intros Hh Hd Hc; destruct (prepared_extra h xs Hh) as [E L]; destruct (prepared_same h) as (En & Ec & _ & _ & Ef & _).
  split; cbn [e_hdr e_extra e_data e_comp]; try done.
  - apply Hh.
  - apply Hh.
  - apply prepared_typed, Hh.
  - rewrite En; apply Hh.
  - rewrite Ec; apply Hh.
  - rewrite Ef; apply createFlags_descriptor.
Qed.
End Prepared.

(** ** Writing *)
Section Writing.
Context {W K : Type} `{IoSink W} `{Compressing K}.
Variable localOffset : Z -> Z.
Variable pkg : gmap Z (Compressor K).
Variable codec : Z -> bytes -> bytes -> Prop.
Hypothesis pkgOk : forall m comp, pkg !! m = Some comp -> CompressorOk comp (codec m).
Variables (base : Z) (pre cmt : bytes).
Abbreviation ready := (ready base pre codec cmt).
Abbreviation opened := (opened base pre codec cmt).

(** The entry can be written: its method is known. *)
Definition writable (e : zipEntry) (xs : extraFields) : Prop :=
  headerOk e.1 xs /\ is_Some (pkg !! fh_Method e.1).
Definition planOf (e : zipEntry) (xs : extraFields) : plan := mkPlan (prepared localOffset e.1) xs (mjoin e.2).

Lemma dir_lookup w ps : ready ps w -> Forall (fun l => (l < length (zw_headers (W := W) (K := K) w))%nat) (fst <$> zw_dir w).
Proof.
  assert (G : forall dir q, Forall2 (dirRel w) dir q -> Forall (fun l => (l < length (zw_headers w))%nat) (fst <$> dir)).
  { intros dir q Hd; induction Hd as [|[l o] [e p] dir q [R _] _ IH]; constructor; [by eapply lookup_lt_Some | done]. }
  intros [(es & _ & [_ Hd _]) | (ps' & p & es & z & l & fl & _ & _ & [_ (dir & Ed & Hd) Hl _ _])]; [by eapply G|].
  rewrite Ed, fmap_app; apply Forall_app; split; [by eapply G|]; constructor; [by eapply lookup_lt_Some | done].
Qed.

Lemma ready_fresh ps w : ready ps w -> length (zw_headers (W := W) (K := K) w) ∉ fst <$> zw_dir w.
Proof. intros Hr%dir_lookup Hin; rewrite Forall_forall in Hr; specialize (Hr _ Hin); lia. Qed.

Lemma ready_newHeader ps h (w : Writer W K) : ready ps w -> ready ps (setHeaders (zw_headers w ++ [h]) w).
Proof.
  set (w1 := setHeaders _ w).
  assert (G : forall dir q, Forall2 (dirRel w) dir q -> Forall2 (dirRel w1) dir q).
  { intros dir q Hd; eapply Forall2_impl; [exact Hd|]; intros [l o] [e p] [R1 R2]; split; [by apply lookup_app_l_Some | done]. }
  intros [(es & Hes & [Hc Hd Hl]) | (ps' & p & es & z & l & fl & -> & Hes & [Hc (dir & Ed & Hd) Hl Hla Hf])].
  - left; exists es; split; [done|]; split; [by destruct Hc; split | by apply G | done].
  - right; exists ps', p, es, z, l, fl; split; [done|]; split; [done|]; split; [by destruct Hc; split | | | done | done].
    + exists dir; split; [done | by apply G].
    + by apply lookup_app_l_Some.
Qed.

Lemma writeChunks_sink cs es h data z l fl (w : Writer W K) :
  opened es h data z l fl w -> exists z' w', writeChunks fl cs w = (Ok tt, w') /\ opened es h (data ++ mjoin cs) (z ++ z') l fl w'.
Proof.
  revert data z w; induction cs as [|c cs IH]; intros data z w Ho; cbn [writeChunks].
  - exists [], w; rewrite !app_nil_r; done.
  - destruct (fileWrite_sink base pre codec cmt _ _ _ _ _ _ c _ Ho) as (z1 & w1 & E & Ho1 & _); rewrite (bind_ok _ _ _ _ _ E).
    destruct (IH _ _ _ Ho1) as (z2 & w2 & -> & Ho2); exists (z1 ++ z2), w2; split; [done|].
    cbn [mjoin list_join]; by rewrite <- !app_assoc in Ho2.
Qed.

Lemma writeZipEntry_sink ps e xs w :
  ready ps w -> writable e xs -> exists w', writeZipEntry localOffset pkg e w = (Ok tt, w') /\ ready (ps ++ [planOf e xs]) w'.
Proof.
  intros Hr [Hh [comp Hcomp]]; pose proof (ready_fresh _ _ Hr) as Hf; pose proof (ready_newHeader _ e.1 _ Hr) as Hr1.
  unfold writeZipEntry, newHeader; unfold bind at 1; set (w1 := setHeaders _ w) in *.
  destruct (prepared_same localOffset e.1) as (En & _ & Em & _); destruct (prepared_extra localOffset e.1 xs Hh) as [_ Le].
  destruct (CreateHeader_sink localOffset pkg base pre codec cmt pkgOk ps w1 (length (zw_headers w)) e.1 (prepared localOffset e.1) comp Hr1)
    as (fl & w2 & es & E & Hes & Ho & _).
  - by apply snoc_last.
  - exact Hf.
  - apply prepareHeader_eq.
  - by rewrite Em.
  - rewrite En; apply Hh.
  - lia.
  - rewrite (bind_ok _ _ _ _ _ E); destruct (writeChunks_sink e.2 _ _ _ _ _ _ _ Ho) as (z & w3 & -> & Ho3); exists w3; split; [done|].
    right; exists ps, (planOf e xs), es, ([] ++ z), (length (zw_headers w)), fl; done.
Qed.

Lemma writeZipEntries_sink ps es xss w :
  ready ps w -> Forall2 writable es xss -> exists w', writeZipEntries localOffset pkg es w = (Ok tt, w') /\ ready (ps ++ zip_with planOf es xss) w'.
Proof.
  intros Hr Hw; revert ps w Hr; induction Hw as [|e xs es xss He _ IH]; intros ps w Hr; cbn [writeZipEntries zip_with].
  - exists w; by rewrite app_nil_r.
  - destruct (writeZipEntry_sink _ _ _ _ Hr He) as (w1 & E & Hr1); rewrite (bind_ok _ _ _ _ _ E).
    destruct (IH _ _ Hr1) as (w2 & -> & Hr2); exists w2; by rewrite <- app_assoc in Hr2.
Qed.
End Writing.

(** All of it. *)
Lemma writeZip_sink {W K} `{IoSink W} `{Compressing K} localOffset pkg codec (pkgOk : forall m comp, pkg !! m = Some comp -> CompressorOk comp (codec m))
    base cmt es xss (w0 : W) :
  in_int64 base -> len cmt < 2 ^ 16 -> Forall2 (writable pkg) es xss ->
  exists w' ents, writeZip (K := K) localOffset pkg base cmt es (NewWriter w0) = (Ok tt, w') /\
    Forall2 (carriesOut codec) (zip_with (planOf localOffset) es xss) ents /\
    io_out (bfw_wr (ct_w (zw_cw w'))) = io_out w0 ++ stored base cmt ents.
Proof.
  intros Hb Hc Hes; unfold writeZip.
  set (w1 := setCw (mkCount (NewBufioWriter w0) base) (NewWriter w0) : Writer W K).
  assert (E1 : SetOffset base (NewWriter w0) = (Ok tt, w1)) by done; rewrite (bind_ok _ _ _ _ _ E1).
  set (w2 := mkWriter (zw_cw w1) [] None false ∅ cmt defaultCompressionSettings [] [] : Writer W K).
  assert (E2 : SetComment cmt w1 = (Ok tt, w2)).
  { unfold SetComment; rewrite (proj2 (Z.ltb_ge uint16max _)) by (unfold uint16max; lia); done. }
  rewrite (bind_ok _ _ _ _ _ E2).
  assert (Hr : ready base (io_out w0) codec cmt [] w2).
  { left; exists []; split; [constructor|]; split; [|constructor | done]; split; try done; [|constructor].
    split; [split; [apply bufioOk_empty | unfold bufioOut; cbn [ct_w zw_cw w2 w1 setCw NewWriter bfw_wr bfw_buf NewBufioWriter]; done] |].
    cbn [zw_cw w2 w1 setCw ct_count]; rewrite app_nil_r, Z.sub_add; symmetry; by apply int64_id. }
  destruct (writeZipEntries_sink localOffset pkg codec pkgOk base (io_out w0) cmt [] es xss w2 Hr Hes) as (w3 & E3 & Hr3).
  rewrite (bind_ok _ _ _ _ _ E3).
  destruct (Close_sink base (io_out w0) codec cmt _ w3 Hr3) as (w4 & ents & E4 & Hce & Ho); by exists w4, ents.
Qed.

(** ** What is read back *)
Section ReadBack.
Variable localOffset : Z -> Z.

(** A time the archive can hold: within the years of MS-DOS, after 1970 and
    in a zone with an offset of quarters of an hour. *)
Definition timeOk (t : Time) : Prop :=
  dosYear localOffset t /\ zoneOk (zoneOffset localOffset t) /\ 0 <= t_sec t - unixToInternal < 2 ^ 32.

Lemma dosTime_nonzero t :
  dosYear localOffset t -> negb ((timeToMsDosTime localOffset t).2 =? 0) || negb ((timeToMsDosTime localOffset t).1 =? 0) = true.
Proof.
  intros Hy; pose proof (msDosTime_packed localOffset t Hy) as P; destruct (timeToMsDosTime localOffset t) as [d tm]; cbn [fst snd].
  destruct (Z.eqb_spec tm 0) as [->|], (Z.eqb_spec d 0) as [->|]; try done; exfalso.
  assert (Hw : wall localOffset t - wall localOffset t mod 2 = 62448364800) by (apply (f_equal t_sec) in P; cbn in P; by rewrite <- P).
  pose proof (Z.mod_pos_bound (wall localOffset t) 2 ltac:(lia)); unfold dosYear, Year in Hy.
  assert (wall localOffset t = 62448364800 \/ wall localOffset t = 62448364801) as [E|E] by lia; rewrite E in Hy;
    revert Hy; vm_compute; intros [Hy _]; by apply Hy.
Qed.

Lemma Unix_back t : 0 <= t_sec t - unixToInternal < 2 ^ 32 -> Unix (uint32 (toUnix t)) 0 = mkTime (t_sec t) 0 Local.
Proof.
  intros Ht; unfold toUnix; rewrite (int64_id (t_sec t - unixToInternal)), uint32_in by (unfold in_int64, in_uint; lia).
  unfold Unix; cbn [Z.ltb Z.leb Z.compare orb]; unfold unixToInternal in *; rewrite int64_id by (unfold in_int64; lia); f_equal; lia.
Qed.

(** The instant and the zone survive. *)
Lemma modifiedTime_recovered t :
  timeOk t ->
  modifiedTime (Unix (uint32 (toUnix t)) 0) (timeToMsDosTime localOffset t).1 (timeToMsDosTime localOffset t).2 =
    mkTime (t_sec t) 0 (FixedZone (zoneOffset localOffset t)).
Proof.
  intros (Hy & Hz & Hs); rewrite Unix_back by done; unfold modifiedTime.
  assert (IsZero (mkTime (t_sec t) 0 Local) = false) as ->.
  { unfold IsZero; cbn [t_sec t_nsec]; rewrite (proj2 (Z.eqb_neq _ _)); [done|]; unfold unixToInternal in Hs; lia. }
  rewrite dosTime_nonzero by done.
  pose proof (msDosTime_packed localOffset t Hy) as P; destruct (timeToMsDosTime localOffset t) as [d tm]; cbn [fst snd]; rewrite P.
  rewrite (timeZone_recovers (zoneOffset localOffset t) (t_sec t)); done.
Qed.

(** The file of an entry that was written. *)
Record listed (e : zipEntry) (f : File) : Prop := {
  ls_Name : fh_Name (f_hdr f) = fh_Name e.1;
  ls_Comment : fh_Comment (f_hdr f) = fh_Comment e.1;
  ls_Method : fh_Method (f_hdr f) = fh_Method e.1;
  ls_ExternalAttrs : fh_ExternalAttrs (f_hdr f) = fh_ExternalAttrs e.1;
  ls_CRC32 : fh_CRC32 (f_hdr f) = ChecksumIEEE (mjoin e.2);
  ls_size : fh_UncompressedSize64 (f_hdr f) = len (mjoin e.2);
  ls_Extra : exists more, fh_Extra (f_hdr f) = fh_Extra e.1 ++ more;
  ls_Modified :
    if IsZero (fh_Modified e.1) then fh_Modified (f_hdr f) = msDosTimeToTime (fh_ModifiedDate e.1) (fh_ModifiedTime e.1)
    else timeOk (fh_Modified e.1) ->
      fh_Modified (f_hdr f) = mkTime (t_sec (fh_Modified e.1)) 0 (FixedZone (zoneOffset localOffset (fh_Modified e.1)))
}.

Lemma readHdr_listed codec (e : zipEntry) xs ent o size off :
  headerOk e.1 xs -> carriesOut codec (planOf localOffset e xs) ent -> len (mjoin e.2) < 2 ^ 63 -> listed e (mkFile (readHdr ent o) size off).
Proof.
  intros Hh (E1 & E2 & E3 & _) Hl; cbn [planOf p_hdr p_extra p_data] in *.
  destruct (prepared_same localOffset e.1) as (P1 & P2 & P3 & P4 & P5 & P6); destruct (dirHdr_same ent o) as (D1 & D2 & D3 & _).
  assert (Ft : fh_ModifiedDate (dirHdr ent o) = fh_ModifiedDate (e_hdr ent) /\ fh_ModifiedTime (dirHdr ent o) = fh_ModifiedTime (e_hdr ent) /\
    fh_Method (dirHdr ent o) = fh_Method (e_hdr ent) /\ fh_ExternalAttrs (dirHdr ent o) = fh_ExternalAttrs (e_hdr ent) /\
    fh_CRC32 (dirHdr ent o) = ChecksumIEEE (e_data ent) /\ exists more, fh_Extra (dirHdr ent o) = fh_Extra (e_hdr ent) ++ more).
  { unfold dirHdr, finalHdr, finishSizes; destruct (needsZip64 _ _), (_ || _); cbn; split_and!; try done;
      (by eexists) || (exists []; by rewrite app_nil_r). }
  destruct Ft as (F1 & F2 & F3 & F4 & F5 & more & F6).
  split; cbn [f_hdr readHdr fh_Name fh_Comment fh_Method fh_ExternalAttrs fh_CRC32 fh_UncompressedSize64 fh_Extra fh_Modified].
  - by rewrite D1, E1.
  - by rewrite D2, E1.
  - by rewrite F3, E1.
  - by rewrite F4, E1.
  - by rewrite F5, E3.
  - by rewrite E3.
  - rewrite F6, E1; unfold prepared; destruct (IsZero _); cbn [fh_Extra setExtra]; [by eexists|]; rewrite <- app_assoc; by eexists.
  - unfold extTime; rewrite F1, F2, D3, E1, P4; unfold prepared; destruct (IsZero (fh_Modified e.1)); cbn; [done|].
    apply modifiedTime_recovered.
Qed.
End ReadBack.

(** ** The end of the archive, as bytes *)

(** The end record is not hidden: no second signature starts behind its own
    (in its fields or in the comment), and the bytes in front of it are not
    taken for a zip64 locator when it announces none. *)
Definition endsPlain (data comment : bytes) : bool :=
  let e := drop (length data - 22 - length comment) data in
  let field n k := le_val (take n (drop k e)) in
  forallb (fun j => negb (sigAt e j)) (seq 1 (length e)) &&
  ((len data <? 42 + len comment) || negb (le_val (take 4 (drop (length data - 42 - length comment) data)) =? directory64LocSignature) ||
   (field 2%nat 10%nat =? uint16max) || (field 4%nat 12%nat =? uint32max) || (field 4%nat 16%nat =? uint32max)).

Lemma sigAt_outside b j : (length b <= j)%nat -> sigAt b j = false.
Proof. intros Hj; unfold sigAt, byteAt; by rewrite nth_overflow. Qed.

Lemma stored_archive base cmt es :
  0 <= base -> base + len (stored base cmt es) < 2 ^ 63 -> stored base cmt es = archiveBytes base es cmt.
Proof.
  intros Hb Hs; unfold stored in *; cbv zeta in *.
  assert (Ed : storedDirectory (placed base es) = directory base es).
  { unfold storedDirectory, directory; f_equal; apply list_fmap_ext; intros i [e o] Hi; f_equal.
    apply list_elem_of_lookup_2, placed_at in Hi as (A & B & E & ->); rewrite len_app, E, len_app in Hs.
    pose proof (len_nonneg A); pose proof (len_nonneg (entryBytes e ++ B)).
    match type of Hs with base + (len A + _ + ?n) < _ => assert (0 <= n) by apply len_nonneg end.
    apply uint64_in; unfold in_uint; lia. }
  rewrite Ed in *; unfold archiveBytes, endBytes, dirStart, dirSize.
  rewrite len_app in Hs; rewrite (len_app (directory base es)) in Hs.
  match type of Hs with base + (_ + (_ + ?n)) < _ => assert (0 <= n) by apply len_nonneg end.
  pose proof (len_nonneg (body es)); pose proof (len_nonneg (directory base es)).
  rewrite !uint64_in by (unfold in_uint; lia); done.
Qed.

Lemma endRecord_fields records size offset (c : bytes) :
  endZip64 records size offset = false -> 0 <= records -> 0 <= size -> 0 <= offset ->
  let e := endRecord records size offset c in
  le_val (take 2 (drop 10 e)) <> uint16max /\ le_val (take 4 (drop 12 e)) <> uint32max /\ le_val (take 4 (drop 16 e)) <> uint32max.
Proof.
  intros Hz Hr Hs Ho; unfold endRecord; rewrite Hz; unfold endFields.
  apply orb_false_iff in Hz as [[Z1%Z.leb_gt Z2%Z.leb_gt]%orb_false_iff Z3%Z.leb_gt]; unfold uint16max, uint32max in *.
  assert (T : forall n v fs r, le_val (take n (encFields ((n, v) :: fs) ++ r)) = v mod 256 ^ Z.of_nat n).
  { intros n v fs r; cbn [encFields]; rewrite <- app_assoc, take_app_length' by (symmetry; apply length_le_bytes); apply le_val_le_bytes. }
  set (F := fun n fs => encFields fs ++ c = drop n (encFields [(4%nat, directoryEndSignature); (4%nat, 0); (2%nat, uint16 records); (2%nat, uint16 records);
    (4%nat, uint32 size); (4%nat, uint32 offset); (2%nat, uint16 (len c))] ++ c)).
  assert (F1 : F 10%nat [(2%nat, uint16 records); (4%nat, uint32 size); (4%nat, uint32 offset); (2%nat, uint16 (len c))]) by reflexivity.
  assert (F2 : F 12%nat [(4%nat, uint32 size); (4%nat, uint32 offset); (2%nat, uint16 (len c))]) by reflexivity.
  assert (F3 : F 16%nat [(4%nat, uint32 offset); (2%nat, uint16 (len c))]) by reflexivity.
  unfold F in *; cbv zeta; rewrite <- F1, <- F2, <- F3, !T.
  change (256 ^ Z.of_nat 2) with (2 ^ 16); change (256 ^ Z.of_nat 4) with (2 ^ 32).
  change (uint16 records mod 2 ^ 16) with (uint16 (uint16 records)); change (uint32 ?x mod 2 ^ 32) with (uint32 (uint32 x)).
  rewrite uint16_twice, !uint32_twice, uint16_in, !uint32_in by (unfold in_uint; lia); lia.
Qed.

(** A written archive is one the reader's theorems speak about. *)
Lemma stored_archiveOk {R} `{ReaderAtData R} (r : R) pre base cmt es :
  ra_data r = pre ++ stored base cmt es -> len (ra_data r) < 2 ^ 63 -> Forall entryOk es -> len cmt < 2 ^ 16 ->
  endsPlain (ra_data r) cmt = true ->
  base = len pre \/ base = 0 /\ len (stored base cmt es) < uint32max /\ len es < uint16max ->
  archiveOk r pre base es cmt.
Proof.
  intros Hd Hs Hes Hc Hp Hb; pose proof (len_nonneg pre) as Hpre.
  assert (Hsz : base + len (stored base cmt es) < 2 ^ 63 /\ 0 <= base).
  { rewrite Hd, len_app in Hs; destruct Hb as [->|[-> _]]; lia. }
  assert (Ea : stored base cmt es = archiveBytes base es cmt) by (destruct Hsz; by apply stored_archive).
  rewrite Ea in Hd, Hb.
  set (e := endRecord (len es) (dirSize base es) (dirStart base es) cmt).
  set (e64 := end64 (len es) (dirSize base es) (dirStart base es)).
  assert (Dat : ra_data r = front pre base es ++ e64 ++ e) by (rewrite Hd; unfold archiveBytes, endBytes, front; by rewrite <- !app_assoc).
  pose proof (len_endRecord base es cmt) as Le; fold e in Le; pose proof (len_end64 base es) as L64; fold e64 in L64.
  pose proof (dirSize_count base es) as Dc; unfold directoryHeaderLen in Dc; pose proof (len_nonneg es) as Hes0; pose proof (len_nonneg (body es)) as Hb0.
  unfold endsPlain in Hp; cbv zeta in Hp.
  assert (De : drop (length (ra_data r) - 22 - length cmt) (ra_data r) = e).
  { rewrite Dat, app_assoc; apply drop_app_length'; unfold len in Le; rewrite length_app; lia. }
  rewrite De in Hp; apply andb_true_iff in Hp as [Hp1 Hp2].
  split; try done.
  - destruct Hb as [->|(-> & Hl & Hn)]; [by left | right; split; [done|]].
    unfold archiveBytes in Hl; rewrite !len_app in Hl; fold (dirSize 0 es) in Hl; unfold dirStart.
    pose proof (len_nonneg (endBytes 0 es cmt)); unfold endZip64; rewrite !(proj2 (Z.leb_gt _ _)) by lia; done.
  - intros j Hj; destruct (Nat.lt_ge_cases j (length e)); [|by apply sigAt_outside].
    rewrite forallb_forall in Hp1; apply negb_true_iff, Hp1, in_seq; lia.
  - intros Hz H20 Hsig; rewrite Hz in L64.
    assert (e64 = []) as E0 by (apply len_nil_inv; lia); rewrite E0 in Dat.
    assert (0 <= dirStart base es) by (unfold dirStart; lia).
    destruct (endRecord_fields (len es) (dirSize base es) (dirStart base es) cmt Hz) as (N1 & N2 & N3); [lia..|]; fold e in N1, N2, N3.
    rewrite (proj2 (Z.eqb_neq _ _) N1), (proj2 (Z.eqb_neq _ _) N2), (proj2 (Z.eqb_neq _ _) N3), !orb_false_r in Hp2.
    assert (Ld : length (ra_data r) = (length (front pre base es) + length e)%nat) by (rewrite Dat, length_app; done).
    rewrite (proj2 (Z.ltb_ge _ _)) in Hp2 by (unfold len in *; lia); cbn [orb] in Hp2.
    apply negb_true_iff, Z.eqb_neq in Hp2; apply Hp2; rewrite <- Hsig.
    assert (Eo : (length (ra_data r) - 42 - length cmt)%nat = (length (front pre base es) - 20)%nat) by (unfold len in *; lia).
    rewrite Eo, Dat; cbn [app]; rewrite drop_app_le by lia; rewrite take_app_le; [done|]; rewrite length_drop; unfold len in *; lia.
Qed.

(** Sizes inside an archive. *)
Lemma comp_size base cmt es e : e ∈ es -> len (e_comp e) <= len (stored base cmt es).
Proof.
  intros [es1 [es2 ->]]%list_elem_of_split; unfold stored; cbv zeta; rewrite body_app, body_cons, !len_app; unfold entryBytes; rewrite !len_app.
  repeat match goal with |- context [len ?x] => lazymatch goal with H : 0 <= len x |- _ => fail | _ => pose proof (len_nonneg x) end end; lia.
Qed.

Lemma Forall2_right {A B} (P Q : A -> B -> Prop) l k :
  Forall2 P l k -> (forall x y, y ∈ k -> P x y -> Q x y) -> Forall2 Q l k.
Proof.
  induction 1 as [|x y l k Hxy _ IH]; intros HQ; constructor; [apply HQ; [by left | done]|].
  apply IH; intros x' y' Hy'; apply HQ; by right.
Qed.

Lemma placed_Forall2 {A} (Q : A -> entry -> Prop) (P : A -> entry * Z -> Prop) base l ents :
  Forall2 Q l ents -> (forall x e o, (e, o) ∈ placed base ents -> Q x e -> P x (e, o)) -> Forall2 P l (placed base ents).
Proof.
  intros Hq HP; apply (Forall2_right (fun x p => Q x p.1)); [|intros x [e o]; by apply HP].
  clear HP; revert base; induction Hq as [|x e l ents Hx _ IH]; intros base; cbn [placed]; constructor; [done | apply IH].
Qed.

(** What the client can do with a file of the archive. *)
Definition readable {R X} `{IoReaderAt R} `{IoReader X} `{IoCloser X} (pkgD : gmap Z (Decompressor R X)) (fuel : nat)
    (z : Reader (R := R) (Decompressor R X)) (e : zipEntry) (f : File) : Prop :=
  forall k, (length (mjoin e.2) < k)%nat ->
  exists cs cs', FileOpen pkgD z f = Ok cs /\ ReadAll (checksumRead fuel) k cs = (Ok (mjoin e.2, None), cs').

(** A whole archive with one codec per method. *)
Lemma writeZip_reads {W K R X} `{IoSink W} `{Compressing K} `{ReaderAtData R} `{IoReader X} `{IoCloser X}
    localOffset (pkgC : gmap Z (Compressor K)) (pkgD : gmap Z (Decompressor R X)) (codec : Z -> bytes -> bytes -> Prop)
    db cp sj base cmt (es : list zipEntry) xss (w0 : W) (fuel : nat) :
  (forall m comp, pkgC !! m = Some comp -> CompressorOk comp (codec m)) ->
  (forall m dcomp, pkgD !! m = Some dcomp -> DecompressorOk dcomp (codec m)) ->
  0 <= base < 2 ^ 63 -> len cmt < 2 ^ 16 -> Forall2 (writable pkgC) es xss ->
  Forall (fun e => is_Some (pkgD !! fh_Method e.1) /\ len (mjoin e.2) < 2 ^ 63) es ->
  exists w' out, writeZip (K := K) localOffset pkgC base cmt es (NewWriter w0) = (Ok tt, w') /\
    io_out (bfw_wr (ct_w (zw_cw w'))) = io_out w0 ++ out /\
    forall (r : R) pre, ra_data r = pre ++ out -> len (ra_data r) < 2 ^ 63 -> endsPlain (ra_data r) cmt = true ->
      base = len pre \/ base = 0 /\ len out < uint32max /\ len es < uint16max ->
      len (ra_data r) < Z.of_nat fuel -> (46 <= fuel)%nat ->
      exists z, NewReader db cp sj fuel r (len (ra_data r)) = Ok z /\ r_Comment z = cmt /\
        Forall2 (fun e f => listed localOffset e f /\ readable pkgD fuel z e f) es (r_File z).
Proof.
  intros HC HD Hbase Hcmt Hes Hd.
  destruct (writeZip_sink localOffset pkgC codec HC base cmt es xss w0) as (w' & ents & E & Hce & Ho); [unfold in_int64; lia | done | done |].
  exists w', (stored base cmt ents); split; [done|]; split; [done|]; intros r pre Hr Hs Hp Hb Hf H46.
  assert (Hle : len ents = len es) by (unfold len; rewrite <- (Forall2_length _ _ _ Hce), length_zip_with, <- (Forall2_length _ _ _ Hes); lia).
  assert (Hall : Forall2 (fun e ent => exists xs, writable pkgC e xs /\ carriesOut codec (planOf localOffset e xs) ent /\
    is_Some (pkgD !! fh_Method e.1) /\ len (mjoin e.2) < 2 ^ 63) es ents).
  { clear -Hes Hce Hd; revert ents Hce Hd; induction Hes as [|e xs es xss He _ IH]; intros ents Hce Hd; cbn [zip_with] in Hce.
    - inversion Hce; constructor.
    - apply Forall2_cons_inv_l in Hce as (ent & ents' & Hc & Hce & ->); apply Forall_cons in Hd as [[Hd1 Hd2] Hd].
      constructor; [by exists xs | by apply IH]. }
  assert (Hent : Forall entryOk ents).
  { apply Forall_forall; intros ent Hin; pose proof (comp_size base cmt ents ent Hin) as Hcs; rewrite Hr, len_app in Hs; pose proof (len_nonneg pre).
    apply list_elem_of_lookup in Hin as [i Hi]; destruct (Forall2_lookup_r _ _ _ _ _ Hall Hi) as ([h cs] & _ & xs & [Hh _] & (C1 & C2 & C3 & _) & _ & Hl).
    destruct ent as [eh ex ed ec]; cbn in *; subst; apply prepared_entryOk; [done | done | lia]. }
  assert (Hok : archiveOk r pre base ents cmt) by (apply stored_archiveOk; try done; by rewrite Hle).
  exists (mkReader r (archiveFiles r pre base ents) cmt ∅).
  set (P := fun (e : zipEntry) (p : entry * Z) =>
    let f := mkFile (readHdr p.1 p.2) (len (ra_data r)) (p.2 - base + len pre) in
    listed localOffset e f /\ ValidString (fh_Name (readHdr p.1 p.2)) = true /\
    readable pkgD fuel (mkReader r (archiveFiles r pre base ents) cmt ∅) e f).
  assert (Hin : forall e ent o, (ent, o) ∈ placed base ents -> (exists xs, writable pkgC e xs /\ carriesOut codec (planOf localOffset e xs) ent /\
    is_Some (pkgD !! fh_Method e.1) /\ len (mjoin e.2) < 2 ^ 63) -> P e (ent, o)).
  { intros e ent o Hpl (xs & [Hh _] & Hca & [dcomp Hdc] & Hl); pose proof (readHdr_listed localOffset codec e xs ent o (len (ra_data r)) (o - base + len pre) Hh Hca Hl) as Hlist.
    unfold P; cbn [fst snd]; split; [done|]; split; [rewrite (ls_Name _ _ _ Hlist : fh_Name (readHdr ent o) = _); apply Hh|]; intros k Hk.
    destruct Hca as (C1 & C2 & C3 & C4); cbn [planOf p_hdr p_data] in *; destruct (prepared_same localOffset e.1) as (_ & _ & Pm & _).
    pose proof (HD _ _ Hdc) as HDc; rewrite <- C3, <- Pm, <- C1 in *.
    apply (ReadAll_file r pre base ents cmt Hok ent o Hpl dcomp (codec (fh_Method (e_hdr ent)))); try done; try lia. }
  pose proof (placed_Forall2 _ P base es ents Hall Hin) as Hpl.
  split; [|split; [done|]].
  - apply (NewReader_ok r pre base ents cmt Hok); [|done | done]; unfold archiveFiles.
    apply Forall_fmap, Forall_forall; intros p Hp'; apply list_elem_of_lookup in Hp' as [i Hi].
    destruct (Forall2_lookup_r _ _ _ _ _ Hpl Hi) as (e & _ & _ & Hv & _); destruct p as [ent o]; unfold undecoded; cbn in *; rewrite Hv; by rewrite andb_false_r.
  - cbn [r_File]; unfold archiveFiles; apply Forall2_fmap_r; eapply Forall2_impl; [exact Hpl|]; intros e [ent o] (H1' & _ & H2'); done.
Qed.

(** ** Claims *)

(** C2: a zip archive that the writer writes into any sink, with any
    compressors, is read back by the reader behind any data [pre]: it is
    opened, every file is listed with its name, comment, attributes, extra
    fields, size, checksum and time (instant and zone), and its contents are
    decompressed to the end with the checksum verified. The offsets of the
    archive count either from the start of the file ([base = len pre], as
    after [SetOffset], of any size, zip64 included) or from its own start,
    and then the padding is discovered. *)
Theorem zip_roundtrip {W K R X} `{IoSink W} `{Compressing K} `{ReaderAtData R} `{IoReader X} `{IoCloser X}
    localOffset (pkgC : gmap Z (Compressor K)) (pkgD : gmap Z (Decompressor R X)) (codec : Z -> bytes -> bytes -> Prop)
    db cp sj base cmt (es : list zipEntry) xss (w0 : W) (fuel : nat) :
  (forall m comp, pkgC !! m = Some comp -> CompressorOk comp (codec m)) ->
  (forall m dcomp, pkgD !! m = Some dcomp -> DecompressorOk dcomp (codec m)) ->
  0 <= base < 2 ^ 63 -> len cmt < 2 ^ 16 -> Forall2 (writable pkgC) es xss ->
  Forall (fun e => is_Some (pkgD !! fh_Method e.1) /\ len (mjoin e.2) < 2 ^ 63) es ->
  exists w' out, writeZip (K := K) localOffset pkgC base cmt es (NewWriter w0) = (Ok tt, w') /\
    io_out (bfw_wr (ct_w (zw_cw w'))) = io_out w0 ++ out /\
    forall (r : R) pre, ra_data r = pre ++ out -> len (ra_data r) < 2 ^ 63 -> endsPlain (ra_data r) cmt = true ->
      base = len pre \/ base = 0 /\ len out < uint32max /\ len es < uint16max ->
      len (ra_data r) < Z.of_nat fuel -> (46 <= fuel)%nat ->
      exists z, NewReader db cp sj fuel r (len (ra_data r)) = Ok z /\ r_Comment z = cmt /\
        Forall2 (fun e f => listed localOffset e f /\ readable pkgD fuel z e f) es (r_File z).
Proof. apply writeZip_reads. Qed.

(** ** The hypotheses can hold

    An archive behind three other bytes: a stored file in a directory of its
    own with a private extra field and a modification time, and a file
    through a codec that masks each byte, written in two pieces. *)
Definition mask (p : bytes) : bytes := (fun b => Z.lxor b 0x55) <$> p.

Lemma mask_mask p : mask (mask p) = p.
Proof.
  unfold mask; rewrite <- list_fmap_compose; rewrite <- (list_fmap_id p) at 2; apply list_fmap_ext; intros i x _.
  unfold compose; by rewrite Z.lxor_assoc, Z.lxor_nilpotent, Z.lxor_0_r.
Qed.

Lemma len_mask p : len (mask p) = len p.
Proof. unfold len, mask; by rewrite length_fmap. Qed.

#[local] Instance mask_Compressing : Compressing unit := {|
  comp_write := fun U wr k p => let! (n, err) := wr (mask p) in ret (n, err, k);
  comp_close := fun U wr k => ret (None, k)
|}.
Definition maskCompressor : Compressor unit := fun U wr s => ret (inl (External tt)).

#[local] Instance mask_CompressorOk : CompressorOk maskCompressor (fun z p => z = mask p).
Proof.
  unshelve econstructor; [exact (fun c plain z => c = External tt /\ z = mask plain) | | |].
  - intros U wr good Hw s o u _ Hg; by exists (External tt).
  - intros U wr good Hw c plain z p o u [-> ->] Hg; destruct (wr_sink o u (mask p) Hg) as (u' & E & Hg').
    exists (External tt), (mask p), u'; unfold wcWrite, bind, ret; cbn [comp_write mask_Compressing]; unfold bind, ret; rewrite E, len_mask.
    split; [done|]; split; [done|]; split; [done|]; unfold mask; by rewrite fmap_app.
  - intros U wr good Hw c plain z o u [-> ->] Hg; exists (External tt), [], u; by rewrite !app_nil_r.
Defined.

Record masked := mkMasked { mk_section : sectionReader bytesReader }.
#[local] Instance masked_IoReader : IoReader masked :=
  {| io_read := fun x n => let '(bs, e, s) := io_read (mk_section x) n in (mask bs, e, mkMasked s); io_seek := None |}.
#[local] Instance masked_IoCloser : IoCloser masked := fun x => (None, x).
Definition maskDecompressor : Decompressor bytesReader masked := fun s _ => Decomp (mkMasked s).

#[local] Instance mask_DecompressorOk : DecompressorOk maskDecompressor (fun z p => z = mask p).
Proof.
  unshelve econstructor; [exact (fun out rc => exists s, rc = Decomp (mkMasked s) /\ sectionInv (mask out) s) | |].
  - intros out rc n (s & -> & Hs) Hn; destruct (reads_step (mask out) s n Hs Hn) as (bs & e & s' & E & Hl & Hc).
    unfold ioRead in E |- *; cbn [io_read rc_IoReader rcRead masked_IoReader mk_section]; destruct (io_read s n) as [[bs0 e0] s0]; injection E as -> -> ->.
    do 3 eexists; split; [reflexivity|]; split; [by rewrite len_mask|].
    destruct Hc as [(-> & Hb & out' & Ho & Hs') | (-> & Ho & Hs')]; [left | right]; (split; [done|]).
    + split; [by destruct bs|]; exists (mask out'); split; [|by exists s'; rewrite mask_mask].
      rewrite <- (mask_mask out), Ho; unfold mask; by rewrite fmap_app.
    + split; [by rewrite <- Ho, mask_mask | by exists s'].
  - intros z p s f -> Hs; by exists s.
Defined.

Definition demoEntry (name comment : bytes) (method : Z) (modified : Time) (extra : bytes) (chunks : list bytes) : zipEntry :=
  (mkFileHeader name comment false 0 0 0 method modified 0 0 0 0 0 0 0 extra 0, chunks).
Definition demoEntries : list zipEntry :=
  [demoEntry [100; 47; 97] [104; 105] Store (mkTime (unixToInternal + 1600000000) 0 UTC) (encExtra [(0xcafe, [1; 2])]) [[104; 101; 108; 108; 111]];
   demoEntry [98] [] Deflate zeroTime [] [[1; 2; 3]; [4; 5]]].
Definition demoC : gmap Z (Compressor unit) := {[ Store := storeCompressor; Deflate := maskCompressor ]}.
Definition demoD : gmap Z (Decompressor bytesReader masked) := {[ Store := storeDecompressor; Deflate := maskDecompressor ]}.
Definition demoCodec (m : Z) (z p : bytes) : Prop := if m =? Store then z = p else z = mask p.
Definition demoPre : bytes := [7; 7; 7].

Lemma demo_methods {A} (P : Z -> A -> Type) (s d : A) m x :
  ({[ Store := s; Deflate := d ]} : gmap Z A) !! m = Some x -> P Store s -> P Deflate d -> P m x.
Proof.
  intros E Hs Hd; destruct (Z.eq_dec m Store) as [->|N].
  - by simplify_map_eq.
  - destruct (Z.eq_dec m Deflate) as [->|N2]; simplify_map_eq; done.
Qed.

Definition none {A : Type} (s : bytes) : option A := None.

Lemma demo_writable : Forall2 (writable demoC) demoEntries [[(0xcafe, [1; 2])]; []].
Proof.
  repeat constructor; try (by vm_compute); try (by eexists); cbn [fst snd]; try (unfold in_uint; lia).
  apply (bool_decide_eq_true_1 _); by vm_compute.
Qed.

Lemma zip_roundtrip_witness :
  exists w' out, writeZip (K := unit) (fun _ => 0) demoC 3 [99] demoEntries (NewWriter (mkBuffer [])) = (Ok tt, w') /\
    buf_data (bfw_wr (ct_w (zw_cw w'))) = out /\
    exists z, NewReader none none none 600 (mkBytesReader (demoPre ++ out)) (len (demoPre ++ out)) = Ok z /\ r_Comment z = [99] /\
      Forall2 (fun e f => listed (fun _ => 0) e f /\ readable demoD 600 z e f) demoEntries (r_File z).
Proof.
  set (b := buf_data (bfw_wr (ct_w (zw_cw (writeZip (K := unit) (fun _ => 0) demoC 3 [99] demoEntries (NewWriter (mkBuffer []))).2)))).
  destruct (zip_roundtrip (fun _ => 0) demoC demoD demoCodec none none none 3 [99] demoEntries [[(0xcafe, [1; 2])]; []] (mkBuffer []) 600)
    as (w' & out & E & Ho & R).
  - intros m comp Hm; apply (demo_methods (fun m c => CompressorOk c (demoCodec m)) _ _ m comp Hm); [apply store_CompressorOk | apply mask_CompressorOk].
  - intros m dcomp Hm; apply (demo_methods (fun m c => DecompressorOk c (demoCodec m)) _ _ m dcomp Hm); [apply store_DecompressorOk | apply mask_DecompressorOk].
  - done.
  - done.
  - apply demo_writable.
  - repeat constructor; try (by eexists).
  - assert (Eb : out = b) by (unfold b; by rewrite E).
    assert (Hp : endsPlain (demoPre ++ b) [99] = true) by (by vm_compute).
    assert (Hl : (len (demoPre ++ b) <? 600) = true) by (by vm_compute).
    clearbody b; subst b; exists w', out; split; [done|]; split; [done|]; apply Z.ltb_lt in Hl.
    apply (R (mkBytesReader (demoPre ++ out)) demoPre); [reflexivity | cbn [ra_data bytesReader_data br_data]; lia | exact Hp | by left | exact Hl |].
    apply Nat.leb_le; by vm_compute.
Defined.
