(* ===== verification/PflateWriter.v ===== *)
(** * pflate/pflate.go: the parallel flate writer

    Several goroutines share one [Writer]: the caller of its methods, one
    goroutine per block that compresses it, and a listener that passes the
    compressed blocks on in the order in which they were queued. A state
    holds the fields of the writer and everything the goroutines share; each
    goroutine is a function that takes one atomic step, and a run is any
    interleaving of the steps. The flate package is third-party code: what a
    compressor emits for a block is a parameter. *)
From S2P Require Import Prelude GoInt GoIO.
Open Scope go_scope.

Definition defaultBlockSize : Z := Z.shiftl 256 10.
Definition tailSize : Z := 16384.
Definition defaultBlocks : Z := 16.

(** The limits of [make] on 64-bit platforms: it panics where the elements
    of a slice, or the header of a channel and its elements, take more than
    [maxAlloc] bytes. An element of [z.results] is two pointers. *)
Definition maxAlloc : Z := Z.shiftl 1 48.
Definition makesSlice (cap : Z) : bool := (0 <=? cap) && (cap <=? maxAlloc).
Definition makesResults (blocks : Z) : bool := (0 <=? blocks) && (16 * blocks <=? maxAlloc - 96).

(** The capacity of a buffer of [dstPool]. *)
Definition poolSize (blockSize : Z) : Z := int64 (blockSize + Z.shiftr blockSize 4).

(** Block sizes of which the buffers can be made. *)
Definition roomy (blockSize : Z) : bool := makesSlice blockSize && makesSlice (poolSize blockSize).

(** ** Commands

    What a goroutine still has to do: the result it has reached, or the next
    atomic step with what follows it. The list holds the possible steps: it
    is empty while the goroutine blocks, and has several elements where Go
    chooses. *)
Inductive cmd (S A : Type) : Type :=
  | Done (o : outcome A)
  | Await (f : S -> list (S * cmd S A)).
Arguments Done {S A}.
Arguments Await {S A}.

Fixpoint cbind {S A B} (m : cmd S A) (k : A -> cmd S B) : cmd S B :=
  match m with
  | Done (Ok a) => k a
  | Done (Err e) => Done (Err e)
  | Done Panic => Done Panic
  | Done OutOfFuel => Done OutOfFuel
  | Await f => Await (fun s => (fun p => (p.1, cbind p.2 k)) <$> f s)
  end.
Definition cret {S A} (a : A) : cmd S A := Done (Ok a).

(** One step that cannot block. *)
Definition atomic {S A} (f : S -> outcome A * S) : cmd S A := Await (fun s => let '(o, s) := f s in [(s, Done o)]).

Notation "'let*' x ':=' m 'in' k" := (cbind m (fun x => k))
  (at level 10, x pattern, m at level 100, k at level 200,
   format "'[v' 'let*'  x  ':='  m  'in' '/' k ']'") : go_scope.

(** ** The state *)

(** The channel [result] of a block, with its buffer of one element. *)
Inductive resState := RPending | RSent (buf : bytes) | RTaken | RClosed.

(** A [result]: its channel, and whether [notifyWritten] is closed. *)
Record cell := mkCell { c_result : resState; c_notified : bool }.

(** A channel of results: its capacity, the queue, and whether it is closed. *)
Record chan := mkChan { ch_cap : Z; ch_queue : list nat; ch_closed : bool }.

(** A call of [compressBlock] in a goroutine: its arguments, and how far it
    is: before the compression, before the deferred calls, over. *)
Inductive jobPc := JRun | JEnd | JDone.
#[export] Instance jobPc_eq_dec : EqDecision jobPc.
Proof. solve_decision. Defined.
Record job := mkJob { j_p : bytes; j_prevTail : bytes; j_r : nat; j_closed : bool; j_pc : jobPc }.

(** A listener: before [listen := z.results]; at [r, ok := <-listen]; at
    [buf := <-r.result]; at [z.w.Write(buf)]; at [z.pushError(err)]; at
    [close(r.notifyWritten)], to go on or to return; over. *)
Inductive listener :=
  | LStart
  | LRecv (listen : nat)
  | LResult (listen r : nat)
  | LWrite (listen r : nat) (buf : bytes)
  | LPush (r : nat) (err : error)
  | LNotify (r : nat) (next : option nat)
  | LReturned.

(** The fields that only the methods assign. *)
Record fields := mkFields {
  z_started : bool;
  z_w : nat;
  z_level : Z;
  z_blockSize : Z;
  z_blocks : Z;
  z_currentBuffer : bytes;
  z_prevTail : bytes;
  z_size : Z;
  z_closed : bool;
  z_results : nat
}.

(** The writer and what it refers to. [pushedErr] is closed exactly when
    [err] is set. The wait group counts the jobs that are not over. The two
    pools only recycle memory: a buffer enters [dstPool] after its last use,
    and a compressor is reset before it is used. *)
Record state (W : Type) := mkState {
  st_fields : fields;
  st_err : option error;
  st_chans : list chan;
  st_cells : list cell;
  st_jobs : list job;
  st_listeners : list listener;
  st_ws : list W
}.
Arguments mkState {W}.
Arguments st_fields {W}.
Arguments st_err {W}.
Arguments st_chans {W}.
Arguments st_cells {W}.
Arguments st_jobs {W}.
Arguments st_listeners {W}.
Arguments st_ws {W}.

(** Assignments. *)
Section Assign.
Context {W : Type}.
Implicit Types s : state W.
Definition setFields x s : state W := mkState x (st_err s) (st_chans s) (st_cells s) (st_jobs s) (st_listeners s) (st_ws s).
Definition setErr x s : state W := mkState (st_fields s) x (st_chans s) (st_cells s) (st_jobs s) (st_listeners s) (st_ws s).
Definition setChans x s : state W := mkState (st_fields s) (st_err s) x (st_cells s) (st_jobs s) (st_listeners s) (st_ws s).
Definition setCells x s : state W := mkState (st_fields s) (st_err s) (st_chans s) x (st_jobs s) (st_listeners s) (st_ws s).
Definition setJobs x s : state W := mkState (st_fields s) (st_err s) (st_chans s) (st_cells s) x (st_listeners s) (st_ws s).
Definition setListeners x s : state W := mkState (st_fields s) (st_err s) (st_chans s) (st_cells s) (st_jobs s) x (st_ws s).
Definition setWs x s : state W := mkState (st_fields s) (st_err s) (st_chans s) (st_cells s) (st_jobs s) (st_listeners s) x.

Definition setCell (r : nat) (c : cell -> cell) s : state W := setCells (alter c r (st_cells s)) s.
Definition setListener (l : nat) (x : listener) s : state W := setListeners (<[l := x]> (st_listeners s)) s.
Definition setJob (i : nat) (pc : jobPc) s : state W :=
  setJobs (alter (fun j => mkJob (j_p j) (j_prevTail j) (j_r j) (j_closed j) pc) i (st_jobs s)) s.
Definition setResult (x : resState) (c : cell) : cell := mkCell x (c_notified c).
Definition notify (c : cell) : cell := mkCell (c_result c) true.

(** [pushError] keeps the first error. *)
Definition pushError (err : error) s : state W :=
  match st_err s with Some _ => s | None => setErr (Some err) s end.
End Assign.

(** Assignments to single fields. *)
Definition setStarted (started : bool) (cur : bytes) (z : fields) : fields :=
  mkFields started (z_w z) (z_level z) (z_blockSize z) (z_blocks z) cur (z_prevTail z) (z_size z) (z_closed z) (z_results z).
Definition setBuffer (cur tail : bytes) (z : fields) : fields :=
  mkFields (z_started z) (z_w z) (z_level z) (z_blockSize z) (z_blocks z) cur tail (z_size z) (z_closed z) (z_results z).
Definition setSize (size : Z) (z : fields) : fields :=
  mkFields (z_started z) (z_w z) (z_level z) (z_blockSize z) (z_blocks z) (z_currentBuffer z) (z_prevTail z) size (z_closed z) (z_results z).
Definition setClosed (closed : bool) (z : fields) : fields :=
  mkFields (z_started z) (z_w z) (z_level z) (z_blockSize z) (z_blocks z) (z_currentBuffer z) (z_prevTail z) (z_size z) closed (z_results z).
Definition setConcurrency (blockSize blocks : Z) (results : nat) (z : fields) : fields :=
  mkFields (z_started z) (z_w z) (z_level z) blockSize blocks (z_currentBuffer z) (z_prevTail z) (z_size z) (z_closed z) results.

Section Writer.
Context {W : Type} `{IoWriter W}.
(** What the compressor of a level emits for a block after [ResetDict] with
    the dictionary, [Write], [Flush] and, for the last block, [Close]. *)
Variable deflate : Z -> bytes -> bytes -> bool -> bytes + error.
Abbreviation state := (state W).

(** ** The goroutines *)

(** [compressBlock]: compress and send the block, or push the error; then
    [close(r.result)] and [z.wg.Done()]. Its own buffer is of the size of the
    caller's next one: where [make] panics, [submit] does. *)
Definition jobStep (i : nat) (s : state) : option state :=
  match st_jobs s !! i with
  | None => None
  | Some j =>
      match j_pc j with
      | JRun =>
          match deflate (z_level (st_fields s)) (j_p j) (j_prevTail j) (j_closed j) with
          | inl buf => Some (setJob i JEnd (setCell (j_r j) (setResult (RSent buf)) s))
          | inr err => Some (setJob i JEnd (pushError err s))
          end
      | JEnd =>
          Some (setJob i JDone (setCell (j_r j) (fun c => match c_result c with RPending => setResult RClosed c | _ => c end) s))
      | JDone => None
      end
  end.

(** The goroutine that [Write] starts. A closed and empty [result] gives nil. *)
Definition listenerStep (l : nat) (s : state) : option state :=
  match st_listeners s !! l with
  | Some LStart => Some (setListener l (LRecv (z_results (st_fields s))) s)
  | Some (LRecv listen) =>
      match st_chans s !! listen with
      | Some (mkChan cap (r :: queue) closed) => Some (setListener l (LResult listen r) (setChans (<[listen := mkChan cap queue closed]> (st_chans s)) s))
      | Some (mkChan _ [] true) => Some (setListener l LReturned s)
      | _ => None
      end
  | Some (LResult listen r) =>
      match c_result <$> st_cells s !! r with
      | Some (RSent buf) => Some (setListener l (LWrite listen r buf) (setCell r (setResult RTaken) s))
      | Some RClosed => Some (setListener l (LWrite listen r []) s)
      | _ => None
      end
  | Some (LWrite listen r buf) =>
      match st_ws s !! z_w (st_fields s) with
      | None => None
      | Some w =>
          let '(n, err, w) := io_write w buf in
          let s := setWs (<[z_w (st_fields s) := w]> (st_ws s)) s in
          match err with
          | Some err => Some (setListener l (LPush r err) s)
          | None =>
              if negb (n =? len buf) then Some (setListener l (LPush r (ErrMsg "gzip: short write %d should be %d")) s)
              else Some (setListener l (LNotify r (Some listen)) s)
          end
      end
  | Some (LPush r err) => Some (setListener l (LNotify r None) (pushError err s))
  | Some (LNotify r next) =>
      Some (setListener l (match next with Some listen => LRecv listen | None => LReturned end) (setCell r notify s))
  | Some LReturned | None => None
  end.

(** ** The methods *)
Abbreviation code := (cmd state).

Definition checkError : code (option error) := atomic (fun s => (Ok (st_err s), s)).

(** [case z.results <- r:] with the index of [r], or [case <-z.pushedErr:]. *)
Definition sendResult : code (option nat) := Await (fun s =>
  let r := length (st_cells s) in
  let ch := z_results (st_fields s) in
  let send :=
    match st_chans s !! ch with
    | None => []
    | Some c =>
        if ch_closed c then [(s, Done Panic)]
        else if len (ch_queue c) <? ch_cap c then
          [(setCells (st_cells s ++ [mkCell RPending false]) (setChans (<[ch := mkChan (ch_cap c) (ch_queue c ++ [r]) false]> (st_chans s)) s), cret (Some r))]
        else []
    end in
  send ++ match st_err s with Some _ => [(s, cret None)] | None => [] end).

(** [go z.compressBlock(c, z.prevTail, r, closed)], then the next tail and
    the current buffer. *)
Definition spawn (c : bytes) (r : nat) (closed : bool) (tail cur : bytes) (s : state) : state :=
  let z := st_fields s in
  setFields (setBuffer cur tail z) (setJobs (st_jobs s ++ [mkJob c (z_prevTail z) r closed JRun]) s).

(** The rest of [compressCurrent] up to the wait; whether the block was split.
    The next buffer comes from [dstPool], which makes it when it has none: it
    has none when its buffers cannot be made. *)
Definition submit (r : nat) : code bool := atomic (fun s =>
  let z := st_fields s in
  let c := z_currentBuffer z in
  if z_blockSize z * 2 <? len c then
    let c1 := take (Z.to_nat (z_blockSize z)) c in
    if len c1 <? tailSize then (Panic, s)
    else (Ok true, spawn c1 r false (drop (Z.to_nat (len c1 - tailSize)) c1) (drop (Z.to_nat (z_blockSize z)) c) s)
  else
    let tail := if tailSize <? len c then drop (Z.to_nat (len c - tailSize)) c else [] in
    if makesSlice (poolSize (z_blockSize z)) then (Ok false, spawn c r (z_closed z) tail [] s)
    else (Panic, spawn c r (z_closed z) tail c s)).

(** [<-r.notifyWritten]. *)
Definition waitWritten (r : nat) : code unit := Await (fun s =>
  match st_cells s !! r with
  | Some c => if c_notified c then [(s, cret tt)] else []
  | None => []
  end).

Fixpoint compressLoop (fuel : nat) (flush : bool) : code unit :=
  match fuel with
  | O => Done OutOfFuel
  | S fuel =>
      let* r := sendResult in
      match r with
      | None => cret tt
      | Some r =>
          let* split := submit r in
          if split then compressLoop fuel flush
          else if flush then waitWritten r else cret tt
      end
  end.
(** Each call that splits the buffer leaves a shorter one. *)
Definition compressCurrent (flush : bool) : code unit :=
  Await (fun s => [(s, compressLoop (S (length (z_currentBuffer (st_fields s)))) flush)]).

(** The start of the listener and of the buffer. *)
Definition start : code unit := atomic (fun s =>
  let z := st_fields s in
  let listened := setListeners (st_listeners s ++ [LStart]) s in
  if z_started z then (Ok tt, s)
  else if makesSlice (z_blockSize z) then (Ok tt, setFields (setStarted true [] z) listened)
  else (Panic, setFields (setStarted true (z_currentBuffer z) z) listened)).

(** A turn of the loop of [Write]: the bytes it appends, and whether the
    block is full. *)
Definition fill (q : bytes) : code (Z * bool) := atomic (fun s =>
  let z := st_fields s in
  let cur := z_currentBuffer z in
  let length := if z_blockSize z <? len q + len cur then z_blockSize z - len cur else len q in
  if length <? 0 then (Panic, s)
  else
    let cur := cur ++ take (Z.to_nat length) q in
    (Ok (length, z_blockSize z <=? len cur), setFields (setBuffer cur (z_prevTail z) z) s)).

Definition grow (length : Z) : code unit := atomic (fun s =>
  (Ok tt, setFields (setSize (int64 (z_size (st_fields s) + length)) (st_fields s)) s)).

(** The number of bytes to return early with, and the error. *)
Fixpoint writeLoop (fuel : nat) (p q : bytes) : code (option (Z * error)) :=
  match q with
  | [] => cret None
  | _ =>
      match fuel with
      | O => Done OutOfFuel
      | S fuel =>
          let* (length, full) := fill q in
          let* err := (if full then let* _ := compressCurrent false in checkError else cret None) in
          match err with
          | Some e => cret (Some (len p - len q - length, e))
          | None => let* _ := grow length in writeLoop fuel p (drop (Z.to_nat length) q)
          end
      end
  end.

(** Every turn takes a byte off [q], but for a first one that finds the buffer
    full: [SetConcurrency] can shrink the blocks to what is buffered. *)
Definition Write (p : bytes) : code (Z * option error) :=
  let* err := checkError in
  match err with
  | Some e => cret (0, Some e)
  | None =>
      let* _ := start in
      let* early := writeLoop (S (length p)) p p in
      match early with
      | Some (n, e) => cret (n, Some e)
      | None => let* err := checkError in cret (len p, err)
      end
  end.

(** Reading and assigning a field of one's own. *)
Definition getField {A} (f : fields -> A) : code A := atomic (fun s => (Ok (f (st_fields s)), s)).
Definition assign (f : fields -> fields) : code unit := atomic (fun s => (Ok tt, setFields (f (st_fields s)) s)).

(** [if !z.started { _, err := z.Write(nil) }]. *)
Definition ensureStarted : code (option error) :=
  let* started := getField z_started in
  if started then cret None else let* (_, err) := Write [] in cret err.

Definition Flush : code (option error) :=
  let* err := checkError in
  match err with
  | Some e => cret (Some e)
  | None =>
      let* closed := getField z_closed in
      if closed then cret None
      else
        let* err := ensureStarted in
        match err with
        | Some e => cret (Some e)
        | None => let* _ := compressCurrent true in checkError
        end
  end.

(** [close(z.results)]. *)
Definition closeResults : code unit := atomic (fun s =>
  let ch := z_results (st_fields s) in
  match st_chans s !! ch with
  | Some (mkChan cap queue false) => (Ok tt, setChans (<[ch := mkChan cap queue true]> (st_chans s)) s)
  | _ => (Panic, s)
  end).

Definition Close : code (option error) :=
  let* err := checkError in
  match err with
  | Some e => cret (Some e)
  | None =>
      let* closed := getField z_closed in
      if closed then cret None
      else
        let* _ := assign (setClosed true) in
        let* err := ensureStarted in
        match err with
        | Some e => cret (Some e)
        | None =>
            let* _ := compressCurrent true in
            let* err := checkError in
            match err with
            | Some e => cret (Some e)
            | None => let* _ := closeResults in cret None
            end
        end
  end.

(** [make(chan result, blocks)]. *)
Definition makeResults (blocks : Z) (s : state) : outcome nat * state :=
  if makesResults blocks then (Ok (length (st_chans s)), setChans (st_chans s ++ [mkChan blocks [] false]) s) else (Panic, s).

(** The block size is assigned before the channel is made. *)
Definition concurrency (blockSize blocks : Z) (s : state) : outcome (option error) * state :=
  let z := st_fields s in
  if blockSize <=? tailSize then (Ok (Some (ErrMsg "gzip: block size cannot be less than or equal to %d")), s)
  else if blocks <=? 0 then (Ok (Some (ErrMsg "gzip: blocks cannot be zero or less")), s)
  else if (blockSize =? z_blockSize z) && (blocks =? z_blocks z) then (Ok None, s)
  else
    match makeResults blocks s with
    | (Ok ch, s) => (Ok None, setFields (setConcurrency blockSize blocks ch z) s)
    | (_, s) => (Panic, setFields (setConcurrency blockSize (z_blocks z) (z_results z) z) s)
    end.
Definition SetConcurrency (blockSize blocks : Z) : code (option error) := atomic (concurrency blockSize blocks).

(** [init], after [z.wg.Wait()]. It is only called behind
    [SetConcurrency(defaultBlockSize, defaultBlocks)], which leaves a number
    of blocks that does not panic. *)
Definition initFields (w : W) (level : Z) (s : state) : outcome unit * state :=
  match makeResults (z_blocks (st_fields s)) s with
  | (Ok ch, s) =>
      let z := st_fields s in
      (Ok tt, setFields (mkFields false (length (st_ws s)) level (z_blockSize z) (z_blocks z) [] [] 0 false ch)
        (setErr None (setWs (st_ws s ++ [w]) s)))
  | (_, s) => (Panic, s)
  end.
Definition init (w : W) (level : Z) : code unit := Await (fun s =>
  if forallb (fun j => match j_pc j with JDone => true | _ => false end) (st_jobs s) then
    let '(o, s) := initFields w level s in [(s, Done o)]
  else []).

Definition Reset (w : W) : code unit :=
  let* closed := getField z_closed in
  let* _ := (if closed then cret tt else closeResults) in
  let* _ := SetConcurrency defaultBlockSize defaultBlocks in
  let* level := getField z_level in
  init w level.

(** [new(Writer)], then [SetConcurrency] and [init]: no goroutine runs yet.
    The bounds of the level are constants of the flate package. *)
Definition newState : state := mkState (mkFields false 0 0 0 0 [] [] 0 false 0) None [] [] [] [] [].
Definition NewWriter (ConstantCompression BestCompression : Z) (w : W) (level : Z) : outcome state :=
  if (level <? ConstantCompression) || (BestCompression <? level) then Err (ErrMsg "gzip: invalid compression level: %d")
  else
    match initFields w level (concurrency defaultBlockSize defaultBlocks newState).2 with
    | (Ok _, z) => Ok z
    | _ => Panic
    end.

(** ** Length-prefixed bytes, little-endian

    No method calls these. The two bytes of [z.buf] that [writeBytes] uses
    are overwritten before they are read. *)
Definition put2 (p : bytes) (v : Z) : outcome bytes :=
  match p with
  | _ :: _ :: p => Ok (uint8 (Z.shiftr v 0) :: uint8 (Z.shiftr v 8) :: p)
  | _ => Panic
  end.
Definition put4 (p : bytes) (v : Z) : outcome bytes :=
  match p with
  | _ :: _ :: _ :: _ :: p => Ok (uint8 (Z.shiftr v 0) :: uint8 (Z.shiftr v 8) :: uint8 (Z.shiftr v 16) :: uint8 (Z.shiftr v 24) :: p)
  | _ => Panic
  end.

(** [_, err := z.w.Write(b)]. *)
Definition writeOut (b : bytes) : code (option error) := atomic (fun s =>
  match st_ws s !! z_w (st_fields s) with
  | None => (Panic, s)
  | Some w => let '(_, err, w) := io_write w b in (Ok err, setWs (<[z_w (st_fields s) := w]> (st_ws s)) s)
  end).

Definition writeBytes (b : bytes) : code (option error) :=
  if 0xffff <? len b then cret (Some (ErrMsg "pflate.Write: Extra data is too large"))
  else
    let* prefix := Done (put2 [0; 0] (uint16 (len b))) in
    let* err := writeOut prefix in
    match err with
    | Some e => cret (Some e)
    | None => writeOut b
    end.

(** ** Runs *)

(** Calls of the methods by their one caller, and what they return. *)
Inductive call :=
  | CWrite (p : bytes)
  | CFlush
  | CClose
  | CReset (w : W)
  | CSetConcurrency (blockSize blocks : Z).
Inductive result := RWrite (n : Z) (err : option error) | RErr (err : option error).

Definition callCode (c : call) : code result :=
  match c with
  | CWrite p => let* (n, err) := Write p in cret (RWrite n err)
  | CFlush => let* err := Flush in cret (RErr err)
  | CClose => let* err := Close in cret (RErr err)
  | CReset w => let* _ := Reset w in cret (RErr None)
  | CSetConcurrency bs n => let* err := SetConcurrency bs n in cret (RErr err)
  end.

(** The state, the call that is running, the calls to come and the results
    so far. *)
Record system := mkSystem {
  y_st : state;
  y_cur : option (code result);
  y_todo : list call;
  y_log : list result
}.

Inductive thread := TCaller (choice : nat) | TListener (l : nat) | TJob (i : nat).

Definition stepAt (t : thread) (y : system) : option system :=
  match t with
  | TListener l => (fun s => mkSystem s (y_cur y) (y_todo y) (y_log y)) <$> listenerStep l (y_st y)
  | TJob i => (fun s => mkSystem s (y_cur y) (y_todo y) (y_log y)) <$> jobStep i (y_st y)
  | TCaller choice =>
      match y_cur y, y_todo y with
      | None, [] => None
      | None, c :: todo => Some (mkSystem (y_st y) (Some (callCode c)) todo (y_log y))
      | Some (Done (Ok r)), _ => Some (mkSystem (y_st y) None (y_todo y) (y_log y ++ [r]))
      | Some (Done _), _ => None
      | Some (Await f), _ =>
          (fun p => mkSystem p.1 (Some p.2) (y_todo y) (y_log y)) <$> f (y_st y) !! choice
      end
  end.
Definition step (y y' : system) : Prop := exists t, stepAt t y = Some y'.

(** Every call has returned. *)
Definition finished (y : system) : Prop := y_cur y = None /\ y_todo y = [].

(** The call has panicked. *)
Definition crashed (y : system) : Prop := y_cur y = Some (Done Panic).

Definition runCalls (s : state) (cs : list call) : system := mkSystem s None cs [].

(** A schedule: the goroutine that takes each step. *)
Fixpoint schedule (ts : list thread) (y : system) : option system :=
  match ts with
  | [] => Some y
  | t :: ts => match stepAt t y with Some y => schedule ts y | None => None end
  end.
End Writer.
