(* ===== verification/PflateSpec.v ===== *)
(** * What a parallel flate writer is to emit

    The sequential specification of [pflate.Writer]: the blocks the data is
    cut into and the dictionaries they are compressed with, and the stream
    that an inflater makes of them. Then the rules to reason about a command
    that other goroutines interfere with. *)
From S2P Require Import Prelude GoInt GoIO PflateWriter.
Open Scope go_scope.

(** ** Blocks *)

(** A block: its data, its dictionary, and whether it ends the stream. *)
Record block := mkBlock { b_data : bytes; b_dict : bytes; b_final : bool }.

(** The blocks that are cut, the data that is not in a block yet, the
    dictionary of the next block, and whether the stream is closed. *)
Record stream := mkStream { sp_blocks : list block; sp_cur : bytes; sp_tail : bytes; sp_closed : bool }.

Definition emptyStream : stream := mkStream [] [] [] false.

(** The last bytes of a block, when there are enough. *)
Definition tailOf (c : bytes) : bytes := if tailSize <? len c then drop (Z.to_nat (len c - tailSize)) c else [].

Definition cut (x : stream) : stream :=
  mkStream (sp_blocks x ++ [mkBlock (sp_cur x) (sp_tail x) (sp_closed x)]) [] (tailOf (sp_cur x)) (sp_closed x).
Definition append (q : bytes) (x : stream) : stream := mkStream (sp_blocks x) (sp_cur x ++ q) (sp_tail x) (sp_closed x).
Definition finish (x : stream) : stream := mkStream (sp_blocks x) (sp_cur x) (sp_tail x) true.

(** Blocks of [bs] bytes. *)
Fixpoint specWrite (bs : Z) (fuel : nat) (q : bytes) (x : stream) : stream :=
  match q, fuel with
  | [], _ | _, O => x
  | _, S fuel =>
      let n := Z.to_nat (Z.min (len q) (bs - len (sp_cur x))) in
      let y := append (take n q) x in
      specWrite bs fuel (drop n q) (if bs <=? len (sp_cur y) then cut y else y)
  end.

Definition specCall {W} (bs : Z) (c : call (W := W)) (x : stream) : stream :=
  match c with
  | CWrite p => specWrite bs (length p) p x
  | CFlush => cut x
  | CClose => cut (finish x)
  | _ => x
  end.
Definition specCalls {W} (bs : Z) (cs : list (call (W := W))) (x : stream) : stream := foldl (fun x c => specCall bs c x) x cs.

(** Writes and flushes, and what they write. *)
Definition isData {W} (c : call (W := W)) : bool := match c with CWrite _ | CFlush => true | _ => false end.
Definition callData {W} (c : call (W := W)) : bytes := match c with CWrite p => p | _ => [] end.
Definition callsData {W} (cs : list (call (W := W))) : bytes := mjoin (callData <$> cs).

Definition streamData (x : stream) : bytes := mjoin (b_data <$> sp_blocks x) ++ sp_cur x.

(** Every dictionary is the end of the data in front of its block. *)
Inductive dictsOk : bytes -> list block -> Prop :=
  | dicts_nil hist : dictsOk hist []
  | dicts_cons hist b bl : b_dict b `suffix_of` hist -> dictsOk (hist ++ b_data b) bl -> dictsOk hist (b :: bl).

Lemma dictsOk_app hist bl bl' : dictsOk hist (bl ++ bl') <-> dictsOk hist bl /\ dictsOk (hist ++ mjoin (b_data <$> bl)) bl'.
Proof.
  revert hist; induction bl as [|b bl IH]; intros hist; cbn [app fmap list_fmap mjoin list_join].
  - rewrite app_nil_r; split; [intros H; split; [constructor | done] | by intros [_ H]].
  - rewrite app_assoc; split.
    + intros H; inversion H as [|? ? ? Hb Hbl]; subst; apply IH in Hbl as [? ?]; split; [by constructor | done].
    + intros [H1 H2]; inversion H1; subst; constructor; [done | by apply IH].
Qed.

(** The invariant of a stream with blocks of [bs] bytes. *)
Record streamOk (bs : Z) (x : stream) : Prop := {
  so_cur : len (sp_cur x) < bs;
  so_dicts : dictsOk [] (sp_blocks x);
  so_tail : sp_tail x `suffix_of` mjoin (b_data <$> sp_blocks x);
  so_open : sp_closed x = false;
  so_final : Forall (fun b => b_final b = false) (sp_blocks x);
  so_size : Forall (fun b => len (b_data b) <= bs) (sp_blocks x)
}.

Lemma tailOf_suffix c : tailOf c `suffix_of` c.
Proof.
  unfold tailOf; case_match; [|apply suffix_nil]; exists (take (Z.to_nat (len c - tailSize)) c); symmetry; apply take_drop.
Qed.

Lemma cut_data x : streamData (cut x) = streamData x.
Proof. unfold streamData, cut; cbn [sp_blocks sp_cur]; rewrite fmap_app, join_app; cbn; by rewrite !app_nil_r. Qed.
Lemma append_data q x : streamData (append q x) = streamData x ++ q.
Proof. unfold streamData, append; cbn [sp_blocks sp_cur]; by rewrite app_assoc. Qed.

Lemma cut_dicts x : dictsOk [] (sp_blocks x) -> sp_tail x `suffix_of` mjoin (b_data <$> sp_blocks x) ->
  dictsOk [] (sp_blocks (cut x)) /\ sp_tail (cut x) `suffix_of` mjoin (b_data <$> sp_blocks (cut x)).
Proof.
  intros Hd Ht; unfold cut; cbn [sp_blocks sp_tail]; rewrite dictsOk_app, fmap_app, join_app; split.
  - split; [done|]; repeat constructor; done.
  - cbn; rewrite app_nil_r; apply suffix_app_r, tailOf_suffix.
Qed.

Lemma cut_ok bs x : 0 < bs -> len (sp_cur x) <= bs -> dictsOk [] (sp_blocks x) -> sp_tail x `suffix_of` mjoin (b_data <$> sp_blocks x) ->
  sp_closed x = false -> Forall (fun b => b_final b = false) (sp_blocks x) -> Forall (fun b => len (b_data b) <= bs) (sp_blocks x) ->
  streamOk bs (cut x).
Proof.
  intros Hbs Hc Hd Ht Hcl Hf Hs; destruct (cut_dicts x Hd Ht) as [Hd' Ht']; split; try done; cbn [cut sp_blocks sp_cur].
  - rewrite Hcl; apply Forall_app; split; [done | by repeat constructor].
  - apply Forall_app; split; [done | by repeat constructor].
Qed.

Lemma specWrite_ok bs fuel q x : 0 < bs -> (length q <= fuel)%nat -> streamOk bs x ->
  streamOk bs (specWrite bs fuel q x) /\ streamData (specWrite bs fuel q x) = streamData x ++ q.
Proof.
  intros Hbs; revert q x; induction fuel as [|fuel IH]; intros q x Hf Hx.
  - destruct q; [|cbn in Hf; lia]; cbn; by rewrite app_nil_r.
  - destruct q as [|b q]; [cbn; by rewrite app_nil_r|]; set (q0 := b :: q) in *; cbn [specWrite]; fold q0; cbv zeta.
    pose proof (so_cur _ _ Hx) as Hc; pose proof (len_nonneg (sp_cur x)) as Hc0.
    assert (Hq : 1 <= len q0) by (unfold q0; rewrite len_cons; pose proof (len_nonneg q); lia).
    set (n := Z.to_nat (Z.min (len q0) (bs - len (sp_cur x)))); change (match q0 with [] => x | _ :: _ => ?e end) with e.
    assert (Hn : (1 <= n <= length q0)%nat /\ len (sp_cur x ++ take n q0) <= bs).
    { unfold n; rewrite len_app; unfold len in *; rewrite length_take; lia. }
    set (y := append (take n q0) x).
    assert (Hy : streamOk bs (if bs <=? len (sp_cur y) then cut y else y)).
    { destruct (Z.leb_spec bs (len (sp_cur y))).
      - apply cut_ok; try done; apply Hn || apply Hx.
      - destruct Hx; split; done. }
    destruct (IH (drop n q0) _ ltac:(rewrite length_drop; lia) Hy) as [H1 H2]; split; [exact H1|]; rewrite H2.
    assert (E : streamData (if bs <=? len (sp_cur y) then cut y else y) = streamData x ++ take n q0).
    { destruct (bs <=? _); [rewrite cut_data|]; apply append_data. }
    by rewrite E, <- app_assoc, take_drop.
Qed.

Lemma specCalls_ok {W} bs (cs : list (call (W := W))) x : 0 < bs -> Forall isData cs -> streamOk bs x ->
  streamOk bs (specCalls bs cs x) /\ streamData (specCalls bs cs x) = streamData x ++ callsData cs.
Proof.
  intros Hbs Hcs; revert x; induction Hcs as [|c cs Hc _ IH]; intros x Hx; [cbn; by rewrite app_nil_r|].
  assert (streamOk bs (specCall bs c x) /\ streamData (specCall bs c x) = streamData x ++ callData c) as [Hx' E].
  { destruct c; try done; cbn [specCall callData].
    - by apply specWrite_ok.
    - rewrite cut_data, app_nil_r; split; [|done]; pose proof (so_cur _ _ Hx); apply cut_ok; lia || apply Hx. }
  destruct (IH _ Hx') as [H1 H2]; split; [exact H1|]; change (specCalls bs (c :: cs) x) with (specCalls bs cs (specCall bs c x)).
  by rewrite H2, E, <- app_assoc.
Qed.

Lemma emptyStream_ok bs : 0 < bs -> streamOk bs emptyStream.
Proof. intros; split; try constructor; done. Qed.

(** All the blocks of data that is written and then closed. *)
Definition specBlocks {W} (bs : Z) (cs : list (call (W := W))) : list block := sp_blocks (cut (finish (specCalls bs cs emptyStream))).

(** The blocks of a stream that is closed hold its data, their dictionaries
    are in the past, and the last one, and no other, ends the stream. *)
Lemma finish_blocks bs x : streamOk bs x ->
  mjoin (b_data <$> sp_blocks (cut (finish x))) = streamData x /\ dictsOk [] (sp_blocks (cut (finish x))) /\
  exists bl b, sp_blocks (cut (finish x)) = bl ++ [b] /\ Forall (fun b => b_final b = false) bl /\ b_final b = true.
Proof.
  intros Hx; assert (Ed : streamData (cut (finish x)) = streamData x) by (by rewrite cut_data).
  split; [rewrite <- Ed; unfold streamData, cut; cbn [sp_cur]; by rewrite app_nil_r|]; split; [apply (cut_dicts (finish x)); apply Hx|].
  do 2 eexists; split; [reflexivity|]; split; [apply Hx | done].
Qed.

Lemma specBlocks_ok {W} bs (cs : list (call (W := W))) : 0 < bs -> Forall isData cs ->
  mjoin (b_data <$> specBlocks bs cs) = callsData cs /\ dictsOk [] (specBlocks bs cs) /\
  Forall (fun b => len (b_data b) <= bs) (specBlocks bs cs) /\
  exists bl b, specBlocks bs cs = bl ++ [b] /\ Forall (fun b => b_final b = false) bl /\ b_final b = true.
Proof.
  intros Hbs Hcs; destruct (specCalls_ok bs cs emptyStream Hbs Hcs (emptyStream_ok bs Hbs)) as [Hx E].
  unfold specBlocks; destruct (finish_blocks bs _ Hx) as (E1 & E2 & E3); rewrite E1, E; split; [done|]; split; [done|]; split; [|done].
  cbn; apply Forall_app; split; [apply Hx|]; repeat constructor; cbn; pose proof (so_cur _ _ Hx); lia.
Qed.

(** ** Inflating

    What the flate format promises of a block that a compressor has emitted
    for a dictionary: an inflater that has produced any data that ends in the
    dictionary produces the block, and the stream ends with the final one.
    [inflates hist z p]: behind [hist], [z] is the rest of a stream and
    produces [p]. *)
Class Inflates (deflate : bytes -> bytes -> bool -> bytes + error) (inflates : bytes -> bytes -> bytes -> Prop) : Prop := {
  inflate_final : forall hist dict p z, dict `suffix_of` hist -> deflate p dict true = inl z -> inflates hist z p;
  inflate_block : forall hist dict p z z' p', dict `suffix_of` hist -> deflate p dict false = inl z ->
    inflates (hist ++ p) z' p' -> inflates hist (z ++ z') (p ++ p')
}.

(** The compressed blocks. *)
Definition compressed (deflate : bytes -> bytes -> bool -> bytes + error) (b : block) (z : bytes) : Prop :=
  deflate (b_data b) (b_dict b) (b_final b) = inl z.

Lemma inflates_blocks deflate inflates `{!Inflates deflate inflates} hist bl b zs :
  dictsOk hist (bl ++ [b]) -> Forall (fun b => b_final b = false) bl -> b_final b = true ->
  Forall2 (compressed deflate) (bl ++ [b]) zs -> inflates hist (mjoin zs) (mjoin (b_data <$> bl ++ [b])).
Proof.
  intros Hd Hf Hb; revert hist zs Hd; induction Hf as [|a bl Ha _ IH]; intros hist zs Hd Hz.
  - apply Forall2_cons_inv_l in Hz as (z & zs' & Hz & Hn & ->); inversion Hn; subst; cbn; rewrite !app_nil_r.
    inversion Hd; subst; unfold compressed in Hz; rewrite Hb in Hz; by eapply inflate_final.
  - cbn [app] in *; apply Forall2_cons_inv_l in Hz as (z & zs' & Hz & Hzs & ->); inversion Hd; subst.
    unfold compressed in Hz; rewrite Ha in Hz; cbn [fmap list_fmap mjoin list_join]; eapply inflate_block; [done | done | by apply IH].
Qed.

(** ** Commands among other goroutines *)

Section Commands.
Context {W : Type} `{IoWriter W}.
Variable deflate : Z -> bytes -> bytes -> bool -> bytes + error.
Abbreviation state := (state W).

(** A step of another goroutine than the caller. *)
Definition env (s s' : state) : Prop := (exists i, jobStep deflate i s = Some s') \/ (exists l, listenerStep l s = Some s').
Definition rely : state -> state -> Prop := rtc env.

(** [inv]: what holds in every state. [guar]: what a step of the caller
    leaves to the others. [blocked]: where the caller may have to wait.
    [panics]: when it may panic. *)
Context (inv : state -> Prop) (guar : state -> state -> Prop) (blocked : state -> Prop) (panics : Prop).

(** [wpc Q m s]: from [s] on, whatever the others do, [m] keeps [inv] and
    [guar], waits and panics only where it may, and can otherwise only end in
    a result and a state in [Q]. *)
Inductive wpc {A} (Q : A -> state -> Prop) : cmd state A -> state -> Prop :=
  | wpc_done a s : (forall s', rely s s' -> inv s' -> Q a s') -> wpc Q (Done (Ok a)) s
  | wpc_panic s : panics -> wpc Q (Done Panic) s
  | wpc_await f s :
      (forall s', rely s s' -> inv s' -> f s' = [] -> blocked s') ->
      (forall s' s'' m, rely s s' -> inv s' -> (s'', m) ∈ f s' -> inv s'' /\ guar s' s'') ->
      (forall s' s'' m, rely s s' -> inv s' -> (s'', m) ∈ f s' -> wpc Q m s'') ->
      wpc Q (Await f) s.

Lemma wpc_rely {A} (Q : A -> state -> Prop) m s s' : wpc Q m s -> rely s s' -> wpc Q m s'.
Proof.
  intros Hm Hr; destruct Hm as [a s Hq | s Hp | f s Hb Hs Hk]; constructor; unfold rely in *; try done.
  - intros s2 Hr2; apply Hq; by etrans.
  - intros s2 Hr2; apply Hb; by etrans.
  - intros s2 s3 m Hr2; apply Hs; by etrans.
  - intros s2 s3 m Hr2; apply Hk; by etrans.
Qed.

Lemma wpc_bind {A B} (Q : B -> state -> Prop) (m : cmd state A) k s :
  wpc (fun a s' => wpc Q (k a) s') m s -> inv s -> wpc Q (cbind m k) s.
Proof.
  intros Hm; induction Hm as [a s Hq | s Hp | f s Hb Hs Hk IH]; intros Hi; cbn [cbind].
  - apply Hq; [constructor | done].
  - by constructor.
  - constructor.
    + intros s' Hr Hi' E; apply (Hb s' Hr Hi'); by destruct (f s').
    + intros s' s2 m2 Hr Hi' ([s3 m3] & [= -> ->] & Hp)%list_elem_of_fmap; by eapply Hs.
    + intros s' s2 m2 Hr Hi' ([s3 m3] & [= -> ->] & Hp)%list_elem_of_fmap; eapply IH; [done..|]; by eapply Hs.
Qed.

Lemma wpc_mono {A} (Q Q' : A -> state -> Prop) m s : wpc Q m s -> (forall a s', inv s' -> Q a s' -> Q' a s') -> wpc Q' m s.
Proof.
  intros Hm HQ; induction Hm as [a s Hq | s Hp | f s Hb Hs Hk IH]; constructor; try done.
  intros s' Hr Hi; apply HQ; [done | by apply Hq].
Qed.

(** An atomic step that may panic, and one that does not. *)
Lemma wpc_step {A} (Q : A -> state -> Prop) (f : state -> outcome A * state) s :
  (forall s', rely s s' -> inv s' ->
     inv (f s').2 /\ guar s' (f s').2 /\
     match (f s').1 with
     | Ok a => forall s3, rely (f s').2 s3 -> inv s3 -> Q a s3
     | Panic => panics
     | _ => False
     end) ->
  wpc Q (atomic f) s.
Proof.
  intros Hf; unfold atomic; constructor.
  - intros s' Hr Hi; by destruct (f s').
  - intros s' s2 m Hr Hi; destruct (Hf s' Hr Hi) as (Hi2 & Hg & _); destruct (f s') as [o s3].
    by intros [= -> ->]%list_elem_of_singleton.
  - intros s' s2 m Hr Hi; destruct (Hf s' Hr Hi) as (_ & _ & Hq); destruct (f s') as [o s3].
    intros [= -> ->]%list_elem_of_singleton; destruct o; try done; by constructor.
Qed.

Lemma wpc_atomic {A} (Q : A -> state -> Prop) (f : state -> outcome A * state) s :
  (forall s', rely s s' -> inv s' -> exists a s'', f s' = (Ok a, s'') /\ inv s'' /\ guar s' s'' /\
     forall s3, rely s'' s3 -> inv s3 -> Q a s3) ->
  wpc Q (atomic f) s.
Proof.
  intros Hf; apply wpc_step; intros s' Hr Hi; by destruct (Hf s' Hr Hi) as (a & s'' & -> & ?).
Qed.

Lemma wpc_ret {A} (Q : A -> state -> Prop) a s : (forall s', rely s s' -> inv s' -> Q a s') -> wpc Q (cret a) s.
Proof. intros; by constructor. Qed.
End Commands.
