(* ===== verification/PflateOrder.v ===== *)
(** * The invariant of the parallel flate writer

    What holds in every state of a writer that is used for one stream: the
    listener is at one block, it has passed on the blocks in front of it, in
    order, and the blocks behind it wait in the queue. Every step of a
    compressing goroutine and of the listener keeps it. *)
From S2P Require Import Prelude GoInt GoIO PflateWriter PflateSpec.
Open Scope go_scope.

(** Complete writes to a writer. *)
Inductive wrote {W} `{IoWriter W} (w0 : W) : list bytes -> W -> Prop :=
  | wrote_nil : wrote w0 [] w0
  | wrote_snoc bufs w b w' : wrote w0 bufs w -> io_write w b = (len b, None, w') -> wrote w0 (bufs ++ [b]) w'.

Lemma wrote_sink {W} `{IoSink W} (w0 : W) bufs w : wrote w0 bufs w -> io_out w = io_out w0 ++ mjoin bufs.
Proof.
  induction 1 as [|bufs w b w' _ IH E]; [cbn; by rewrite app_nil_r|].
  destruct (io_write_sink w b) as (w2 & E2 & Ho); rewrite E in E2; injection E2 as <-.
  rewrite Ho, IH, join_app; cbn; by rewrite app_nil_r, app_assoc.
Qed.

Definition blockOf (j : job) : block := mkBlock (j_p j) (j_prevTail j) (j_closed j).

Section Order.
Context {W : Type} `{IoWriter W}.
Variable deflate : Z -> bytes -> bytes -> bool -> bytes + error.
(** The level, the block size, the capacity and the index of the channel,
    the index of the underlying writer and what it was at first. *)
Variables (level bs cap : Z) (ch wi : nat) (w0 : W).
Abbreviation state := (state W).
Implicit Types s : state.

Definition blocks s : list block := blockOf <$> st_jobs s.
Definition failed s : Prop := st_err s <> None.

(** The first [k] blocks have been written, unless there is an error. *)
Definition written s (k : nat) : Prop :=
  failed s \/ exists bufs w, Forall2 (compressed (deflate level)) (take k (blocks s)) bufs /\ wrote w0 bufs w /\ st_ws s !! wi = Some w.

Definition consumed (c : cell) : Prop := c_result c = RTaken \/ c_result c = RClosed.

(** [k] blocks are written, the results of [t] are received, [m] are notified. *)
Record phase s (k t m : nat) : Prop := {
  ph_written : written s k;
  ph_consumed : forall i c, st_cells s !! i = Some c -> (i < t)%nat -> consumed c;
  ph_waiting : forall i c, st_cells s !! i = Some c -> (t <= i)%nat -> c_result c <> RTaken;
  ph_notified : forall i c, st_cells s !! i = Some c -> (c_notified c = true <-> (i < m)%nat)
}.

(** Where the listener is, for the queue [q] of a channel that is closed or not. *)
Inductive listening s (q : list nat) (closed : bool) : list listener -> Prop :=
  | li_none : st_cells s = [] -> q = [] -> written s 0 -> z_started (st_fields s) = false -> listening s q closed []
  | li_start : q = seq 0 (length (st_cells s)) -> phase s 0 0 0 -> z_started (st_fields s) = true -> listening s q closed [LStart]
  | li_recv k : q = seq k (length (st_cells s) - k) -> (k <= length (st_cells s))%nat -> phase s k k k ->
      z_started (st_fields s) = true -> listening s q closed [LRecv ch]
  | li_result k : q = seq (S k) (length (st_cells s) - S k) -> (k < length (st_cells s))%nat -> phase s k k k ->
      z_started (st_fields s) = true -> listening s q closed [LResult ch k]
  | li_write k buf : q = seq (S k) (length (st_cells s) - S k) -> (k < length (st_cells s))%nat -> phase s k (S k) k ->
      failed s \/ (exists b, blocks s !! k = Some b /\ compressed (deflate level) b buf) ->
      z_started (st_fields s) = true -> listening s q closed [LWrite ch k buf]
  | li_push k err : (k < length (st_cells s))%nat ->
      (forall i c, st_cells s !! i = Some c -> (c_notified c = true <-> (i < k)%nat)) ->
      z_started (st_fields s) = true -> listening s q closed [LPush k err]
  | li_notify k : q = seq (S k) (length (st_cells s) - S k) -> (k < length (st_cells s))%nat -> phase s (S k) (S k) k ->
      z_started (st_fields s) = true -> listening s q closed [LNotify k (Some ch)]
  | li_failing r : failed s -> z_started (st_fields s) = true -> listening s q closed [LNotify r None]
  | li_gone : failed s -> z_started (st_fields s) = true -> listening s q closed [LReturned]
  | li_returned : closed = true -> q = [] -> phase s (length (st_cells s)) (length (st_cells s)) (length (st_cells s)) ->
      z_started (st_fields s) = true -> listening s q closed [LReturned].

(** The result of a block agrees with its goroutine. *)
Definition cellOk s (i : nat) (c : cell) : Prop :=
  match st_jobs s !! i with
  | None => c_result c = RPending
  | Some j =>
      match c_result c with
      | RPending => j_pc j = JRun \/ j_pc j = JEnd /\ failed s
      | RSent buf => compressed (deflate level) (blockOf j) buf /\ j_pc j <> JRun
      | RTaken => j_pc j <> JRun
      | RClosed => failed s /\ j_pc j = JDone
      end
  end.

Record static (z : fields) : Prop := {
  sf_level : z_level z = level;
  sf_blockSize : z_blockSize z = bs;
  sf_w : z_w z = wi;
  sf_results : z_results z = ch
}.

Record inv s : Prop := {
  iv_static : static (st_fields s);
  iv_jobs : (length (st_jobs s) <= length (st_cells s) <= S (length (st_jobs s)))%nat;
  iv_jobr : forall i j, st_jobs s !! i = Some j -> j_r j = i;
  iv_cells : forall i c, st_cells s !! i = Some c -> cellOk s i c;
  iv_ws : is_Some (st_ws s !! wi);
  iv_run : exists q closed, st_chans s !! ch = Some (mkChan cap q closed) /\ listening s q closed (st_listeners s)
}.

(** ** Steps that only touch the results *)

(** What a step must keep for the listener. *)
Record quiet s s' : Prop := {
  qt_fields : st_fields s' = st_fields s;
  qt_blocks : blocks s' = blocks s;
  qt_ws : st_ws s' = st_ws s;
  qt_err : failed s -> failed s';
  qt_length : length (st_cells s') = length (st_cells s);
  qt_cells : forall i c', st_cells s' !! i = Some c' -> exists c, st_cells s !! i = Some c /\ c_notified c' = c_notified c /\
    (consumed c -> consumed c') /\ (c_result c' = RTaken -> c_result c = RTaken)
}.

Lemma quiet_written s s' k : quiet s s' -> written s k -> written s' k.
Proof. intros Q [Hf | Hw]; [left; by apply Q | right]; by rewrite (qt_blocks _ _ Q), (qt_ws _ _ Q). Qed.

Lemma quiet_phase s s' k t m : quiet s s' -> phase s k t m -> phase s' k t m.
Proof.
  intros Q [P1 P2 P3 P4]; split; [by eapply quiet_written|..]; intros i c' Hc'; destruct (qt_cells _ _ Q _ _ Hc') as (c & Hc & En & Ec & Et).
  - intros Hi; apply Ec; by eapply P2.
  - intros Hi E; by apply (P3 i c Hc Hi), Et.
  - rewrite En; by eapply P4.
Qed.

Lemma quiet_listening s s' q closed ls : quiet s s' -> listening s q closed ls -> listening s' q closed ls.
Proof.
  intros Q Hl; assert (Hp : forall k t m, phase s k t m -> phase s' k t m) by (intros k t m; by apply quiet_phase).
  destruct Hl as [Hn Hq Hw Hs | Hq Hph Hs | k Hq Hk Hph Hs | k Hq Hk Hph Hs | k buf Hq Hk Hph Hb Hs | k e Hk Hph Hs | k Hq Hk Hph Hs
    | r Hf Hs | Hf Hs | Hc Hq Hph Hs]; rewrite <- ?(qt_length _ _ Q), <- ?(qt_fields _ _ Q) in *.
  - apply li_none; [by apply length_zero_iff_nil; rewrite (qt_length _ _ Q), Hn | done | by eapply quiet_written | done].
  - apply li_start; auto.
  - apply (li_recv _ _ _ k); auto.
  - apply (li_result _ _ _ k); auto.
  - apply (li_write _ _ _ k); auto; destruct Hb as [|Hb]; [left; by apply Q | right; by rewrite (qt_blocks _ _ Q)].
  - apply li_push; [done | | done]; intros i c' Hc'; destruct (qt_cells _ _ Q _ _ Hc') as (c & Hc & -> & _); by apply Hph.
  - apply li_notify; auto.
  - apply li_failing; [by apply Q | done].
  - apply li_gone; [by apply Q | done].
  - apply li_returned; auto.
Qed.

Lemma quiet_run s s' : quiet s s' -> st_chans s' = st_chans s -> st_listeners s' = st_listeners s ->
  (exists q closed, st_chans s !! ch = Some (mkChan cap q closed) /\ listening s q closed (st_listeners s)) ->
  exists q closed, st_chans s' !! ch = Some (mkChan cap q closed) /\ listening s' q closed (st_listeners s').
Proof.
  intros Q -> -> (q & closed & Hc & Hl); exists q, closed; split; [done | by eapply quiet_listening].
Qed.

(** ** The compressing goroutines *)

Lemma blocks_setJob s i pc : blocks (setJob i pc s) = blocks s.
Proof.
  unfold blocks, setJob; cbn [st_jobs setJobs]; apply list_eq; intros k; rewrite !list_lookup_fmap, list_lookup_alter.
  case_decide; [subst; by destruct (st_jobs s !! k) | done].
Qed.

Lemma pushError_eq e s : pushError e s = setErr (Some (default e (st_err s))) s.
Proof. by destruct s as [? [?|] ? ? ? ? ?]. Qed.

(** Only the error, the [i]-th job and its result change. *)
Lemma job_inv s i j c pc (g : cell -> cell) err' :
  inv s -> st_jobs s !! i = Some j -> st_cells s !! i = Some c ->
  (failed s -> err' <> None) -> c_notified (g c) = c_notified c -> (consumed c -> consumed (g c)) ->
  (c_result (g c) = RTaken -> c_result c = RTaken) ->
  match c_result (g c) with
  | RPending => pc = JRun \/ pc = JEnd /\ err' <> None
  | RSent buf => compressed (deflate level) (blockOf j) buf /\ pc <> JRun
  | RTaken => pc <> JRun
  | RClosed => err' <> None /\ pc = JDone
  end -> inv (setJob i pc (setCell i g (setErr err' s))).
Proof.
  intros I Hj Hc He Hn Hcs Ht Hok; set (s' := setJob _ _ _).
  assert (Q : quiet s s').
  { split; try done.
    - unfold s'; by rewrite blocks_setJob.
    - cbn [s' setJob setJobs setCell setCells st_cells]; apply length_alter.
    - intros k c'; cbn [s' setJob setJobs setCell setCells setErr st_cells]; rewrite list_lookup_alter; case_decide as Ek; [subst k|].
      + rewrite Hc; intros [= <-]; exists c; done.
      + intros Hc'; exists c'; done. }
  destruct I as [I1 I2 I3 I4 I5 I6]; split; try done.
  - rewrite (qt_length _ _ Q); cbn [s' setJob setJobs setCell setCells setErr st_jobs]; by rewrite length_alter.
  - intros k j'; cbn [s' setJob setJobs setCell setCells setErr st_jobs]; rewrite list_lookup_alter; case_decide as Ek; [subst k|by apply I3].
    rewrite Hj; intros [= <-]; exact (I3 i j Hj).
  - intros k c'; cbn [s' setJob setJobs setCell setCells setErr st_cells]; rewrite list_lookup_alter; unfold cellOk.
    cbn [s' setJob setJobs setCell setCells setErr st_jobs]; rewrite list_lookup_alter; case_decide as Ek; [subst k|].
    + rewrite Hc, Hj; intros [= <-]; exact Hok.
    + intros Hc'; specialize (I4 k c' Hc'); unfold cellOk in I4; destruct (st_jobs s !! k); [|done].
      destruct (c_result c'); try done; [destruct I4 as [|[? ?]]; [by left | right; split; [done | by apply He]]|].
      destruct I4; split; [by apply He | done].
  - by apply (quiet_run s).
Qed.

Lemma job_cell s i j : inv s -> st_jobs s !! i = Some j -> exists c, st_cells s !! i = Some c /\ j_r j = i /\ cellOk s i c.
Proof.
  intros I Hj; pose proof (lookup_lt_Some _ _ _ Hj); destruct (lookup_lt_is_Some_2 (st_cells s) i) as [c Hc]; [pose proof (iv_jobs s I); lia|].
  exists c; split; [done|]; split; [by eapply iv_jobr | by apply iv_cells].
Qed.

Lemma jobStep_inv i s s' : inv s -> jobStep deflate i s = Some s' -> inv s'.
Proof.
  intros I; unfold jobStep; destruct (st_jobs s !! i) as [j|] eqn:Hj; [|done].
  destruct (job_cell s i j I Hj) as (c & Hc & Hr & Hok); unfold cellOk in Hok; rewrite Hj in Hok; rewrite Hr.
  assert (Ee : s = setErr (st_err s) s) by (by destruct s).
  destruct (j_pc j) eqn:Ep; [| |done].
  - assert (Hp : c_result c = RPending) by (destruct (c_result c); [done | by destruct Hok | done | destruct Hok; congruence]).
    rewrite (sf_level _ (iv_static s I)); destruct (deflate level (j_p j) (j_prevTail j) (j_closed j)) as [buf|err] eqn:Ed; intros [= <-].
    + rewrite Ee at 1; apply (job_inv s i j c); try done; cbn [setResult c_result].
      intros [E|E]; rewrite Hp in E; done.
    + rewrite pushError_eq; set (s1 := setErr _ s).
      assert (Es : s1 = setCell i id s1) by (unfold setCell; rewrite list_alter_id by done; done).
      rewrite Es; apply (job_inv s i j c); try done; cbn [id]; rewrite Hp; by right.
  - intros [= <-]; rewrite Ee at 1; apply (job_inv s i j c); try done.
    + by destruct (c_result c).
    + unfold consumed; destruct (c_result c) eqn:E; cbn [setResult c_result]; rewrite ?E; intuition congruence.
    + destruct (c_result c) eqn:E; cbn [setResult c_result]; rewrite ?E; congruence.
    + destruct (c_result c) eqn:E; cbn [setResult c_result]; rewrite ?E; try done.
      * destruct Hok as [?|[? ?]]; [congruence | done].
      * destruct Hok; done.
      * destruct Hok; congruence.
Qed.

(** ** The listener *)

Lemma listener_inv s s' q closed x :
  inv s -> st_fields s' = st_fields s -> st_jobs s' = st_jobs s -> (failed s -> failed s') -> length (st_cells s') = length (st_cells s) ->
  (forall i c, st_cells s' !! i = Some c -> cellOk s i c) -> is_Some (st_ws s' !! wi) ->
  st_chans s' !! ch = Some (mkChan cap q closed) -> st_listeners s' = [x] -> listening s' q closed [x] -> inv s'.
Proof.
  intros [I1 I2 I3 I4 I5 I6] Ef Ej Hf Hl Hc Hw Hch Ex Hls; split; rewrite ?Ef, ?Ej, ?Hl; try done.
  - intros i c Hi; specialize (Hc i c Hi); unfold cellOk in *; rewrite Ej; destruct (st_jobs s !! i); [|done].
    destruct (c_result c); try done; [destruct Hc as [|[? ?]]; [by left | right; split; [done | by apply Hf]]|].
    destruct Hc; split; [by apply Hf | done].
  - exists q, closed; by rewrite Ex.
Qed.

Lemma written_next s k b buf w w' :
  blocks s !! k = Some b -> compressed (deflate level) b buf -> written s k -> st_ws s !! wi = Some w -> io_write w buf = (len buf, None, w') ->
  written (setWs (<[wi := w']> (st_ws s)) s) (S k).
Proof.
  intros Hb Hc [Hf | (bufs & w1 & Hfa & Hw & E)] Ew Eio; [by left|]; right; rewrite Ew in E; injection E as <-.
  exists (bufs ++ [buf]), w'; split; [|split].
  - change (blocks (setWs _ s)) with (blocks s); rewrite (take_S_r _ _ _ Hb); apply Forall2_app; [done | by repeat constructor].
  - by eapply wrote_snoc.
  - cbn [st_ws setWs]; apply list_lookup_insert_eq; by eapply lookup_lt_Some.
Qed.

Lemma seq_step k n : (k < n)%nat -> seq k (n - k) = k :: seq (S k) (n - S k).
Proof. intros Hk; replace (n - k)%nat with (S (n - S k)) by lia; done. Qed.

Lemma cell_update (P : nat -> cell -> Prop) s k g :
  (forall i c, st_cells s !! i = Some c -> P i c) -> (forall c, st_cells s !! k = Some c -> P k (g c)) ->
  forall i c, alter g k (st_cells s) !! i = Some c -> P i c.
Proof.
  intros HP Hk i c; rewrite list_lookup_alter; case_decide as E; [subst i | by apply HP].
  intros (c0 & Hc & ->)%fmap_Some; by apply Hk.
Qed.

(** A cell is notified or received: the others are as they were. *)
Lemma phase_update s s' k t m k' t' m' g i0 :
  phase s k t m -> st_cells s' = alter g i0 (st_cells s) -> written s' k' ->
  (forall i, i <> i0 -> (i < t')%nat <-> (i < t)%nat) -> (forall i, i <> i0 -> (i < m')%nat <-> (i < m)%nat) ->
  (forall c, st_cells s !! i0 = Some c -> ((i0 < t')%nat -> consumed (g c)) /\ ((t' <= i0)%nat -> c_result (g c) <> RTaken) /\
    (c_notified (g c) = true <-> (i0 < m')%nat)) ->
  phase s' k' t' m'.
Proof.
  intros [P1 P2 P3 P4] Ec Hw Ht Hm H0; split; [done|..]; rewrite Ec; intros i c; rewrite list_lookup_alter; case_decide as E.
  1,3,5: subst i; intros (c0 & Hc & ->)%fmap_Some; by apply (H0 _ Hc).
  - intros Hc Hi; eapply P2; [exact Hc | by apply Ht].
  - intros Hc Hi; eapply P3; [exact Hc|]; specialize (Ht i ltac:(auto)); lia.
  - intros Hc; rewrite (P4 _ _ Hc); symmetry; by apply Hm.
Qed.

Lemma listening_one s q closed ls l x : listening s q closed ls -> ls !! l = Some x -> l = 0%nat /\ ls = [x].
Proof. by destruct 1; destruct l as [|[|l]]; try done; intros [= <-]. Qed.

Section Steps.
Variables (s : state) (q : list nat) (closed : bool).
Hypothesis I : inv s.
Hypothesis Hch : st_chans s !! ch = Some (mkChan cap q closed).

Lemma recv_inv k s' :
  st_listeners s = [LRecv ch] -> q = seq k (length (st_cells s) - k) -> (k <= length (st_cells s))%nat -> phase s k k k ->
  z_started (st_fields s) = true -> listenerStep 0 s = Some s' -> inv s'.
Proof.
  intros El Hq Hk Hp Hs; unfold listenerStep; rewrite El; cbn [lookup list_lookup]; rewrite Hch.
  assert (Hcells : forall i c, st_cells s !! i = Some c -> cellOk s i c) by apply I.
  destruct (Nat.eq_dec k (length (st_cells s))) as [->|Hne].
  - rewrite Nat.sub_diag in Hq; cbn in Hq; rewrite Hq in *; destruct closed eqn:Ec; [|done]; intros [= <-].
    eapply (listener_inv s _ [] true LReturned); try done; [apply I | by cbn; rewrite El | apply li_returned; try done; by destruct Hp].
  - rewrite Hq, seq_step by lia; intros [= <-].
    eapply (listener_inv s _ _ closed (LResult ch k)); try done; [apply I | | by cbn; rewrite El |].
    + cbn [st_chans setListener setListeners setChans]; apply list_lookup_insert_eq; by eapply lookup_lt_Some.
    + apply li_result; [done | cbn; lia | by destruct Hp | done].
Qed.

Lemma result_inv k s' :
  st_listeners s = [LResult ch k] -> q = seq (S k) (length (st_cells s) - S k) -> (k < length (st_cells s))%nat -> phase s k k k ->
  z_started (st_fields s) = true -> listenerStep 0 s = Some s' -> inv s'.
Proof.
  intros El Hq Hk Hp Hs; unfold listenerStep; rewrite El; cbn [lookup list_lookup].
  destruct (st_cells s !! k) as [c|] eqn:Hc; [|done]; cbn [fmap option_fmap option_map].
  pose proof (iv_cells s I k c Hc) as Hok; unfold cellOk in Hok.
  destruct (c_result c) as [|buf| |] eqn:Er; try done; intros [= <-].
  - destruct (st_jobs s !! k) as [j|] eqn:Hj; [|done].
    eapply (listener_inv s _ q closed (LWrite ch k buf)); try done.
    + cbn; by rewrite length_alter.
    + apply (cell_update (cellOk s) s k); [apply I|]; intros c' Hc'; unfold cellOk; rewrite Hj; apply Hok.
    + apply I.
    + by cbn; rewrite El.
    + apply li_write; cbn [st_cells setListener setListeners setCell setCells]; rewrite ?length_alter; try done.
      * apply (phase_update s _ k k k _ _ _ (setResult RTaken) k Hp); [done | by destruct Hp | lia | lia|].
        intros c' Hc'; split; [intros _; by left | split; [lia|]]; cbn; rewrite (ph_notified _ _ _ _ Hp _ _ Hc'); lia.
      * right; exists (blockOf j); split; [|apply Hok]; unfold blocks; cbn; by rewrite list_lookup_fmap, Hj.
  - destruct (st_jobs s !! k) as [j|] eqn:Hj; [|done]; destruct Hok as [Hf _].
    eapply (listener_inv s _ q closed (LWrite ch k [])); try done; [apply I | apply I | by cbn; rewrite El |].
    apply li_write; try done; [|by left].
    destruct Hp as [P1 P2 P3 P4]; split; try done.
    + intros i c' Hi Hlt; destruct (Nat.eq_dec i k) as [->|]; [|eapply P2; [done | lia]].
      cbn in Hi; rewrite Hc in Hi; injection Hi as <-; by right.
    + intros i c' Hi Hle; eapply P3; [done | lia].
Qed.

Lemma write_inv k buf s' :
  st_listeners s = [LWrite ch k buf] -> q = seq (S k) (length (st_cells s) - S k) -> (k < length (st_cells s))%nat -> phase s k (S k) k ->
  failed s \/ (exists b, blocks s !! k = Some b /\ compressed (deflate level) b buf) ->
  z_started (st_fields s) = true -> listenerStep 0 s = Some s' -> inv s'.
Proof.
  intros El Hq Hk Hp Hb Hs; unfold listenerStep; rewrite El; cbn [lookup list_lookup]; rewrite (sf_w _ (iv_static s I)).
  destruct (st_ws s !! wi) as [w|] eqn:Hw; [|done]; destruct (io_write w buf) as [[n err] w'] eqn:Eio.
  assert (Hw' : is_Some (<[wi:=w']> (st_ws s) !! wi)) by (apply lookup_lt_is_Some; rewrite length_insert; by eapply lookup_lt_Some).
  assert (Hpush : forall e, inv (setListener 0 (LPush k e) (setWs (<[wi:=w']> (st_ws s)) s))).
  { intros e; eapply (listener_inv s _ q closed (LPush k e)); try done; [apply I | by cbn; rewrite El |].
    apply li_push; [done | apply Hp | done]. }
  destruct err as [e|]; [intros [= <-]; apply Hpush|]; destruct (Z.eqb_spec n (len buf)) as [->|]; intros [= <-]; [|apply Hpush].
  eapply (listener_inv s _ q closed (LNotify k (Some ch))); try done; [apply I | by cbn; rewrite El |].
  apply li_notify; try done; destruct Hp as [P1 P2 P3 P4]; split; try done.
  destruct Hb as [Hf | (b & Hb & Hcb)]; [by left | by eapply written_next].
Qed.

Lemma notify_inv k next s' q' closed' :
  st_listeners s = [LNotify k next] -> listenerStep 0 s = Some s' ->
  (forall s1, st_cells s1 = alter notify k (st_cells s) -> st_fields s1 = st_fields s -> st_jobs s1 = st_jobs s -> st_err s1 = st_err s ->
     st_ws s1 = st_ws s -> listening s1 q' closed' [match next with Some listen => LRecv listen | None => LReturned end]) ->
  q = q' -> closed = closed' -> inv s'.
Proof.
  intros El Hst Hl <- <-; unfold listenerStep in Hst; rewrite El in Hst; cbn [lookup list_lookup] in Hst; injection Hst as <-.
  eapply (listener_inv s _ q closed); try done; [| | apply I | by cbn; rewrite El | by apply Hl].
  - cbn; by rewrite length_alter.
  - apply (cell_update (cellOk s) s k); [apply I|]; intros c Hc; exact (iv_cells s I k c Hc).
Qed.
End Steps.

Lemma listenerStep_inv l s s' : inv s -> listenerStep l s = Some s' -> inv s'.
Proof.
  intros I Hst; destruct (iv_run s I) as (q & closed & Hch & Hl).
  assert (exists x, st_listeners s !! l = Some x) as [x Hx] by (unfold listenerStep in Hst; destruct (st_listeners s !! l); [by eexists | done]).
  destruct (listening_one _ _ _ _ _ _ Hl Hx) as [-> El]; rewrite El in Hl.
  inversion Hl as [| Hq Hp Hs | k Hq Hk Hp Hs | k Hq Hk Hp Hs | k buf Hq Hk Hp Hb Hs | k e Hk Hp Hs | k Hq Hk Hp Hs
    | r Hf Hs | Hf Hs | Hc Hq Hp Hs]; subst x.
  - unfold listenerStep in Hst; rewrite El in Hst; cbn [lookup list_lookup] in Hst; injection Hst as <-.
    rewrite (sf_results _ (iv_static s I)).
    eapply (listener_inv s _ q closed); try done; [apply I | apply I | by cbn; rewrite El |].
    apply (li_recv _ _ _ 0); [by rewrite Nat.sub_0_r | lia | by destruct Hp | done].
  - by eapply recv_inv.
  - by eapply result_inv.
  - by eapply write_inv.
  - unfold listenerStep in Hst; rewrite El in Hst; cbn [lookup list_lookup] in Hst; injection Hst as <-.
    rewrite pushError_eq.
    eapply (listener_inv s _ q closed (LNotify k None)); try done; [apply I | apply I | by cbn; rewrite El | by apply li_failing].
  - eapply (notify_inv s q closed I Hch k (Some ch) _ q closed); try done; intros s1 Ec Ef Ej Ee Ew.
    apply (li_recv _ _ _ (S k)); rewrite ?Ec, ?length_alter, ?Ef; try done.
    apply (phase_update s _ _ _ _ _ _ _ _ k Hp Ec); [| lia | lia |].
    + destruct Hp as [[Hf|Hw] _ _ _]; [left | right]; unfold failed, blocks in *; by rewrite ?Ee, ?Ej, ?Ew.
    + intros c Hc; split; [intros _; change (consumed c); eapply (ph_consumed _ _ _ _ Hp); [exact Hc | lia] | split; [lia|]]; cbn; split; [lia | done].
  - eapply (notify_inv s q closed I Hch r None _ q closed); try done; intros s1 Ec Ef Ej Ee Ew.
    apply li_gone; [unfold failed in *; by rewrite Ee | by rewrite Ef].
  - unfold listenerStep in Hst; by rewrite El in Hst.
  - unfold listenerStep in Hst; by rewrite El in Hst.
Qed.

Lemma env_inv s s' : inv s -> env deflate s s' -> inv s'.
Proof. intros I [[i Hi] | [l Hl]]; [by eapply jobStep_inv | by eapply listenerStep_inv]. Qed.

Lemma rely_inv s s' : inv s -> rely deflate s s' -> inv s'.
Proof. intros I Hr; revert I; induction Hr as [|s s1 s' He _ IH]; [done | intros I; apply IH; by eapply env_inv]. Qed.

End Order.
