(* ===== verification/PflateMethods.v ===== *)
(** * The methods of the parallel flate writer among its goroutines

    Every method keeps the invariant whatever the goroutines do meanwhile,
    and unless an error is pending it does to the stream what the sequential
    specification says. *)
From S2P Require Import Prelude GoInt GoIO PflateWriter PflateSpec PflateOrder.
Open Scope go_scope.

Section Methods.
Context {W : Type} `{IoWriter W}.
Variable deflate : Z -> bytes -> bytes -> bool -> bytes + error.
Variables (level bs cap : Z) (ch wi : nat) (w0 : W).
Hypothesis Hbs : tailSize < bs.
Hypothesis Hcap : 0 < cap.
Abbreviation state := (state W).
Implicit Types s : state.
Abbreviation inv := (inv deflate level bs cap ch wi w0).
Abbreviation listening := (listening deflate level ch wi w0).
Abbreviation rely := (rely deflate).
Abbreviation env := (env deflate).

(** The stream that a state stands for. *)
Definition abs s : stream :=
  mkStream (blocks s) (z_currentBuffer (st_fields s)) (z_prevTail (st_fields s)) (z_closed (st_fields s)).

Definition guar s s' : Prop :=
  st_err s' = st_err s /\ st_ws s' = st_ws s /\ (st_listeners s' = st_listeners s \/ st_listeners s = [] /\ st_listeners s' = [LStart]).

(** Where the caller waits: a block that is not passed on yet has its goroutine. *)
Definition blocked s : Prop :=
  failed s \/ length (st_jobs s) = length (st_cells s) /\ exists i c, st_cells s !! i = Some c /\ c_notified c = false.

(** The buffers of a huge block cannot be made. *)
Abbreviation wpc := (wpc deflate inv guar blocked (roomy bs = false)).

(** ** What the other goroutines leave alone *)

Definition chanClosed s : option bool := ch_closed <$> st_chans s !! ch.

Record steady s s' : Prop := {
  sd_fields : st_fields s' = st_fields s;
  sd_blocks : blocks s' = blocks s;
  sd_length : length (st_cells s') = length (st_cells s);
  sd_closed : chanClosed s' = chanClosed s;
  sd_failed : failed s -> failed s';
  sd_notified : forall i c, st_cells s !! i = Some c -> c_notified c = true -> exists c', st_cells s' !! i = Some c' /\ c_notified c' = true
}.

Lemma steady_refl s : steady s s.
Proof. split; try done; by eauto. Qed.

Lemma steady_trans s1 s2 s3 : steady s1 s2 -> steady s2 s3 -> steady s1 s3.
Proof.
  intros [A1 A2 A3 A4 A5 A6] [B1 B2 B3 B4 B5 B6]; split; try congruence; [auto|].
  intros i c Hc Hn; destruct (A6 _ _ Hc Hn) as (c' & Hc' & Hn'); by eapply B6.
Qed.

Lemma alter_notified s r g : (forall c, c_notified c = true -> c_notified (g c) = true) ->
  forall i c, st_cells s !! i = Some c -> c_notified c = true -> exists c', alter g r (st_cells s) !! i = Some c' /\ c_notified c' = true.
Proof.
  intros Hg i c Hc Hn; rewrite list_lookup_alter; case_decide; [subst; rewrite Hc | rewrite Hc]; eexists; split; [done | by apply Hg | done | done].
Qed.

Ltac steady_same := split; try done; by eauto.

Ltac steady_cells :=
  split; try done; rewrite ?blocks_setJob; try done;
    [cbn; by rewrite ?length_alter | cbn; apply alter_notified; intros c'; by destruct (c_result c')].

Lemma jobStep_steady i s s' : jobStep deflate i s = Some s' -> steady s s'.
Proof.
  unfold jobStep; destruct (st_jobs s !! i) as [j|]; [|done]; destruct (j_pc j); [| |done].
  - destruct (deflate _ _ _ _) as [buf|err]; intros [= <-]; [steady_cells|].
    rewrite pushError_eq; split; try done; [by rewrite blocks_setJob | by eauto].
  - intros [= <-]; steady_cells.
Qed.

Lemma listenerStep_steady l s s' : listenerStep l s = Some s' -> steady s s'.
Proof.
  unfold listenerStep; destruct (st_listeners s !! l) as [x|]; [|done]; destruct x.
  - intros [= <-]; steady_same.
  - destruct (st_chans s !! listen) as [[c q cl]|] eqn:E; [|done]; destruct q as [|r q]; [destruct cl; [|done]|]; intros [= <-].
    + steady_same.
    + split; try done; [|by eauto]; unfold chanClosed; cbn; destruct (decide (listen = ch)) as [->|]; [|by rewrite list_lookup_insert_ne].
      rewrite list_lookup_insert_eq by (by eapply lookup_lt_Some); by rewrite E.
  - destruct (st_cells s !! r) as [c|]; [|done]; cbn; destruct (c_result c); try done; intros [= <-]; [steady_cells | steady_same].
  - destruct (st_ws s !! _); [|done]; destruct (io_write _ _) as [[n [e|]] w']; [|destruct (negb _)]; intros [= <-]; steady_same.
  - intros [= <-]; rewrite pushError_eq; split; try done; by eauto.
  - intros [= <-]; steady_cells.
  - done.
Qed.

Lemma rely_steady s s' : rely s s' -> steady s s'.
Proof.
  induction 1 as [s | s s1 s2 He _ IH]; [apply steady_refl|]; eapply steady_trans; [|exact IH].
  destruct He as [[i Hi] | [l Hl]]; [by eapply jobStep_steady | by eapply listenerStep_steady].
Qed.

(** ** Assertions of the caller *)

(** The state is at the stream [x], all the blocks have their goroutines,
    and the channel is open. *)
Record at_ (x : stream) s : Prop := {
  at_abs : abs s = x;
  at_settled : length (st_jobs s) = length (st_cells s);
  at_open : chanClosed s = Some false;
  at_fresh : z_started (st_fields s) = false -> sp_cur x = []
}.

Lemma steady_abs s s' : steady s s' -> abs s' = abs s.
Proof. intros []; unfold abs; congruence. Qed.
Lemma blocks_length s : length (blocks s) = length (st_jobs s).
Proof. unfold blocks; apply length_fmap. Qed.

Lemma steady_at x s s' : steady s s' -> at_ x s -> at_ x s'.
Proof.
  intros S [A1 A2 A3 A4]; pose proof (steady_abs _ _ S); destruct S as [S1 S2 S3 S4 S5 S6]; split; try congruence.
  - rewrite <- !blocks_length in *; congruence.
  - by rewrite S1.
Qed.

Definition at_started (x : stream) s : Prop := at_ x s /\ z_started (st_fields s) = true.
Lemma steady_started x s s' : steady s s' -> at_started x s -> at_started x s'.
Proof. intros S [A B]; split; [by eapply steady_at | by rewrite (sd_fields _ _ S)]. Qed.

(** ** checkError, getField and assignments *)

Lemma checkError_spec (P : state -> Prop) s :
  (forall s s', steady s s' -> P s -> P s') -> failed s \/ P s ->
  wpc (fun e s' => match e with Some _ => failed s' | None => P s' end) checkError s.
Proof.
  intros HP Hs; apply wpc_atomic; intros s' Hr I; pose proof (rely_steady _ _ Hr) as S.
  do 2 eexists; split; [done|]; split; [done|]; split; [by split; [|split; [|left]]|]; intros s3 Hr3 I3; pose proof (rely_steady _ _ Hr3) as S3.
  destruct (st_err s') eqn:E.
  - apply (sd_failed _ _ S3); unfold failed; by rewrite E.
  - destruct Hs as [Hf | Hs]; [by apply (sd_failed _ _ S) in Hf | eapply HP; [exact S3 | by eapply HP]].
Qed.

Lemma getField_spec {A} (f : fields -> A) s : wpc (fun a s' => a = f (st_fields s) /\ steady s s') (getField f) s.
Proof.
  apply wpc_atomic; intros s' Hr I; pose proof (rely_steady _ _ Hr) as S.
  do 2 eexists; split; [done|]; split; [done|]; split; [by split; [|split; [|left]]|]; intros s3 Hr3 I3.
  split; [by rewrite (sd_fields _ _ S) | eapply steady_trans; [done | by apply rely_steady]].
Qed.

(** Changing fields that the goroutines do not look at. *)
Definition sameFields (z z' : fields) : Prop :=
  z_level z' = z_level z /\ z_blockSize z' = z_blockSize z /\ z_w z' = z_w z /\ z_results z' = z_results z /\ z_started z' = z_started z.

(** A step of the caller that changes no result. *)
Lemma listening_map s s' q closed ls :
  st_cells s' = st_cells s -> (failed s -> failed s') -> z_started (st_fields s') = z_started (st_fields s) ->
  (written deflate level wi w0 s 0 -> written deflate level wi w0 s' 0) ->
  (forall k t m, (k <= t <= length (st_cells s))%nat -> phase deflate level wi w0 s k t m -> phase deflate level wi w0 s' k t m) ->
  (forall k b, blocks s !! k = Some b -> blocks s' !! k = Some b) ->
  listening s q closed ls -> listening s' q closed ls.
Proof.
  intros Ec Hf Es Hw Hp Hbl.
  destruct 1 as [Hn Hq Hwr Hs | Hq Hph Hs | k Hq Hk Hph Hs | k Hq Hk Hph Hs | k buf Hq Hk Hph Hb Hs | k e Hk Hph Hs | k Hq Hk Hph Hs
    | r Hfl Hs | Hfl Hs | Hc Hq Hph Hs].
  - apply li_none; rewrite ?Ec, ?Es; auto.
  - apply li_start; rewrite ?Ec, ?Es; [done | apply Hp; [lia | done] | done].
  - apply (li_recv _ _ _ _ _ _ _ _ k); rewrite ?Ec, ?Es; [done | done | apply Hp; [lia | done] | done].
  - apply (li_result _ _ _ _ _ _ _ _ k); rewrite ?Ec, ?Es; [done | done | apply Hp; [lia | done] | done].
  - apply (li_write _ _ _ _ _ _ _ _ k); rewrite ?Ec, ?Es; [done | done | apply Hp; [lia | done] | | done].
    destruct Hb as [Hb | (b & Hb & Hcb)]; [left; auto | right; exists b; auto].
  - apply li_push; rewrite ?Ec, ?Es; auto.
  - apply li_notify; rewrite ?Ec, ?Es; [done | done | apply Hp; [lia | done] | done].
  - apply li_failing; rewrite ?Es; auto.
  - apply li_gone; rewrite ?Es; auto.
  - apply li_returned; rewrite ?Ec, ?Es; [done | done | apply Hp; [lia | done] | done].
Qed.

Lemma listening_same s s' q closed ls :
  st_cells s' = st_cells s -> blocks s' = blocks s -> st_err s' = st_err s -> st_ws s' = st_ws s ->
  z_started (st_fields s') = z_started (st_fields s) -> listening s q closed ls -> listening s' q closed ls.
Proof.
  intros Ec Eb Ee Ew Es.
  assert (Hw : forall k, written deflate level wi w0 s k -> written deflate level wi w0 s' k)
    by (intros k; unfold written, failed; by rewrite Eb, Ee, Ew).
  apply listening_map; try done; [unfold failed; by rewrite Ee | auto | | by rewrite Eb].
  intros k t m _ [P1 P2 P3 P4]; split; rewrite ?Ec; auto.
Qed.

Lemma inv_setFields z s : inv s -> sameFields (st_fields s) z -> inv (setFields z s).
Proof.
  intros [I1 I2 I3 I4 I5 (q & closed & Hch & Hl)] (E1 & E2 & E3 & E4 & E5); split; try done.
  - destruct I1; split; cbn; congruence.
  - exists q, closed; split; [done|]; by apply (listening_same s).
Qed.

Lemma fields_step {A} s (f : state -> outcome A * state) (a : state -> A) (z : state -> fields) (Q : A -> state -> Prop) :
  (forall s', steady s s' -> inv s' -> f s' = (Ok (a s'), setFields (z s') s') /\ sameFields (st_fields s') (z s') /\
     forall s3, steady (setFields (z s') s') s3 -> inv s3 -> Q (a s') s3) ->
  wpc Q (atomic f) s.
Proof.
  intros Hf; apply wpc_atomic; intros s' Hr I; destruct (Hf s' (rely_steady _ _ Hr) I) as (E & Hz & HQ).
  exists (a s'), (setFields (z s') s'); split; [done|]; split; [by apply inv_setFields|]; split; [by split; [|split; [|left]]|].
  intros s3 Hr3 I3; apply HQ; [by apply rely_steady | done].
Qed.

(** ** compressCurrent *)

(** A result is in the queue, its goroutine not started. *)
Record sent (x : stream) (r : nat) s : Prop := {
  se_abs : abs s = x;
  se_index : r = length (st_jobs s) /\ length (st_cells s) = S r;
  se_open : chanClosed s = Some false;
  se_started : z_started (st_fields s) = true
}.

Lemma steady_sent x r s s' : steady s s' -> sent x r s -> sent x r s'.
Proof.
  intros S [A1 [A2 A3] A4 A5]; pose proof (steady_abs _ _ S); destruct S as [S1 S2 S3 S4 S5 S6]; split; try congruence.
  rewrite <- !blocks_length in *; split; congruence.
Qed.

Lemma listening_enqueue s s' q ls :
  st_cells s' = st_cells s ++ [mkCell RPending false] -> blocks s' = blocks s -> st_err s' = st_err s -> st_ws s' = st_ws s ->
  st_fields s' = st_fields s -> z_started (st_fields s) = true ->
  listening s q false ls -> listening s' (q ++ [length (st_cells s)]) false ls.
Proof.
  intros Ec Eb Ee Ew Ef Hst; set (n := length (st_cells s)).
  assert (El : length (st_cells s') = S n) by (rewrite Ec, length_app; cbn; lia).
  assert (Hf : failed s -> failed s') by (unfold failed; by rewrite Ee).
  assert (Hw : forall k, written deflate level wi w0 s k -> written deflate level wi w0 s' k)
    by (intros k; unfold written, failed; by rewrite Eb, Ee, Ew).
  assert (Hnew : forall i c, st_cells s' !! i = Some c -> st_cells s !! i = Some c \/ i = n /\ c = mkCell RPending false).
  { intros i c; rewrite Ec, lookup_app_Some; intros [?|[Hi Hc]]; [by left | right].
    apply list_lookup_singleton_Some in Hc as [Hi0 <-]; fold n in Hi, Hi0; split; [lia | done]. }
  assert (Hp : forall k t m, (t <= n)%nat -> (m <= n)%nat -> phase deflate level wi w0 s k t m -> phase deflate level wi w0 s' k t m).
  { intros k t m Ht Hm [P1 P2 P3 P4]; split; [by apply Hw|..]; intros i c [Hc | [-> ->]]%Hnew; eauto; try lia; done || (cbn; split; [done | lia]). }
  assert (Hq : forall k, (k <= n)%nat -> seq k (n - k) ++ [n] = seq k (S n - k)).
  { intros k Hk; replace (S n - k)%nat with (S (n - k)) by lia; rewrite seq_S; do 2 f_equal; lia. }
  destruct 1 as [Hn _ _ Hs | E Hph Hs | k E Hk Hph Hs | k E Hk Hph Hs | k buf E Hk Hph Hb Hs | k e Hk Hph Hs | k E Hk Hph Hs
    | r Hfl Hs | Hfl Hs | Hc _ _ _]; try congruence.
  - apply li_start; rewrite ?El, ?Ef; [rewrite E, seq_S; done | apply Hp; [lia..|done] | done].
  - apply (li_recv _ _ _ _ _ _ _ _ k); rewrite ?El, ?Ef; [rewrite E; apply Hq; lia | fold n in Hk; lia | by apply Hp | done].
  - apply (li_result _ _ _ _ _ _ _ _ k); rewrite ?El, ?Ef; [rewrite E; apply Hq; lia | fold n in Hk; lia | apply Hp; [fold n in Hk; lia..|done] | done].
  - apply (li_write _ _ _ _ _ _ _ _ k); rewrite ?El, ?Ef; [rewrite E; apply Hq; lia | fold n in Hk; lia | apply Hp; [fold n in Hk; lia..|done] | | done].
    destruct Hb; [left; auto | right; by rewrite Eb].
  - apply li_push; rewrite ?El, ?Ef; [fold n in Hk; lia | | done].
    intros i c [Hc | [-> ->]]%Hnew; [by apply Hph | cbn; fold n in Hk; split; [done | lia]].
  - apply li_notify; rewrite ?El, ?Ef; [rewrite E; apply Hq; lia | fold n in Hk; lia | apply Hp; [fold n in Hk; lia..|done] | done].
  - apply li_failing; rewrite ?Ef; auto.
  - apply li_gone; rewrite ?Ef; auto.
Qed.

(** Something in the queue has not been passed on. *)
Lemma queue_pending s q closed ls :
  listening s q closed ls -> q <> [] -> failed s \/ exists i c, st_cells s !! i = Some c /\ c_notified c = false.
Proof.
  assert (L : forall k m, (k < length (st_cells s))%nat -> (m <= k)%nat -> (forall i c, st_cells s !! i = Some c -> (c_notified c = true <-> (i < m)%nat)) ->
    exists i c, st_cells s !! i = Some c /\ c_notified c = false).
  { intros k m Hk Hm Hn; destruct (lookup_lt_is_Some_2 _ _ Hk) as [c Hc]; exists k, c; split; [done|].
    destruct (c_notified c) eqn:E; [|done]; apply (Hn _ _ Hc) in E; lia. }
  destruct 1 as [Hn Hq _ Hs | Hq Hph Hs | k Hq Hk Hph Hs | k Hq Hk Hph Hs | k buf Hq Hk Hph Hb Hs | k e Hk Hph Hs | k Hq Hk Hph Hs
    | r Hfl Hs | Hfl Hs | Hc Hq Hph Hs]; intros Hne; try done; auto; right.
  - apply (L 0%nat 0%nat); [destruct (st_cells s); [by subst | cbn; lia] | lia | apply Hph].
  - apply (L k k); [|lia | apply Hph]; destruct (Nat.eq_dec k (length (st_cells s))); [subst; rewrite Nat.sub_diag in Hne; done | lia].
  - apply (L k k); [lia.. | apply Hph].
  - apply (L k k); [lia.. | apply Hph].
  - apply (L k k); [lia.. | apply Hph].
  - apply (L k k); [lia.. | apply Hph].
Qed.

Lemma sendResult_spec x s :
  at_started x s -> wpc (fun o s' => match o with Some r => sent x r s' /\ r = length (sp_blocks x) | None => failed s' end) sendResult s.
Proof.
  intros Hs; unfold sendResult.
  assert (Hcase : forall s', rely s s' -> inv s' -> at_started x s' /\ exists q,
    st_chans s' !! ch = Some (mkChan cap q false) /\ listening s' q false (st_listeners s') /\ z_results (st_fields s') = ch).
  { intros s' Hr I; pose proof (steady_started _ _ _ (rely_steady _ _ Hr) Hs) as Hs'; split; [done|].
    destruct (iv_run _ _ _ _ _ _ _ _ I) as (q & cl & Hch & Hl); destruct Hs' as [A _]; pose proof (at_open _ _ A) as Ho.
    unfold chanClosed in Ho; rewrite Hch in Ho; injection Ho as ->; exists q; split; [done|]; split; [done | by apply I]. }
  constructor.
  - intros s' Hr I; destruct (Hcase s' Hr I) as [[A St] (q & Hch & Hl & ->)]; rewrite Hch; cbn [ch_closed ch_queue ch_cap].
    destruct (Z.ltb_spec (len q) cap) as [|Hfull]; [done|]; destruct (st_err s') eqn:E; [done|]; intros _.
    destruct (queue_pending _ _ _ _ Hl) as [Hf|Hp]; [intros ->; rewrite (@len_nil nat) in Hfull; lia | by left | right; split; [apply A | done]].
  - intros s' s'' m Hr I; destruct (Hcase s' Hr I) as [[A St] (q & Hch & Hl & ->)]; rewrite Hch; cbn [ch_closed ch_queue ch_cap].
    rewrite elem_of_app; intros [Hin|Hin].
    + destruct (len q <? cap); [|by apply not_elem_of_nil in Hin]; apply list_elem_of_singleton in Hin as [= -> ->].
      split; [|by split; [|split; [|left]]]; destruct I as [I1 I2 I3 I4 I5 I6]; split; try done.
      * cbn [st_jobs st_cells setCells setChans]; rewrite length_app; cbn; pose proof (at_settled _ _ A); lia.
      * cbn [st_cells setCells]; intros i c; rewrite lookup_app_Some; intros [Hc | [Hi Hc]]; [by apply I4|].
        apply list_lookup_singleton_Some in Hc as [Hi0 <-]; unfold cellOk; cbn [st_jobs setCells setChans].
        rewrite lookup_ge_None_2; [done|]; rewrite (at_settled _ _ A); lia.
      * eexists _, false; split; [cbn [st_chans setCells setChans]; apply list_lookup_insert_eq; by eapply lookup_lt_Some|].
        by apply listening_enqueue.
    + destruct (st_err s'); [|by apply not_elem_of_nil in Hin]; apply list_elem_of_singleton in Hin as [= -> ->].
      split; [done | by split; [|split; [|left]]].
  - intros s' s'' m Hr I; destruct (Hcase s' Hr I) as [[A St] (q & Hch & Hl & ->)]; rewrite Hch; cbn [ch_closed ch_queue ch_cap].
    rewrite elem_of_app; intros [Hin|Hin].
    + destruct (len q <? cap); [|by apply not_elem_of_nil in Hin]; apply list_elem_of_singleton in Hin as [= -> ->].
      apply wpc_ret; intros s3 Hr3 I3; split.
      * eapply steady_sent; [by apply rely_steady|]; split; try done; [apply A | | ].
        -- cbn [st_jobs st_cells setCells setChans]; rewrite length_app; cbn; pose proof (at_settled _ _ A); lia.
        -- unfold chanClosed; cbn; rewrite list_lookup_insert_eq by (by eapply lookup_lt_Some); done.
      * rewrite <- (at_abs _ _ A), <- (at_settled _ _ A), <- blocks_length; done.
    + destruct (st_err s') eqn:E; [|by apply not_elem_of_nil in Hin]; apply list_elem_of_singleton in Hin as [= -> ->].
      apply wpc_ret; intros s3 Hr3 I3; apply (sd_failed _ _ (rely_steady _ _ Hr3)); unfold failed; by rewrite E.
Qed.

(** The new goroutine finds its result pending, and nothing of it received. *)
Lemma phase_started s k t m : inv s -> (k <= t <= length (st_cells s))%nat -> phase deflate level wi w0 s k t m -> (t <= length (st_jobs s))%nat.
Proof.
  intros I [Hk Ht] [_ P _ _]; destruct (Nat.le_gt_cases t (length (st_jobs s))) as [|Hlt]; [done | exfalso].
  destruct (lookup_lt_is_Some_2 (st_cells s) (length (st_jobs s))) as [c Hc]; [lia|].
  pose proof (iv_cells _ _ _ _ _ _ _ _ I _ _ Hc) as Hok; unfold cellOk in Hok; rewrite lookup_ge_None_2 in Hok by lia.
  destruct (P _ _ Hc) as [E|E]; [lia | congruence..].
Qed.

Lemma spawn_inv s c r closed tail cur :
  inv s -> r = length (st_jobs s) -> length (st_cells s) = S r -> inv (spawn c r closed tail cur s).
Proof.
  intros I -> Hc; set (s' := spawn _ _ _ _ _ s); set (j := mkJob c (z_prevTail (st_fields s)) (length (st_jobs s)) closed JRun).
  assert (Ej : st_jobs s' = st_jobs s ++ [j]) by done.
  assert (Eb : blocks s' = blocks s ++ [blockOf j]) by (unfold blocks; by rewrite Ej, fmap_app).
  assert (Hw : forall k, (k <= length (st_jobs s))%nat -> written deflate level wi w0 s k -> written deflate level wi w0 s' k).
  { intros k Hk [Hf|Hw]; [by left | right]; rewrite Eb, take_app_le by (by rewrite blocks_length); exact Hw. }
  pose proof (phase_started s) as Hst; destruct (iv_run _ _ _ _ _ _ _ _ I) as (q & cl & Hch & Hl).
  split; try (by apply I).
  - destruct (iv_static _ _ _ _ _ _ _ _ I); by split.
  - rewrite Ej, length_app; cbn [length]; change (st_cells s') with (st_cells s); lia.
  - intros i j'; rewrite Ej, lookup_app_Some; intros [Hj | [Hi Hj]]; [by eapply (iv_jobr _ _ _ _ _ _ _ _ I)|].
    apply list_lookup_singleton_Some in Hj as [Hi0 <-]; cbn; lia.
  - intros i c' Hc'; pose proof (iv_cells _ _ _ _ _ _ _ _ I i c' Hc') as Hok; unfold cellOk in *; rewrite Ej.
    destruct (Nat.lt_ge_cases i (length (st_jobs s))) as [Hlt|Hge]; [by rewrite lookup_app_l|].
    rewrite lookup_ge_None_2 in Hok by lia; pose proof (lookup_lt_Some _ _ _ Hc').
    assert (i = length (st_jobs s)) as -> by (change (st_cells s') with (st_cells s) in *; lia).
    rewrite lookup_app_r, Nat.sub_diag, Hok by lia; by left.
  - exists q, cl; split; [done|]; apply (listening_map s); try done; [| intros k b Hb; rewrite Eb; by apply lookup_app_l_Some].
    intros k t m Hkt Hp; pose proof (Hst _ _ _ I Hkt Hp); destruct Hp as [P1 P2 P3 P4]; split; try done; apply Hw; [lia | done].
Qed.

Lemma submit_spec x r s :
  sent x r s -> len (sp_cur x) <= bs -> wpc (fun split s' => split = false /\ at_started (cut x) s') (submit r) s.
Proof.
  intros Hs Hx; apply wpc_step; intros s' Hr I; pose proof (steady_sent _ _ _ _ (rely_steady _ _ Hr) Hs) as Hs'.
  destruct Hs' as [A1 [A2 A3] A4 A5]; pose proof (sf_blockSize _ _ _ _ _ (iv_static _ _ _ _ _ _ _ _ I)) as Eb.
  assert (Ecur : z_currentBuffer (st_fields s') = sp_cur x) by (by rewrite <- A1).
  cbv beta zeta; rewrite Eb, Ecur, (proj2 (Z.ltb_ge (bs * 2) _)) by (unfold tailSize in Hbs; lia).
  destruct (makesSlice (poolSize bs)) eqn:Em; (split; [by apply spawn_inv|]; split; [by split; [|split; [|left]]|]); cbn [fst snd].
  2: unfold roomy; by rewrite Em, andb_false_r.
  intros s3 Hr3 I3; split; [done|]; eapply steady_started; [by apply rely_steady|]; split; [|done]; split; try done.
  - rewrite <- A1; unfold abs, cut; cbn [sp_blocks sp_cur sp_tail sp_closed spawn st_fields setFields setBuffer z_currentBuffer z_prevTail z_closed].
    unfold blocks; cbn [spawn st_jobs setFields setJobs]; rewrite fmap_app; cbn; f_equal.
  - cbn; rewrite length_app; cbn; lia.
Qed.

Definition notifiedAt (r : nat) s : Prop := exists c, st_cells s !! r = Some c /\ c_notified c = true.
Lemma steady_notifiedAt r s s' : steady s s' -> notifiedAt r s -> notifiedAt r s'.
Proof. intros S (c & Hc & Hn); by eapply (sd_notified _ _ S). Qed.

Lemma waitWritten_spec x r s :
  at_started x s -> (r < length (st_cells s))%nat -> wpc (fun _ s' => at_started x s' /\ notifiedAt r s') (waitWritten r) s.
Proof.
  intros Hs Hlt; unfold waitWritten.
  assert (Hcase : forall s', rely s s' -> at_started x s' /\ exists c, st_cells s' !! r = Some c).
  { intros s' Hr; pose proof (rely_steady _ _ Hr) as S; split; [by eapply steady_started | apply lookup_lt_is_Some_2; by rewrite (sd_length _ _ S)]. }
  constructor.
  - intros s' Hr I; destruct (Hcase s' Hr) as [[A _] [c Hc]]; rewrite Hc; destruct (c_notified c) eqn:E; [done|]; intros _.
    right; split; [apply A | by exists r, c].
  - intros s' s'' m Hr I; destruct (Hcase s' Hr) as [_ [c Hc]]; rewrite Hc; destruct (c_notified c); [|by intros ?%not_elem_of_nil].
    intros [= -> ->]%list_elem_of_singleton; split; [done | by split; [|split; [|left]]].
  - intros s' s'' m Hr I; destruct (Hcase s' Hr) as [A [c Hc]]; rewrite Hc; destruct (c_notified c) eqn:E; [|by intros ?%not_elem_of_nil].
    intros [= -> ->]%list_elem_of_singleton; apply wpc_ret; intros s3 Hr3 I3; pose proof (rely_steady _ _ Hr3) as S3.
    split; [by eapply steady_started | eapply steady_notifiedAt; [done | by exists c]].
Qed.

Lemma failed_rely s s' : failed s -> rely s s' -> failed s'.
Proof. intros Hf Hr; by apply (sd_failed _ _ (rely_steady _ _ Hr)). Qed.

(** A pending error stays. *)
Lemma wpc_failed {A} (Q : A -> state -> Prop) m s : wpc Q m s -> failed s -> wpc (fun a s' => Q a s' /\ failed s') m s.
Proof.
  intros Hm; induction Hm as [a s Hq | s Hp | f s Hb Hs Hk IH]; intros Hf; constructor; try done.
  - intros s' Hr I; split; [by apply Hq | by eapply failed_rely].
  - intros s' s'' m Hr I Hin; apply (IH s' s'' m Hr I Hin); destruct (Hs _ _ _ Hr I Hin) as [_ [E _]].
    unfold failed; rewrite E; by eapply failed_rely.
Qed.

(** The block is cut, and passed on if that is waited for. *)
Lemma compressLoop_spec fuel flush x s :
  inv s -> at_started x s -> len (sp_cur x) <= bs ->
  wpc (fun _ s' => failed s' \/ at_started (cut x) s' /\ (flush = true -> notifiedAt (length (sp_blocks x)) s')) (compressLoop (S fuel) flush) s.
Proof.
  intros I Hs Hx; cbn [compressLoop]; apply wpc_bind; [|done].
  eapply wpc_mono; [by eapply sendResult_spec|]; intros [r|] s1 I1; cbn beta iota.
  - intros [Hse ->]; apply wpc_bind; [|done]; eapply wpc_mono; [by eapply submit_spec|]; intros split s2 I2 [-> Hs2]; cbn match.
    destruct flush.
    + eapply wpc_mono; [eapply waitWritten_spec; [exact Hs2|] | intros u s3 I3 [A B]; by right].
      destruct Hs2 as [A _]; rewrite <- (at_settled _ _ A), <- blocks_length; change (blocks s2) with (sp_blocks (abs s2)).
      rewrite (at_abs _ _ A); cbn; rewrite length_app; cbn; lia.
    + apply wpc_ret; intros s3 Hr3 I3; right; split; [eapply steady_started; [by apply rely_steady | done] | done].
  - intros Hf; apply wpc_ret; intros s2 Hr2 I2; left; by eapply failed_rely.
Qed.

Lemma compressCurrent_spec flush x s :
  at_started x s -> len (sp_cur x) <= bs ->
  wpc (fun _ s' => failed s' \/ at_started (cut x) s' /\ (flush = true -> notifiedAt (length (sp_blocks x)) s')) (compressCurrent flush) s.
Proof.
  intros Hs Hx; constructor.
  - done.
  - intros s' s'' m Hr I [= -> ->]%list_elem_of_singleton; split; [done | by split; [|split; [|left]]].
  - intros s' s'' m Hr I [= -> ->]%list_elem_of_singleton; apply compressLoop_spec; try done.
    eapply steady_started; [by apply rely_steady | done].
Qed.

(** ** Write *)

(** The new listener finds nothing in the queue. *)
Lemma listened_inv cur s : inv s -> z_started (st_fields s) = false ->
  let s' := setFields (setStarted true cur (st_fields s)) (setListeners (st_listeners s ++ [LStart]) s) in
  inv s' /\ guar s s'.
Proof.
  intros I E s'; destruct (iv_run _ _ _ _ _ _ _ _ I) as (q & cl & Hch & Hl).
  inversion Hl as [Hn Hq Hw _ Hls | | | | | | | | |]; try congruence.
  assert (El : st_listeners s' = [LStart]) by (cbn; by rewrite <- Hls).
  split; [|split; [done|]; split; [done | by right]].
  destruct I as [I1 I2 I3 I4 I5 I6]; split; try done; [destruct I1; by split|].
  exists q, cl; split; [done|]; rewrite El; apply li_start; [by cbn; rewrite Hn | | done].
  split; [done|..]; intros i c; cbn; rewrite Hn; by rewrite lookup_nil.
Qed.

Lemma start_spec x s : at_ x s -> wpc (fun _ s' => at_started x s') start s.
Proof.
  intros Hs; apply wpc_step; intros s' Hr I; pose proof (steady_at _ _ _ (rely_steady _ _ Hr) Hs) as Hs'.
  cbv beta zeta; destruct (z_started (st_fields s')) eqn:E.
  - split; [done|]; split; [by split; [|split; [|left]]|].
    intros s3 Hr3 I3; eapply steady_started; [by apply rely_steady | done].
  - rewrite (sf_blockSize _ _ _ _ _ (iv_static _ _ _ _ _ _ _ _ I)).
    destruct (makesSlice bs) eqn:Em; cbn [fst snd]; (edestruct listened_inv as [I' G']; [exact I | exact E | split; [exact I' | split; [exact G'|]]]).
    + intros s3 Hr3 I3; eapply steady_started; [by apply rely_steady|]; split; [|done]; destruct Hs' as [A1 A2 A3 A4]; split; try done.
      rewrite <- A1; unfold abs; cbn [setFields setStarted st_fields z_currentBuffer z_prevTail z_closed]; f_equal.
      specialize (A4 E); by rewrite <- A1 in A4.
    + unfold roomy; by rewrite Em.
Qed.

Lemma fill_spec q x s :
  at_started x s -> len (sp_cur x) < bs ->
  let n := Z.min (len q) (bs - len (sp_cur x)) in
  wpc (fun r s' => r = (n, bs <=? len (sp_cur (append (take (Z.to_nat n) q) x))) /\ at_started (append (take (Z.to_nat n) q) x) s') (fill q) s.
Proof.
  intros Hs Hx n; set (y := append (take (Z.to_nat n) q) x).
  apply (fields_step s _ (fun _ => (n, bs <=? len (sp_cur y))) (fun s' => setBuffer (sp_cur y) (z_prevTail (st_fields s')) (st_fields s'))).
  intros s' S I; pose proof (steady_started _ _ _ S Hs) as [A St].
  assert (Ecur : z_currentBuffer (st_fields s') = sp_cur x) by (by rewrite <- (at_abs _ _ A)).
  cbv beta zeta; rewrite (sf_blockSize _ _ _ _ _ (iv_static _ _ _ _ _ _ _ _ I)), Ecur.
  assert (En : (if bs <? len q + len (sp_cur x) then bs - len (sp_cur x) else len q) = n).
  { unfold n; destruct (Z.ltb_spec bs (len q + len (sp_cur x))); lia. }
  rewrite En, (proj2 (Z.ltb_ge n 0)) by (unfold n; pose proof (len_nonneg q); lia).
  split; [done|]; split; [done|]; intros s3 S3 I3; split; [done|]; eapply steady_started; [exact S3|].
  split; [|done]; destruct A as [A1 A2 A3 A4]; split; try done; [|cbn in *; congruence].
  unfold abs, y, append; cbn [st_fields setFields setBuffer z_currentBuffer z_prevTail z_closed sp_cur sp_blocks sp_tail sp_closed].
  by rewrite <- A1.
Qed.

Lemma grow_spec n x s : at_started x s -> wpc (fun _ s' => at_started x s') (grow n) s.
Proof.
  intros Hs; apply (fields_step s _ (fun _ => tt) (fun s' => setSize (int64 (z_size (st_fields s') + n)) (st_fields s'))).
  intros s' S I; split; [done|]; split; [done|]; intros s3 S3 I3; eapply steady_started; [exact S3|].
  pose proof (steady_started _ _ _ S Hs) as [[A1 A2 A3 A4] St]; split; [|done]; split; done.
Qed.

Lemma checkError_at (P : state -> Prop) s :
  (forall s s', steady s s' -> P s -> P s') -> P s -> wpc (fun e s' => match e with Some _ => failed s' | None => P s' end) checkError s.
Proof. intros HP Hs; apply checkError_spec; [done | by right]. Qed.

Lemma writeLoop_spec fuel fuel' p q x s :
  inv s -> at_started x s -> len (sp_cur x) < bs -> (length q <= fuel <= fuel')%nat ->
  wpc (fun r s' => match r with Some _ => failed s' | None => at_started (specWrite bs fuel q x) s' end) (writeLoop fuel' p q) s.
Proof.
  assert (Hret : forall x s, at_started x s ->
    wpc (fun r s' => match r with Some _ => failed s' | None => at_started x s' end) (cret (None : option (Z * error))) s).
  { intros x1 s1 Hs1; apply wpc_ret; intros s2 Hr2 I2; eapply steady_started; [by apply rely_steady | done]. }
  revert fuel' q x s; induction fuel as [|fuel IH]; intros fuel' q x s I Hs Hx Hf; (destruct q as [|b q]; [destruct fuel'; by apply Hret|]); [cbn in Hf; lia|].
  destruct fuel' as [|fuel']; [lia|].
  set (q0 := b :: q) in *; cbn [writeLoop specWrite]; fold q0; set (n := Z.min (len q0) (bs - len (sp_cur x))); set (y := append (take (Z.to_nat n) q0) x).
  assert (Hn : 1 <= n /\ len (sp_cur y) <= bs).
  { assert (1 <= len q0) by (unfold q0; rewrite len_cons; pose proof (len_nonneg q); lia); pose proof (len_nonneg (sp_cur x)).
    unfold y, append; cbn [sp_cur]; rewrite len_app; unfold n, len in *; rewrite length_take; lia. }
  assert (Hy : len (sp_cur (if bs <=? len (sp_cur y) then cut y else y)) < bs).
  { destruct (Z.leb_spec bs (len (sp_cur y))); [cbn; unfold len, tailSize in *; cbn; lia | lia]. }
  assert (Hd : (length (drop (Z.to_nat n) q0) <= fuel)%nat) by (rewrite length_drop; unfold len in *; lia).
  apply wpc_bind; [|done]; eapply wpc_mono; [by eapply fill_spec|]; intros [n' full] s1 I1 [[= -> ->] Hs1]; fold n y in Hs1 |- *.
  apply wpc_bind; [|done].
  assert (Hmid : wpc (fun e s' => match e with Some _ => failed s' | None => at_started (if bs <=? len (sp_cur y) then cut y else y) s' end)
    (if bs <=? len (sp_cur y) then let* _ := compressCurrent false in checkError else cret None) s1).
  { destruct (bs <=? len (sp_cur y)).
    - apply wpc_bind; [|done]; eapply wpc_mono; [apply (compressCurrent_spec false y); [done | apply Hn]|]; intros u s2 I2 Hs2.
      apply checkError_spec; [apply steady_started|]; destruct Hs2 as [|[? _]]; auto.
    - apply wpc_ret; intros s2 Hr2 I2; eapply steady_started; [by apply rely_steady | done]. }
  eapply wpc_mono; [exact Hmid|]; intros [e|] s2 I2; cbn match.
  - intros Hfl; apply wpc_ret; intros s3 Hr3 I3; by eapply failed_rely.
  - intros Hs2; apply wpc_bind; [|done]; eapply wpc_mono; [by eapply grow_spec|]; intros u s3 I3 Hs3; apply IH; [done | done | done | lia].
Qed.

Lemma Write_spec p x s :
  inv s -> failed s \/ at_ x s -> len (sp_cur x) < bs ->
  wpc (fun r s' => match r.2 with Some _ => failed s' | None => r = (len p, None) /\ at_started (specWrite bs (length p) p x) s' end) (Write p) s.
Proof.
  intros I Hs Hx; unfold Write; apply wpc_bind; [|done]; eapply wpc_mono; [by apply (checkError_spec (at_ x)); [apply steady_at|]|].
  intros [e|] s1 I1; cbn match; [intros Hf; apply wpc_ret; intros s2 Hr2 I2; by eapply failed_rely|].
  intros Hs1; apply wpc_bind; [|done]; eapply wpc_mono; [by eapply start_spec|]; intros u s2 I2 Hs2.
  apply wpc_bind; [|done]; eapply wpc_mono; [apply (writeLoop_spec (length p) (S (length p)) p p x); [done | done | done | lia]|]; intros [[n e]|] s3 I3; cbn match.
  - intros Hf; apply wpc_ret; intros s4 Hr4 I4; by eapply failed_rely.
  - intros Hs3; apply wpc_bind; [|done]; eapply wpc_mono; [by apply checkError_at; [apply steady_started|]|]; intros [e|] s4 I4 Hs4; cbn beta iota.
    + apply wpc_ret; intros s5 Hr5 I5; by eapply failed_rely.
    + apply wpc_ret; intros s5 Hr5 I5; split; [done|]; eapply steady_started; [by apply rely_steady | done].
Qed.

(** ** Flush *)

Lemma ensureStarted_spec x s :
  inv s -> at_ x s -> len (sp_cur x) < bs -> wpc (fun e s' => match e with Some _ => failed s' | None => at_started x s' end) ensureStarted s.
Proof.
  intros I Hs Hx; unfold ensureStarted; apply wpc_bind; [|done]; eapply wpc_mono; [by eapply getField_spec|].
  intros started s1 I1 [-> S1]; pose proof (steady_at _ _ _ S1 Hs) as Hs1; rewrite <- (sd_fields _ _ S1).
  destruct (z_started (st_fields s1)) eqn:E.
  - apply wpc_ret; intros s2 Hr2 I2; eapply steady_started; [by apply rely_steady | by split].
  - apply wpc_bind; [|done]; eapply wpc_mono; [by apply (Write_spec [] x); [|right|]|]; intros [n [e|]] s2 I2; cbn [snd].
    + intros Hf; apply wpc_ret; intros s3 Hr3 I3; by eapply failed_rely.
    + intros [_ Hs2]; apply wpc_ret; intros s3 Hr3 I3; eapply steady_started; [by apply rely_steady | done].
Qed.

Lemma Flush_spec x s :
  inv s -> failed s \/ at_ x s -> streamOk bs x -> wpc (fun e s' => match e with Some _ => failed s' | None => at_ (cut x) s' end) Flush s.
Proof.
  intros I Hs Hx; unfold Flush; apply wpc_bind; [|done]; eapply wpc_mono; [by apply (checkError_spec (at_ x)); [apply steady_at|]|].
  intros [e|] s1 I1; cbn match; [intros Hf; apply wpc_ret; intros s2 Hr2 I2; by eapply failed_rely|].
  intros Hs1; apply wpc_bind; [|done]; eapply wpc_mono; [by eapply getField_spec|]; intros cl s2 I2 [-> S2]; pose proof (steady_at _ _ _ S2 Hs1) as Hs2.
  assert (Ec : z_closed (st_fields s1) = false) by (rewrite <- (so_open _ _ Hx), <- (at_abs _ _ Hs1); done); rewrite Ec; cbn match.
  pose proof (so_cur _ _ Hx); apply wpc_bind; [|done]; eapply wpc_mono; [by eapply ensureStarted_spec|]; intros [e|] s3 I3; cbn match.
  - intros Hf; apply wpc_ret; intros s4 Hr4 I4; by eapply failed_rely.
  - intros Hs3; apply wpc_bind; [|done]; eapply wpc_mono; [apply (compressCurrent_spec true x); [done | lia]|]; intros u s4 I4 Hs4.
    apply checkError_spec; [apply steady_at|]; destruct Hs4 as [|[[? _] _]]; auto.
Qed.
End Methods.
