(* ===== verification/PflateClose.v ===== *)
(** * Closing a parallel flate writer

    When [Close] returns without an error, every block has been compressed
    and passed on; and this of every interleaving of a whole client that
    writes, flushes and closes. *)
From S2P Require Import Prelude GoInt GoIO PflateWriter PflateSpec PflateOrder PflateMethods.
Open Scope go_scope.

Section Close.
Context {W : Type} `{IoWriter W}.
Variable deflate : Z -> bytes -> bytes -> bool -> bytes + error.
Variables (level bs cap : Z) (ch wi : nat) (w0 : W).
Hypothesis Hbs : tailSize < bs.
Hypothesis Hcap : 0 < cap.
Abbreviation state := (state W).
Implicit Types s : state.
Abbreviation inv := (inv deflate level bs cap ch wi w0).
Abbreviation listening := (listening deflate level ch wi w0).
Abbreviation rely := (rely deflate).
Abbreviation env := (env deflate).
Abbreviation wpc := (wpc deflate inv guar blocked (roomy bs = false)).
Abbreviation at_ := (at_ ch).
Abbreviation at_started := (at_started ch).
Abbreviation steady := (steady ch).

(** Everything is passed on and no error can come any more. *)
Record complete (x : stream) s : Prop := {
  cp_abs : abs s = x;
  cp_err : st_err s = None;
  cp_delivered : exists bufs w, Forall2 (compressed (deflate level)) (sp_blocks x) bufs /\ wrote w0 bufs w /\ st_ws s !! wi = Some w;
  cp_jobs : Forall (fun j => j_pc j <> JRun) (st_jobs s);
  cp_listener : st_listeners s = [LRecv ch] \/ st_listeners s = [LReturned];
  cp_queue : exists c, st_chans s !! ch = Some c /\ ch_queue c = []
}.

Lemma env_complete x s s' : complete x s -> env s s' -> complete x s'.
Proof.
  intros [C1 C2 C3 C4 C5 (c & Hc & Hq)] [[i Hi] | [l Hl]].
  - pose proof (jobStep_steady deflate ch i _ _ Hi) as S; unfold jobStep in Hi; destruct (st_jobs s !! i) as [j|] eqn:Hj; [|done].
    pose proof (Forall_lookup_1 _ _ _ _ C4 Hj) as Hp; cbn beta in Hp; destruct (j_pc j) eqn:Ep; [done| |done]; injection Hi as <-; split; try done.
    + by rewrite (steady_abs _ _ _ S).
    + cbn [st_jobs setJob setJobs setCell setCells]; apply Forall_alter; [exact C4 | intros j' _ _; cbn; discriminate].
    + by exists c.
  - unfold listenerStep in Hl; destruct C5 as [E|E]; rewrite E in Hl; (destruct l as [|[|l]]; cbn [lookup list_lookup] in Hl; [|done|done]); [|done].
    rewrite Hc in Hl; destruct c as [cp q cl]; cbn in Hq; subst q; destruct cl; [|done]; injection Hl as <-.
    split; try done; [right; cbn; by rewrite E | by eexists].
Qed.

Lemma rely_complete x s s' : complete x s -> rely s s' -> complete x s'.
Proof. intros C Hr; revert C; induction Hr as [|s s1 s' He _ IH]; [done | intros C; apply IH; by eapply env_complete]. Qed.

(** The last block is passed on and there is no error. *)
Lemma complete_intro x s :
  inv s -> at_started (cut x) s -> st_err s = None -> notifiedAt (length (sp_blocks x)) s -> complete (cut x) s.
Proof.
  intros I [A St] Ee (c & Hc & Hn); destruct (iv_run _ _ _ _ _ _ _ _ I) as (q & cl & Hch & Hl).
  assert (Hlen : length (st_cells s) = S (length (sp_blocks x))).
  { rewrite <- (at_settled _ _ _ A), <- blocks_length; change (blocks s) with (sp_blocks (abs s)); rewrite (at_abs _ _ _ A).
    cbn; rewrite length_app; cbn; lia. }
  assert (Hnf : ~ failed s) by (unfold failed; rewrite Ee; by intros []).
  assert (D : forall n, n = length (st_cells s) -> phase deflate level wi w0 s n n n ->
    (exists bufs w, Forall2 (compressed (deflate level)) (sp_blocks (cut x)) bufs /\ wrote w0 bufs w /\ st_ws s !! wi = Some w) /\
    Forall (fun j => j_pc j <> JRun) (st_jobs s)).
  { intros n -> [[Hf | (bufs & w & Hfa & Hw & E)] P2 P3 P4]; [done|]; split.
    - exists bufs, w; split; [|done]; rewrite <- (at_abs _ _ _ A); rewrite take_ge in Hfa; [done|].
      rewrite blocks_length, (at_settled _ _ _ A); done.
    - apply Forall_lookup; intros i j Hj; destruct (job_cell _ _ _ _ _ _ _ _ _ _ I Hj) as (c' & Hc' & _ & Hok).
      unfold cellOk in Hok; rewrite Hj in Hok; destruct (P2 _ _ Hc' (lookup_lt_Some _ _ _ Hc')) as [E'|E']; rewrite E' in Hok; [done|].
      by destruct Hok. }
  assert (Hlt : forall m, (c_notified c = true <-> (length (sp_blocks x) < m)%nat) -> (m <= length (sp_blocks x))%nat -> False)
    by (intros m [Hm _] Hle; specialize (Hm Hn); lia).
  inversion Hl as [Hz | Hq Hph Hs Hls | k Hq Hk Hph Hs Hls | k Hq Hk Hph Hs Hls | k buf Hq Hk Hph Hb Hs Hls | k e Hk Hph Hs Hls | k Hq Hk Hph Hs Hls
    | r Hfl Hs | Hfl Hs | Hcl Hq Hph Hs Hls]; try done.
  - rewrite Hz in Hlen; done.
  - exfalso; apply (Hlt 0%nat); [by apply Hph | lia].
  - assert (k = length (st_cells s)) as -> by (destruct (Nat.lt_ge_cases k (length (st_cells s))); [exfalso; apply (Hlt k); [by apply Hph | lia] | lia]).
    destruct (D _ eq_refl Hph) as [D1 D2]; split; try done; [apply A | by left|].
    exists (mkChan cap q cl); split; [done|]; cbn; by rewrite Hq, Nat.sub_diag.
  - exfalso; apply (Hlt k); [by apply Hph | lia].
  - exfalso; apply (Hlt k); [by apply Hph | lia].
  - exfalso; apply (Hlt k); [by apply Hph | lia].
  - exfalso; apply (Hlt k); [by apply Hph | lia].
  - destruct (D _ eq_refl Hph) as [D1 D2]; split; try done; [apply A | by right | by exists (mkChan cap q cl)].
Qed.

(** And the channel is closed. *)
Definition over (x : stream) s : Prop := complete x s /\ chanClosed ch s = Some true.

Lemma rely_over x s s' : over x s -> rely s s' -> over x s'.
Proof.
  intros [C E] Hr; split; [by eapply rely_complete|]; rewrite <- E; apply (sd_closed ch s), rely_steady with (deflate := deflate); exact Hr.
Qed.

Lemma closeResults_spec x s : at_started x s -> complete x s -> wpc (fun _ s' => over x s') closeResults s.
Proof.
  intros Hs Hc; apply wpc_atomic; intros s' Hr I; pose proof (rely_complete _ _ _ Hc Hr) as C; pose proof (steady_started _ _ _ _ (rely_steady _ ch _ _ Hr) Hs) as [A _].
  destruct (iv_run _ _ _ _ _ _ _ _ I) as (q & cl & Hch & Hl); pose proof (at_open _ _ _ A) as Ho; unfold chanClosed in Ho; rewrite Hch in Ho.
  injection Ho as ->; rewrite (sf_results _ _ _ _ _ (iv_static _ _ _ _ _ _ _ _ I)); cbv beta zeta; rewrite Hch.
  set (s1 := setChans _ s'); assert (E1 : st_chans s1 !! ch = Some (mkChan cap q true)) by (cbn; apply list_lookup_insert_eq; by eapply lookup_lt_Some).
  exists tt, s1; split; [done|]; split; [|split; [by split; [|split; [|left]]|]].
  - destruct I as [I1 I2 I3 I4 I5 I6]; split; try done; exists q, true; split; [done|].
    change (st_listeners s1) with (st_listeners s'); destruct Hl as [Hn Hq Hw Hs' | Hq Hph Hs' | k Hq Hk Hph Hs' | k Hq Hk Hph Hs' | k buf Hq Hk Hph Hb Hs' | k e Hk Hph Hs' | k Hq Hk Hph Hs'
      | r Hf Hs' | Hf Hs' | Hcl Hq Hph Hs']; try done.
    + by apply li_none.
    + apply li_start; try done; by destruct Hph.
    + apply (li_recv _ _ _ _ _ _ _ _ k); try done; by destruct Hph.
    + apply (li_result _ _ _ _ _ _ _ _ k); try done; by destruct Hph.
    + apply (li_write _ _ _ _ _ _ _ _ k); try done; by destruct Hph.
    + by apply li_push.
    + apply li_notify; try done; by destruct Hph.
    + by apply li_failing.
    + by apply li_gone.
  - intros s3 Hr3 I3; eapply rely_over; [|exact Hr3]; split; [|unfold chanClosed; by rewrite E1]; destruct C as [C1 C2 C3 C4 C5 (c & Hc' & Hq)]; split; try done.
    exists (mkChan cap q true); split; [done|]; rewrite Hch in Hc'; by injection Hc' as <-.
Qed.

Lemma finish_at x s : at_ x s -> wpc (fun _ s' => at_ (finish x) s') (assign (setClosed true)) s.
Proof.
  intros Hs; apply (fields_step deflate level bs cap ch wi w0 s _ (fun _ => tt) (fun s' => setClosed true (st_fields s'))).
  intros s' S I; split; [done|]; split; [done|]; intros s3 S3 I3; eapply steady_at; [exact S3|].
  pose proof (steady_at _ _ _ _ S Hs) as [A1 A2 A3 A4]; split; try done; by rewrite <- A1.
Qed.

Lemma Close_spec x s :
  inv s -> failed s \/ at_ x s -> streamOk bs x ->
  wpc (fun e s' => match e with Some _ => failed s' | None => over (cut (finish x)) s' end) Close s.
Proof.
  intros I Hs Hx; unfold Close; apply wpc_bind; [|done]; eapply wpc_mono; [by apply (checkError_spec deflate level bs cap ch wi w0 (at_ x)); [apply steady_at|]|].
  assert (Hfail : forall (e : error) s', failed s' ->
    wpc (fun e s' => match e with Some _ => failed s' | None => over (cut (finish x)) s' end) (cret (Some e)) s')
    by (intros e s' Hf; apply wpc_ret; intros s2 Hr2 I2; by eapply (failed_rely _ ch)).
  intros [e|] s1 I1; cbn match; [apply Hfail|]; intros Hs1.
  apply wpc_bind; [|done]; eapply wpc_mono; [by eapply getField_spec|]; intros cl s2 I2 [-> S2]; pose proof (steady_at _ _ _ _ S2 Hs1) as Hs2.
  assert (Ec : z_closed (st_fields s1) = false) by (rewrite <- (so_open _ _ Hx), <- (at_abs _ _ _ Hs1); done); rewrite Ec; cbn match.
  apply wpc_bind; [|done]; eapply wpc_mono; [by eapply finish_at|]; intros u s3 I3 Hs3; pose proof (so_cur _ _ Hx).
  apply wpc_bind; [|done]; eapply wpc_mono; [by apply (ensureStarted_spec deflate level bs cap ch wi w0 Hbs Hcap (finish x))|]; intros [e|] s4 I4; cbn match; [apply Hfail|].
  intros Hs4; apply wpc_bind; [|done]; eapply wpc_mono; [apply (compressCurrent_spec deflate level bs cap ch wi w0 Hbs Hcap true (finish x)); [done | cbn; lia]|].
  intros v s5 I5 Hs5; apply wpc_bind; [|done].
  set (P s' := at_started (cut (finish x)) s' /\ complete (cut (finish x)) s').
  assert (Hck : wpc (fun e s' => match e with Some _ => failed s' | None => P s' end) checkError s5).
  { apply wpc_atomic; intros s6 Hr6 I6; pose proof (rely_steady _ ch _ _ Hr6) as S6.
    do 2 eexists; split; [done|]; split; [done|]; split; [by split; [|split; [|left]]|]; intros s7 Hr7 I7; pose proof (rely_steady _ ch _ _ Hr7) as S7.
    destruct (st_err s6) eqn:E; [apply (sd_failed _ _ _ S7); unfold failed; by rewrite E|].
    destruct Hs5 as [Hf | [Hst Hn]]; [apply (sd_failed _ _ _ S6) in Hf; unfold failed in Hf; by rewrite E in Hf|].
    split; [eapply steady_started; [exact S7|]; by eapply steady_started|]; eapply rely_complete; [|exact Hr7].
    apply complete_intro; [done | by eapply steady_started | done | eapply steady_notifiedAt; [exact S6 | by apply Hn]]. }
  eapply wpc_mono; [exact Hck|]; intros [e|] s6 I6; cbn match; [apply Hfail|]; intros [Hst Hcp].
  apply wpc_bind; [|done]; eapply wpc_mono; [by eapply closeResults_spec|]; intros v' s7 I7 C7; apply wpc_ret; intros s8 Hr8 I8.
  exact (rely_over _ _ _ C7 Hr8).
Qed.
End Close.
