(* ===== verification/PflateSystem.v ===== *)
(** * The writer of the zip package, and the steps of a run

    The writer that the zip package makes for a file ([newFlateWriter] in
    zip/register.go), and the measure that every step of its goroutines
    decreases: whatever command the caller runs, a run is finite. *)
From S2P Require Import Prelude GoInt GoIO ZipRegister PflateWriter PflateSpec PflateOrder PflateMethods PflateClose.
Open Scope go_scope.

(** [newFlateWriter]. [NewWriter] returns a nil writer for a level that it
    refuses: [SetConcurrency] panics on it unless it refuses its arguments
    too, and then the nil writer is returned. *)
Definition newFlateWriter {W} (ConstantCompression BestCompression : Z) (s : CompressionSettings) (w : W) : outcome (option (state W)) :=
  let blockSize := fs_BlockSize (cs_Flate s) in
  let blocks := fs_Blocks (cs_Flate s) in
  match NewWriter ConstantCompression BestCompression w (fs_Level (cs_Flate s)) with
  | Ok fw =>
      match concurrency blockSize blocks fw with
      | (Ok _, fw) => Ok (Some fw)
      | _ => Panic
      end
  | Err _ => if (blockSize <=? tailSize) || (blocks <=? 0) then Ok None else Panic
  | _ => Panic
  end.

Section Termination.
Context {W : Type} `{IoWriter W}.
Variable deflate : Z -> bytes -> bytes -> bool -> bytes + error.

(** ** Every run ends *)
Definition jobWork (j : job) : nat := match j_pc j with JRun => 2 | JEnd => 1 | JDone => 0 end.
Definition listenerWork (x : listener) : nat :=
  match x with
  | LStart => 2 | LRecv _ => 1 | LResult _ _ => 4 | LWrite _ _ _ => 3 | LPush _ _ => 2
  | LNotify _ (Some _) => 2 | LNotify _ None => 1 | LReturned => 0
  end.
Definition chanWork (c : chan) : nat := 4 * length (ch_queue c).

(** What the goroutines still have to do. *)
Definition work (s : state W) : nat :=
  sum_list_with jobWork (st_jobs s) + sum_list_with chanWork (st_chans s) + sum_list_with listenerWork (st_listeners s).

Lemma sum_update {A} (f : A -> nat) (l : list A) i x y :
  l !! i = Some x -> (sum_list_with f (<[i := y]> l) + f x = sum_list_with f l + f y)%nat.
Proof.
  revert i; induction l as [|a l IH]; intros [|i]; [done | done | intros [= ->]; cbn; lia | intros Hi; specialize (IH i Hi)].
  change (<[S i := y]> (a :: l)) with (a :: <[i := y]> l); cbn [sum_list_with]; lia.
Qed.

Lemma alter_insert {A} (g : A -> A) (l : list A) i x : l !! i = Some x -> alter g i l = <[i := g x]> l.
Proof. revert i; induction l as [|a l IH]; intros [|i]; [done | done | by intros [= ->] | cbn; intros Hi; f_equal; by apply IH]. Qed.

Lemma jobStep_work i s s' : jobStep deflate i s = Some s' -> (work s' < work s)%nat.
Proof.
  unfold jobStep; destruct (st_jobs s !! i) as [j|] eqn:Hj; [|done].
  assert (L : forall pc s1, st_jobs s1 = st_jobs s -> st_chans s1 = st_chans s -> st_listeners s1 = st_listeners s ->
    (jobWork (mkJob (j_p j) (j_prevTail j) (j_r j) (j_closed j) pc) < jobWork j)%nat -> (work (setJob i pc s1) < work s)%nat).
  { intros pc s1 Ej Ec El Hw; unfold work; cbn [setJob setJobs st_jobs st_chans st_listeners]; rewrite Ej, Ec, El.
    rewrite (alter_insert _ _ _ _ Hj).
    pose proof (sum_update jobWork (st_jobs s) i j (mkJob (j_p j) (j_prevTail j) (j_r j) (j_closed j) pc) Hj); lia. }
  unfold jobWork in L at 2; destruct (j_pc j); [| |done].
  - destruct (deflate _ _ _ _); intros [= <-]; rewrite ?pushError_eq; apply L; try done; cbn; lia.
  - intros [= <-]; apply L; try done; cbn; lia.
Qed.

Lemma listenerStep_work l s s' : listenerStep l s = Some s' -> (work s' < work s)%nat.
Proof.
  unfold listenerStep; destruct (st_listeners s !! l) as [x|] eqn:Hx; [|done].
  assert (L : forall y s1, st_jobs s1 = st_jobs s -> st_chans s1 = st_chans s -> st_listeners s1 = st_listeners s ->
    (listenerWork y < listenerWork x)%nat -> (work (setListener l y s1) < work s)%nat).
  { intros y s1 Ej Ec El Hw; unfold work; cbn [setListener setListeners st_jobs st_chans st_listeners]; rewrite Ej, Ec, El.
    pose proof (sum_update listenerWork _ l x y Hx); lia. }
  destruct x.
  - intros [= <-]; apply L; try done; cbn; lia.
  - destruct (st_chans s !! listen) as [[c q cl]|] eqn:Hc; [|done]; destruct q as [|r q]; [destruct cl; [|done]|]; intros [= <-].
    + apply L; try done; cbn; lia.
    + unfold work; cbn [setListener setListeners setChans st_jobs st_chans st_listeners].
      pose proof (sum_update listenerWork _ l _ (LResult listen r) Hx); pose proof (sum_update chanWork _ _ _ (mkChan c q cl) Hc).
      unfold chanWork in *; cbn in *; lia.
  - destruct (st_cells s !! r) as [c|]; [|done]; cbn; destruct (c_result c); try done; intros [= <-]; apply L; try done; cbn; lia.
  - destruct (st_ws s !! _); [|done]; destruct (io_write _ _) as [[n [e|]] w']; [|destruct (negb _)]; intros [= <-]; apply L; try done; cbn; lia.
  - intros [= <-]; rewrite pushError_eq; apply L; try done; cbn; lia.
  - intros [= <-]; apply L; try done; destruct next; cbn; lia.
  - done.
Qed.

(** Induction on commands. *)
Lemma cmd_rect' {S A} (P : cmd S A -> Prop) :
  (forall o, P (Done o)) -> (forall f, (forall s p, p ∈ f s -> P p.2) -> P (Await f)) -> forall m, P m.
Proof.
  intros HD HA; fix F 1; intros [o|f]; [apply HD | apply HA]; intros s.
  assert (Forall (fun p => P p.2) (f s)) as G; [|intros p Hp; by eapply Forall_forall in G].
  induction (f s) as [|[s' m] l IH]; constructor; [apply F | exact IH].
Qed.

Abbreviation step := (step deflate).
Abbreviation after := (fun y' y => step y y').

(** The caller's steps are well-founded, and between them so are the others'. *)
Lemma Acc_states c t l :
  (forall s y', (exists i, stepAt deflate (TCaller i) (mkSystem s c t l) = Some y') -> Acc after y') -> forall s, Acc after (mkSystem s c t l).
Proof.
  intros Hc s; induction (well_founded_ltof _ work s) as [s _ IH]; unfold ltof in IH; constructor; intros y' [[i|k|i] E].
  - apply (Hc s); by exists i.
  - unfold stepAt in E; destruct (listenerStep k s) as [s'|] eqn:Es; cbn in E; rewrite ?Es in E; [|done]; injection E as <-.
    apply IH; exact (listenerStep_work _ _ _ Es).
  - unfold stepAt in E; cbn [y_st] in E; destruct (jobStep deflate i s) as [s'|] eqn:Es; [|done]; injection E as <-.
    apply IH; exact (jobStep_work _ _ _ Es).
Qed.

Lemma Acc_running t (Hidle : forall l s, Acc after (mkSystem s None t l)) m : forall l s, Acc after (mkSystem s (Some m) t l).
Proof.
  induction m as [o | f IH] using cmd_rect'; intros l; apply Acc_states; intros s y' [i E].
  - cbn in E; destruct o as [r| | |]; [injection E as <-; apply Hidle | discriminate..].
  - cbn in E; destruct (f s !! i) as [p|] eqn:Ep; [|done]; injection E as <-; eapply IH; by eapply list_elem_of_lookup_2.
Qed.

Lemma Acc_idle t : forall l s, Acc after (mkSystem s None t l).
Proof.
  induction t as [|c t IH]; intros l; apply Acc_states; intros s y' [i E]; [done|]; cbn in E; injection E as <-; by apply Acc_running.
Qed.
End Termination.
