(* ===== verification/PflateRuns.v ===== *)
(** * What the runs of a parallel flate writer come to

    The properties of the parallel flate writer, for a client that makes any
    writes and flushes and then closes it, and what [newFlateWriter] makes of
    any settings. *)
From S2P Require Import Prelude GoInt GoIO ZipRegister PflateWriter PflateSpec PflateOrder PflateMethods PflateClose PflateSystem.
Open Scope go_scope.

(** The result of a call that has not met an error. *)
Definition okResult {W} (c : call (W := W)) : result :=
  match c with CWrite p => RWrite (len p) None | _ => RErr None end.

(** ** A fresh writer *)
Section Fresh.
Context {W : Type} `{IoWriter W}.
Variable deflate : Z -> bytes -> bytes -> bool -> bytes + error.

Definition freshState (level bs cap : Z) (chans : list chan) (w : W) : state W :=
  mkState (mkFields false 0 level bs cap [] [] 0 false (length chans)) None (chans ++ [mkChan cap [] false]) [] [] [] [w].

Definition defaultChan : chan := mkChan defaultBlocks [] false.

Lemma NewWriter_fresh lo hi (w : W) level : lo <= level <= hi ->
  NewWriter lo hi w level = Ok (freshState level defaultBlockSize defaultBlocks [defaultChan] w).
Proof. intros Hl; unfold NewWriter; rewrite (proj2 (Z.ltb_ge _ _)), (proj2 (Z.ltb_ge hi _)) by lia; done. Qed.

Lemma NewWriter_refused lo hi (w : W) level : level < lo \/ hi < level -> exists e, NewWriter lo hi w level = Err e.
Proof.
  intros Hl; unfold NewWriter; destruct (Z.ltb_spec level lo), (Z.ltb_spec hi level); cbn [orb]; first [by eexists | lia].
Qed.

(** Settings that [SetConcurrency] refuses, and what it makes of others. *)
Lemma concurrency_refused bs n (st : state W) : bs <= tailSize \/ n <= 0 -> exists e, concurrency bs n st = (Ok (Some e), st).
Proof. intros Hr; unfold concurrency; destruct (Z.leb_spec bs tailSize), (Z.leb_spec n 0); first [by eexists | lia]. Qed.

Lemma concurrency_fresh bs n level (w : W) : tailSize < bs -> 0 < n ->
  if makesResults n then
    exists chans, concurrency bs n (freshState level defaultBlockSize defaultBlocks [defaultChan] w) = (Ok None, freshState level bs n chans w)
  else (concurrency bs n (freshState level defaultBlockSize defaultBlocks [defaultChan] w)).1 = Panic.
Proof.
  intros Hbs Hn; unfold concurrency; rewrite (proj2 (Z.leb_gt _ _)), (proj2 (Z.leb_gt n _)) by lia.
  set (b := (bs =? _) && (n =? _)); destruct b eqn:E.
  - apply andb_true_iff in E as [->%Z.eqb_eq ->%Z.eqb_eq]; by exists [defaultChan].
  - unfold makeResults; destruct (makesResults n); [|done]; by exists [defaultChan; defaultChan].
Qed.

Lemma Validate_spec s : Validate s = Ok tt <-> -2 <= fs_Level (cs_Flate s) <= 9 /\ tailSize < fs_BlockSize (cs_Flate s) /\ 0 < fs_Blocks (cs_Flate s).
Proof.
  destruct s as [[level bs n]]; unfold Validate, FlateValidate, tailSize; cbn [cs_Flate fs_Level fs_BlockSize fs_Blocks].
  destruct (Z.ltb_spec level (-2)), (Z.ltb_spec 9 level), (Z.leb_spec n 0), (Z.leb_spec bs 16384); cbn [orb]; split; intros; first [done | lia].
Qed.

Lemma newFlateWriter_fresh lo hi s (w : W) st :
  Validate s = Ok tt -> newFlateWriter lo hi s w = Ok (Some st) ->
  tailSize < fs_BlockSize (cs_Flate s) /\ 0 < fs_Blocks (cs_Flate s) /\
  exists chans, st = freshState (fs_Level (cs_Flate s)) (fs_BlockSize (cs_Flate s)) (fs_Blocks (cs_Flate s)) chans w.
Proof.
  intros (_ & Hbs & Hn)%Validate_spec Hst; split; [done|]; split; [done|]; unfold newFlateWriter in Hst.
  destruct (decide (lo <= fs_Level (cs_Flate s) <= hi)) as [Hl|Hl].
  - rewrite NewWriter_fresh in Hst by done; pose proof (concurrency_fresh _ _ (fs_Level (cs_Flate s)) w Hbs Hn) as Hc.
    destruct (makesResults _); [destruct Hc as [chans Hc]; exists chans; rewrite Hc in Hst; by injection Hst|].
    destruct (concurrency _ _ _) as [o st1]; cbn in Hc; by subst o.
  - destruct (NewWriter_refused lo hi w (fs_Level (cs_Flate s))) as [e He]; [lia|]; rewrite He in Hst; by destruct (_ || _).
Qed.

Lemma fresh_inv level bs cap chans w : inv deflate level bs cap (length chans) 0 w (freshState level bs cap chans w).
Proof.
  split; try done.
  - cbn; lia.
  - exists [], false; split; [cbn; by rewrite lookup_app_r, Nat.sub_diag by lia|].
    apply li_none; try done; right; exists [], w; split; [constructor|]; split; [constructor | done].
Qed.

Lemma fresh_at level bs cap chans w : at_ (length chans) emptyStream (freshState level bs cap chans w).
Proof. split; try done; unfold chanClosed; cbn; by rewrite lookup_app_r, Nat.sub_diag by lia. Qed.
End Fresh.

(** ** The invariant of a run *)
Section Runs.
Context {W : Type} `{IoWriter W}.
Variable deflate : Z -> bytes -> bytes -> bool -> bytes + error.
Variables (level bs cap : Z) (ch : nat) (w0 : W).
Hypothesis Hbs : tailSize < bs.
Hypothesis Hcap : 0 < cap.
Abbreviation state := (state W).
Implicit Types s : state.
Abbreviation inv := (inv deflate level bs cap ch 0 w0).
Abbreviation wpc := (wpc deflate inv guar blocked (roomy bs = false)).
Abbreviation at_ := (at_ ch).
Abbreviation over := (over deflate level ch 0 w0).

Lemma len0_lt : 0 < bs.
Proof. unfold tailSize in Hbs; lia. Qed.

(** A call of [Write] or [Flush]. *)
Lemma call_spec c x s :
  isData c = true -> inv s -> failed s \/ at_ x s -> streamOk bs x ->
  wpc (fun r s' => failed s' \/ at_ (specCall bs c x) s' /\ r = okResult c) (callCode c) s.
Proof.
  intros Hc I Hs Hx; pose proof (so_cur _ _ Hx); destruct c; try done; cbn [callCode specCall okResult].
  - apply wpc_bind; [|done]; eapply wpc_mono; [by apply (Write_spec deflate level bs cap ch 0 w0 Hbs Hcap p x)|]; intros [n [e|]] s1 I1; cbn [snd].
    + intros Hf; apply wpc_ret; intros s2 Hr2 I2; left; by eapply (failed_rely deflate ch).
    + intros [[= ->] [Ha _]]; apply wpc_ret; intros s2 Hr2 I2; right; split; [|done].
      eapply (steady_at ch); [by apply (rely_steady deflate ch) | done].
  - apply wpc_bind; [|done]; eapply wpc_mono; [by apply (Flush_spec deflate level bs cap ch 0 w0 Hbs Hcap x)|]; intros [e|] s1 I1; cbn beta iota.
    + intros Hf; apply wpc_ret; intros s2 Hr2 I2; left; by eapply (failed_rely deflate ch).
    + intros Ha; apply wpc_ret; intros s2 Hr2 I2; right; split; [|done].
      eapply (steady_at ch); [by apply (rely_steady deflate ch) | done].
Qed.

(** How the closing call may end, when what is logged before is [ok] or an error is pending. *)
Definition closed_ (x : stream) (ok : Prop) (r : result) (s : state) : Prop :=
  match r with
  | RErr None => over (cut (finish x)) s /\ ok
  | RErr (Some _) => failed s
  | RWrite _ _ => False
  end.

Lemma close_spec x ok s :
  inv s -> failed s \/ at_ x s /\ ok -> streamOk bs x -> wpc (closed_ x ok) (callCode CClose) s.
Proof.
  intros I Hs Hx; cbn [callCode]; apply wpc_bind; [|done]; destruct Hs as [Hf | [Ha Hok]].
  - unfold Close; apply wpc_bind; [|done]; eapply wpc_mono; [by apply (checkError_spec deflate level bs cap ch 0 w0 (fun _ => False)); [|left]|].
    intros [e|] s1 I1; [|done]; cbn match; intros Hf1; apply wpc_ret; intros s2 Hr2 I2; apply wpc_ret; intros s3 Hr3 I3; cbn.
    eapply (failed_rely deflate ch); [|exact Hr3]; by eapply (failed_rely deflate ch).
  - eapply wpc_mono; [by apply (Close_spec deflate level bs cap ch 0 w0 Hbs Hcap x); [|right|]|]; intros [e|] s1 I1; cbn beta iota; intros Hp; apply wpc_ret;
      intros s2 Hr2 I2; cbn.
    + by eapply (failed_rely deflate ch).
    + split; [by eapply rely_over | done].
Qed.

(** The calls [cs], then [Close]. *)
Variable cs : list (call (W := W)).
Hypothesis Hcs : Forall isData cs.
Abbreviation spec := (fun l : list (call (W := W)) => specCalls bs l emptyStream).

Inductive running : system (W := W) -> Prop :=
  | run_idle done rest s log : cs = done ++ rest -> inv s ->
      failed s \/ at_ (spec done) s /\ log = okResult <$> done -> running (mkSystem s None (rest ++ [CClose]) log)
  | run_call done c rest s m log : cs = done ++ c :: rest -> inv s ->
      wpc (fun r s' => failed s' \/ at_ (spec (done ++ [c])) s' /\ log ++ [r] = okResult <$> (done ++ [c])) m s ->
      running (mkSystem s (Some m) (rest ++ [CClose]) log)
  | run_close s m log : inv s -> wpc (closed_ (spec cs) (log = okResult <$> cs)) m s -> running (mkSystem s (Some m) [] log)
  | run_over s log r : inv s -> closed_ (spec cs) (log = okResult <$> cs) r s -> running (mkSystem s None [] (log ++ [r])).

Lemma specCalls_snoc l c : spec (l ++ [c]) = specCall bs c (spec l).
Proof. unfold specCalls; by rewrite foldl_app. Qed.

Lemma spec_ok l rest : cs = l ++ rest -> streamOk bs (spec l).
Proof.
  intros E; apply specCalls_ok; [apply len0_lt | | apply emptyStream_ok, len0_lt].
  rewrite E in Hcs; by apply Forall_app in Hcs as [? _].
Qed.

(** Other goroutines do not disturb it. *)
Lemma running_env s s' cur todo log : env deflate s s' -> running (mkSystem s cur todo log) -> running (mkSystem s' cur todo log).
Proof.
  intros He; assert (Hr : rely deflate s s') by by apply rtc_once.
  pose proof (rely_steady deflate ch _ _ Hr) as S.
  inversion 1 as [dn rest s1 log1 Ec I Hs | dn c rest s1 m log1 Ec I Hm | s1 m log1 I Hm | s1 log1 r I Hc]; subst;
    pose proof (env_inv _ _ _ _ _ _ _ _ _ I He) as I'.
  - apply (run_idle dn); [done..|]; destruct Hs as [Hf | [Ha Hl]]; [left; by apply S | right; split; [by eapply (steady_at ch) | done]].
  - apply (run_call dn c rest); [done..|]; by eapply wpc_rely.
  - apply run_close; [done|]; by eapply wpc_rely.
  - apply run_over; [done|]; destruct r as [|[e|]]; [done | by apply S |]; destruct Hc; split; [by eapply rely_over | done].
Qed.

Lemma running_step y y' : running y -> step deflate y y' -> running y'.
Proof.
  intros Hy [t E]; destruct t as [i|l|i]; [|destruct y as [s cur todo log]..].
  2:{ unfold stepAt in E; destruct (listenerStep l s) as [s'|] eqn:Es; cbn in E; rewrite Es in E; [|done]; injection E as <-.
      eapply running_env; [|exact Hy]; right; by exists l. }
  2:{ unfold stepAt in E; cbn in E; destruct (jobStep deflate i s) as [s'|] eqn:Es; [|done]; injection E as <-.
      eapply running_env; [|exact Hy]; left; by exists i. }
  destruct Hy as [dn rest s log Ec I Hs | dn c rest s m log Ec I Hm | s m log I Hm | s log r I Hc]; cbn in E.
  - destruct rest as [|c rest]; cbn in E; injection E as <-.
    + rewrite app_nil_r in Ec; subst dn; apply run_close; [done|]; apply close_spec; [done | done | by apply (spec_ok cs []); rewrite app_nil_r].
    + apply (run_call dn c rest); [done..|]; pose proof (spec_ok _ _ Ec) as Hx; rewrite Ec in Hcs; apply Forall_app in Hcs as [_ [Hc _]%Forall_cons].
      rewrite specCalls_snoc.
      destruct Hs as [Hf | [Ha ->]].
      * eapply wpc_mono; [apply wpc_failed; [by apply (call_spec c (spec dn)); [destruct c | | left |] | done]|]; intros r s' I' [_ ?]; by left.
      * eapply wpc_mono; [by apply (call_spec c (spec dn)); [destruct c | | right |]|]; intros r s' I' [Hf'|[Ha' ->]]; [by left | right].
        split; [done|]; by rewrite fmap_app.
  - inversion Hm as [r s1 HQ | s1 Hp | f s1 Hb Hi Hk]; subst.
    + injection E as <-; apply (run_idle (dn ++ [c])); [by rewrite <- app_assoc | done | apply HQ; [constructor | done]].
    + done.
    + destruct (f s !! i) as [[s' m']|] eqn:Ef; [|done]; injection E as <-; apply list_elem_of_lookup_2 in Ef; cbn.
      apply (run_call dn c rest); [done | by eapply Hi; [constructor | |] | by eapply Hk; [constructor | |]].
  - inversion Hm as [r s1 HQ | s1 Hp | f s1 Hb Hi Hk]; subst.
    + injection E as <-; apply run_over; [done | apply HQ; [constructor | done]].
    + done.
    + destruct (f s !! i) as [[s' m']|] eqn:Ef; [|done]; injection E as <-; apply list_elem_of_lookup_2 in Ef; cbn.
      apply run_close; [by eapply Hi; [constructor | |] | by eapply Hk; [constructor | |]].
  - done.
Qed.

Lemma running_steps y y' : running y -> rtc (step deflate) y y' -> running y'.
Proof. intros Hy Hs; induction Hs as [|y y1 y' Hst _ IH]; [done | apply IH; by eapply running_step]. Qed.

(** The end of a run without an error. *)
Lemma running_finished y :
  running y -> finished y -> last (y_log y) = Some (RErr None) ->
  y_log y = okResult <$> (cs ++ [CClose]) /\
  exists bufs w, Forall2 (compressed (deflate level)) (specBlocks bs cs) bufs /\ wrote w0 bufs w /\ st_ws (y_st y) !! 0%nat = Some w.
Proof.
  intros Hy [Hn Ht] Hlast; destruct Hy as [dn rest s log Ec I Hs | | | s log r I Hc]; try done; [by destruct rest|].
  cbn [y_log y_st] in *; rewrite last_snoc in Hlast; injection Hlast as ->; destruct Hc as [[C _] ->].
  split; [by rewrite fmap_app | apply C].
Qed.

(** ** On a writer that accepts everything *)
Section Calm.
Hypothesis sink : forall (w : W) b, exists w', io_write w b = (len b, None, w').
Hypothesis total : forall p dict final, exists z, deflate level p dict final = inl z.

(** No goroutine has met an error. *)
Definition calm s : Prop :=
  st_err s = None /\ Forall (fun x => match x with LPush _ _ | LNotify _ None => False | _ => True end) (st_listeners s).

Lemma calm_listener s s' l x :
  calm s -> st_err s' = st_err s -> st_listeners s' = <[l := x]> (st_listeners s) ->
  match x with LPush _ _ | LNotify _ None => False | _ => True end -> calm s'.
Proof. intros [C1 C2] Ee El Hx; split; [by rewrite Ee | rewrite El; by apply Forall_insert]. Qed.

Lemma calm_env s s' : z_level (st_fields s) = level -> calm s -> env deflate s s' -> calm s'.
Proof.
  intros Hl C [[i E] | [l E]].
  - unfold jobStep in E; destruct (st_jobs s !! i) as [j|]; [|done]; destruct (j_pc j); [| |done].
    + rewrite Hl in E; destruct (total (j_p j) (j_prevTail j) (j_closed j)) as [z Ez]; rewrite Ez in E; injection E as <-; exact C.
    + injection E as <-; exact C.
  - unfold listenerStep in E; destruct (st_listeners s !! l) as [x|] eqn:Hx; [|done].
    destruct C as [C1 C2]; pose proof (Forall_lookup_1 _ _ _ _ C2 Hx) as Hh; assert (C : calm s) by done; cbn beta in Hh; destruct x; try done.
    + injection E as <-; by eapply calm_listener.
    + destruct (st_chans s !! listen) as [[c q cl]|]; [|done]; destruct q; [destruct cl; [|done]|]; injection E as <-; by eapply calm_listener.
    + destruct (st_cells s !! r) as [c|]; [|done]; cbn in E; destruct (c_result c); try done; injection E as <-; by eapply calm_listener.
    + destruct (st_ws s !! _) as [w|]; [|done]; destruct (sink w buf) as [w' Ew]; rewrite Ew, Z.eqb_refl in E; injection E as <-; by eapply calm_listener.
    + destruct next; [|done]; injection E as <-; by eapply calm_listener.
Qed.

Lemma calm_guar s s' : calm s -> guar s s' -> calm s'.
Proof. intros [C1 C2] (E1 & _ & [E3 | [_ E3]]); split; rewrite ?E1, ?E3; try done; by repeat constructor. Qed.

(** Where the caller waits, another goroutine can take a step. *)
Lemma blocked_step s : inv s -> calm s -> blocked s -> exists s', env deflate s s'.
Proof.
  intros I [C1 C2] [Hf | (Hset & i & c & Hc & Hn)]; [unfold failed in Hf; by rewrite C1 in Hf|].
  assert (Hnf : ~ failed s) by (unfold failed; rewrite C1; by intros []).
  destruct (decide (Exists (fun j => j_pc j <> JDone) (st_jobs s))) as [He|Hd].
  { apply Exists_exists in He as (j & [k Hj]%list_elem_of_lookup & Hp).
    assert (is_Some (jobStep deflate k s)) as [s' Es]; [|exists s'; left; by exists k].
    unfold jobStep; rewrite Hj; destruct (j_pc j); [destruct (deflate _ _ _ _) | | done]; by eexists. }
  assert (Hdone : forall k j, st_jobs s !! k = Some j -> j_pc j = JDone).
  { intros k j Hj; destruct (decide (j_pc j = JDone)) as [|Hp]; [done|]; exfalso; apply Hd, Exists_exists; exists j; split; [by eapply list_elem_of_lookup_2 | done]. }
  assert (L : forall x s', st_listeners s = [x] -> listenerStep 0 s = Some s' -> exists s', env deflate s s')
    by (intros x s' _ Es; exists s'; right; by exists 0%nat).
  pose proof (lookup_lt_Some _ _ _ Hc) as Hi; destruct (iv_run _ _ _ _ _ _ _ _ I) as (q & cl & Hch & Hl).
  assert (Hall : forall m, (length (st_cells s) <= m)%nat -> (c_notified c = true <-> (i < m)%nat) -> False)
    by (intros m Hm [_ H2]; rewrite H2 in Hn by lia; done).
  inversion Hl as [Hz _ _ _ Hls | _ _ _ Hls | k Hq Hk Hph _ Hls | k Hq Hk Hph _ Hls | k buf _ _ _ _ _ Hls | k e _ _ _ Hls | k _ _ _ _ Hls
    | r Hfl | Hfl | Hcl Hq Hph _ Hls]; try done; symmetry in Hls.
  - rewrite Hz in Hi; cbn in Hi; lia.
  - eapply L; [exact Hls|]; unfold listenerStep; by rewrite Hls.
  - destruct (Nat.eq_dec k (length (st_cells s))) as [->|]; [exfalso; eapply (Hall (length (st_cells s))); [done | by apply Hph]|].
    eapply L; [exact Hls|]; unfold listenerStep; rewrite Hls; cbn [lookup list_lookup]; rewrite Hch, Hq, seq_step by lia; done.
  - destruct (lookup_lt_is_Some_2 _ _ Hk) as [ck Hck]; destruct (lookup_lt_is_Some_2 (st_jobs s) k) as [j Hj]; [by rewrite Hset|].
    pose proof (iv_cells _ _ _ _ _ _ _ _ I _ _ Hck) as Hok; unfold cellOk in Hok; rewrite Hj, (Hdone _ _ Hj) in Hok.
    pose proof (ph_waiting _ _ _ _ _ _ _ _ Hph _ _ Hck ltac:(lia)) as Hw.
    destruct (c_result ck) eqn:Er; [destruct Hok as [|[? _]]; done | | done | by destruct Hok].
    eapply L; [exact Hls|]; unfold listenerStep; rewrite Hls; cbn [lookup list_lookup]; rewrite Hck; cbn; by rewrite Er.
  - destruct (iv_ws _ _ _ _ _ _ _ _ I) as [w Hw]; destruct (sink w buf) as [w' Ew].
    eapply L; [exact Hls|]; unfold listenerStep; rewrite Hls; cbn [lookup list_lookup].
    rewrite (sf_w _ _ _ _ _ (iv_static _ _ _ _ _ _ _ _ I)), Hw, Ew, Z.eqb_refl; done.
  - eapply L; [exact Hls|]; unfold listenerStep; by rewrite Hls.
  - eapply L; [exact Hls|]; unfold listenerStep; by rewrite Hls.
  - exfalso; eapply (Hall (length (st_cells s))); [done | by apply Hph].
Qed.

Lemma running_inv y : running y -> inv (y_st y).
Proof. by destruct 1. Qed.

Lemma calm_step y y' : running y -> calm (y_st y) -> step deflate y y' -> calm (y_st y').
Proof.
  intros Hy C [t E]; pose proof (running_inv _ Hy) as I; pose proof (sf_level _ _ _ _ _ (iv_static _ _ _ _ _ _ _ _ I)) as Hlv.
  destruct t as [i|l|i].
  - destruct Hy as [dn rest s log Ec _ Hs | dn c rest s m log Ec _ Hm | s m log _ Hm | s log r _ Hc]; cbn in E, C.
    + destruct rest; cbn in E; by injection E as <-.
    + inversion Hm as [r s1 HQ | s1 Hp | f s1 Hb Hi Hk]; subst; [by injection E as <- | done |].
      destruct (f s !! i) as [[s' m']|] eqn:Ef; [|done]; injection E as <-; apply list_elem_of_lookup_2 in Ef; cbn.
      destruct (Hi s s' m') as [_ Hg]; [constructor | done | done |]; by eapply calm_guar.
    + inversion Hm as [r s1 HQ | s1 Hp | f s1 Hb Hi Hk]; subst; [by injection E as <- | done |].
      destruct (f s !! i) as [[s' m']|] eqn:Ef; [|done]; injection E as <-; apply list_elem_of_lookup_2 in Ef; cbn.
      destruct (Hi s s' m') as [_ Hg]; [constructor | done | done |]; by eapply calm_guar.
    + done.
  - unfold stepAt in E; destruct (listenerStep l (y_st y)) as [s'|] eqn:Es; cbn in E; [|done]; injection E as <-.
    eapply calm_env; [exact Hlv | done | right; by exists l].
  - unfold stepAt in E; destruct (jobStep deflate i (y_st y)) as [s'|] eqn:Es; cbn in E; [|done]; injection E as <-.
    eapply calm_env; [exact Hlv | done | left; by exists i].
Qed.

(** A run that cannot go on has finished, without an error, or the buffers
    of the block size cannot be made. *)
Lemma running_stuck y : running y -> calm (y_st y) -> (forall y', ~ step deflate y y') ->
  finished y /\ last (y_log y) = Some (RErr None) \/ crashed y /\ roomy bs = false.
Proof.
  intros Hy C Hst.
  assert (Henv : forall s', ~ env deflate (y_st y) s').
  { intros s' [[i Hi] | [l Hl]]; eapply Hst; [exists (TJob i) | exists (TListener l)]; unfold stepAt; by rewrite ?Hi, ?Hl. }
  assert (Hrun : forall m Q, y_cur y = Some m -> inv (y_st y) -> wpc Q m (y_st y) -> crashed y /\ roomy bs = false).
  { intros m Q Em I Hm; unfold crashed; rewrite Em; inversion Hm as [r s1 HQ | s1 Hp | f s1 Hb Hi Hk]; subst; [exfalso | done | exfalso].
    - eapply Hst; exists (TCaller 0); unfold stepAt; rewrite Em; done.
    - destruct (f (y_st y)) as [|p ps] eqn:Ef; [|eapply Hst; exists (TCaller 0); unfold stepAt; rewrite Em, Ef; done].
      destruct (blocked_step (y_st y)) as [s' Hs']; [done | done | by apply Hb; [constructor | |] | by eapply Henv]. }
  destruct Hy as [dn rest s log Ec I Hs | dn c rest s m log Ec I Hm | s m log I Hm | s log r I Hc].
  - exfalso; destruct rest; eapply Hst; exists (TCaller 0); done.
  - right; by eapply Hrun.
  - right; by eapply Hrun.
  - left; split; [done|]; cbn; rewrite last_snoc; destruct r as [|[e|]]; [done | | done]; destruct C as [C _]; cbn in *; unfold failed in Hc; by rewrite C in Hc.
Qed.

Lemma calm_steps y y' : running y -> calm (y_st y) -> rtc (step deflate) y y' -> calm (y_st y').
Proof. intros Hy C Hs; induction Hs as [|y y1 y' Hst _ IH]; [done | apply IH; [by eapply running_step | by eapply calm_step]]. Qed.
End Calm.
End Runs.

(** A run of a fresh writer, from the first call. *)
Lemma fresh_running {W} `{IoWriter W} deflate lo hi s (w : W) st cs y :
  Forall isData cs -> Validate s = Ok tt -> newFlateWriter lo hi s w = Ok (Some st) -> rtc (step deflate) (runCalls st (cs ++ [CClose])) y ->
  let level := fs_Level (cs_Flate s) in
  let bs := fs_BlockSize (cs_Flate s) in
  let n := fs_Blocks (cs_Flate s) in
  tailSize < bs /\ 0 < n /\ exists ch, running deflate level bs n ch w cs (runCalls st (cs ++ [CClose])) /\ running deflate level bs n ch w cs y.
Proof.
  intros Hcs Hv Hst Hr; cbv zeta; destruct (newFlateWriter_fresh lo hi s w st Hv Hst) as (Hbs & Hn & chans & ->).
  split; [done|]; split; [done|]; exists (length chans).
  assert (R0 : running deflate (fs_Level (cs_Flate s)) (fs_BlockSize (cs_Flate s)) (fs_Blocks (cs_Flate s)) (length chans) w cs
    (runCalls (freshState (fs_Level (cs_Flate s)) (fs_BlockSize (cs_Flate s)) (fs_Blocks (cs_Flate s)) chans w) (cs ++ [CClose]))).
  { apply (run_idle _ _ _ _ _ _ _ [] cs); [done | apply fresh_inv | right; split; [apply fresh_at | done]]. }
  split; [done|]; by eapply running_steps.
Qed.

Lemma io_write_total {W} `{IoSink W} (w : W) b : exists w', io_write w b = (len b, None, w').
Proof. destruct (io_write_sink w b) as (w2 & E & _); by exists w2. Qed.

(** On a sink and with a compressor that does not fail, no error comes up. *)
Lemma fresh_calm {W} `{IoSink W} deflate lo hi s (w : W) st cs y :
  (forall p dict final, exists z, deflate (fs_Level (cs_Flate s)) p dict final = inl z) ->
  Forall isData cs -> Validate s = Ok tt -> newFlateWriter lo hi s w = Ok (Some st) -> rtc (step deflate) (runCalls st (cs ++ [CClose])) y ->
  tailSize < fs_BlockSize (cs_Flate s) /\ 0 < fs_Blocks (cs_Flate s) /\
  exists ch, running deflate (fs_Level (cs_Flate s)) (fs_BlockSize (cs_Flate s)) (fs_Blocks (cs_Flate s)) ch w cs y /\ calm (y_st y).
Proof.
  intros Htot Hcs Hv Hst Hr; destruct (fresh_running deflate lo hi s w st cs y Hcs Hv Hst Hr) as (Hbs & Hn & ch & R0 & R).
  split; [done|]; split; [done|]; exists ch; split; [done|].
  destruct (newFlateWriter_fresh lo hi s w st Hv Hst) as (_ & _ & chans & Est).
  assert (C0 : calm (y_st (runCalls st (cs ++ [CClose])))) by (rewrite Est; split; [done | constructor]).
  exact (calm_steps _ _ _ _ _ _ Hbs Hn _ Hcs io_write_total Htot _ _ R0 C0 Hr).
Qed.

(** With a sink and a compressor that does not fail, a run that cannot go on
    has delivered the whole stream, or its buffers cannot be made. *)
Lemma stuck_delivers {W} `{IoSink W} deflate lo hi s (w : W) st cs y :
  (forall p dict final, exists z, deflate (fs_Level (cs_Flate s)) p dict final = inl z) ->
  Forall isData cs -> Validate s = Ok tt -> newFlateWriter lo hi s w = Ok (Some st) ->
  rtc (step deflate) (runCalls st (cs ++ [CClose])) y -> (forall y', ~ step deflate y y') ->
  crashed y /\ roomy (fs_BlockSize (cs_Flate s)) = false \/
  finished y /\ y_log y = okResult <$> (cs ++ [CClose]) /\
  exists w' bufs, st_ws (y_st y) !! 0%nat = Some w' /\ io_out w' = io_out w ++ mjoin bufs /\
    Forall2 (compressed (deflate (fs_Level (cs_Flate s)))) (specBlocks (fs_BlockSize (cs_Flate s)) cs) bufs.
Proof.
  intros Htot Hcs Hv Hst Hr Hstuck; destruct (fresh_calm deflate lo hi s w st cs y Htot Hcs Hv Hst Hr) as (Hbs & Hn & ch & R & C).
  destruct (running_stuck _ _ _ _ _ _ _ io_write_total _ R C Hstuck) as [[Hf Hl] | Hc]; [right | by left].
  destruct (running_finished _ _ _ _ _ _ _ _ R Hf Hl) as (Hlog & bufs & w' & Hz & Hw & Ew); split; [done|]; split; [done|].
  exists w', bufs; split; [done|]; split; [by apply wrote_sink | done].
Qed.

(** ** Claims *)

(** C3: a [Close] that reports no error has delivered the whole stream.
    Whatever the underlying writer does (it may fail or write short at any
    time), whatever the compressor does (it may fail on any block), however
    the goroutines are interleaved and whatever is written and flushed
    before: when [Close] returns nil, every earlier call has succeeded too,
    and the underlying writer has accepted, in order, in one complete write
    each, the compressed forms of exactly the blocks of the sequential
    specification, each compressed with the end of the data before it as
    its dictionary. *)
Theorem pflate_close_delivers {W} `{IoWriter W} deflate lo hi s (w : W) st cs y :
  Forall isData cs -> Validate s = Ok tt -> newFlateWriter lo hi s w = Ok (Some st) ->
  rtc (step deflate) (runCalls st (cs ++ [CClose])) y -> finished y -> last (y_log y) = Some (RErr None) ->
  let blocks := specBlocks (fs_BlockSize (cs_Flate s)) cs in
  y_log y = okResult <$> (cs ++ [CClose]) /\
  mjoin (b_data <$> blocks) = callsData cs /\ dictsOk [] blocks /\ Forall (fun b => len (b_data b) <= fs_BlockSize (cs_Flate s)) blocks /\
  exists bufs w', Forall2 (compressed (deflate (fs_Level (cs_Flate s)))) blocks bufs /\ wrote w bufs w' /\ st_ws (y_st y) !! 0%nat = Some w'.
Proof.
  intros Hcs Hv Hst Hr Hf Hl; cbv zeta; destruct (fresh_running deflate lo hi s w st cs y Hcs Hv Hst Hr) as (Hbs & Hn & ch & _ & R).
  destruct (running_finished _ _ _ _ _ _ _ _ R Hf Hl) as [Hlog HD].
  destruct (specBlocks_ok (fs_BlockSize (cs_Flate s)) cs) as (E1 & E2 & E3 & _); [unfold tailSize in Hbs; lia | done |]; done.
Qed.

(** C6: on a writer that accepts everything, with a compressor that does not
    fail, there is no deadlock: a run of writes and flushes and a [Close]
    can only stop when every call has returned, each without an error, and
    then what has been appended to the output inflates to the data that was
    written; or, when the block size is so huge that its buffers cannot be
    made, with the panic of [make]. *)
Theorem pflate_completes {W} `{IoSink W} deflate inflates lo hi s (w : W) st cs y :
  Inflates (deflate (fs_Level (cs_Flate s))) inflates ->
  (forall p dict final, exists z, deflate (fs_Level (cs_Flate s)) p dict final = inl z) ->
  Forall isData cs -> Validate s = Ok tt -> newFlateWriter lo hi s w = Ok (Some st) ->
  rtc (step deflate) (runCalls st (cs ++ [CClose])) y -> (forall y', ~ step deflate y y') ->
  crashed y /\ roomy (fs_BlockSize (cs_Flate s)) = false \/
  finished y /\ y_log y = okResult <$> (cs ++ [CClose]) /\
  exists w' z, st_ws (y_st y) !! 0%nat = Some w' /\ io_out w' = io_out w ++ z /\ inflates [] z (callsData cs).
Proof.
  intros HI Htot Hcs Hv Hst Hr Hstuck.
  destruct (stuck_delivers deflate lo hi s w st cs y Htot Hcs Hv Hst Hr Hstuck) as [Hc | (Hf & Hlog & w' & bufs & Ew & Ho & Hz)]; [by left | right].
  split; [done|]; split; [done|]; exists w', (mjoin bufs); split; [done|]; split; [done|].
  destruct (newFlateWriter_fresh lo hi s w st Hv Hst) as (Hbs & _ & _).
  destruct (specBlocks_ok (fs_BlockSize (cs_Flate s)) cs) as (E1 & E2 & _ & bl & b & E4 & Hfin & Hb); [unfold tailSize in Hbs; lia | done |].
  rewrite <- E1; rewrite E4 in *; by eapply (inflates_blocks _ inflates).
Qed.

(** ** The hypotheses can hold

    A compressor that marks every byte and the ends of blocks, and a client
    that writes, flushes, writes and closes. *)
Definition mark (final : bool) (p : bytes) : bytes := mjoin ((fun b => [2; b]) <$> p) ++ [if final then 1 else 0].
Fixpoint unmark (z : bytes) : option bytes :=
  match z with
  | [1] => Some []
  | 0 :: z => unmark z
  | 2 :: b :: z => (cons b) <$> unmark z
  | _ => None
  end.
Definition demoDeflate (level : Z) (p dict : bytes) (final : bool) : bytes + error := inl (mark final p).

Lemma unmark_block (final : bool) (p z r : bytes) : unmark ((if final then [1] else [0]) ++ z) = Some r -> unmark (mark final p ++ z) = Some (p ++ r).
Proof.
  intros E; induction p as [|b p IH]; [by destruct final|].
  change (mark final (b :: p) ++ z) with (2 :: b :: (mark final p ++ z)); cbn [unmark]; by rewrite IH.
Qed.

#[export] Instance demo_Inflates level : Inflates (demoDeflate level) (fun _ z p => unmark z = Some p).
Proof.
  split.
  - intros hist dict p z _ [= <-]; pose proof (unmark_block true p [] [] eq_refl) as E; by rewrite !app_nil_r in E.
  - intros hist dict p z z' p' _ [= <-] E; by apply unmark_block.
Qed.

Section Drive.
Context {W : Type} `{IoWriter W}.
Variable deflate : Z -> bytes -> bytes -> bool -> bytes + error.

(** The first of the goroutines that can take a step takes it. *)
Fixpoint tryThreads (ts : list thread) (y : system (W := W)) : option system :=
  match ts with
  | [] => None
  | t :: ts => match stepAt deflate t y with Some y' => Some y' | None => tryThreads ts y end
  end.
Fixpoint drive (fuel : nat) (ts : list thread) (y : system (W := W)) : system :=
  match fuel with
  | O => y
  | S fuel => match tryThreads ts y with Some y' => drive fuel ts y' | None => y end
  end.

Lemma tryThreads_step ts y y' : tryThreads ts y = Some y' -> step deflate y y'.
Proof.
  induction ts as [|t ts IH]; [done|]; cbn; destruct (stepAt deflate t y) eqn:E; [intros [= ->]; by exists t | done].
Qed.

Lemma drive_steps fuel ts y : rtc (step deflate) y (drive fuel ts y).
Proof.
  revert y; induction fuel as [|fuel IH]; intros y; cbn; [done|]; destruct (tryThreads ts y) eqn:E; [|done].
  eapply rtc_l; [by eapply tryThreads_step | apply IH].
Qed.

Lemma schedule_steps ts y y' : schedule deflate ts y = Some y' -> rtc (step deflate) y y'.
Proof.
  revert y; induction ts as [|t ts IH]; intros y; cbn; [by intros [= ->]|]; destruct (stepAt deflate t y) eqn:E; [|done].
  intros Hs; eapply rtc_l; [by exists t | by apply IH].
Qed.
End Drive.

(** Whether any goroutine can take a step. *)
Definition canStep {W} `{IoWriter W} deflate (y : system (W := W)) : bool :=
  match y_cur y with
  | None => match y_todo y with [] => false | _ => true end
  | Some (Done (Ok _)) => true
  | Some (Done _) => false
  | Some (Await f) => match f (y_st y) with [] => false | _ => true end
  end ||
  existsb (fun l => match listenerStep l (y_st y) with Some _ => true | None => false end) (seq 0 (length (st_listeners (y_st y)))) ||
  existsb (fun i => match jobStep deflate i (y_st y) with Some _ => true | None => false end) (seq 0 (length (st_jobs (y_st y)))).

Lemma canStep_false {W} `{IoWriter W} deflate (y y' : system (W := W)) : canStep deflate y = false -> ~ step deflate y y'.
Proof.
  unfold canStep; rewrite !orb_false_iff; intros [[Hc Hl] Hj] [[i|l|i] E]; unfold stepAt in E.
  - destruct (y_cur y) as [[[r|e| |]|f]|]; try done; [by destruct (f (y_st y))|by destruct (y_todo y)].
  - destruct (listenerStep l (y_st y)) as [s'|] eqn:Es; [|done].
    assert (Hlt : (l < length (st_listeners (y_st y)))%nat)
      by (unfold listenerStep in Es; destruct (st_listeners (y_st y) !! l) eqn:Ex; [by eapply lookup_lt_Some | done]).
    assert (existsb (fun l => match listenerStep l (y_st y) with Some _ => true | None => false end) (seq 0 (length (st_listeners (y_st y)))) = true); [|congruence].
    apply existsb_exists; exists l; rewrite in_seq, Es; split; [lia | done].
  - destruct (jobStep deflate i (y_st y)) as [s'|] eqn:Es; [|done].
    assert (Hlt : (i < length (st_jobs (y_st y)))%nat)
      by (unfold jobStep in Es; destruct (st_jobs (y_st y) !! i) eqn:Ex; [by eapply lookup_lt_Some | done]).
    assert (existsb (fun i => match jobStep deflate i (y_st y) with Some _ => true | None => false end) (seq 0 (length (st_jobs (y_st y)))) = true); [|congruence].
    apply existsb_exists; exists i; rewrite in_seq, Es; split; [lia | done].
Qed.

Definition demoSettings : CompressionSettings := mkCompressionSettings (mkFlateSettings 6 20000 2).
Definition demoCalls : list (call (W := buffer)) := [CWrite [7; 8]; CFlush; CWrite [9]].
Definition demoState : state buffer := Eval vm_compute in
  match newFlateWriter (-2) 9 demoSettings (mkBuffer [5]) with Ok (Some st) => st | _ => newState end.
Definition demoThreads : list thread := [TCaller 0; TListener 0; TJob 0; TJob 1; TJob 2].
Definition demoEnd : system (W := buffer) := Eval vm_compute in drive demoDeflate 200 demoThreads (runCalls demoState (demoCalls ++ [CClose])).

Lemma demo_run : rtc (step demoDeflate) (runCalls demoState (demoCalls ++ [CClose])) demoEnd.
Proof.
  replace demoEnd with (drive demoDeflate 200 demoThreads (runCalls demoState (demoCalls ++ [CClose]))) by (vm_compute; reflexivity).
  apply drive_steps.
Qed.

Lemma demo_stuck y' : ~ step demoDeflate demoEnd y'.
Proof.
  intros [[i|l|i] E]; [done | |]; unfold stepAt in E; cbn in E.
  - destruct l as [|l]; [done | by destruct l].
  - destruct i as [|[|i]]; [done | done | by destruct i].
Qed.

Lemma pflate_close_delivers_witness :
  mjoin (b_data <$> specBlocks 20000 demoCalls) = [7; 8; 9] /\ st_ws (y_st demoEnd) !! 0%nat = Some (mkBuffer [5; 2; 7; 2; 8; 0; 2; 9; 1]) /\
  exists bufs w', Forall2 (compressed (demoDeflate 6)) (specBlocks 20000 demoCalls) bufs /\ wrote (mkBuffer [5]) bufs w' /\ st_ws (y_st demoEnd) !! 0%nat = Some w'.
Proof.
  destruct (pflate_close_delivers demoDeflate (-2) 9 demoSettings (mkBuffer [5]) demoState demoCalls demoEnd) as (_ & E & _ & _ & D).
  - by repeat constructor.
  - reflexivity.
  - reflexivity.
  - apply demo_run.
  - by split.
  - reflexivity.
  - split; [exact E | split; [reflexivity | exact D]].
Defined.

Lemma pflate_completes_witness :
  y_log demoEnd = [RWrite 2 None; RErr None; RWrite 1 None; RErr None] /\
  exists w' z, st_ws (y_st demoEnd) !! 0%nat = Some w' /\ buf_data w' = [5] ++ z /\ unmark z = Some [7; 8; 9].
Proof.
  destruct (pflate_completes demoDeflate (fun _ z p => unmark z = Some p) (-2) 9 demoSettings (mkBuffer [5]) demoState demoCalls demoEnd) as [[Hc _] | (_ & E & D)].
  - apply demo_Inflates.
  - intros p dict final; by eexists.
  - by repeat constructor.
  - reflexivity.
  - reflexivity.
  - apply demo_run.
  - apply demo_stuck.
  - discriminate Hc.
  - split; [exact E | exact D].
Defined.

(** C37: the settings that [CompressionSettings.Validate] accepts are exactly
    those with a level that [NewWriter] accepts and a block size and number of
    blocks that [SetConcurrency] does not refuse. Of these, [newFlateWriter]
    makes a fresh writer with these settings, unless there are so many blocks
    (more than 2^44 - 6) that [make] panics, which [Validate] does not
    exclude. Of other settings it makes, without reporting an error, a writer
    with the default blocks when the level is accepted; when the level is not,
    it returns a nil writer, or panics on it if the blocks are acceptable. *)
Theorem settings_make_writer {W} `{IoWriter W} (s : CompressionSettings) (w : W) :
  let level := fs_Level (cs_Flate s) in
  let bs := fs_BlockSize (cs_Flate s) in
  let n := fs_Blocks (cs_Flate s) in
  (Validate s = Ok tt <-> exists st, NewWriter (-2) 9 w level = Ok st /\ forall e, (concurrency bs n st).1 <> Ok (Some e)) /\
  (Validate s = Ok tt ->
    if 2 ^ 44 - 6 <? n then newFlateWriter (-2) 9 s w = Panic
    else exists chans, newFlateWriter (-2) 9 s w = Ok (Some (freshState level bs n chans w))) /\
  (Validate s <> Ok tt ->
    if (level <? -2) || (9 <? level) then newFlateWriter (-2) 9 s w = if (bs <=? tailSize) || (n <=? 0) then Ok None else Panic
    else exists chans, newFlateWriter (-2) 9 s w = Ok (Some (freshState level defaultBlockSize defaultBlocks chans w))).
Proof.
  cbv zeta; set (level := fs_Level _); set (bs := fs_BlockSize _); set (n := fs_Blocks _); rewrite Validate_spec; fold level bs n; split; [|split].
  - split.
    + intros (Hl & Hbs & Hn); eexists; split; [by apply NewWriter_fresh|]; intros e; pose proof (concurrency_fresh bs n level w Hbs Hn) as Hc.
      destruct (makesResults n); [by destruct Hc as [chans ->] | by rewrite Hc].
    + intros (st & Hst & Hc).
      assert (Hl : -2 <= level <= 9).
      { destruct (decide (-2 <= level <= 9)) as [|Hl]; [done|]; destruct (NewWriter_refused (-2) 9 w level) as [e He]; [lia | congruence]. }
      split; [done|]; destruct (decide (tailSize < bs /\ 0 < n)) as [|Hr]; [done|].
      destruct (concurrency_refused bs n st) as [e He]; [lia | specialize (Hc e); by rewrite He in Hc].
  - intros (Hl & Hbs & Hn); unfold newFlateWriter; fold level bs n; rewrite NewWriter_fresh by done.
    pose proof (concurrency_fresh bs n level w Hbs Hn) as Hc.
    assert (Em : makesResults n = negb (2 ^ 44 - 6 <? n)).
    { unfold makesResults, maxAlloc; change (Z.shiftl 1 48) with (16 * 2 ^ 44).
      destruct (Z.leb_spec 0 n), (Z.leb_spec (16 * n) (16 * 2 ^ 44 - 96)), (Z.ltb_spec (2 ^ 44 - 6) n); first [done | lia]. }
    rewrite Em in Hc; destruct (2 ^ 44 - 6 <? n); cbn [negb] in Hc; [|destruct Hc as [chans ->]; by exists chans].
    destruct (concurrency _ _ _) as [o st1]; cbn in Hc; by subst o.
  - intros Hv; unfold newFlateWriter; fold level bs n.
    destruct (decide (-2 <= level <= 9)) as [Hl|Hl].
    + rewrite (proj2 (Z.ltb_ge level (-2))), (proj2 (Z.ltb_ge 9 level)) by lia; cbn [orb]; rewrite NewWriter_fresh by done.
      edestruct (concurrency_refused (W := W) bs n) as [e ->]; [lia | by exists [defaultChan]].
    + assert (El : (level <? -2) || (9 <? level) = true) by (destruct (Z.ltb_spec level (-2)), (Z.ltb_spec 9 level); first [done | lia]).
      rewrite El; destruct (NewWriter_refused (-2) 9 w level) as [e ->]; [lia | done].
Qed.

(** A number of blocks of which the channel cannot be made. *)
Definition hugeSettings : CompressionSettings := mkCompressionSettings (mkFlateSettings 6 20000 (2 ^ 62)).

Lemma settings_make_writer_witness :
  (exists st, NewWriter (-2) 9 (mkBuffer []) 6 = Ok st /\ forall e, (concurrency 20000 2 st).1 <> Ok (Some e)) /\
  (exists chans, newFlateWriter (-2) 9 demoSettings (mkBuffer []) = Ok (Some (freshState 6 20000 2 chans (mkBuffer [])))) /\
  Validate hugeSettings = Ok tt /\ newFlateWriter (-2) 9 hugeSettings (mkBuffer []) = Panic /\
  newFlateWriter (-2) 9 (mkCompressionSettings (mkFlateSettings 10 0 0)) (mkBuffer []) = Ok None.
Proof.
  destruct (settings_make_writer demoSettings (mkBuffer [])) as ([V _] & M & _); split; [by apply V|]; split; [by apply M|].
  destruct (settings_make_writer hugeSettings (mkBuffer [])) as (_ & P & _); split; [done|]; split; [by apply P|].
  destruct (settings_make_writer (mkCompressionSettings (mkFlateSettings 10 0 0)) (mkBuffer [])) as (_ & _ & N); by apply N.
Defined.
