(* ===== verification/PflateEnds.v ===== *)
(** * The calls of a parallel flate writer come to an end

    Whatever sequence of calls is made on a writer, resets and changes of the
    concurrency included: the goroutines take finitely many steps, and the
    loops of the methods end by their own conditions, never by the fuel of
    the model. Then what the settings of the zip package make of a writer. *)
From S2P Require Import Prelude GoInt GoIO ZipRegister PflateWriter PflateSpec PflateOrder PflateMethods PflateSystem PflateRuns.
Open Scope go_scope.

Section Ends.
Context {W : Type} `{IoWriter W}.
Variable deflate : Z -> bytes -> bytes -> bool -> bytes + error.
Abbreviation state := (state W).
Implicit Types s : state.

(** Blocks are longer than a tail. The caller may wait and panic anywhere. *)
Definition sized s : Prop := tailSize < z_blockSize (st_fields s).
Abbreviation ends := (wpc deflate sized (fun _ _ => True) (fun _ => True) True).

(** ** Steps *)

Lemma rely_fields s s' : rely deflate s s' -> st_fields s' = st_fields s.
Proof. intros Hr; apply (sd_fields 0 s), (rely_steady deflate); exact Hr. Qed.

Lemma rely_failed s s' : rely deflate s s' -> failed s -> failed s'.
Proof. intros Hr; apply (sd_failed 0 s), (rely_steady deflate); exact Hr. Qed.

Lemma rely_sized s s' : rely deflate s s' -> sized s -> sized s'.
Proof. intros Hr; unfold sized; by rewrite (rely_fields _ _ Hr). Qed.

(** An atomic step that keeps the block size, or panics. *)
Lemma ends_step {A} (Q : A -> state -> Prop) (f : state -> outcome A * state) s :
  (forall s', st_fields s' = st_fields s -> (failed s -> failed s') -> sized s' ->
     sized (f s').2 /\
     match (f s').1 with
     | Ok a => forall s3, st_fields s3 = st_fields (f s').2 -> (failed (f s').2 -> failed s3) -> Q a s3
     | Panic => True
     | _ => False
     end) ->
  ends Q (atomic f) s.
Proof.
  intros Hf; apply wpc_step; intros s' Hr I; destruct (Hf s' (rely_fields _ _ Hr) (rely_failed _ _ Hr) I) as [I' HQ].
  split; [done|]; split; [done|]; destruct (f s').1; try done; intros s3 Hr3 _; apply HQ; [by apply rely_fields | by apply rely_failed].
Qed.

Lemma ends_ret {A} (Q : A -> state -> Prop) a s : (forall s', st_fields s' = st_fields s -> (failed s -> failed s') -> Q a s') -> ends Q (cret a) s.
Proof. intros HQ; apply wpc_ret; intros s' Hr _; apply HQ; [by apply rely_fields | by apply rely_failed]. Qed.

Lemma ends_bind {A B} (Q : B -> state -> Prop) (P : A -> state -> Prop) (m : cmd state A) k s :
  sized s -> ends P m s -> (forall a s', sized s' -> P a s' -> ends Q (k a) s') -> ends Q (cbind m k) s.
Proof. intros I Hm Hk; apply wpc_bind; [|done]; by eapply wpc_mono. Qed.

Lemma ends_weaken {A} (Q : A -> state -> Prop) m s : ends Q m s -> ends (fun _ _ => True) m s.
Proof. intros Hm; by eapply wpc_mono. Qed.

Lemma checkError_ends s : ends (fun e s' => st_fields s' = st_fields s /\ (e = None -> ~ failed s)) checkError s.
Proof.
  apply ends_step; intros s' Ef Hf I; split; [done|]; intros s3 Ef3 _; cbn in Ef3; split; [congruence|].
  intros E F; apply Hf in F; unfold failed in F; cbn in E; congruence.
Qed.

Lemma getField_ends {A} (f : fields -> A) s : ends (fun _ s' => st_fields s' = st_fields s) (getField f) s.
Proof. apply ends_step; intros s' Ef Hf I; split; [done|]; intros s3 Ef3 _; cbn in Ef3; congruence. Qed.

Lemma start_ends s : ends (fun _ _ => True) start s.
Proof.
  apply ends_step; intros s' Ef Hf I; cbv beta zeta; destruct (z_started _); [by split|]; destruct (makesSlice _); by split.
Qed.

Lemma assign_ends f s : (forall z, z_blockSize (f z) = z_blockSize z) -> ends (fun _ _ => True) (assign f) s.
Proof. intros Hf; apply ends_step; intros s' Ef _ I; split; [|done]; unfold sized in *; cbn; by rewrite Hf. Qed.

Lemma closeResults_ends s : ends (fun _ _ => True) closeResults s.
Proof.
  apply ends_step; intros s' Ef Hf I; cbv beta zeta; destruct (st_chans s' !! _) as [[c q []]|]; by split.
Qed.

(** ** compressCurrent *)

(** What is buffered. *)
Definition current s : bytes := z_currentBuffer (st_fields s).

Lemma sendResult_ends s : ends (fun r s' => match r with Some _ => st_fields s' = st_fields s | None => failed s' end) sendResult s.
Proof.
  unfold sendResult; constructor; [done | |].
  - intros s' s'' m Hr I Hin; split; [|done]; apply elem_of_app in Hin as [Hin|Hin].
    + destruct (st_chans s' !! _) as [c|]; [|by apply not_elem_of_nil in Hin]; destruct (ch_closed c);
        [|destruct (_ <? _); [|by apply not_elem_of_nil in Hin]]; by apply list_elem_of_singleton in Hin as [= -> ->].
    + destruct (st_err s'); [|by apply not_elem_of_nil in Hin]; by apply list_elem_of_singleton in Hin as [= -> ->].
  - intros s' s'' m Hr I Hin; apply elem_of_app in Hin as [Hin|Hin].
    + destruct (st_chans s' !! _) as [c|]; [|by apply not_elem_of_nil in Hin]; destruct (ch_closed c);
        [|destruct (_ <? _); [|by apply not_elem_of_nil in Hin]]; apply list_elem_of_singleton in Hin as [= -> ->]; [by constructor|].
      apply ends_ret; intros s3 Ef _; rewrite Ef; cbn; by apply rely_fields.
    + destruct (st_err s') eqn:E; [|by apply not_elem_of_nil in Hin]; apply list_elem_of_singleton in Hin as [= -> ->].
      apply ends_ret; intros s3 _ Hf; apply Hf; unfold failed; by rewrite E.
Qed.

(** A block that is split leaves a shorter buffer, one that is not leaves none. *)
Lemma submit_ends r s : ends (fun (split : bool) s' => if split then (length (current s') < length (current s))%nat else current s' = []) (submit r) s.
Proof.
  apply ends_step; intros s' Ef Hf I; unfold sized, current, tailSize in *; cbv beta zeta; rewrite <- Ef.
  set (z := st_fields s') in *; destruct (Z.ltb_spec (z_blockSize z * 2) (len (z_currentBuffer z))) as [Hlt|Hle].
  - rewrite (proj2 (Z.ltb_ge (len (take _ _)) _)) by (unfold len in *; rewrite length_take; lia).
    split; [done|]; intros s3 Ef3 _; rewrite Ef3; cbn; rewrite length_drop; unfold len in Hlt; lia.
  - destruct (makesSlice _); (split; [done|]); [intros s3 Ef3 _; by rewrite Ef3 | done].
Qed.

Lemma waitWritten_ends r s : ends (fun _ s' => st_fields s' = st_fields s) (waitWritten r) s.
Proof.
  unfold waitWritten; constructor; [done | |]; intros s' s'' m Hr I Hin; (destruct (st_cells s' !! r) as [c|]; [|by apply not_elem_of_nil in Hin]);
    (destruct (c_notified c); [|by apply not_elem_of_nil in Hin]); apply list_elem_of_singleton in Hin as [= -> ->]; [done|].
  apply ends_ret; intros s3 Ef _; rewrite Ef; by apply rely_fields.
Qed.

(** Afterwards the buffer is empty or there is an error. *)
Lemma compressLoop_ends fuel flush s :
  sized s -> (length (current s) < fuel)%nat -> ends (fun _ s' => failed s' \/ current s' = []) (compressLoop fuel flush) s.
Proof.
  revert s; induction fuel as [|fuel IH]; intros s I Hf; [lia|]; cbn [compressLoop].
  eapply ends_bind; [done | apply sendResult_ends|]; intros [r|] s1 I1 E1.
  - eapply ends_bind; [done | apply submit_ends|]; intros split s2 I2 E2; cbn beta iota in E2; unfold current in *; rewrite E1 in E2.
    destruct split; [apply IH; [done | lia]|]; destruct flush.
    + eapply wpc_mono; [apply waitWritten_ends|]; intros u s3 I3 E3; right; by rewrite E3.
    + apply ends_ret; intros s3 E3 _; right; by rewrite E3.
  - apply ends_ret; intros s2 _ Hf2; left; by apply Hf2.
Qed.

Lemma compressCurrent_ends flush s : ends (fun _ s' => failed s' \/ current s' = []) (compressCurrent flush) s.
Proof.
  unfold compressCurrent; constructor; [done | |]; intros s' s'' m Hr I [= -> ->]%list_elem_of_singleton; [done|].
  apply (compressLoop_ends (S (length (current s'))) flush s'); [done | lia].
Qed.

(** ** The methods *)

(** The block is full. *)
Definition fullNow s : bool := z_blockSize (st_fields s) <=? len (current s).

Lemma fill_ends q s : q <> [] ->
  ends (fun r s' => sized s' /\ r.2 = fullNow s' /\ (1 <= r.1 <= len q \/ r.1 = 0 /\ fullNow s = true)) (fill q) s.
Proof.
  intros Hq; apply ends_step; intros s' Ef Hf I; unfold fullNow, current; rewrite <- Ef; cbv beta zeta; set (z := st_fields s') in *.
  assert (Hq1 : 1 <= len q) by (destruct q; [done | rewrite len_cons; pose proof (len_nonneg q); lia]).
  set (n := if z_blockSize z <? _ then _ else _); destruct (Z.ltb_spec n 0); [by split|]; split; [done|]; intros s3 Ef3 _.
  unfold sized; rewrite Ef3; cbn [st_fields setFields setBuffer z_blockSize z_currentBuffer fst snd]; split; [exact I|]; split; [done|].
  unfold n in *; destruct (Z.ltb_spec (z_blockSize z) (len q + len (z_currentBuffer z))); [|left; lia].
  destruct (Z.leb_spec (z_blockSize z) (len (z_currentBuffer z))); [right; split; [lia | done] | left; lia].
Qed.

Lemma grow_ends n s : ends (fun _ s' => fullNow s' = fullNow s) (grow n) s.
Proof. apply ends_step; intros s' Ef Hf I; split; [done|]; intros s3 Ef3 _; unfold fullNow, current; by rewrite Ef3, <- Ef. Qed.

(** The turns of the loop: one for every byte, and one to empty a full block. *)
Lemma writeLoop_ends fuel p q s :
  sized s -> (length q + (if fullNow s then 1 else 0) <= fuel)%nat -> ends (fun _ _ => True) (writeLoop fuel p q) s.
Proof.
  revert q s; induction fuel as [|fuel IH]; intros q s I Hf.
  - destruct q; [by apply ends_ret | cbn in Hf; lia].
  - destruct q as [|b q]; [by apply ends_ret|]; set (q0 := b :: q) in *; cbn [writeLoop]; fold q0.
    change (match q0 with [] => cret None | _ :: _ => ?e end) with e.
    eapply ends_bind; [done | by apply fill_ends|]; intros [n full] s1 I1 (_ & Ef & Hn); cbn [fst snd] in *.
    assert (Hmid : ends (fun e s' => e = None -> fullNow s' = false)
      (if full then let* _ := compressCurrent false in checkError else cret None) s1).
    { destruct full.
      - eapply ends_bind; [done | apply compressCurrent_ends|]; intros u s2 I2 Hs2.
        eapply wpc_mono; [apply checkError_ends|]; intros e s3 I3 [E3 Hnf] He; destruct Hs2 as [Hs2|Hs2]; [by destruct (Hnf He)|].
        unfold fullNow, current, sized, tailSize in *; rewrite E3, Hs2, len_nil in *; apply Z.leb_gt; lia.
      - apply ends_ret; intros s2 E2 _ _; unfold fullNow, current in *; by rewrite E2. }
    eapply ends_bind; [done | exact Hmid|]; intros [e|] s2 I2 Hs2; [by apply ends_ret|].
    eapply ends_bind; [done | apply grow_ends|]; intros u s3 I3 E3; apply IH; [done|]; rewrite E3, Hs2, length_drop by done.
    unfold len in Hn; destruct (fullNow s); lia.
Qed.

Lemma Write_ends p s : sized s -> ends (fun _ _ => True) (Write p) s.
Proof.
  intros I; unfold Write; eapply ends_bind; [done | apply checkError_ends|]; intros [e|] s1 I1 _; [by apply ends_ret|].
  eapply ends_bind; [done | apply start_ends|]; intros u s2 I2 _.
  eapply ends_bind; [done | apply writeLoop_ends; [done | destruct (fullNow s2); lia]|]; intros [[n e]|] s3 I3 _; [by apply ends_ret|].
  eapply ends_bind; [done | apply checkError_ends|]; intros e s4 I4 _; by apply ends_ret.
Qed.

Lemma ensureStarted_ends s : sized s -> ends (fun _ _ => True) ensureStarted s.
Proof.
  intros I; unfold ensureStarted; eapply ends_bind; [done | apply getField_ends|]; intros [] s1 I1 _; [by apply ends_ret|].
  eapply ends_bind; [done | by apply Write_ends|]; intros [n e] s2 I2 _; by apply ends_ret.
Qed.

Lemma Flush_ends s : sized s -> ends (fun _ _ => True) Flush s.
Proof.
  intros I; unfold Flush; eapply ends_bind; [done | apply checkError_ends|]; intros [e|] s1 I1 _; [by apply ends_ret|].
  eapply ends_bind; [done | apply getField_ends|]; intros [] s2 I2 _; [by apply ends_ret|].
  eapply ends_bind; [done | by apply ensureStarted_ends|]; intros [e|] s3 I3 _; [by apply ends_ret|].
  eapply ends_bind; [done | apply compressCurrent_ends|]; intros u s4 I4 _; eapply ends_weaken, checkError_ends.
Qed.

Lemma Close_ends s : sized s -> ends (fun _ _ => True) Close s.
Proof.
  intros I; unfold Close; eapply ends_bind; [done | apply checkError_ends|]; intros [e|] s1 I1 _; [by apply ends_ret|].
  eapply ends_bind; [done | apply getField_ends|]; intros [] s2 I2 _; [by apply ends_ret|].
  eapply ends_bind; [done | by apply assign_ends|]; intros u s3 I3 _.
  eapply ends_bind; [done | by apply ensureStarted_ends|]; intros [e|] s4 I4 _; [by apply ends_ret|].
  eapply ends_bind; [done | apply compressCurrent_ends|]; intros v s5 I5 _.
  eapply ends_bind; [done | apply checkError_ends|]; intros [e|] s6 I6 _; [by apply ends_ret|].
  eapply ends_bind; [done | apply closeResults_ends|]; intros v' s7 I7 _; by apply ends_ret.
Qed.

Lemma concurrency_sized bs n s : sized s -> sized (concurrency bs n s).2 /\ forall e, (concurrency bs n s).1 <> Err e /\ (concurrency bs n s).1 <> OutOfFuel.
Proof.
  intros I; unfold concurrency, makeResults; destruct (Z.leb_spec bs tailSize); [by split|]; destruct (n <=? 0); [by split|].
  destruct (_ && _); [by split|]; by destruct (makesResults n).
Qed.

Lemma SetConcurrency_ends bs n s : ends (fun _ _ => True) (SetConcurrency bs n) s.
Proof.
  apply ends_step; intros s' Ef Hf I; destruct (concurrency_sized bs n s' I) as [I' Ho]; split; [done|].
  destruct (concurrency bs n s').1; try done; [by destruct (Ho e) | by destruct (Ho EOF)].
Qed.

Lemma init_ends w level s : ends (fun _ _ => True) (init w level) s.
Proof.
  unfold init; constructor; [done | |]; intros s' s'' m Hr I Hin; (destruct (forallb _ _); [|by apply not_elem_of_nil in Hin]);
    unfold initFields, makeResults in Hin; destruct (makesResults _); apply list_elem_of_singleton in Hin as [= -> ->]; try done; by constructor.
Qed.

Lemma Reset_ends w s : sized s -> ends (fun _ _ => True) (Reset w) s.
Proof.
  intros I; unfold Reset; eapply ends_bind; [done | apply getField_ends|]; intros closed s1 I1 _.
  apply (ends_bind _ (fun _ _ => True)); [done | destruct closed; [by apply ends_ret | apply closeResults_ends]|]; intros u s2 I2 _.
  eapply ends_bind; [done | apply SetConcurrency_ends|]; intros e s3 I3 _.
  eapply ends_bind; [done | apply getField_ends|]; intros level s4 I4 _; apply init_ends.
Qed.

Lemma call_ends c s : sized s -> ends (fun _ _ => True) (callCode c) s.
Proof.
  intros I; destruct c; cbn [callCode]; (eapply ends_bind; [done|..|]).
  1: by apply Write_ends.
  2: by apply Flush_ends.
  3: by apply Close_ends.
  4: by apply Reset_ends.
  5: by apply SetConcurrency_ends.
  all: intros a s1 I1 _; try destruct a; by apply ends_ret.
Qed.

(** ** Whole runs *)

(** The call that is running will end, wait or panic. *)
Definition ending (y : system (W := W)) : Prop :=
  sized (y_st y) /\ forall m, y_cur y = Some m -> ends (fun _ _ => True) m (y_st y).

Lemma env_sized s s' : env deflate s s' -> sized s -> sized s'.
Proof. intros He; apply rely_sized; by apply rtc_once. Qed.

Lemma ending_step y y' : ending y -> step deflate y y' -> ending y'.
Proof.
  intros [I Hm] [t E]; destruct y as [s cur todo log]; cbn [y_st y_cur] in *.
  assert (Henv : forall s', env deflate s s' -> ending (mkSystem s' cur todo log)).
  { intros s' He; split; [by eapply env_sized|]; intros m Em; eapply wpc_rely; [by apply Hm | by apply rtc_once]. }
  destruct t as [i|l|i]; cbn in E.
  - destruct cur as [[[r|e| |]|f]|]; try done.
    + injection E as <-; by split.
    + destruct (f s !! i) as [[s' m']|] eqn:Ef; [|done]; injection E as <-; apply list_elem_of_lookup_2 in Ef.
      specialize (Hm _ eq_refl); inversion Hm as [| | f' s1 Hb Hi Hk]; subst; split; cbn; [by eapply Hi; [constructor | |]|].
      intros m [= <-]; by eapply Hk; [constructor | |].
    + destruct todo as [|c todo]; [done|]; injection E as <-; split; [done|]; intros m [= <-]; by apply call_ends.
  - destruct (listenerStep l s) as [s'|] eqn:Es; cbn in E; rewrite ?Es in E; [|done]; injection E as <-; apply Henv; right; by exists l.
  - destruct (jobStep deflate i s) as [s'|] eqn:Es; [|done]; injection E as <-; apply Henv; left; by exists i.
Qed.

Lemma ending_steps y y' : ending y -> rtc (step deflate) y y' -> ending y'.
Proof. intros Hy Hs; induction Hs as [|y y1 y' Hst _ IH]; [done | apply IH; by eapply ending_step]. Qed.

(** The call that is running waits for another goroutine. *)
Definition waits (y : system (W := W)) : Prop := exists f, y_cur y = Some (Await f) /\ f (y_st y) = [].

Lemma ending_done y o : ending y -> y_cur y = Some (Done o) -> o = Panic \/ exists r, o = Ok r.
Proof. intros [_ Hm] E; specialize (Hm _ E); inversion Hm; subst; [right; by eexists | by left]. Qed.

Lemma ending_stuck y : ending y -> (forall y', ~ step deflate y y') -> finished y \/ crashed y \/ waits y.
Proof.
  intros [I Hm] Hst; unfold finished, crashed, waits.
  assert (Hc : forall y', stepAt deflate (TCaller 0) y <> Some y') by (intros y' E; apply (Hst y'); by exists (TCaller 0)).
  destruct y as [s [m|] todo log]; cbn [y_st y_cur y_todo] in *.
  - right; specialize (Hm _ eq_refl); inversion Hm as [a s1 HQ | s1 Hp | f s1 Hb Hi Hk]; subst.
    + by destruct (Hc _ eq_refl).
    + by left.
    + right; exists f; split; [done|]; destruct (f s) as [|p ps] eqn:Ef; [done|].
      exfalso; eapply Hc; cbn; by rewrite Ef.
  - left; split; [done|]; destruct todo; [done|]; by destruct (Hc _ eq_refl).
Qed.

End Ends.

Lemma newFlateWriter_sized {W} lo hi s (w : W) st : newFlateWriter lo hi s w = Ok (Some st) -> sized st.
Proof.
  unfold newFlateWriter; destruct (decide (lo <= fs_Level (cs_Flate s) <= hi)) as [Hl|Hl].
  - rewrite NewWriter_fresh by done; set (st0 := freshState _ _ _ _ _).
    destruct (concurrency_sized (fs_BlockSize (cs_Flate s)) (fs_Blocks (cs_Flate s)) st0) as [I _]; [done|].
    destruct (concurrency _ _ _) as [[e| | |] st1]; try done; by intros [= <-].
  - destruct (NewWriter_refused lo hi w (fs_Level (cs_Flate s))) as [e ->]; [lia|]; by destruct (_ || _).
Qed.

(** ** Claims *)

(** C36: every call ends, waits for another goroutine or panics. Whatever the
    calls on a writer are (resets and changes of the concurrency included)
    and whatever the underlying writers and the compressor do: the
    goroutines can only take finitely many steps, the loops of the methods
    end by their own conditions (a call that has come to its end has
    returned or panicked, and has not used up the fuel of the model), and a
    run that cannot go on has finished, or its call has panicked or waits on
    a channel or the wait group. *)
Theorem pflate_terminates {W} `{IoWriter W} deflate lo hi s (w : W) st cs y :
  newFlateWriter lo hi s w = Ok (Some st) -> rtc (step deflate) (runCalls st cs) y ->
  Acc (fun y' y => step deflate y y') y /\
  (forall o, y_cur y = Some (Done o) -> o = Panic \/ exists r, o = Ok r) /\
  ((forall y', ~ step deflate y y') -> finished y \/ crashed y \/ waits y).
Proof.
  intros Hst Hr; assert (Hy : ending deflate y).
  { eapply ending_steps; [|exact Hr]; split; [by eapply newFlateWriter_sized | done]. }
  split; [|split; [intros o; by eapply ending_done | by apply ending_stuck]].
  destruct y as [s' [m|] t l]; [apply Acc_running | apply Acc_idle]; intros l' s2; apply Acc_idle.
Qed.

(** A block is left full when the blocks are made shorter, and then reset. *)
Definition shrinkCalls : list (call (W := buffer)) :=
  [CWrite (replicate (Z.to_nat 16385) 0); CSetConcurrency 16385 1; CWrite [1]; CSetConcurrency 20000 1; CReset (mkBuffer []); CClose].
Definition shrinkEnd : system (W := buffer) := drive demoDeflate 200 ([TCaller 0; TListener 1] ++ demoThreads) (runCalls demoState shrinkCalls).

Lemma pflate_terminates_witness : Acc (fun y' y => step demoDeflate y y') shrinkEnd /\ (finished shrinkEnd \/ crashed shrinkEnd \/ waits shrinkEnd).
Proof.
  destruct (pflate_terminates demoDeflate (-2) 9 demoSettings (mkBuffer [5]) demoState shrinkCalls shrinkEnd eq_refl (drive_steps _ _ _ _)) as (T & _ & F).
  split; [exact T | apply F]; intros y'; apply canStep_false; vm_compute; reflexivity.
Defined.
