(* ===== verification/PflateLate.v ===== *)
(** * Calls of a parallel flate writer after [Close]

    What the methods do on a writer that has been closed: the goroutines are
    done, the channel of results is closed, and neither [Write] nor its
    callers look at [z.closed]. *)
From S2P Require Import Prelude GoInt GoIO ZipRegister PflateWriter PflateSpec PflateOrder PflateMethods PflateClose PflateSystem PflateRuns PflateEnds.
Open Scope go_scope.

(** The calls that the caller may make on a closed writer. *)
Definition isLate {W} (c : call (W := W)) : bool := match c with CWrite _ | CFlush | CClose => true | _ => false end.

Lemma callsData_app {W} (es1 es2 : list (call (W := W))) : callsData (es1 ++ es2) = callsData es1 ++ callsData es2.
Proof. unfold callsData; by rewrite fmap_app, join_app. Qed.

Lemma callsData_snoc {W} (es : list (call (W := W))) c : callsData (es ++ [c]) = callsData es ++ callData c.
Proof. rewrite callsData_app; unfold callsData; cbn; by rewrite app_nil_r. Qed.

Section Late.
Context {W : Type} `{IoWriter W}.
Variable deflate : Z -> bytes -> bytes -> bool -> bytes + error.
Variables (level bs cap : Z) (ch : nat) (w0 : W).
Hypothesis Hbs : tailSize < bs.
Hypothesis Hcap : 0 < cap.
Abbreviation state := (state W).
Implicit Types s : state.

(** The blocks of the stream that has been closed. *)
Variable blocks : list block.

(** The stream is over, whatever has been put in the buffer since. *)
Record late s : Prop := {
  lt_inv : inv deflate level bs cap ch 0 w0 s;
  lt_over : exists x, over deflate level ch 0 w0 x s /\ sp_blocks x = blocks /\ sp_closed x = true;
  lt_started : z_started (st_fields s) = true
}.

Lemma rely_late s s' : rely deflate s s' -> late s -> late s'.
Proof.
  intros Hr [I (x & O & Hx) St]; split; [by eapply rely_inv | | by rewrite (rely_fields deflate _ _ Hr)].
  exists x; split; [by eapply rely_over | done].
Qed.

Lemma late_err s : late s -> st_err s = None.
Proof. intros [_ (x & [C _] & _) _]; apply C. Qed.

Lemma late_closed s : late s -> z_closed (st_fields s) = true.
Proof. intros [_ (x & [C _] & _ & <-) _]; by rewrite <- (cp_abs _ _ _ _ _ _ _ C). Qed.

Lemma late_blockSize s : late s -> z_blockSize (st_fields s) = bs.
Proof. intros L; apply (iv_static _ _ _ _ _ _ _ _ (lt_inv _ L)). Qed.

Lemma late_chan s : late s -> exists c, st_chans s !! z_results (st_fields s) = Some c /\ ch_closed c = true.
Proof.
  intros [I (x & [_ O] & _) _]; rewrite (sf_results _ _ _ _ _ (iv_static _ _ _ _ _ _ _ _ I)).
  unfold chanClosed in O; destruct (st_chans s !! ch) as [c|]; [|done]; exists c; split; [done | by injection O].
Qed.

(** Data that is put in the buffer stays there. *)
Lemma late_setFields z s : late s -> sameFields (st_fields s) z -> z_closed z = true -> late (setFields z s).
Proof.
  intros L Hz Hc; split.
  - by apply inv_setFields, Hz; apply L.
  - destruct (lt_over _ L) as (x & [[C1 C2 C3 C4 C5 C6] O] & Eb & Ec).
    exists (mkStream (sp_blocks x) (z_currentBuffer z) (z_prevTail z) true); split; [|done]; split; [|exact O]; split; try done.
    rewrite <- C1; unfold abs; cbn; by rewrite Hc.
  - destruct Hz as (_ & _ & _ & _ & E); cbn; rewrite E; apply L.
Qed.

Section Calls.
(** When the call panics. *)
Variable panics : Prop.
Abbreviation runs := (wpc deflate late (fun _ _ => True) (fun _ => False) panics).

Lemma late_step {A} (Q : A -> state -> Prop) (f : state -> outcome A * state) (a : A) (z : fields) s :
  (forall s', st_fields s' = st_fields s -> late s' -> f s' = (Ok a, setFields z s')) ->
  (late s -> sameFields (st_fields s) z /\ z_closed z = true) -> (forall s', st_fields s' = z -> Q a s') -> late s -> runs Q (atomic f) s.
Proof.
  intros Hf Hz HQ Ls; apply wpc_atomic; intros s' Hr L; pose proof (rely_fields deflate _ _ Hr) as Ef.
  exists a, (setFields z s'); split; [by apply Hf|]; split; [|split; [done|]].
  - destruct (Hz Ls); apply late_setFields; [done | by rewrite Ef | done].
  - intros s3 Hr3 _; apply HQ; by rewrite (rely_fields deflate _ _ Hr3).
Qed.

Lemma late_read {A} (Q : A -> state -> Prop) (f : state -> outcome A * state) (a : A) s :
  (forall s', st_fields s' = st_fields s -> late s' -> f s' = (Ok a, s')) -> (forall s', st_fields s' = st_fields s -> Q a s') -> late s -> runs Q (atomic f) s.
Proof.
  intros Hf HQ Ls; apply (late_step Q f a (st_fields s)); try done.
  - intros s' Ef L; rewrite (Hf s' Ef L), <- Ef; by destruct s'.
  - intros _; split; [done | by apply late_closed].
Qed.

Lemma late_ret {A} (Q : A -> state -> Prop) a s : (forall s', st_fields s' = st_fields s -> Q a s') -> runs Q (cret a) s.
Proof. intros HQ; apply wpc_ret; intros s' Hr _; apply HQ; by apply (rely_fields deflate). Qed.

Lemma late_bind {A B} (Q : B -> state -> Prop) (P : A -> state -> Prop) (m : cmd state A) k s :
  late s -> runs P m s -> (forall a s', late s' -> P a s' -> runs Q (k a) s') -> runs Q (cbind m k) s.
Proof. intros I Hm Hk; apply wpc_bind; [|done]; by eapply wpc_mono. Qed.

Lemma checkError_late s : late s -> runs (fun e s' => e = None /\ st_fields s' = st_fields s) checkError s.
Proof. intros L; apply (late_read _ _ None); [|done | done]; intros s' _ L'; by rewrite (late_err _ L'). Qed.

Lemma getClosed_late s : late s -> runs (fun c s' => c = true /\ st_fields s' = st_fields s) (getField z_closed) s.
Proof. intros L; apply (late_read _ _ true); [|done | done]; intros s' _ L'; by rewrite (late_closed _ L'). Qed.

Lemma start_late s : late s -> runs (fun _ s' => st_fields s' = st_fields s) start s.
Proof. intros L; apply (late_read _ _ tt); [|done | done]; intros s' _ L'; cbv beta zeta; by rewrite (lt_started _ L'). Qed.

(** Sending on the closed channel. *)
Lemma sendResult_late s : late s -> match sendResult with Await f => f s | Done _ => [] end = [(s, Done Panic)].
Proof. intros L; destruct (late_chan _ L) as (c & Hc & Hcl); cbn [sendResult]; cbv zeta; by rewrite Hc, Hcl, (late_err _ L). Qed.

Lemma compressLoop_late {A} (Q : A -> state -> Prop) fuel flush k s : panics -> late s -> runs Q (cbind (compressLoop (S fuel) flush) k) s.
Proof.
  intros Hp L; apply wpc_bind; [|done]; cbn [compressLoop]; apply wpc_bind; [|done]; pose proof sendResult_late as Hsend.
  destruct sendResult as [o|f]; [by specialize (Hsend s L)|]; constructor; [intros s' _ L' E; by rewrite Hsend in E | |];
    intros s' s'' m _ L'; rewrite Hsend by done; intros [= -> ->]%list_elem_of_singleton; [done | by constructor].
Qed.

Lemma compressCurrent_late {A} (Q : A -> state -> Prop) flush k s : panics -> late s -> runs Q (cbind (compressCurrent flush) k) s.
Proof.
  intros Hp L; unfold compressCurrent; cbn [cbind]; constructor; [done | |]; intros s1 s2 m Hr1 L1 ([s3 m3] & [= -> ->] & [= -> ->]%list_elem_of_singleton)%list_elem_of_fmap; [done|].
  by apply (compressLoop_late Q (length (current s1)) flush k s1).
Qed.

(** A write that does not fill the block only fills the buffer. *)
Lemma Write_late p s :
  late s -> len (current s) < bs -> (bs <= len (current s) + len p -> panics) ->
  runs (fun r s' => r = (len p, None) /\ current s' = current s ++ p /\ len (current s ++ p) < bs) (Write p) s.
Proof.
  intros L Hc Hp; unfold Write; eapply late_bind; [done | by apply checkError_late|]; intros e s1 L1 [-> E1].
  eapply late_bind; [done | by apply start_late|]; intros [] s2 L2 E2; rewrite E1 in E2.
  apply (late_bind _ (fun r s' => r = None /\ current s' = current s ++ p /\ len (current s ++ p) < bs)); [done | |].
  2: { intros r s3 L3 [-> E3]; eapply late_bind; [done | by apply checkError_late|]; intros e s4 L4 [-> E4]; apply late_ret; intros s5 E5.
       unfold current in *; by rewrite E5, E4. }
  destruct p as [|b p]; [apply late_ret; intros s3 E3; unfold current; rewrite E3, E2, app_nil_r; by split|].
  set (p0 := b :: p) in *; assert (Hp0 : 1 <= len p0) by (unfold p0; rewrite len_cons; pose proof (len_nonneg p); lia).
  set (n := Z.min (len p0) (bs - len (current s))); cbn [writeLoop]; fold p0.
  change (match p0 with [] => cret None | _ :: _ => ?e end) with e.
  apply (late_bind _ (fun r s' => r = (n, bs <=? len (current s ++ take (Z.to_nat n) p0)) /\ current s' = current s ++ take (Z.to_nat n) p0)); [done | |].
  { eapply (late_step _ _ _ (setBuffer (current s ++ take (Z.to_nat n) p0) (z_prevTail (st_fields s)) (st_fields s))); [| | |done].
    - intros s' Ef L'; cbv beta zeta; rewrite (late_blockSize _ L'), Ef, E2; fold (current s).
      assert (En : (if bs <? len p0 + len (current s) then bs - len (current s) else len p0) = n) by (unfold n; destruct (Z.ltb_spec bs (len p0 + len (current s))); lia).
      rewrite En, (proj2 (Z.ltb_ge n 0)) by lia; reflexivity.
    - intros _; split; [by rewrite E2|]; cbn; rewrite <- E2; by apply late_closed.
    - intros s' Ef; split; [done|]; unfold current at 1; by rewrite Ef. }
  intros r s3 L3 [-> E3]; cbn beta iota.
  destruct (Z.leb_spec bs (len (current s ++ take (Z.to_nat n) p0))) as [Hfull|Hroom]; rewrite len_app in *.
  - assert (Hp' : panics) by (apply Hp; unfold len in *; rewrite length_take in Hfull; lia).
    apply wpc_bind; [|done]; by apply compressCurrent_late.
  - assert (En : n = len p0) by (unfold n, len in *; rewrite length_take in Hroom; lia).
    assert (Et : take (Z.to_nat n) p0 = p0) by (rewrite En; apply take_ge; unfold len; lia); rewrite Et in *.
    apply (late_bind _ (fun e s' => e = None /\ st_fields s' = st_fields s3)); [done | by apply late_ret|]; intros e s4 L4 [-> E4].
    apply (late_bind _ (fun _ s' => current s' = current s ++ p0)); [done | |].
    + eapply (late_step _ _ _ (setSize (int64 (z_size (st_fields s3) + n)) (st_fields s3))); [| | |done].
      * intros s' Ef _; by rewrite Ef, E4.
      * intros _; split; [by rewrite E4|]; cbn; by apply late_closed.
      * intros s' Ef; unfold current in *; by rewrite Ef.
    + intros _ s5 L5 E5; rewrite drop_ge by (rewrite En; unfold len; lia).
      apply late_ret; intros s6 E6; unfold current in *; rewrite E6; by split.
Qed.

(** The other calls return at once. *)
Lemma call_late c s :
  isLate c -> late s -> len (current s) < bs -> (bs <= len (current s ++ callData c) -> panics) ->
  runs (fun r s' => r = okResult c /\ current s' = current s ++ callData c /\ len (current s ++ callData c) < bs) (callCode c) s.
Proof.
  intros Hc L Hs Hp; destruct c as [p| | |w|b n]; try done; cbn [callCode callData okResult] in *; rewrite ?app_nil_r in *.
  - rewrite len_app in Hp; eapply late_bind; [done | by apply Write_late|]; intros r s1 L1 (-> & E1); apply late_ret; intros s2 E2.
    unfold current in *; by rewrite E2.
  - apply (late_bind _ (fun e s' => e = None /\ current s' = current s)); [done | |].
    + unfold Flush; eapply late_bind; [done | by apply checkError_late|]; intros e s1 L1 [-> E1].
      eapply late_bind; [done | by apply getClosed_late|]; intros cl s2 L2 [-> E2]; apply late_ret; intros s3 E3.
      unfold current; by rewrite E3, E2, E1.
    + intros e s1 L1 [-> E1]; apply late_ret; intros s2 E2; unfold current in *; by rewrite E2.
  - apply (late_bind _ (fun e s' => e = None /\ current s' = current s)); [done | |].
    + unfold Close; eapply late_bind; [done | by apply checkError_late|]; intros e s1 L1 [-> E1].
      eapply late_bind; [done | by apply getClosed_late|]; intros cl s2 L2 [-> E2]; apply late_ret; intros s3 E3.
      unfold current; by rewrite E3, E2, E1.
    + intros e s1 L1 [-> E1]; apply late_ret; intros s2 E2; unfold current in *; by rewrite E2.
Qed.
End Calls.
End Late.

(** ** Whole runs *)

(** A run with more calls to come. *)
Definition extend {W} (es : list (call (W := W))) (y : system (W := W)) : system := mkSystem (y_st y) (y_cur y) (y_todo y ++ es) (y_log y).

Section Extend.
Context {W : Type} `{IoWriter W}.
Variable deflate : Z -> bytes -> bytes -> bool -> bytes + error.

Lemma extend_step es (y y' : system (W := W)) : step deflate y y' -> step deflate (extend es y) (extend es y').
Proof.
  intros [t E]; exists t; destruct y as [s cur todo log]; unfold stepAt, extend in *; cbn [y_st y_cur y_todo y_log] in *.
  destruct t as [i|l|i].
  - destruct cur as [[[r|e| |]|f]|]; try done; [by injection E as <- | by destruct (f s !! i); [injection E as <-|] | by destruct todo; [|injection E as <-]].
  - by destruct (listenerStep l s); [injection E as <-|].
  - by destruct (jobStep deflate i s); [injection E as <-|].
Qed.

(** A step of it is one of the run, unless that has finished. *)
Lemma step_extend es (y y' : system (W := W)) : step deflate (extend es y) y' -> ~ finished y -> exists y1, y' = extend es y1 /\ step deflate y y1.
Proof.
  intros [t E] Hf; destruct y as [s cur todo log]; unfold stepAt, extend in E; cbn [y_st y_cur y_todo y_log] in E; destruct t as [i|l|i].
  - destruct cur as [[[r|e| |]|f]|]; try done.
    + injection E as <-; eexists; split; [|by exists (TCaller i)]; done.
    + destruct (f s !! i) as [p|] eqn:Ef; [|done]; injection E as <-; exists (mkSystem p.1 (Some p.2) todo log); split; [done|].
      exists (TCaller i); cbn; by rewrite Ef.
    + destruct todo as [|c todo]; [by destruct Hf|]; injection E as <-; exists (mkSystem s (Some (callCode c)) todo log); split; [done|]; by exists (TCaller i).
  - destruct (listenerStep l s) as [s'|] eqn:Es; [|done]; injection E as <-; exists (mkSystem s' cur todo log); split; [done|].
    exists (TListener l); unfold stepAt; cbn [y_st]; by rewrite Es.
  - destruct (jobStep deflate i s) as [s'|] eqn:Es; [|done]; injection E as <-; exists (mkSystem s' cur todo log); split; [done|].
    exists (TJob i); unfold stepAt; cbn [y_st]; by rewrite Es.
Qed.
End Extend.

Section LateRuns.
Context {W : Type} `{IoWriter W}.
Variable deflate : Z -> bytes -> bytes -> bool -> bytes + error.
Variables (level bs cap : Z) (ch : nat) (w0 : W).
Hypothesis Hbs : tailSize < bs.
Hypothesis Hcap : 0 < cap.
Variables cs es : list (call (W := W)).
Hypothesis Hes : Forall isLate es.
Abbreviation late := (late deflate level bs cap ch w0 (specBlocks bs cs)).
Abbreviation logged := (fun es1 : list (call (W := W)) => okResult <$> (cs ++ CClose :: es1)).

Inductive lateRun : system (W := W) -> Prop :=
  | late_idle es1 es2 s : es = es1 ++ es2 -> late s -> current s = callsData es1 -> len (callsData es1) < bs ->
      lateRun (mkSystem s None es2 (logged es1))
  | late_call es1 c es2 s m : es = es1 ++ c :: es2 -> late s -> len (callsData es1) < bs ->
      wpc deflate late (fun _ _ => True) (fun _ => False) (bs <= len (callsData (es1 ++ [c])))
        (fun r s' => r = okResult c /\ current s' = callsData (es1 ++ [c]) /\ len (callsData (es1 ++ [c])) < bs) m s ->
      lateRun (mkSystem s (Some m) es2 (logged es1)).

Lemma lateRun_late y : lateRun y -> late (y_st y).
Proof. by destruct 1. Qed.

Lemma lateRun_env s s' cur todo log : env deflate s s' -> lateRun (mkSystem s cur todo log) -> lateRun (mkSystem s' cur todo log).
Proof.
  intros He; assert (Hr : rely deflate s s') by by apply rtc_once.
  inversion 1 as [es1 es2 s1 Ee L Hc Hl | es1 c es2 s1 m Ee L Hl Hm]; subst; pose proof (rely_late _ _ _ _ _ _ _ _ _ Hr L) as L'.
  - apply late_idle; try done; unfold current in *; by rewrite (rely_fields deflate _ _ Hr).
  - apply (late_call _ c); try done; by eapply wpc_rely.
Qed.

Lemma lateRun_step y y' : lateRun y -> step deflate y y' -> lateRun y'.
Proof.
  intros Hy [t E]; destruct t as [i|l|i]; [|destruct y as [s cur todo log]..].
  2:{ unfold stepAt in E; destruct (listenerStep l s) as [s'|] eqn:Es; cbn in E; rewrite Es in E; [|done]; injection E as <-.
      eapply lateRun_env; [|exact Hy]; right; by exists l. }
  2:{ unfold stepAt in E; cbn in E; destruct (jobStep deflate i s) as [s'|] eqn:Es; [|done]; injection E as <-.
      eapply lateRun_env; [|exact Hy]; left; by exists i. }
  destruct Hy as [es1 es2 s Ee L Hc Hl | es1 c es2 s m Ee L Hl Hm]; cbn in E.
  - destruct es2 as [|c es2]; [done|]; injection E as <-; apply (late_call es1 c es2); try done.
    rewrite callsData_snoc; rewrite <- Hc in *; apply call_late; try done.
    rewrite Ee in Hes; by apply Forall_app in Hes as [_ [? _]%Forall_cons].
  - inversion Hm as [r s1 HQ | s1 Hp | f s1 Hb Hi Hk]; subst; [| done |].
    + injection E as <-; destruct (HQ s ltac:(constructor) L) as (-> & Hc & Hl').
      replace (logged es1 ++ [okResult c]) with (logged (es1 ++ [c])) by (rewrite (fmap_app _ cs), app_comm_cons, !fmap_app, <- app_assoc; done).
      apply late_idle; [by rewrite <- app_assoc | done..].
    + destruct (f s !! i) as [[s' m']|] eqn:Ef; [|done]; injection E as <-; apply list_elem_of_lookup_2 in Ef; cbn.
      apply (late_call es1 c es2); try done; [by eapply Hi; [constructor | |] | by eapply Hk; [constructor | |]].
Qed.

(** How it ends. *)
Lemma lateRun_stuck y : lateRun y -> (forall y', ~ step deflate y y') ->
  len (callsData es) < bs /\ finished y /\ y_log y = logged es \/
  crashed y /\ exists es1 c es2, es = es1 ++ c :: es2 /\ len (callsData es1) < bs <= len (callsData (es1 ++ [c])) /\ y_log y = logged es1.
Proof.
  intros Hy Hst; assert (Hc : forall y', stepAt deflate (TCaller 0) y <> Some y') by (intros y' E; apply (Hst y'); by exists (TCaller 0)).
  destruct Hy as [es1 es2 s Ee L Ec Hl | es1 c es2 s m Ee L Hl Hm].
  - destruct es2 as [|c es2]; [|by destruct (Hc _ eq_refl)]; rewrite app_nil_r in Ee; subst; by left.
  - right; inversion Hm as [r s1 HQ | s1 Hp | f s1 Hb Hi Hk]; subst.
    + by destruct (Hc _ eq_refl).
    + split; [done|]; by exists es1, c, es2.
    + exfalso; destruct (f s) as [|p ps] eqn:Ef; [by apply (Hb s); [constructor | |]|]; eapply Hc; cbn; by rewrite Ef.
Qed.

(** It starts where the closing call has returned. *)
Lemma finished_late y : running deflate level bs cap ch w0 cs y -> calm (y_st y) -> finished y -> lateRun (extend es y).
Proof.
  intros Hy [C _] [Hn Ht]; destruct Hy as [dn rest s log Ec I Hs | | | s log r I Hc]; try done; [by destruct rest|].
  cbn in C; destruct r as [|[e|]]; [done | cbn in Hc; unfold failed in Hc; by rewrite C in Hc|]; destruct Hc as [O ->].
  unfold extend; cbn [y_st y_cur y_todo y_log app].
  replace ((okResult <$> cs) ++ [RErr None]) with (logged []) by (by rewrite fmap_app).
  apply late_idle; [done | | | unfold callsData; cbn; rewrite len_nil; unfold tailSize in Hbs; lia].
  - split; [done | by eexists |]; destruct O as [CO _]; destruct (iv_run _ _ _ _ _ _ _ _ I) as (q & cl & Hch & Hl).
    destruct (cp_listener _ _ _ _ _ _ _ CO) as [E|E]; rewrite E in Hl; by inversion Hl.
  - destruct O as [CO _]; change (current s) with (sp_cur (abs s)); by rewrite (cp_abs _ _ _ _ _ _ _ CO).
Qed.
(** The calls before the [Close] and it, then the later ones. *)
Hypothesis Hcs : Forall isData cs.
Hypothesis sink : forall (w : W) b, exists w', io_write w b = (len b, None, w').
Hypothesis total : forall p dict final, exists z, deflate level p dict final = inl z.

Definition wholeRun (y : system (W := W)) : Prop :=
  (exists y0, y = extend es y0 /\ running deflate level bs cap ch w0 cs y0 /\ calm (y_st y0)) \/ lateRun y.

Lemma finished_dec (y : system (W := W)) : finished y \/ ~ finished y.
Proof. unfold finished; destruct (y_cur y), (y_todo y); [right; by intros [? ?].. | by left | right; by intros [? ?]]. Qed.

Lemma wholeRun_step y y' : wholeRun y -> step deflate y y' -> wholeRun y'.
Proof.
  intros Hy Hs; assert (Hl : lateRun y -> wholeRun y') by (intros L; right; by eapply lateRun_step).
  destruct Hy as [(y0 & -> & R & C) | L]; [|by apply Hl].
  destruct (finished_dec y0) as [Hf|Hf]; [by apply Hl, finished_late|].
  destruct (step_extend deflate es y0 y' Hs Hf) as (y1 & -> & Hs1); left; exists y1; split; [done|].
  split; [by eapply running_step | by eapply calm_step].
Qed.

Lemma wholeRun_steps y y' : wholeRun y -> rtc (step deflate) y y' -> wholeRun y'.
Proof. intros Hy Hs; induction Hs as [|y y1 y' Hst _ IH]; [done | apply IH; by eapply wholeRun_step]. Qed.

Lemma wholeRun_stuck y : roomy bs = true -> wholeRun y -> (forall y', ~ step deflate y y') -> lateRun y.
Proof.
  intros Hroom [(y0 & -> & R & C) | L] Hst; [|done]; destruct (finished_dec y0) as [Hf|Hf]; [by apply finished_late|].
  destruct (running_stuck _ _ _ _ _ _ _ sink _ R C) as [[Hf' _] | [_ Hr]]; [|done | congruence].
  intros y' Hs; eapply Hst; by apply extend_step.
Qed.
End LateRuns.

(** ** Claims *)

(** C40: writes after [Close] are not refused. On a writer that accepts
    everything and with a compressor that does not fail: after any writes
    and flushes and a [Close], whatever calls of [Write], [Flush] and [Close]
    follow, the output holds the blocks of the data in front of the [Close]
    and nothing else. As long as the later writes do not fill a block, they
    and the later flushes and closes report success and the data is lost; the
    write that fills the block panics (it sends on the closed channel). *)
Theorem pflate_write_after_close {W} `{IoSink W} deflate lo hi s (w : W) st cs es y :
  let bs := fs_BlockSize (cs_Flate s) in
  (forall p dict final, exists z, deflate (fs_Level (cs_Flate s)) p dict final = inl z) ->
  Forall isData cs -> Forall isLate es -> Validate s = Ok tt -> roomy bs = true -> newFlateWriter lo hi s w = Ok (Some st) ->
  rtc (step deflate) (runCalls st (cs ++ CClose :: es)) y -> (forall y', ~ step deflate y y') ->
  (exists w' bufs, st_ws (y_st y) !! 0%nat = Some w' /\ io_out w' = io_out w ++ mjoin bufs /\
    Forall2 (compressed (deflate (fs_Level (cs_Flate s)))) (specBlocks bs cs) bufs) /\
  (len (callsData es) < bs /\ finished y /\ y_log y = okResult <$> (cs ++ CClose :: es) \/
   crashed y /\ exists es1 c es2, es = es1 ++ c :: es2 /\ len (callsData es1) < bs <= len (callsData (es1 ++ [c])) /\
     y_log y = okResult <$> (cs ++ CClose :: es1)).
Proof.
  intros bs Htot Hcs Hes Hv Hroom Hst Hr Hstuck.
  destruct (fresh_calm deflate lo hi s w st cs (runCalls st (cs ++ [CClose])) Htot Hcs Hv Hst) as (Hbs & Hn & ch & R0 & C0); [constructor|].
  assert (L : lateRun deflate (fs_Level (cs_Flate s)) bs (fs_Blocks (cs_Flate s)) ch w cs es y).
  { apply wholeRun_stuck; try done; [by intros; apply io_write_total|]; eapply wholeRun_steps; try done; [by intros; apply io_write_total|]; left.
    exists (runCalls st (cs ++ [CClose])); split; [unfold extend, runCalls; cbn; by rewrite <- app_assoc | done]. }
  split; [|by eapply lateRun_stuck].
  destruct (lt_over _ _ _ _ _ _ _ _ (lateRun_late _ _ _ _ _ _ _ _ _ L)) as (x & [O _] & Eb & _).
  destruct (cp_delivered _ _ _ _ _ _ _ O) as (bufs & w' & Hb & Hw & Ew); rewrite Eb in Hb.
  exists w', bufs; split; [done|]; split; [by apply wrote_sink | done].
Qed.

(** A small write is lost, a block panics. *)
Definition lostEnd : system (W := buffer) := drive demoDeflate 200 demoThreads (runCalls demoState ([CWrite [7]] ++ CClose :: [CWrite [1; 2]; CFlush; CClose])).
Definition lateBlock : bytes := replicate (Z.to_nat 20000) 0.
Definition lateEnd : system (W := buffer) := drive demoDeflate 200 demoThreads (runCalls demoState ([CWrite [7]] ++ CClose :: [CWrite lateBlock])).

Lemma late_stuck : (forall y', ~ step demoDeflate lostEnd y') /\ (forall y', ~ step demoDeflate lateEnd y').
Proof. split; intros y'; apply canStep_false; vm_compute; reflexivity. Qed.

Lemma late_ends : y_cur lostEnd = None /\ y_cur lateEnd <> None /\ st_ws (y_st lostEnd) = [mkBuffer [5; 2; 7; 1]].
Proof. split; [vm_compute; reflexivity|]; split; [vm_compute; discriminate | vm_compute; reflexivity]. Qed.

Lemma pflate_write_after_close_witness :
  (finished lostEnd /\ st_ws (y_st lostEnd) = [mkBuffer [5; 2; 7; 1]]) /\ crashed lateEnd.
Proof.
  pose proof late_stuck as [S1 S2]; pose proof late_ends as (E1 & E2 & E3); split; [split; [|exact E3]|].
  - destruct (pflate_write_after_close demoDeflate (-2) 9 demoSettings (mkBuffer [5]) demoState [CWrite [7]] [CWrite [1; 2]; CFlush; CClose] lostEnd)
      as [_ [(_ & F & _) | [C _]]]; [intros; by eexists | by repeat constructor.. | reflexivity | reflexivity | reflexivity | apply drive_steps | exact S1 | exact F |].
    unfold crashed in C; congruence.
  - destruct (pflate_write_after_close demoDeflate (-2) 9 demoSettings (mkBuffer [5]) demoState [CWrite [7]] [CWrite lateBlock] lateEnd)
      as [_ [(_ & [F _] & _) | [C _]]]; [intros; by eexists | by repeat constructor.. | reflexivity | reflexivity | reflexivity | apply drive_steps | exact S2 | by destruct (E2 F) | exact C].
Defined.
