(* ===== verification/PflateFaults.v ===== *)
(** * Where the parallel flate writer goes wrong

    Runs that the code allows and its documentation excludes: a [Flush] that
    never returns, and blocks of a stream that reach the writer of the next
    one. Each is a schedule of the goroutines. *)
From S2P Require Import Prelude GoInt GoIO ZipRegister PflateWriter PflateSpec PflateOrder PflateMethods PflateClose PflateSystem PflateRuns.
Open Scope go_scope.

(** A writer that fails, as a full disk does; [fd_bytes] is what it accepts. *)
Record fullDisk := mkFullDisk { fd_room : Z; fd_bytes : bytes }.
Definition errNoSpace : error := ErrMsg "no space left on device".
#[export] Instance fullDisk_IoWriter : IoWriter fullDisk := fun w b =>
  let n := Z.min (len b) (fd_room w) in
  (n, if n <? len b then Some errNoSpace else None, mkFullDisk (fd_room w - n) (fd_bytes w ++ take (Z.to_nat n) b)).

(** The call that is running has not returned. *)
Definition waiting {W} (y : system (W := W)) : bool := match y_cur y with Some (Await _) => true | _ => false end.

Lemma waiting_unfinished {W} (y : system (W := W)) : waiting y = true -> ~ finished y /\ ~ crashed y.
Proof. unfold waiting, finished, crashed; intros E; split; [intros [Hn _]; rewrite Hn in E | intros Hc; rewrite Hc in E]; discriminate. Qed.

(** Small blocks, one in the queue; a writer of the zip package. *)
Definition smallSettings : CompressionSettings := mkCompressionSettings (mkFlateSettings 6 16385 1).
Definition freshWriter {W} (w : W) : state W :=
  match newFlateWriter (-2) 9 smallSettings w with Ok (Some st) => st | _ => newState end.

(** A full block. *)
Definition fullBlock : bytes := replicate (Z.to_nat 16385) 0.

Section Ends.
Context {W : Type} `{IoWriter W}.

(** Where a schedule and then any order of the goroutines lead. *)
Definition endOf (ts order : list thread) (w : W) (cs : list (call (W := W))) : system :=
  match schedule demoDeflate ts (runCalls (freshWriter w) cs) with
  | Some y => drive demoDeflate 200 order y
  | None => runCalls (freshWriter w) cs
  end.

Lemma endOf_steps ts order w cs : rtc (step demoDeflate) (runCalls (freshWriter w) cs) (endOf ts order w cs).
Proof.
  unfold endOf; destruct (schedule _ _ _) eqn:E; [|done]; etrans; [by eapply schedule_steps | apply drive_steps].
Qed.
End Ends.

(** ** Claims *)

(** C38: [Flush] can wait for ever. When the underlying writer fails on a
    block while another one is queued behind it, the listener returns and
    nobody passes on or releases the second one: the error is pending, no
    goroutine can take a step, and the call does not return, although the
    documentation promises the error. *)
Theorem pflate_flush_deadlock :
  exists y, rtc (step demoDeflate) (runCalls (freshWriter (mkFullDisk 0 [])) [CWrite fullBlock; CFlush]) y /\
    (forall y', ~ step demoDeflate y y') /\ ~ finished y /\ ~ crashed y /\
    y_log y = [RWrite 16385 None] /\ st_err (y_st y) = Some errNoSpace.
Proof.
  exists (endOf [] demoThreads (mkFullDisk 0 []) [CWrite fullBlock; CFlush]); split; [apply endOf_steps|]; split.
  { intros y'; apply canStep_false; vm_compute; reflexivity. }
  split; [|split; [|split]].
  - apply waiting_unfinished; vm_compute; reflexivity.
  - apply waiting_unfinished; vm_compute; reflexivity.
  - vm_compute; reflexivity.
  - vm_compute; reflexivity.
Qed.

(** C39: [Reset] does not wait for the listener. A block that is queued when
    [Reset] is called can be written to the new underlying writer: the stream
    of the next file then starts with data of the last one, and no error is
    reported. *)
Theorem pflate_reset_leaks :
  exists y, rtc (step demoDeflate) (runCalls (freshWriter (mkBuffer [])) [CWrite fullBlock; CReset (mkBuffer [])]) y /\
    finished y /\ y_log y = [RWrite 16385 None; RErr None] /\
    st_ws (y_st y) = [mkBuffer []; mkBuffer (mark false fullBlock)].
Proof.
  exists (endOf (replicate 4 (TCaller 0) ++ [TListener 0]) [TCaller 0; TJob 0; TListener 0] (mkBuffer []) [CWrite fullBlock; CReset (mkBuffer [])]); split; [apply endOf_steps|].
  split; [split; vm_compute; reflexivity | split; [vm_compute; reflexivity|]].
  vm_cast_no_check (eq_refl [mkBuffer []; mkBuffer (mark false fullBlock)]).
Qed.
