(* ===== verification/ZipFlate.v ===== *)
(** * Deflated files: the zip writer over the parallel flate writer

    The compressor that package zip registers for [Deflate] is
    [newFlateWriter]. [seqFlate] is the sequential form of it that fits the
    [Compressor] interface of the zip writer: it cuts the same blocks and
    emits them at once. It keeps the promise of [CompressorOk], and every run
    of the parallel writer emits the same bytes. *)
From S2P Require Import Prelude GoInt GoString GoTime GoDate GoIO GoPath GoBufio PflateWriter PflateSpec PflateSystem PflateRuns PflateFaults.
From S2P Require Import ZipStruct ZipNames ZipBuf ZipReader ZipOpen ZipRegister ZipWriter ZipArchive ZipDirectory ZipContents ZipSink ZipRoundtrip.
Open Scope go_scope.

(** ** The sequential compressor *)

(** The flate package, the level, the block size and the stream so far. *)
Record seqFlate := mkSeq {
  sq_deflate : Z -> bytes -> bytes -> bool -> bytes + error;
  sq_level : Z;
  sq_blockSize : Z;
  sq_stream : stream
}.

(** Compress blocks and write them. *)
Fixpoint emit {U} (wr : writeMethod U) (deflate : bytes -> bytes -> bool -> bytes + error) (bl : list block) : M U (option error) :=
  match bl with
  | [] => ret None
  | b :: bl =>
      match deflate (b_data b) (b_dict b) (b_final b) with
      | inr e => ret (Some e)
      | inl z =>
          let! (n, err) := wr z in
          match err with
          | Some e => ret (Some e)
          | None => if negb (n =? len z) then ret (Some (ErrMsg "gzip: short write %d should be %d")) else emit wr deflate bl
          end
      end
  end.

(** The stream goes on as [x]: the blocks that are new are emitted. *)
Definition advance {U} (wr : writeMethod U) (k : seqFlate) (x : stream) : M U (option error * seqFlate) :=
  let! err := emit wr (sq_deflate k (sq_level k)) (drop (length (sp_blocks (sq_stream k))) (sp_blocks x)) in
  ret (err, mkSeq (sq_deflate k) (sq_level k) (sq_blockSize k) x).

#[export] Instance seqFlate_Compressing : Compressing seqFlate := {|
  comp_write := fun U wr k p =>
    let! (err, k) := advance wr k (specWrite (sq_blockSize k) (length p) p (sq_stream k)) in ret (len p, err, k);
  comp_close := fun U wr k => advance wr k (cut (finish (sq_stream k)))
|}.

Definition flateCompressor (deflate : Z -> bytes -> bytes -> bool -> bytes + error) : Compressor seqFlate := fun U wr s =>
  ret (inl (External (mkSeq deflate (fs_Level (cs_Flate s)) (fs_BlockSize (cs_Flate s)) emptyStream))).

(** ** What it emits on a sink *)
Section Emit.
Variable deflate : Z -> bytes -> bytes -> bool -> bytes + error.
Hypothesis deflate_total : forall level p dict final, exists z, deflate level p dict final = inl z.

Lemma specWrite_blocks bs fuel q x : exists new, sp_blocks (specWrite bs fuel q x) = sp_blocks x ++ new.
Proof.
  revert q x; induction fuel as [|fuel IH]; intros q x; [exists []; rewrite app_nil_r; by destruct q|].
  destruct q as [|b q]; [exists []; by rewrite app_nil_r|]; cbn [specWrite].
  match goal with |- exists new, sp_blocks (specWrite _ _ ?q' ?x') = _ => destruct (IH q' x') as [new ->] end.
  destruct (bs <=? _); cbn [cut append sp_blocks]; [|by exists new].
  eexists; by rewrite <- app_assoc.
Qed.

Lemma emit_sink {U} (wr : writeMethod U) good `{!SinkMethod wr good} level bl o u : good o u ->
  exists bufs u', emit wr (deflate level) bl u = (Ok None, u') /\ good (o ++ mjoin bufs) u' /\ Forall2 (compressed (deflate level)) bl bufs.
Proof.
  revert o u; induction bl as [|b bl IH]; intros o u Hg; cbn [emit].
  - exists [], u; cbn; rewrite app_nil_r; split; [done|]; split; [done | constructor].
  - destruct (deflate_total level (b_data b) (b_dict b) (b_final b)) as [z Hz]; rewrite Hz.
    destruct (wr_sink o u z Hg) as (u1 & E & Hg1); rewrite (bind_ok _ _ _ _ _ E), Z.eqb_refl; cbn [negb].
    destruct (IH _ _ Hg1) as (bufs & u2 & E2 & Hg2 & Hb); exists (z :: bufs), u2; split; [done|].
    split; [by rewrite <- app_assoc in Hg2 | by constructor].
Qed.

Lemma advance_sink {U} (wr : writeMethod U) good `{!SinkMethod wr good} level bs x y new o u :
  sp_blocks y = sp_blocks x ++ new -> good o u ->
  exists bufs u', advance wr (mkSeq deflate level bs x) y u = (Ok (None, mkSeq deflate level bs y), u') /\ good (o ++ mjoin bufs) u' /\
    Forall2 (compressed (deflate level)) new bufs.
Proof.
  intros E Hg; unfold advance; cbn [sq_deflate sq_level sq_blockSize sq_stream]; rewrite E, drop_app_length.
  destruct (emit_sink wr good level new o u Hg) as (bufs & u' & E2 & Hg2 & Hb); exists bufs, u'; by rewrite (bind_ok _ _ _ _ _ E2).
Qed.

Lemma write_sink {U} (wr : writeMethod U) good `{!SinkMethod wr good} level bs x p o u : good o u ->
  let y := specWrite bs (length p) p x in
  exists new bufs u', wcWrite wr (External (mkSeq deflate level bs x)) p u = (Ok (len p, None, External (mkSeq deflate level bs y)), u') /\
    good (o ++ mjoin bufs) u' /\ sp_blocks y = sp_blocks x ++ new /\ Forall2 (compressed (deflate level)) new bufs.
Proof.
  intros Hg y; destruct (specWrite_blocks bs (length p) p x) as [new E].
  destruct (advance_sink wr good level bs x y new o u E Hg) as (bufs & u' & E2 & Hg2 & Hb); exists new, bufs, u'; split; [|done].
  unfold wcWrite; cbn [comp_write seqFlate_Compressing sq_blockSize sq_stream]; rewrite (bind_ok _ _ u _ _ (bind_ok _ _ _ _ _ E2)); done.
Qed.

Lemma close_sink {U} (wr : writeMethod U) good `{!SinkMethod wr good} level bs x o u : good o u ->
  let y := cut (finish x) in
  exists new bufs u', wcClose wr (External (mkSeq deflate level bs x)) u = (Ok (None, External (mkSeq deflate level bs y)), u') /\
    good (o ++ mjoin bufs) u' /\ sp_blocks y = sp_blocks x ++ new /\ Forall2 (compressed (deflate level)) new bufs.
Proof.
  intros Hg y; assert (E : sp_blocks y = sp_blocks x ++ [mkBlock (sp_cur x) (sp_tail x) true]) by done.
  destruct (advance_sink wr good level bs x y _ o u E Hg) as (bufs & u' & E2 & Hg2 & Hb); eexists _, bufs, u'; split; [|done].
  unfold wcClose; cbn [comp_close seqFlate_Compressing sq_stream]; by rewrite (bind_ok _ _ _ _ _ E2).
Qed.

(** ** The promise to the zip writer *)
Variable inflates : bytes -> bytes -> bytes -> Prop.
Context `{!forall level, Inflates (deflate level) inflates}.

(** The compressor has emitted [z] for [plain], but for the data in its buffer. *)
Definition seqInv (c : writeCloser seqFlate) (plain z : bytes) : Prop :=
  exists level bs x bufs, c = External (mkSeq deflate level bs x) /\ 0 < bs /\ streamOk bs x /\ streamData x = plain /\
    Forall2 (compressed (deflate level)) (sp_blocks x) bufs /\ z = mjoin bufs.

#[export] Instance flate_CompressorOk : CompressorOk (flateCompressor deflate) (inflates []).
Proof.
  unshelve econstructor; [exact seqInv | | |].
  - intros U wr good Hw s o u Hv Hg; eexists; split; [done|]; do 4 eexists; split; [done|].
    assert (0 < fs_BlockSize (cs_Flate s)).
    { unfold Validate, FlateValidate in Hv; repeat case_match; try done; lia. }
    split; [done|]; split; [by apply emptyStream_ok|]; split; [done|]; split; [constructor | done].
  - intros U wr good Hw c plain z p o u (level & bs & x & bufs & -> & Hbs & Hx & <- & Hb & ->) Hg.
    destruct (write_sink wr good level bs x p o u Hg) as (new & bufs' & u' & E & Hg' & En & Hn).
    destruct (specWrite_ok bs (length p) p x) as [Hx' Ex']; [done..|].
    do 3 eexists; split; [exact E|]; split; [exact Hg'|]; exists level, bs, (specWrite bs (length p) p x), (bufs ++ bufs').
    rewrite En, join_app; split_and!; try done; by apply Forall2_app.
  - intros U wr good Hw c plain z o u (level & bs & x & bufs & -> & Hbs & Hx & <- & Hb & ->) Hg.
    destruct (close_sink wr good level bs x o u Hg) as (new & bufs' & u' & E & Hg' & En & Hn).
    do 3 eexists; split; [exact E|]; split; [exact Hg'|]; rewrite <- join_app.
    destruct (finish_blocks bs x) as (Ed & Hd & bl & b & Eb & Hf & Hl); [done..|]; rewrite <- Ed.
    assert (Hall : Forall2 (compressed (deflate level)) (bl ++ [b]) (bufs ++ bufs')) by (rewrite <- Eb, En; by apply Forall2_app).
    rewrite Eb in *; by eapply (inflates_blocks _ inflates).
Defined.
End Emit.

(** ** Runs of the parallel writer *)

(** An [io.Writer] as a write method. *)
Definition sinkWrite {W} `{IoWriter W} : writeMethod W := fun p w => let '(n, err, w) := io_write w p in (Ok (n, err), w).

#[export] Instance sinkWrite_sink {W} `{IoSink W} : SinkMethod sinkWrite (fun o (w : W) => io_out w = o).
Proof. intros o w p <-; unfold sinkWrite; destruct (io_write_sink w p) as (w' & -> & Ho); by exists w'. Qed.

(** What the zip writer does with a compressor: write after write, then
    close; the results. *)
Fixpoint compressWrites {K} `{Compressing K} {U} (wr : writeMethod U) (c : writeCloser K) (chunks : list bytes) :
    M U (list (Z * option error) * writeCloser K) :=
  match chunks with
  | [] => ret ([], c)
  | p :: chunks =>
      let! (n, err, c) := wcWrite wr c p in
      let! (rs, c) := compressWrites wr c chunks in
      ret ((n, err) :: rs, c)
  end.
Definition compressChunks {K} `{Compressing K} {U} (comp : Compressor K) (wr : writeMethod U) (s : CompressionSettings) (chunks : list bytes) :
    M U (list (Z * option error) * option error) :=
  let! c := comp U wr s in
  match c with
  | inr e => throw e
  | inl c =>
      let! (rs, c) := compressWrites wr c chunks in
      let! (err, c) := wcClose wr c in
      ret (rs, err)
  end.

Section Chunks.
Variable deflate : Z -> bytes -> bytes -> bool -> bytes + error.
Hypothesis deflate_total : forall level p dict final, exists z, deflate level p dict final = inl z.
Context {U : Type} (wr : writeMethod U) (good : bytes -> U -> Prop) `{!SinkMethod wr good}.

Lemma compressWrites_sink {W} level bs chunks x o u : good o u ->
  let y := specCalls bs (CWrite (W := W) <$> chunks) x in
  exists new bufs u', compressWrites wr (External (mkSeq deflate level bs x)) chunks u =
      (Ok ((fun p => (len p, None)) <$> chunks, External (mkSeq deflate level bs y)), u') /\
    good (o ++ mjoin bufs) u' /\ sp_blocks y = sp_blocks x ++ new /\ Forall2 (compressed (deflate level)) new bufs.
Proof.
  revert x o u; induction chunks as [|p chunks IH]; intros x o u Hg y; cbn [compressWrites fmap list_fmap].
  - exists [], [], u; cbn; rewrite !app_nil_r; split_and!; try done; constructor.
  - destruct (write_sink deflate deflate_total wr good level bs x p o u Hg) as (new & bufs & u1 & E & Hg1 & En & Hn).
    rewrite (bind_ok _ _ _ _ _ E).
    destruct (IH (specWrite bs (length p) p x) _ _ Hg1) as (new' & bufs' & u2 & E2 & Hg2 & En2 & Hn2).
    rewrite (bind_ok _ _ _ _ _ E2); exists (new ++ new'), (bufs ++ bufs'), u2; split; [done|].
    rewrite join_app, app_assoc; split; [done|]; split; [|by apply Forall2_app].
    change (sp_blocks y) with (sp_blocks (specCalls bs (CWrite (W := W) <$> chunks) (specWrite bs (length p) p x))).
    rewrite En2, En; by rewrite app_assoc.
Qed.

Lemma compressChunks_sink {W} s chunks o u : good o u ->
  exists bufs u', compressChunks (flateCompressor deflate) wr s chunks u = (Ok ((fun p => (len p, None)) <$> chunks, None), u') /\
    good (o ++ mjoin bufs) u' /\
    Forall2 (compressed (deflate (fs_Level (cs_Flate s)))) (specBlocks (fs_BlockSize (cs_Flate s)) (CWrite (W := W) <$> chunks)) bufs.
Proof.
  intros Hg; unfold compressChunks, flateCompressor; unfold bind at 1, ret at 1.
  set (level := fs_Level _); set (bs := fs_BlockSize _).
  destruct (compressWrites_sink (W := W) level bs chunks emptyStream o u Hg) as (new & bufs & u1 & E & Hg1 & En & Hn); rewrite (bind_ok _ _ _ _ _ E).
  destruct (close_sink deflate deflate_total wr good level bs (specCalls bs (CWrite (W := W) <$> chunks) emptyStream) _ _ Hg1)
    as (new' & bufs' & u2 & E2 & Hg2 & En2 & Hn2).
  rewrite (bind_ok _ _ _ _ _ E2); exists (bufs ++ bufs'), u2; split; [done|]; rewrite join_app, app_assoc; split; [done|].
  unfold specBlocks; rewrite En2, En; by apply Forall2_app.
Qed.
End Chunks.

Lemma compressed_fun deflate bl z1 z2 : Forall2 (compressed deflate) bl z1 -> Forall2 (compressed deflate) bl z2 -> z1 = z2.
Proof.
  intros H1; revert z2; induction H1 as [|b z bl z1 Hz _ IH]; intros z2 H2; inversion H2 as [|? z' ? z2' Hz' Hr]; subst; [done|].
  unfold compressed in *; rewrite Hz in Hz'; injection Hz' as ->; f_equal; by apply IH.
Qed.

(** ** Claims *)

(** C9: the parallel writer refines the sequential compressor. Whatever is
    written and however the goroutines are interleaved, a run that cannot go
    on has finished with the results, and has appended the bytes, of the
    sequential compressor on the same writer; or it has panicked, the block
    size being so huge that its buffers cannot be made. *)
Theorem pflate_refines_sequential {W} `{IoSink W} deflate lo hi s (w : W) st chunks y :
  (forall level p dict final, exists z, deflate level p dict final = inl z) ->
  Validate s = Ok tt -> newFlateWriter lo hi s w = Ok (Some st) ->
  rtc (PflateWriter.step deflate) (runCalls st ((CWrite <$> chunks) ++ [CClose])) y -> (forall y', ~ PflateWriter.step deflate y y') ->
  crashed y /\ roomy (fs_BlockSize (cs_Flate s)) = false \/
  finished y /\
  exists rs w1 w2, compressChunks (flateCompressor deflate) sinkWrite s chunks w = (Ok (rs, None), w1) /\
    y_log y = (uncurry RWrite <$> rs) ++ [RErr None] /\ st_ws (y_st y) !! 0%nat = Some w2 /\ io_out w2 = io_out w1.
Proof.
  intros Ht Hv Hst Hr Hstuck; set (cs := CWrite <$> chunks) in *.
  destruct (stuck_delivers deflate lo hi s w st cs y) as [Hc | (Hf & Hlog & w2 & bufs & Ew & Ho & Hb)]; try done; [by apply Forall_fmap, Forall_forall | by left | right].
  split; [done|]; destruct (compressChunks_sink deflate Ht sinkWrite _ (W := W) s chunks (io_out w) w eq_refl) as (bufs' & w1 & E & Ho' & Hb').
  exists ((fun p => (len p, None)) <$> chunks), w1, w2; split; [done|]; split; [|split; [done|]].
  - rewrite Hlog; unfold cs; rewrite fmap_app, <- !list_fmap_compose; done.
  - rewrite Ho, Ho'; by rewrite (compressed_fun _ _ _ _ Hb Hb').
Qed.

(** The registries of the package, with [init]'s two methods. *)
Section Registries.
Context {R X : Type} `{ReaderAtData R} `{IoReader X} `{IoCloser X}.
Context (deflate : Z -> bytes -> bytes -> bool -> bytes + error) (inflates : bytes -> bytes -> bytes -> Prop).
Context (dcomp : Decompressor R X).

Definition compressors : gmap Z (Compressor seqFlate) := initRegistry storeCompressor (flateCompressor deflate).
Definition decompressors : gmap Z (Decompressor R X) := initRegistry storeDecompressor dcomp.

(** How a method stores contents. *)
Definition methodCodec (m : Z) (z p : bytes) : Prop := if m =? Deflate then inflates [] z p else z = p.

Lemma registry_lookup {A} (store flate : A) m x : initRegistry store flate !! m = Some x -> x = if m =? Deflate then flate else store.
Proof.
  unfold initRegistry; destruct (Z.eqb_spec m Deflate) as [->|N]; [rewrite lookup_insert_eq; by intros [= <-]|].
  rewrite lookup_insert_ne by done; intros [[_ <-] | [_ Hx]]%lookup_insert_Some; [done | by rewrite lookup_empty in Hx].
Qed.

Lemma registry_methods {A B} (store flate : A) (store' flate' : B) m :
  is_Some (initRegistry store flate !! m) -> is_Some (initRegistry store' flate' !! m).
Proof. unfold initRegistry; rewrite !lookup_insert_is_Some'; rewrite !lookup_empty; by intros [?|[?|[? ?]]]; [left | right; left |]. Qed.
End Registries.

(** C10: deflated archives. An archive that the writer writes into any sink
    with the two registered methods, deflating with the sequential form of
    [newFlateWriter], is opened by the reader behind any data, and every file
    is listed and read back, by any decompressor that delivers what the
    stream inflates to. The flate package is only asked to emit, for every
    block and dictionary, what an inflater understands behind data that ends
    in the dictionary. *)
Theorem zip_flate_roundtrip {W R X} `{IoSink W} `{ReaderAtData R} `{IoReader X} `{IoCloser X}
    localOffset deflate inflates (dcomp : Decompressor R X) db cp sj base cmt (es : list zipEntry) xss (w0 : W) (fuel : nat) :
  (forall level, Inflates (deflate level) inflates) ->
  (forall level p dict final, exists z, deflate level p dict final = inl z) ->
  DecompressorOk dcomp (inflates []) ->
  0 <= base < 2 ^ 63 -> len cmt < 2 ^ 16 -> Forall2 (writable (compressors deflate)) es xss ->
  Forall (fun e => len (mjoin e.2) < 2 ^ 63) es ->
  exists w' out, writeZip localOffset (compressors deflate) base cmt es (NewWriter w0) = (Ok tt, w') /\
    io_out (bfw_wr (ct_w (zw_cw w'))) = io_out w0 ++ out /\
    forall (r : R) pre, ra_data r = pre ++ out -> len (ra_data r) < 2 ^ 63 -> endsPlain (ra_data r) cmt = true ->
      base = len pre \/ base = 0 /\ len out < uint32max /\ len es < uint16max ->
      len (ra_data r) < Z.of_nat fuel -> (46 <= fuel)%nat ->
      exists z, NewReader db cp sj fuel r (len (ra_data r)) = Ok z /\ r_Comment z = cmt /\
        Forall2 (fun e f => listed localOffset e f /\ readable (decompressors dcomp) fuel z e f) es (r_File z).
Proof.
  intros HI Ht HD Hbase Hcmt Hes Hd.
  apply (writeZip_reads localOffset _ _ (methodCodec inflates) db cp sj base cmt es xss w0 fuel); try done.
  - intros m comp ->%registry_lookup; unfold methodCodec; destruct (m =? Deflate); [by apply flate_CompressorOk | apply store_CompressorOk].
  - intros m dc ->%registry_lookup; unfold methodCodec; destruct (m =? Deflate); [done | apply store_DecompressorOk].
  - apply Forall_forall; intros e He; rewrite Forall_forall in Hd; split; [|by apply Hd].
    apply list_elem_of_lookup in He as [i Hi]; destruct (Forall2_lookup_l _ _ _ _ _ Hes Hi) as (xs & _ & _ & Hm).
    by eapply registry_methods.
Qed.

(** ** The hypotheses can hold *)
Definition demoChunks : list bytes := [[7; 8]; [9]].
Definition demoRun : list (call (W := buffer)) := (CWrite <$> demoChunks) ++ [CClose].

Lemma demo_total level p dict final : exists z, demoDeflate level p dict final = inl z.
Proof. by eexists. Qed.

Lemma pflate_refines_sequential_witness :
  let y := drive demoDeflate 200 demoThreads (runCalls demoState demoRun) in
  st_ws (y_st y) !! 0%nat = Some (mkBuffer [5; 2; 7; 2; 8; 2; 9; 1]) /\
  exists rs w1 w2, compressChunks (flateCompressor demoDeflate) sinkWrite demoSettings demoChunks (mkBuffer [5]) = (Ok (rs, None), w1) /\
    y_log y = (uncurry RWrite <$> rs) ++ [RErr None] /\ st_ws (y_st y) !! 0%nat = Some w2 /\ buf_data w2 = buf_data w1.
Proof.
  intros y; split; [vm_compute; reflexivity|].
  destruct (pflate_refines_sequential demoDeflate (-2) 9 demoSettings (mkBuffer [5]) demoState demoChunks y demo_total) as [[_ Hr] | [_ E]];
    [reflexivity | reflexivity | apply drive_steps | intros y'; apply canStep_false; vm_compute; reflexivity | discriminate Hr | exact E].
Defined.

(** A decompressor that inflates the whole section first. *)
Record unmarked := mkUnmarked { um_rest : bytes }.
#[local] Instance unmarked_IoReader : IoReader unmarked := {|
  io_read := fun x n => match um_rest x with
                        | [] => ([], Some EOF, x)
                        | rest => (take (Z.to_nat n) rest, None, mkUnmarked (drop (Z.to_nat n) rest))
                        end;
  io_seek := None |}.
#[local] Instance unmarked_IoCloser : IoCloser unmarked := fun x => (None, x).
Definition unmarkDecompressor : Decompressor bytesReader unmarked := fun s _ =>
  Decomp (mkUnmarked (match (ReadAll ioRead (S (length (ra_data (sec_r s)))) s).1 with
                      | Ok (z, _) => default [] (unmark z)
                      | _ => []
                      end)).

#[local] Instance unmark_DecompressorOk : DecompressorOk unmarkDecompressor (fun z p => unmark z = Some p).
Proof.
  unshelve econstructor; [exact (fun out rc => rc = Decomp (mkUnmarked out)) | |].
  - intros out rc n -> Hn; unfold ioRead; cbn [io_read rc_IoReader rcRead unmarked_IoReader um_rest]; destruct out as [|b out].
    + do 3 eexists; split; [reflexivity|]; split; [rewrite len_nil; lia | by right].
    + set (l := b :: out) in *; do 3 eexists; split; [reflexivity|]; split; [unfold len; rewrite length_take; lia|]; left; split; [done|].
      split; [|exists (drop (Z.to_nat n) l); by rewrite take_drop].
      assert (Hk : exists k, Z.to_nat n = S k) by (exists (Nat.pred (Z.to_nat n)); lia); destruct Hk as [k ->]; done.
  - intros z p s f E Hs; unfold unmarkDecompressor.
    assert (Hl : (length z < S (length (ra_data (sec_r s))))%nat).
    { destruct Hs as (_ & _ & ->); unfold slice; rewrite length_take, length_drop; lia. }
    destruct (ReadAll_spec ioRead sectionInv _ z s Hs Hl) as (s' & -> & _); cbn [fst]; by rewrite E.
Defined.

Lemma zip_flate_roundtrip_witness :
  exists w' out, writeZip (fun _ => 0) (compressors demoDeflate) 3 [99] demoEntries (NewWriter (mkBuffer [])) = (Ok tt, w') /\
    buf_data (bfw_wr (ct_w (zw_cw w'))) = out /\
    exists z, NewReader none none none 600 (mkBytesReader (demoPre ++ out)) (len (demoPre ++ out)) = Ok z /\ r_Comment z = [99] /\
      Forall2 (fun e f => listed (fun _ => 0) e f /\ readable (decompressors unmarkDecompressor) 600 z e f) demoEntries (r_File z).
Proof.
  set (b := buf_data (bfw_wr (ct_w (zw_cw (writeZip (fun _ => 0) (compressors demoDeflate) 3 [99] demoEntries (NewWriter (mkBuffer []))).2)))).
  destruct (zip_flate_roundtrip (fun _ => 0) demoDeflate (fun _ z p => unmark z = Some p) unmarkDecompressor none none none 3 [99] demoEntries
    [[(0xcafe, [1; 2])]; []] (mkBuffer []) 600) as (w' & out & E & Ho & Rd).
  - intros level; apply demo_Inflates.
  - apply demo_total.
  - apply unmark_DecompressorOk.
  - done.
  - done.
  - repeat constructor; try (by vm_compute); try (by eexists); cbn [fst snd]; try (unfold in_uint; lia).
    apply (bool_decide_eq_true_1 _); by vm_compute.
  - repeat constructor.
  - assert (Eb : out = b) by (unfold b; by rewrite E).
    assert (Hp : endsPlain (demoPre ++ b) [99] = true) by (by vm_compute).
    assert (Hl : (len (demoPre ++ b) <? 600) = true) by (by vm_compute).
    clearbody b; subst b; exists w', out; split; [done|]; split; [done|]; apply Z.ltb_lt in Hl.
    apply (Rd (mkBytesReader (demoPre ++ out)) demoPre); [reflexivity | cbn [ra_data bytesReader_data br_data]; lia | exact Hp | by left | exact Hl |].
    apply Nat.leb_le; by vm_compute.
Defined.
